(** * ai-custdev-cli: the resilience core, embedded and verified

    A shallow embedding of the retrying completion client
    (core/LlmClient), the JSON-from-prose extractor (utils/json), the
    interview session runner and batch scheduler (stages/2-simulate),
    the analysis fallback cascade (stages/3-analyze) and the fallback
    model list (utils/fallback-models).

    Conventions of the embedding.
    - A JavaScript string is the list of its UTF-16 code units
      ([jsstring], a [list N]); literals are written as Rocq strings and
      decoded from UTF-8 by [js].
    - The own properties of an object made from a literal are a finite
      map ([gmap]).  A read of a name that is no own property finds
      what [Object.prototype] holds under it, and an assignment to
      [__proto__] creates no property; both are modelled where the code
      reads or writes under a name that comes from its input.
    - Asynchronous, effectful code is written in a small monad over an
      explicit [World]: the completion backend answers the n-th request,
      and the world records every request posted, every sleep, every
      progress tick and every line logged (its level and message; the
      time stamp the logger puts before it is left out).  The files the
      stages read and write are fields of the world. *)

From Stdlib Require Import ZArith NArith List Lia Bool String Ascii.
From stdpp Require Import base option list gmap.
Import ListNotations.

#[local] Set Warnings "-register-all,-clear-no-such-hyp".

#[local] Open Scope N_scope.

(** ** JavaScript strings *)

Module JS.

Abbreviation jsstring := (list N).

(** UTF-8 bytes of a source literal to UTF-16 code units (the literals of
    this development stay inside the Basic Multilingual Plane). *)
Fixpoint utf8_decode (bs : list N) : jsstring :=
  match bs with
  | [] => []
  | b0 :: r0 =>
      if b0 <? 128 then b0 :: utf8_decode r0
      else if b0 <? 224 then
        match r0 with
        | b1 :: r1 => ((b0 mod 32) * 64 + b1 mod 64) :: utf8_decode r1
        | [] => []
        end
      else
        match r0 with
        | b1 :: b2 :: r2 =>
            ((b0 mod 16) * 4096 + (b1 mod 64) * 64 + b2 mod 64) :: utf8_decode r2
        | _ => []
        end
  end.

Definition js (s : string) : jsstring :=
  utf8_decode (map N_of_ascii (list_ascii_of_string s)).

(** The double quote and the backslash cannot be typed inside a literal. *)
Definition dquote : N := 34.
Definition backslash : N := 92.
Definition dq : jsstring := [dquote].

(** [\s] of a regular expression, which is also what [trim] strips:
    WhiteSpace and LineTerminator code points. *)
Definition isWhiteSpace (c : N) : bool :=
  (c =? 9) || (c =? 10) || (c =? 11) || (c =? 12) || (c =? 13) || (c =? 32)
  || (c =? 160) || (c =? 5760) || ((8192 <=? c) && (c <=? 8202))
  || (c =? 8232) || (c =? 8233) || (c =? 8239) || (c =? 8287)
  || (c =? 12288) || (c =? 65279).

(** [.] of a regular expression without the s flag. *)
Definition isLineTerminator (c : N) : bool :=
  (c =? 10) || (c =? 13) || (c =? 8232) || (c =? 8233).

Fixpoint trimStart (s : jsstring) : jsstring :=
  match s with
  | c :: r => if isWhiteSpace c then trimStart r else s
  | [] => []
  end.

Definition trimEnd (s : jsstring) : jsstring := rev (trimStart (rev s)).

Definition trim (s : jsstring) : jsstring := trimEnd (trimStart s).

Definition eqb (a b : jsstring) : bool := bool_decide (a = b).

(** A string is truthy when it is not empty. *)
Definition truthy (s : jsstring) : bool :=
  match s with [] => false | _ => true end.

Fixpoint startsWith (p s : jsstring) : bool :=
  match p, s with
  | [], _ => true
  | a :: p', b :: s' => (a =? b) && startsWith p' s'
  | _ :: _, [] => false
  end.

Definition endsWith (p s : jsstring) : bool := startsWith (rev p) (rev s).

Fixpoint includes (p s : jsstring) : bool :=
  startsWith p s || match s with [] => false | _ :: r => includes p r end.

(** [s.slice(from, to)] for [0 <= from] and [0 <= to]. *)
Definition slice (from to : nat) (s : jsstring) : jsstring :=
  take (to - from) (drop from s).

(** [parts.join(sep)]. *)
Fixpoint join (sep : jsstring) (parts : list jsstring) : jsstring :=
  match parts with
  | [] => []
  | [p] => p
  | p :: rest => p ++ sep ++ join sep rest
  end.

(** Upper and lower case of the ASCII letters, every other code unit
    unchanged. *)
Definition asciiUpper (c : N) : N :=
  if (97 <=? c) && (c <=? 122) then c - 32 else c.

Definition asciiLower (c : N) : N :=
  if (65 <=? c) && (c <=? 90) then c + 32 else c.

(** Decimal digits of a natural number, most significant first; [fuel]
    bounds the number of digits. *)
Fixpoint digitsOf (fuel : nat) (n : N) : jsstring :=
  match fuel with
  | O => []
  | S f => (if n <? 10 then [] else digitsOf f (n / 10)) ++ [48 + n mod 10]
  end.

Definition String_N (n : N) : jsstring := digitsOf (S (N.to_nat (N.log2 n))) n.

(** [String(z)] for an integer. *)
Definition String_Z (z : Z) : jsstring :=
  match z with
  | Zneg p => 45 :: String_N (Npos p)
  | _ => String_N (Z.to_N z)
  end.

(** *** Objects made from a literal *)

(** The names of the properties of [Object.prototype] (V8): eleven
    methods and the accessor [__proto__]. *)
Definition inheritedNames : list jsstring :=
  [ js "constructor"; js "__defineGetter__"; js "__defineSetter__";
    js "hasOwnProperty"; js "__lookupGetter__"; js "__lookupSetter__";
    js "isPrototypeOf"; js "propertyIsEnumerable"; js "toString"; js "valueOf";
    js "__proto__"; js "toLocaleString" ].

Definition inherited (name : jsstring) : bool := bool_decide (name ∈ inheritedNames).

(** [object[name] = value] for a value that is a primitive or the
    prototype the object has already: under [__proto__] the assignment
    is taken by the accessor of the prototype, and the own properties
    stay as they are. *)
Definition assignProperty {V} (name : jsstring) (value : V) (object : gmap jsstring V)
  : gmap jsstring V :=
  if eqb name (js "__proto__") then object else <[name := value]> object.

End JS.

Import JS.

(** ** utils/json: extractJsonBlock and parseJsonFromText *)

Module JsonText.

Definition backtick : N := 96.
Definition fence : jsstring := [backtick; backtick; backtick].

(** *** The fenced-block pattern

    [/```(?:json)?\s*([\s\S]*?)```/i], matched the way a backtracking
    engine does: leftmost start, then the alternatives of each
    quantifier in priority order. *)

(** [(?:json)?] under the i flag: greedy, so the alternative that
    consumes the tag comes first. *)
Definition jsonTagAlternatives (s : jsstring) : list jsstring :=
  if startsWith (js "json") (map asciiLower (take 4 s))
  then [drop 4 s; s] else [s].

(** [\s*]: greedy, longest run of white space first, then shorter ones. *)
Fixpoint wsStarAlternatives (s : jsstring) : list jsstring :=
  match s with
  | c :: r => if isWhiteSpace c then wsStarAlternatives r ++ [s] else [s]
  | [] => [[]]
  end.

(** [([\s\S]*?)```]: the shortest group after which the fence follows. *)
Fixpoint lazyUntilFence (s : jsstring) : option jsstring :=
  if startsWith fence s then Some []
  else match s with
       | [] => None
       | c :: r => match lazyUntilFence r with
                   | Some g => Some (c :: g)
                   | None => None
                   end
       end.

Fixpoint firstSome {A B} (f : A -> option B) (l : list A) : option B :=
  match l with
  | [] => None
  | a :: r => match f a with Some b => Some b | None => firstSome f r end
  end.

(** The pattern after its opening fence; the result is capture group 1. *)
Definition matchAfterOpener (s : jsstring) : option jsstring :=
  firstSome (fun afterTag => firstSome lazyUntilFence (wsStarAlternatives afterTag))
            (jsonTagAlternatives s).

(** [content.match(pattern)?.[1]]. *)
Fixpoint fencedMatch (s : jsstring) : option jsstring :=
  match (if startsWith fence s then matchAfterOpener (drop 3 s) else None) with
  | Some g => Some g
  | None => match s with
            | [] => None
            | _ :: r => fencedMatch r
            end
  end.

(** *** Bracket matching *)

Definition lbrace : N := 123.
Definition rbrace : N := 125.
Definition lbracket : N := 91.
Definition rbracket : N := 93.

(** The first code unit that is not white space, [content[nextIndex]]
    after the inner while loop; [None] is [undefined] past the end. *)
Fixpoint nextNonWhiteSpace (s : jsstring) : option N :=
  match s with
  | c :: r => if isWhiteSpace c then nextNonWhiteSpace r else Some c
  | [] => None
  end.

Definition startCondition (open : N) (nextChar : option N) : bool :=
  match nextChar with
  | Some c =>
      ((open =? lbracket) && ((c =? lbrace) || (c =? lbracket)))
      || ((open =? lbrace) && (c =? dquote))
  | None => false
  end.

(** [findJsonStart(open)]: [rest] is the content from [index] on; the
    loop over [indexOf] visits the occurrences of [open] from left to
    right.  [None] is -1. *)
Fixpoint findJsonStart_from (open : N) (rest : jsstring) (index : nat) : option nat :=
  match rest with
  | [] => None
  | c :: r =>
      if (c =? open) && startCondition open (nextNonWhiteSpace r)
      then Some index
      else findJsonStart_from open r (S index)
  end.

Definition findJsonStart (content : jsstring) (open : N) : option nat :=
  findJsonStart_from open content 0.

(** The state of the for loop of [findMatchingBracket]. *)
Record ScanState := { depth : Z; inString : bool; escape : bool }.

Definition scanStart : ScanState :=
  {| depth := 0; inString := false; escape := false |}.

(** One iteration of the loop: the next state, or the loop returns. *)
Definition scanStep (open close : N) (st : ScanState) (char : N) : option ScanState :=
  if inString st then
    if escape st then Some {| depth := depth st; inString := true; escape := false |}
    else if char =? backslash then Some {| depth := depth st; inString := true; escape := true |}
    else if char =? dquote then Some {| depth := depth st; inString := false; escape := false |}
    else Some st
  else if char =? dquote then Some {| depth := depth st; inString := true; escape := escape st |}
  else if char =? open then Some {| depth := (depth st + 1)%Z; inString := false; escape := escape st |}
  else if char =? close then
    if (depth st - 1 =? 0)%Z then None
    else Some {| depth := (depth st - 1)%Z; inString := false; escape := escape st |}
  else Some st.

Fixpoint scanFrom (open close : N) (rest : jsstring) (i : nat) (st : ScanState)
  : option nat :=
  match rest with
  | [] => None
  | char :: r =>
      match scanStep open close st char with
      | None => Some i
      | Some st' => scanFrom open close r (S i) st'
      end
  end.

Definition findMatchingBracket (content : jsstring) (start : nat) (open close : N)
  : option nat :=
  scanFrom open close (drop start content) start scanStart.

Definition extractBracketed (content : jsstring) (open close : N) : option jsstring :=
  match findJsonStart content open with
  | Some start =>
      match findMatchingBracket content start open close with
      | Some stop => Some (trim (slice start (stop + 1) content))
      | None => None
      end
  | None => None
  end.

Definition extractJsonBlock (content : jsstring) : option jsstring :=
  match fencedMatch content with
  | Some g =>
      if truthy g then Some (trim g)
      else match extractBracketed content lbracket rbracket with
           | Some r => Some r
           | None => extractBracketed content lbrace rbrace
           end
  | None =>
      match extractBracketed content lbracket rbracket with
      | Some r => Some r
      | None => extractBracketed content lbrace rbrace
      end
  end.

End JsonText.

Import JsonText.


(** ** JSON values and the facilities of the JavaScript runtime *)

(** A parsed JSON value.  The members of an object are kept in property
    order; a later member with the same key is the one a lookup sees. *)
Inductive json (number : Type) :=
  | JNull
  | JBool (b : bool)
  | JNum (n : number)
  | JStr (s : jsstring)
  | JArr (items : list (json number))
  | JObj (members : list (jsstring * json number)).
Arguments JNull {number}.
Arguments JBool {number} b.
Arguments JNum {number} n.
Arguments JStr {number} s.
Arguments JArr {number} items.
Arguments JObj {number} members.

(** [object[key]] on a parsed object. *)
Definition member {number} (key : jsstring) (members : list (jsstring * json number))
  : option (json number) :=
  snd <$> find (fun kv => eqb (fst kv) key) (rev members).

(** A pure computation that may throw. *)
Inductive Result (A : Type) :=
  | Ok (a : A)
  | Err (message : jsstring).
Arguments Ok {A} a.
Arguments Err {A} message.

(** What the code takes from the JavaScript runtime and its libraries
    and this development does not fix: the number type with its
    [String(n)], [JSON.parse] with the message of its SyntaxError, the
    message of a failed zod validation, [toLowerCase], the case folding
    of the regular-expression i flag on one code unit, and the matching
    of a pattern built from text that contains pattern syntax. *)
Class JsRuntime := {
  number : Type;
  String_number : number -> jsstring;
  JSON_parse : jsstring -> Result (json number);
  zodErrorMessage : json number -> jsstring;
  toLowerCase : jsstring -> jsstring;
  canonicalize : N -> N;
  (** [text.match(new RegExp(key + rest, "i"))?.[1]] for the pattern of
      the loose analysis parse, when [key] contains pattern syntax;
      [Err] when the constructor throws *)
  patternKeyMatch : jsstring -> jsstring -> Result (option jsstring);
}.

(** ** JSON.stringify and JSON.parse on values with integer numbers

    Numbers with a fraction or an exponent are outside this module: the
    serializer is given integers, and the parser reports an error on
    the other numerals, which [JSON.parse] accepts.  The parser is
    therefore [JSON.parse] on texts whose numerals are integers only;
    the theorems that are about [JSON.parse] on any text take the
    parser of the runtime ([JsRuntime]) in its place. *)

Module Json.

Definition hexDigit (d : N) : N := if d <? 10 then 48 + d else 87 + d.

Definition hex4 (c : N) : jsstring :=
  [ hexDigit ((c / 4096) mod 16); hexDigit ((c / 256) mod 16);
    hexDigit ((c / 16) mod 16); hexDigit (c mod 16) ].

Definition isHighSurrogate (c : N) : bool := (55296 <=? c) && (c <=? 56319).
Definition isLowSurrogate (c : N) : bool := (56320 <=? c) && (c <=? 57343).

Definition unicodeEscape (c : N) : jsstring := [backslash; 117] ++ hex4 c.

(** QuoteJSONString on one code unit: [prevHigh] tells whether the unit
    before is a high surrogate, [next] is the unit after. *)
Definition quoteUnit (prevHigh : bool) (c : N) (next : option N) : jsstring :=
  if c =? 8 then [backslash; 98]
  else if c =? 9 then [backslash; 116]
  else if c =? 10 then [backslash; 110]
  else if c =? 12 then [backslash; 102]
  else if c =? 13 then [backslash; 114]
  else if c =? dquote then [backslash; dquote]
  else if c =? backslash then [backslash; backslash]
  else if c <? 32 then unicodeEscape c
  else if isHighSurrogate c then
    match next with
    | Some n => if isLowSurrogate n then [c] else unicodeEscape c
    | None => unicodeEscape c
    end
  else if isLowSurrogate c then
    if prevHigh then [c] else unicodeEscape c
  else [c].

Fixpoint quoteUnits (prevHigh : bool) (s : jsstring) : jsstring :=
  match s with
  | [] => []
  | c :: r => quoteUnit prevHigh c (head r) ++ quoteUnits (isHighSurrogate c) r
  end.

Definition quote (s : jsstring) : jsstring := dq ++ quoteUnits false s ++ dq.

(** [JSON.stringify(value)], without indentation. *)
Fixpoint JSON_stringify (value : json Z) : jsstring :=
  match value with
  | JNull => js "null"
  | JBool true => js "true"
  | JBool false => js "false"
  | JNum n => String_Z n
  | JStr s => quote s
  | JArr items =>
      js "[" ++ join (js ",") (map JSON_stringify items) ++ js "]"
  | JObj members =>
      js "{"
      ++ join (js ",")
           (map (fun kv => quote (fst kv) ++ js ":" ++ JSON_stringify (snd kv)) members)
      ++ js "}"
  end.

(** White space of the JSON grammar. *)
Definition isJsonWhiteSpace (c : N) : bool :=
  (c =? 9) || (c =? 10) || (c =? 13) || (c =? 32).

Fixpoint skipWhiteSpace (s : jsstring) : jsstring :=
  match s with
  | c :: r => if isJsonWhiteSpace c then skipWhiteSpace r else s
  | [] => []
  end.

Definition hexValue (c : N) : option N :=
  if (48 <=? c) && (c <=? 57) then Some (c - 48)
  else if (97 <=? c) && (c <=? 102) then Some (c - 87)
  else if (65 <=? c) && (c <=? 70) then Some (c - 55)
  else None.

Definition simpleEscape (e : N) : option N :=
  if e =? dquote then Some dquote
  else if e =? backslash then Some backslash
  else if e =? 47 then Some 47
  else if e =? 98 then Some 8
  else if e =? 102 then Some 12
  else if e =? 110 then Some 10
  else if e =? 114 then Some 13
  else if e =? 116 then Some 9
  else None.

(** The code units of a string literal after its opening quote, and the
    text after its closing quote. *)
Fixpoint parseStringUnits (s : jsstring) : option (jsstring * jsstring) :=
  match s with
  | [] => None
  | c :: r =>
      if c =? dquote then Some ([], r)
      else if c =? backslash then
        match r with
        | [] => None
        | e :: r1 =>
            if e =? 117 then
              match r1 with
              | h1 :: h2 :: h3 :: h4 :: r2 =>
                  match hexValue h1, hexValue h2, hexValue h3, hexValue h4 with
                  | Some d1, Some d2, Some d3, Some d4 =>
                      match parseStringUnits r2 with
                      | Some (units, rest) =>
                          Some ((d1 * 4096 + d2 * 256 + d3 * 16 + d4) :: units, rest)
                      | None => None
                      end
                  | _, _, _, _ => None
                  end
              | _ => None
              end
            else
              match simpleEscape e with
              | Some u =>
                  match parseStringUnits r1 with
                  | Some (units, rest) => Some (u :: units, rest)
                  | None => None
                  end
              | None => None
              end
        end
      else if c <? 32 then None
      else
        match parseStringUnits r with
        | Some (units, rest) => Some (c :: units, rest)
        | None => None
        end
  end.

Definition isDigit (c : N) : bool := (48 <=? c) && (c <=? 57).

Fixpoint takeDigits (s : jsstring) : jsstring * jsstring :=
  match s with
  | c :: r =>
      if isDigit c then (let (ds, rest) := takeDigits r in (c :: ds, rest))
      else ([], s)
  | [] => ([], [])
  end.

Definition digitsValue (ds : jsstring) : N :=
  foldl (fun acc d => acc * 10 + (d - 48)) 0 ds.

(** A number literal at the head of [s]: an integer, not followed by a
    fraction or an exponent. *)
Definition parseNumber (s : jsstring) : option (Z * jsstring) :=
  let (negative, body) :=
    match s with
    | c :: r => if c =? 45 then (true, r) else (false, s)
    | [] => (false, s)
    end in
  let (ds, rest) := takeDigits body in
  match ds with
  | [] => None
  | d :: more =>
      if (d =? 48) && truthy more then None
      else
        match rest with
        | c :: _ =>
            if (c =? 46) || (c =? 101) || (c =? 69) then None
            else Some (if negative then (- Z.of_N (digitsValue ds))%Z
                       else Z.of_N (digitsValue ds), rest)
        | [] => Some (if negative then (- Z.of_N (digitsValue ds))%Z
                      else Z.of_N (digitsValue ds), rest)
        end
  end.

(** Defining a property on an object: the value of an existing key is
    replaced where it stands, a new key goes last. *)
Fixpoint setMember (k : jsstring) (v : json Z) (members : list (jsstring * json Z))
  : list (jsstring * json Z) :=
  match members with
  | [] => [(k, v)]
  | (k', v') :: rest =>
      if eqb k' k then (k, v) :: rest else (k', v') :: setMember k v rest
  end.

(** Recursive descent; [fuel] bounds the nesting of the calls. *)
Fixpoint parseValue (fuel : nat) (s : jsstring) : option (json Z * jsstring) :=
  match fuel with
  | O => None
  | S fuel' =>
      match skipWhiteSpace s with
      | [] => None
      | c :: r =>
          if c =? 110 then
            if startsWith (js "ull") r then Some (JNull, drop 3 r) else None
          else if c =? 116 then
            if startsWith (js "rue") r then Some (JBool true, drop 3 r) else None
          else if c =? 102 then
            if startsWith (js "alse") r then Some (JBool false, drop 4 r) else None
          else if c =? dquote then
            match parseStringUnits r with
            | Some (units, rest) => Some (JStr units, rest)
            | None => None
            end
          else if c =? lbracket then
            match skipWhiteSpace r with
            | c' :: r' =>
                if c' =? rbracket then Some (JArr [], r')
                else parseElements fuel' r []
            | [] => None
            end
          else if c =? lbrace then
            match skipWhiteSpace r with
            | c' :: r' =>
                if c' =? rbrace then Some (JObj [], r')
                else parseMembers fuel' r []
            | [] => None
            end
          else
            match parseNumber (c :: r) with
            | Some (n, rest) => Some (JNum n, rest)
            | None => None
            end
      end
  end
with parseElements (fuel : nat) (s : jsstring) (items : list (json Z))
  : option (json Z * jsstring) :=
  match fuel with
  | O => None
  | S fuel' =>
      match parseValue fuel' s with
      | None => None
      | Some (item, rest) =>
          match skipWhiteSpace rest with
          | c :: r =>
              if c =? 44 then parseElements fuel' r (items ++ [item])
              else if c =? rbracket then Some (JArr (items ++ [item]), r)
              else None
          | [] => None
          end
      end
  end
with parseMembers (fuel : nat) (s : jsstring) (members : list (jsstring * json Z))
  : option (json Z * jsstring) :=
  match fuel with
  | O => None
  | S fuel' =>
      match skipWhiteSpace s with
      | c :: r =>
          if c =? dquote then
            match parseStringUnits r with
            | None => None
            | Some (k, afterKey) =>
                match skipWhiteSpace afterKey with
                | c1 :: r1 =>
                    if c1 =? 58 then
                      match parseValue fuel' r1 with
                      | None => None
                      | Some (v, rest) =>
                          match skipWhiteSpace rest with
                          | c2 :: r2 =>
                              if c2 =? 44 then parseMembers fuel' r2 (setMember k v members)
                              else if c2 =? rbrace
                              then Some (JObj (setMember k v members), r2)
                              else None
                          | [] => None
                          end
                      end
                    else None
                | [] => None
                end
            end
          else None
      | [] => None
      end
  end.

Definition syntaxError : jsstring := js "Unexpected token in JSON".

(** [JSON.parse(text)] for texts whose numerals are integers; the
    message of the SyntaxError is the engine's and is not modelled. *)
Definition JSON_parse (text : jsstring) : Result (json Z) :=
  match parseValue (S (length text)) text with
  | Some (value, rest) =>
      match skipWhiteSpace rest with
      | [] => Ok value
      | _ => Err syntaxError
      end
  | None => Err syntaxError
  end.

End Json.

(** ** Types of the completion wire contract (types/interview, core/LlmClient) *)

Inductive OpenAIMessageRole := system | user | assistant.

Record OpenAIMessage := {
  role : OpenAIMessageRole;
  content : jsstring;
}.

(** The message of a response choice: the backend may leave [content]
    out, and may add [reasoning]. *)
Record ResponseMessage := {
  responseContent : option jsstring;
  reasoning : option jsstring;
}.

Record ChatCompletionRequest := {
  model : jsstring;
  messages : list OpenAIMessage;
  (** only the temperature 0 occurs in the requests modelled here *)
  temperature : option Z;
  max_tokens : option Z;
}.

Record ChatCompletionResponse := {
  responseId : jsstring;
  choices : list ResponseMessage;
}.

(** What [client.post] rejects with.  [errIsAxios] is
    [axios.isAxiosError(error)]; the other fields of an axios error are
    [error.response?.status], [error.code], [error.message],
    [JSON.stringify(error.response?.data)] ([None] when it is
    [undefined]) and [Number(headers["retry-after"])] in whole seconds
    ([None] when it is not a finite number).  For any other thrown value
    [errMessage] is its message or [String(error)]. *)
Record RequestError := {
  errIsAxios : bool;
  errStatus : option Z;
  errCode : option jsstring;
  errMessage : jsstring;
  errData : option jsstring;
  errRetryAfter : option Z;
}.

Inductive BackendOutcome :=
  | Responds (response : ChatCompletionResponse)
  | Rejects (error : RequestError).

(** ** types/config *)

Record ISegment := {
  segId : jsstring;
  segName : jsstring;
  traits : list jsstring;
  tooling : option (list jsstring);
  painPoints : option (list jsstring);
  cadence : option jsstring;
}.

Record IAnalyticsMetric := {
  key : jsstring;
  description : jsstring;
}.

Inductive InterviewerMode := scriptMode | llmMode.

Record IProjectConfig := {
  metaProjectName : jsstring;
  settingsConcurrency : Z;
  settingsLang : jsstring;
  modelsInterviewer : jsstring;
  modelsRespondent : jsstring;
  modelsAnalyzer : jsstring;
  segments : list ISegment;
  flowContext : jsstring;
  flowScript : list jsstring;
  flowInterviewerMode : option InterviewerMode;
  analyticsSchema : list IAnalyticsMetric;
}.

(** ** The world the effectful code runs in *)

Record IInterviewSession := {
  sessionId : jsstring;
  projectName : jsstring;
  personaId : jsstring;
  segmentId : jsstring;
  startedAt : jsstring;
  endedAt : jsstring;
  sessionMessages : list OpenAIMessage;
}.

Record IPersona := {
  id : jsstring;
  personaSegmentId : jsstring;
  name : jsstring;
  age : Z;
  occupation : jsstring;
  bio : jsstring;
  hiddenTraits : list jsstring;
}.

(** A file of the logs directory: its name and what reading and parsing
    it gives ([None] when [readFile] or [JSON.parse] throws). *)
Record LogFile := {
  fileName : jsstring;
  fileSession : option IInterviewSession;
}.

Inductive LogLevel := info | warn.

Record World := {
  (** the outcome of the n-th request posted (counting from 0) *)
  backend : nat -> ChatCompletionRequest -> BackendOutcome;
  (** requests posted so far, oldest first *)
  posted : list ChatCompletionRequest;
  (** delays slept so far in milliseconds, oldest first *)
  slept : list Z;
  (** progress ticks reported *)
  ticks : nat;
  (** lines handed to the logger, oldest first *)
  logged : list (LogLevel * jsstring);
  (** the logs directory; [None] when [readdir] throws *)
  logsDir : option (list LogFile);
  (** [personas.json] read and parsed; [None] when that throws *)
  personasFile : option (list IPersona);
  (** [config/fallback-models.json] as read; [None] when that throws *)
  fallbackModelsFile : option jsstring;
  (** the respondent prompt file as read; [None] when that throws *)
  respondentPromptFile : option jsstring;
  (** the interviewer prompt file as read; [None] when that throws *)
  interviewerPromptFile : option jsstring;
  (** the message of the error of a failing file operation *)
  ioError : jsstring;
  (** [process.env.OPENROUTER_API_KEY] *)
  apiKey : option jsstring;
  (** the n-th reading of the clock by a session, as an ISO string *)
  clock : nat -> jsstring;
  clockReads : nat;
}.

Definition setPosted (w : World) (v : list ChatCompletionRequest) : World :=
  {| backend := backend w; posted := v; slept := slept w; ticks := ticks w;
     logged := logged w; logsDir := logsDir w; personasFile := personasFile w;
     fallbackModelsFile := fallbackModelsFile w;
     respondentPromptFile := respondentPromptFile w;
     interviewerPromptFile := interviewerPromptFile w; ioError := ioError w;
     apiKey := apiKey w; clock := clock w; clockReads := clockReads w |}.

Definition setSlept (w : World) (v : list Z) : World :=
  {| backend := backend w; posted := posted w; slept := v; ticks := ticks w;
     logged := logged w; logsDir := logsDir w; personasFile := personasFile w;
     fallbackModelsFile := fallbackModelsFile w;
     respondentPromptFile := respondentPromptFile w;
     interviewerPromptFile := interviewerPromptFile w; ioError := ioError w;
     apiKey := apiKey w; clock := clock w; clockReads := clockReads w |}.

Definition setTicks (w : World) (v : nat) : World :=
  {| backend := backend w; posted := posted w; slept := slept w; ticks := v;
     logged := logged w; logsDir := logsDir w; personasFile := personasFile w;
     fallbackModelsFile := fallbackModelsFile w;
     respondentPromptFile := respondentPromptFile w;
     interviewerPromptFile := interviewerPromptFile w; ioError := ioError w;
     apiKey := apiKey w; clock := clock w; clockReads := clockReads w |}.

Definition setLogged (w : World) (v : list (LogLevel * jsstring)) : World :=
  {| backend := backend w; posted := posted w; slept := slept w; ticks := ticks w;
     logged := v; logsDir := logsDir w; personasFile := personasFile w;
     fallbackModelsFile := fallbackModelsFile w;
     respondentPromptFile := respondentPromptFile w;
     interviewerPromptFile := interviewerPromptFile w; ioError := ioError w;
     apiKey := apiKey w; clock := clock w; clockReads := clockReads w |}.

Definition setLogsDir (w : World) (v : option (list LogFile)) : World :=
  {| backend := backend w; posted := posted w; slept := slept w; ticks := ticks w;
     logged := logged w; logsDir := v; personasFile := personasFile w;
     fallbackModelsFile := fallbackModelsFile w;
     respondentPromptFile := respondentPromptFile w;
     interviewerPromptFile := interviewerPromptFile w; ioError := ioError w;
     apiKey := apiKey w; clock := clock w; clockReads := clockReads w |}.

Definition setClockReads (w : World) (v : nat) : World :=
  {| backend := backend w; posted := posted w; slept := slept w; ticks := ticks w;
     logged := logged w; logsDir := logsDir w; personasFile := personasFile w;
     fallbackModelsFile := fallbackModelsFile w;
     respondentPromptFile := respondentPromptFile w;
     interviewerPromptFile := interviewerPromptFile w; ioError := ioError w;
     apiKey := apiKey w; clock := clock w; clockReads := v |}.

(** How a computation ends.  [OutOfFuel] is the model's own: loops that
    the code bounds by a counter are run with fuel, and the totality
    lemmas show that it never runs out. *)
Inductive Completion (A : Type) :=
  | Returned (a : A)
  | Thrown (message : jsstring)
  | OutOfFuel.
Arguments Returned {A} a.
Arguments Thrown {A} message.
Arguments OutOfFuel {A}.

Definition M (A : Type) : Type := World -> Completion A * World.

Definition ret {A} (a : A) : M A := fun w => (Returned a, w).

Definition throw {A} (message : jsstring) : M A := fun w => (Thrown message, w).

Definition bind {A B} (m : M A) (k : A -> M B) : M B :=
  fun w =>
    match m w with
    | (Returned a, w') => k a w'
    | (Thrown e, w') => (Thrown e, w')
    | (OutOfFuel, w') => (OutOfFuel, w')
    end.

(** A call that returns or throws and leaves the world as it is. *)
Definition orThrow {A} (outcome : Result A) : M A :=
  match outcome with
  | Ok a => ret a
  | Err thrown => throw thrown
  end.

(** [try { m } catch (error) { handler(message of error) }]. *)
Definition tryCatch {A} (m : M A) (handler : jsstring -> M A) : M A :=
  fun w =>
    match m w with
    | (Thrown e, w') => handler e w'
    | r => r
    end.

Notation "'let*' x ':=' m 'in' k" := (bind m (fun x => k))
  (at level 10, x name, m at level 100, k at level 200).
Notation "'await' m 'then' k" := (bind m (fun _ => k))
  (at level 10, m at level 100, k at level 200).

(** [await client.post(path, payload)]. *)
Definition post (payload : ChatCompletionRequest) : World -> BackendOutcome * World :=
  fun w =>
    (backend w (length (posted w)) payload, setPosted w (posted w ++ [payload])).

(** [await sleep(ms)], and the bare [setTimeout] promise of the session. *)
Definition sleep (ms : Z) : M unit :=
  fun w => (Returned tt, setSlept w (slept w ++ [ms])).

(** [reportProgress(step)] with an active tracker counting every tick. *)
Definition reportProgress (step : nat) : M unit :=
  fun w => (Returned tt, setTicks w (ticks w + step)%nat).

(** [await logger.info(message)] and [await logger.warn(message)]: the
    line without its time stamp. *)
Definition log (level : LogLevel) (message : jsstring) : M unit :=
  fun w => (Returned tt, setLogged w (logged w ++ [(level, message)])).

(** [new Date().toISOString()]. *)
Definition now : M jsstring :=
  fun w => (Returned (clock w (clockReads w)), setClockReads w (S (clockReads w))).

(** ** core/LlmClient *)

Module LlmClient.

Record LlmClientOptions := {
  optMaxRetries : option nat;
  optInitialBackoffMs : option Z;
}.

Record LlmClient := {
  maxRetries : nat;
  initialBackoffMs : Z;
}.

Definition defaultOptions : LlmClientOptions :=
  {| optMaxRetries := None; optInitialBackoffMs := None |}.

(** The fields the constructor sets. *)
Definition newLlmClient (options : LlmClientOptions) : LlmClient :=
  {| maxRetries := default 6%nat (optMaxRetries options);
     initialBackoffMs := default 2000%Z (optInitialBackoffMs options) |}.

Definition status (error : RequestError) : option Z :=
  if errIsAxios error then errStatus error else None.

Definition isTimeout (error : RequestError) : bool :=
  errIsAxios error
  && (bool_decide (errCode error = Some (js "ECONNABORTED"))
      || includes (js "timeout") (errMessage error)).

Definition shouldRetry (error : RequestError) : bool :=
  isTimeout error
  || bool_decide (status error = Some 429%Z)
  || bool_decide (status error = Some 500%Z)
  || bool_decide (status error = Some 503%Z).

Definition statusInfo (error : RequestError) : jsstring :=
  match status error with
  | Some s => if (s =? 0)%Z then [] else js " (status " ++ String_Z s ++ js ")"
  | None => []
  end.

Definition responseData (error : RequestError) : jsstring :=
  if errIsAxios error then default [] (errData error) else [].

Definition details (error : RequestError) : jsstring :=
  if truthy (responseData error) then js " - " ++ responseData error else [].

(** The message of the error thrown for a terminal failure. *)
Definition failureMessage (error : RequestError) : jsstring :=
  js "LLM request failed" ++ statusInfo error ++ js ": " ++ errMessage error
  ++ details error.

Definition retryAfterMs (error : RequestError) : Z :=
  if errIsAxios error then
    match errRetryAfter error with
    | Some seconds => (seconds * 1000)%Z
    | None => 0%Z
    end
  else 0%Z.

(** The body of [while (true)], with the loop variables [attempt] and
    [backoff]. *)
Fixpoint retryLoop (self : LlmClient) (payload : ChatCompletionRequest)
    (fuel : nat) (attempt : nat) (backoff : Z) : M ChatCompletionResponse :=
  match fuel with
  | O => fun w => (OutOfFuel, w)
  | S fuel' =>
      fun w =>
        match post payload w with
        | (Responds response, w1) =>
            (await reportProgress 1 then ret response) w1
        | (Rejects error, w1) =>
            if negb (shouldRetry error) || (maxRetries self <=? attempt)%nat
            then throw (failureMessage error) w1
            else
              (let delayMs := Z.max backoff (retryAfterMs error) in
               await sleep delayMs then
               retryLoop self payload fuel' (attempt + 1)%nat (backoff * 2)%Z) w1
        end
  end.

Definition createChatCompletion (self : LlmClient) (payload : ChatCompletionRequest)
  : M ChatCompletionResponse :=
  retryLoop self payload (S (maxRetries self)) 0%nat (initialBackoffMs self).

(** [new LlmClient(options)]. *)
Definition constructLlmClient (options : LlmClientOptions) : M LlmClient :=
  fun w =>
    if truthy (default [] (apiKey w))
    then (Returned (newLlmClient options), w)
    else (Thrown (js "OPENROUTER_API_KEY is required in environment variables."), w).

End LlmClient.

Import LlmClient.

(** ** utils/llm *)

(** [extractMessageText(message)]; [None] is a missing message. *)
Definition extractMessageText (message : option ResponseMessage) : jsstring :=
  match message with
  | None => []
  | Some m =>
      let content := option_map trim (responseContent m) in
      match content with
      | Some ((_ :: _) as c) => c
      | _ => default [] (option_map trim (reasoning m))
      end
  end.

(** [response.choices[0]?.message ?? null]. *)
Definition firstMessage (response : ChatCompletionResponse) : option ResponseMessage :=
  head (choices response).

(** [text.replace(/<\/?s>|\[\/?OUT]|\[\/?B_INST]/gi, "")]: the
    formatting artifacts removed from model output. *)
Definition artifacts : list jsstring :=
  [js "<s>"; js "</s>"; js "[OUT]"; js "[/OUT]"; js "[B_INST]"; js "[/B_INST]"].

(** Length of the artifact matched at the head of [s], if any. *)
Definition artifactAt (s : jsstring) : option nat :=
  length <$> find (fun a => startsWith (map asciiLower a) (map asciiLower s)) artifacts.

(** The global replace: [skip] code units of a match are still to be
    dropped. *)
Fixpoint stripArtifactsFrom (skip : nat) (s : jsstring) : jsstring :=
  match s with
  | [] => []
  | c :: r =>
      match skip with
      | S k => stripArtifactsFrom k r
      | O =>
          match artifactAt s with
          | Some (S k) => stripArtifactsFrom k r
          | _ => c :: stripArtifactsFrom O r
          end
      end
  end.

Definition stripArtifacts (s : jsstring) : jsstring := stripArtifactsFrom 0 s.

(** ** stages/2-simulate *)

Module Simulate.

Record InterviewSession := {
  client : LlmClient;
  respondentModel : jsstring;
  interviewerModel : jsstring;
  interviewScript : list jsstring;
  respondentContext : jsstring;
  respondentPrompt : jsstring;
  interviewerPrompt : jsstring;
  interviewerMode : InterviewerMode;
  persona : IPersona;
  segmentNotes : list jsstring;
  language : jsstring;
}.

Definition sanitizeContent (content : jsstring) : jsstring :=
  trim (stripArtifacts content).

Definition newline : jsstring := [10].

Definition buildRespondentSystem (self : InterviewSession) : jsstring :=
  join newline
    ([ trim (respondentPrompt self);
       [];
       trim (respondentContext self);
       [];
       js "Language: " ++ language self;
       js "Respond only in this language.";
       js "Persona: " ++ name (persona self);
       js "Bio: " ++ bio (persona self);
       js "Hidden traits: " ++ join (js ", ") (hiddenTraits (persona self)) ]
     ++ match segmentNotes self with
        | [] => []
        | notes => js "Segment hints:" :: notes
        end).

Definition buildInterviewerSystem (self : InterviewSession) : jsstring :=
  join newline
    ([ trim (interviewerPrompt self);
       [];
       js "Language: " ++ language self;
       js "Ask the next question in this language only.";
       js "Script steps:" ]
     ++ imap (fun index step => String_N (N.of_nat (index + 1)) ++ js ". " ++ step)
             (interviewScript self)).

Record RequestParams := {
  label : jsstring;
  requestModel : jsstring;
  requestMessages : list OpenAIMessage;
  maxTokens : option Z;
  retryPrompt : option jsstring;
  maxAttempts : option nat;
}.

(** The loop of [requestContent], with its variable [attempt]. *)
Fixpoint requestContentLoop (self : InterviewSession) (params : RequestParams)
    (maxAttempts : nat) (fuel : nat) (attempt : nat) : M jsstring :=
  if (attempt <? maxAttempts)%nat then
    match fuel with
    | O => fun w => (OutOfFuel, w)
    | S fuel' =>
        let messages :=
          if (attempt =? 0)%nat || negb (truthy (default [] (retryPrompt params)))
          then requestMessages params
          else requestMessages params
               ++ [{| role := user; content := default [] (retryPrompt params) |}] in
        let* response :=
          createChatCompletion (client self)
            {| model := requestModel params; messages := messages;
               temperature := None; max_tokens := maxTokens params |} in
        let content := extractMessageText (firstMessage response) in
        let cleaned := if truthy content then sanitizeContent content else [] in
        if truthy cleaned then ret cleaned
        else
          let attempt := (attempt + 1)%nat in
          await log warn (label params ++ js " response missing content (attempt "
                        ++ String_N (N.of_nat attempt) ++ js "/"
                        ++ String_N (N.of_nat maxAttempts) ++ js ").") then
          await (if (attempt <? maxAttempts)%nat
               then sleep (1000 * Z.of_nat attempt)
               else ret tt) then
          requestContentLoop self params maxAttempts fuel' attempt
    end
  else throw (label params ++ js " response missing.").

Definition requestContent (self : InterviewSession) (params : RequestParams)
  : M jsstring :=
  let maxAttempts := default 3%nat (maxAttempts params) in
  requestContentLoop self params maxAttempts maxAttempts 0.

(** The request of the interviewer turn. *)
Definition interviewerParams (self : InterviewSession) (interviewerSystem : jsstring)
    (messages : list OpenAIMessage) (step : jsstring) : RequestParams :=
  {| label := js "interviewer";
     requestModel := interviewerModel self;
     requestMessages :=
       [{| role := system; content := interviewerSystem |}]
       ++ messages
       ++ [{| role := user;
              content := js "Следующий вопрос из скрипта: " ++ step |}];
     maxTokens := Some 120%Z;
     retryPrompt :=
       Some (js "Задай следующий вопрос одним предложением. Без комментариев.");
     maxAttempts := None |}.

(** The request of the respondent turn. *)
Definition respondentParams (self : InterviewSession) (respondentSystem : jsstring)
    (messages : list OpenAIMessage) : RequestParams :=
  {| label := js "respondent";
     requestModel := respondentModel self;
     requestMessages :=
       [{| role := system; content := respondentSystem |}] ++ messages;
     maxTokens := Some 160%Z;
     retryPrompt := Some (js "Please answer directly in 1-3 sentences.");
     maxAttempts := Some 5%nat |}.

(** The interviewer turn of one step. *)
Definition interviewerTurn (self : InterviewSession) (interviewerSystem : jsstring)
    (messages : list OpenAIMessage) (step : jsstring) : M jsstring :=
  match interviewerMode self with
  | llmMode =>
      tryCatch
        (requestContent self (interviewerParams self interviewerSystem messages step))
        (fun message =>
           await log warn (js "Interviewer fallback to script: " ++ message) then
           ret step)
  | scriptMode => ret step
  end.

(** The body of the for loop of [run] over [interviewScript.entries()]. *)
Fixpoint runSteps (self : InterviewSession) (respondentSystem interviewerSystem : jsstring)
    (steps : list jsstring) (index : nat) (messages : list OpenAIMessage)
  : M (list OpenAIMessage) :=
  match steps with
  | [] => ret messages
  | step :: rest =>
      await log info (js "Interview " ++ id (persona self) ++ js " ("
                      ++ personaSegmentId (persona self) ++ js ") question "
                      ++ String_N (N.of_nat (index + 1)) ++ js "/"
                      ++ String_N (N.of_nat (length (interviewScript self))) ++ js ".") then
      let* interviewerContent := interviewerTurn self interviewerSystem messages step in
      let messages := messages ++ [{| role := user; content := interviewerContent |}] in
      let* respondentContent :=
        requestContent self (respondentParams self respondentSystem messages) in
      let messages := messages ++ [{| role := assistant; content := respondentContent |}] in
      runSteps self respondentSystem interviewerSystem rest (S index) messages
  end.

(** [text.replace(/[:.]/g, "-")]. *)
Definition dashed (s : jsstring) : jsstring :=
  map (fun c => if (c =? 58) || (c =? 46) then 45 else c) s.

Definition run (self : InterviewSession) : M IInterviewSession :=
  let* startedAt := now in
  let sessionId := dashed (id (persona self) ++ js "-" ++ startedAt) in
  let respondentSystem := buildRespondentSystem self in
  let interviewerSystem := buildInterviewerSystem self in
  let* messages :=
    runSteps self respondentSystem interviewerSystem (interviewScript self) 0 [] in
  let* endedAt := now in
  let session :=
    {| sessionId := sessionId; projectName := [];
       personaId := id (persona self);
       segmentId := personaSegmentId (persona self);
       startedAt := startedAt; endedAt := endedAt;
       sessionMessages := messages |} in
  await log info (js "Interview completed for persona " ++ id (persona self)
                ++ js " (" ++ personaSegmentId (persona self) ++ js ").") then
  ret session.

(** [writeSession]: the file [<id>.json] of the logs directory is
    created or overwritten. *)
Definition writeSession (session : IInterviewSession) : M unit :=
  fun w =>
    let file := {| fileName := sessionId session ++ js ".json";
                   fileSession := Some session |} in
    let others :=
      filter (fun f => fileName f <> fileName file) (default [] (logsDir w)) in
    (Returned tt, setLogsDir w (Some (others ++ [file]))).

Definition loadPersonas : M (list IPersona) :=
  fun w =>
    match personasFile w with
    | Some personas => (Returned personas, w)
    | None => (Thrown (ioError w), w)
    end.

(** The loop of [loadCompletedPersonaIds]; [None] when reading or
    parsing a file throws. *)
Fixpoint collectCompleted (files : list LogFile) (completed : gset jsstring)
  : option (gset jsstring) :=
  match files with
  | [] => Some completed
  | file :: rest =>
      if negb (endsWith (js ".json") (fileName file))
      then collectCompleted rest completed
      else
        match fileSession file with
        | None => None
        | Some session =>
            if truthy (personaId session)
            then collectCompleted rest ({[personaId session]} ∪ completed)
            else collectCompleted rest completed
        end
  end.

Definition completedOf (dir : option (list LogFile)) : gset jsstring :=
  match dir with
  | Some files => default ∅ (collectCompleted files ∅)
  | None => ∅
  end.

Definition loadCompletedPersonaIds : M (gset jsstring) :=
  fun w => (Returned (completedOf (logsDir w)), w).

(** [personas.filter((persona) => !completedPersonaIds.has(persona.id))]. *)
Definition pendingPersonas (personas : list IPersona) (completed : gset jsstring)
  : list IPersona :=
  List.filter (fun persona => negb (bool_decide (id persona ∈ completed))) personas.

(** [new Map(segments.map(...)).get(segmentId)]: the last segment with
    that id. *)
Definition segmentById (segments : list ISegment) (segmentId : jsstring)
  : option ISegment :=
  find (fun segment => eqb (segId segment) segmentId) (rev segments).

Definition segmentNotesOf (segment : option ISegment) : list jsstring :=
  match segment with
  | None => []
  | Some segment =>
      match tooling segment with
      | Some ((_ :: _) as tools) => [js "Preferred tools: " ++ join (js ", ") tools]
      | _ => []
      end
      ++ match painPoints segment with
         | Some ((_ :: _) as points) => [js "Common pain points: " ++ join (js ", ") points]
         | _ => []
         end
      ++ match cadence segment with
         | Some ((_ :: _) as c) => [js "Typical cadence: " ++ c]
         | _ => []
         end
  end.

(** [pLimit(concurrency)] refuses a limit below one. *)
Definition pLimit (concurrency : Z) : M unit :=
  if (concurrency <? 1)%Z
  then throw (js "Expected `concurrency` to be a number from 1 and up")
  else ret tt.

(** The options of [simulateInterviews].  The output directory and the
    two prompt paths choose the files of the world: [personasFile],
    [logsDir], [respondentPromptFile] and [interviewerPromptFile] are
    what is found under them. *)
Record SimulateOptions := {
  optInterviewerMode : option InterviewerMode;
}.

(** [readPromptTemplate(filePath)]. *)
Definition readPromptTemplate (file : World -> option jsstring) : M jsstring :=
  fun w =>
    match file w with
    | Some text => (Returned text, w)
    | None => (Thrown (ioError w), w)
    end.

(** What the tasks of a batch close over: the two prompts as they were
    read, and the interviewer mode in effect. *)
Record TaskSetup := {
  setupRespondentPrompt : jsstring;
  setupInterviewerPrompt : jsstring;
  setupInterviewerMode : InterviewerMode;
}.

(** The task given to the limiter for one pending persona. *)
Definition task (config : IProjectConfig) (setup : TaskSetup)
    (client : LlmClient) (persona : IPersona) : M IInterviewSession :=
  let segment := segmentById (segments config) (personaSegmentId persona) in
  let sessionRunner :=
    {| client := client;
       respondentModel := modelsRespondent config;
       interviewerModel := modelsInterviewer config;
       interviewScript := flowScript config;
       respondentContext := flowContext config;
       respondentPrompt := setupRespondentPrompt setup;
       interviewerPrompt := setupInterviewerPrompt setup;
       interviewerMode := setupInterviewerMode setup;
       persona := persona;
       segmentNotes := segmentNotesOf segment;
       language := settingsLang config |} in
  let* session := run sessionRunner in
  let session :=
    {| sessionId := sessionId session; projectName := metaProjectName config;
       personaId := personaId session; segmentId := segmentId session;
       startedAt := startedAt session; endedAt := endedAt session;
       sessionMessages := sessionMessages session |} in
  await writeSession session then
  ret session.

(** One promise of [Promise.all(tasks)] and those behind it in the
    queue of the limiter.  A task that throws does not stop the others:
    the limiter goes on with its queue, and [Promise.all] rejects with
    what the first failing task has thrown. *)
Definition alongside {A} (first : M A) (others : M (list A)) : M (list A) :=
  fun w =>
    match first w with
    | (Returned a, w1) =>
        match others w1 with
        | (Returned rest, w2) => (Returned (a :: rest), w2)
        | (Thrown thrown, w2) => (Thrown thrown, w2)
        | (OutOfFuel, w2) => (OutOfFuel, w2)
        end
    | (Thrown thrown, w1) =>
        match others w1 with
        | (OutOfFuel, w2) => (OutOfFuel, w2)
        | (_, w2) => (Thrown thrown, w2)
        end
    | (OutOfFuel, w1) => (OutOfFuel, w1)
    end.

(** [await Promise.all(tasks)]: the tasks in the order of the limiter's
    queue, one at a time, which is how a concurrency of one runs them
    (with a larger one the requests of the tasks interleave; the model
    does not follow that).  When a task throws, the batch throws, and
    the world is the one the tasks that still run leave behind. *)
Fixpoint runTasks (config : IProjectConfig) (setup : TaskSetup)
    (client : LlmClient) (pending : list IPersona) : M (list IInterviewSession) :=
  match pending with
  | [] => ret []
  | persona :: rest =>
      alongside (task config setup client persona) (runTasks config setup client rest)
  end.

Definition simulateInterviews (config : IProjectConfig) (options : SimulateOptions)
  : M (list IInterviewSession) :=
  let interviewerMode :=
    default (default scriptMode (flowInterviewerMode config))
            (optInterviewerMode options) in
  let* respondentPrompt := readPromptTemplate respondentPromptFile in
  let* interviewerPrompt := readPromptTemplate interviewerPromptFile in
  let* client := constructLlmClient defaultOptions in
  await pLimit (settingsConcurrency config) then
  let* personas := loadPersonas in
  let* completedPersonaIds := loadCompletedPersonaIds in
  let pending := pendingPersonas personas completedPersonaIds in
  await log info (js "Simulating " ++ String_N (N.of_nat (length pending))
                  ++ js " interviews (skipping "
                  ++ String_N (N.of_nat (size completedPersonaIds)) ++ js ").") then
  let setup :=
    {| setupRespondentPrompt := respondentPrompt;
       setupInterviewerPrompt := interviewerPrompt;
       setupInterviewerMode := interviewerMode |} in
  let* results := runTasks config setup client pending in
  await log info (js "Simulation finished: "
                  ++ String_N (N.of_nat (length results)) ++ js " interviews saved.") then
  ret results.

End Simulate.

(** ** utils/fallback-models *)

Module FallbackModels.

Section WithRuntime.
Context {rt : JsRuntime}.

Definition DEFAULT_FALLBACK_MODELS : list jsstring :=
  [ js "mistralai/mistral-7b-instruct:free";
    js "deepseek/deepseek-r1-0528:free";
    js "meta-llama/llama-3.1-8b-instruct:free";
    js "google/gemma-2-9b-it:free";
    js "qwen/qwen-2.5-7b-instruct:free" ].

(** [z.string().min(1)]. *)
Definition nonEmptyString (v : json number) : option jsstring :=
  match v with
  | JStr ((_ :: _) as s) => Some s
  | _ => None
  end.

(** [ModelsArraySchema.safeParse(parsed)]: the data on success. *)
Definition ModelsArraySchema (parsed : json number) : option (list jsstring) :=
  match parsed with
  | JArr ((_ :: _) as items) => mapM nonEmptyString items
  | _ => None
  end.

(** [ModelsConfigSchema.safeParse(parsed)]: the [models] on success. *)
Definition ModelsConfigSchema (parsed : json number) : option (list jsstring) :=
  match parsed with
  | JObj members =>
      match member (js "models") members with
      | Some v => ModelsArraySchema v
      | None => None
      end
  | _ => None
  end.

(** The loop of [normalizeModels], with [seen] and [normalized]. *)
Fixpoint normalizeLoop (primaryModel : option jsstring) (models : list jsstring)
    (seen : gset jsstring) (normalized : list jsstring) : list jsstring :=
  match models with
  | [] => normalized
  | model :: rest =>
      let trimmed := trim model in
      if negb (truthy trimmed) || bool_decide (Some trimmed = primaryModel)
      then normalizeLoop primaryModel rest seen normalized
      else
        let key := toLowerCase trimmed in
        if bool_decide (key ∈ seen)
        then normalizeLoop primaryModel rest seen normalized
        else normalizeLoop primaryModel rest ({[key]} ∪ seen) (normalized ++ [trimmed])
  end.

Definition normalizeModels (models : list jsstring) (primaryModel : option jsstring)
  : list jsstring :=
  normalizeLoop primaryModel models ∅ [].

Inductive Source := fromFile | fromDefault.

Record FallbackModels := {
  models : list jsstring;
  source : Source;
}.

(** [loadFallbackModels({ primaryModel })]; [file] is what [readFile]
    gives, [None] when it throws. *)
Definition loadFallbackModels (file : option jsstring) (primaryModel : option jsstring)
  : FallbackModels :=
  let fromTry : option (list jsstring) :=
    match file with
    | None => None
    | Some raw =>
        match JSON_parse raw with
        | Err _ => None
        | Ok parsed =>
            match ModelsArraySchema parsed with
            | Some data => Some data
            | None => ModelsConfigSchema parsed
            end
        end
    end in
  match fromTry with
  | Some models =>
      {| models := normalizeModels models primaryModel; source := fromFile |}
  | None =>
      {| models := normalizeModels DEFAULT_FALLBACK_MODELS primaryModel;
         source := fromDefault |}
  end.

End WithRuntime.

End FallbackModels.

(** ** stages/3-analyze *)

Module Analyze.

Import FallbackModels.

Section WithRuntime.
Context {rt : JsRuntime}.

(** [parseJsonFromText] of utils/json. *)
Definition parseJsonFromText (content : jsstring) : Result (json number) :=
  match JSON_parse content with
  | Ok value => Ok value
  | Err _ =>
      match extractJsonBlock content with
      | Some ((_ :: _) as extracted) => JSON_parse extracted
      | _ => Err (js "No JSON block found in LLM response.")
      end
  end.

Definition keysOf (config : IProjectConfig) : list jsstring :=
  map key (analyticsSchema config).

(** What a property of a row holds: a string, or the member of
    [Object.prototype] (a method, or under [__proto__] the prototype
    itself) that a read of a missing name has found there. *)
Inductive RowValue :=
  | Text (text : jsstring)
  | Inherited (name : jsstring).

(** [parsed[name] ?? ""] for an object of strings: an own property, else
    what the prototype holds under the name, else the empty string. *)
Definition readOrEmpty (parsed : gmap jsstring jsstring) (name : jsstring) : RowValue :=
  match parsed !! name with
  | Some text => Text text
  | None => if inherited name then Inherited name else Text []
  end.

Definition normalizeRow (parsed : gmap jsstring jsstring) (config : IProjectConfig)
  : gmap jsstring RowValue :=
  foldl (fun row metric =>
           assignProperty (key metric) (readOrEmpty parsed (key metric)) row)
        ∅ (analyticsSchema config).

(** [AnalysisValueSchema]: a string, a number or a boolean, as a string. *)
Definition AnalysisValueSchema (value : json number) : option jsstring :=
  match value with
  | JStr s => Some s
  | JNum n => Some (String_number n)
  | JBool true => Some (js "true")
  | JBool false => Some (js "false")
  | _ => None
  end.

(** [AnalysisRowSchema.safeParse(parsed)]: the data on success.  The
    data is a new object that takes the pairs one by one, so that a
    member [__proto__] of the parsed object is no property of it. *)
Definition AnalysisRowSchema (parsed : json number) : option (gmap jsstring jsstring) :=
  match parsed with
  | JObj members =>
      entries ← mapM (fun kv => pair (fst kv) <$> AnalysisValueSchema (snd kv)) members;
      Some (foldl (fun data kv => assignProperty (fst kv) (snd kv) data) ∅ entries)
  | _ => None
  end.

Definition parseAnalysisRow (content : jsstring) (config : IProjectConfig)
  : Result (gmap jsstring RowValue) :=
  let sanitized := trim (stripArtifacts content) in
  match parseJsonFromText sanitized with
  | Err message => Err (js "Failed to parse analysis JSON: " ++ message)
  | Ok parsed =>
      match AnalysisRowSchema parsed with
      | None => Err (js "Invalid analysis payload: " ++ zodErrorMessage parsed)
      | Some data => Ok (normalizeRow data config)
      end
  end.

(** *** The loose parse: [key \s* [\-—:=] \s* (.+)] under the i flag *)

(** The separators of the pattern: hyphen-minus, em dash, colon, equals. *)
Definition separators : list N := [45; 8212; 58; 61].

(** Code units that are syntax in a pattern; a key without them matches
    as it is written. *)
Definition patternSyntax : list N :=
  [92; 94; 36; 46; 42; 43; 63; 40; 41; 91; 93; 123; 125; 124].

Definition isLiteralKey (key : jsstring) : bool :=
  forallb (fun c => negb (bool_decide (c ∈ patternSyntax))) key.

(** The literal [p] at the head of [s], up to case folding. *)
Fixpoint startsWithFolded (p s : jsstring) : bool :=
  match p, s with
  | [], _ => true
  | a :: p', b :: s' => (canonicalize a =? canonicalize b) && startsWithFolded p' s'
  | _ :: _, [] => false
  end.

(** [(.+)]: the longest run of code units up to a line terminator. *)
Fixpoint dotRun (s : jsstring) : jsstring :=
  match s with
  | c :: r => if isLineTerminator c then [] else c :: dotRun r
  | [] => []
  end.

Definition dotPlus (s : jsstring) : option jsstring :=
  match dotRun s with
  | [] => None
  | g => Some g
  end.

(** The pattern after the key: group 1 of a match that starts here. *)
Definition matchAfterKey (s : jsstring) : option jsstring :=
  match trimStart s with
  | c :: r =>
      if bool_decide (canonicalize c ∈ map canonicalize separators)
      then firstSome dotPlus (wsStarAlternatives r)
      else None
  | [] => None
  end.

(** [sanitized.match(pattern)?.[1]] for a literal key: leftmost start. *)
Fixpoint literalKeyMatch (key : jsstring) (s : jsstring) : option jsstring :=
  match (if startsWithFolded key s then matchAfterKey (drop (length key) s) else None) with
  | Some g => Some g
  | None => match s with
            | [] => None
            | _ :: r => literalKeyMatch key r
            end
  end.

Definition looseMatch (key : jsstring) (sanitized : jsstring) : Result (option jsstring) :=
  if isLiteralKey key then Ok (literalKeyMatch key sanitized)
  else patternKeyMatch key sanitized.

(** The loop of [parseLooseAnalysisRow] over the schema. *)
Fixpoint looseLoop (sanitized : jsstring) (schema : list IAnalyticsMetric)
    (row : gmap jsstring jsstring) : Result (gmap jsstring jsstring) :=
  match schema with
  | [] => Ok row
  | metric :: rest =>
      match looseMatch (key metric) sanitized with
      | Err message => Err message
      | Ok matched =>
          looseLoop sanitized rest
            (assignProperty (key metric)
               (match matched with Some g => trim g | None => [] end) row)
      end
  end.

Definition parseLooseAnalysisRow (content : jsstring) (config : IProjectConfig)
  : Result (gmap jsstring jsstring) :=
  let sanitized := trim (stripArtifacts content) in
  looseLoop sanitized (analyticsSchema config) ∅.

Definition hasAnyValue (row : gmap jsstring jsstring) : bool :=
  existsb (fun kv => truthy (trim (snd kv))) (map_to_list row).

(** *** sanitizeValue *)

(** [value.replace(/\s+/g, " ")]. *)
Fixpoint collapseWhiteSpace (inRun : bool) (s : jsstring) : jsstring :=
  match s with
  | [] => []
  | c :: r =>
      if isWhiteSpace c
      then if inRun then collapseWhiteSpace true r else 32 :: collapseWhiteSpace true r
      else c :: collapseWhiteSpace false r
  end.

Fixpoint dropUntilColon (s : jsstring) : option jsstring :=
  match s with
  | [] => None
  | c :: r => if c =? 58 then Some r else dropUntilColon r
  end.

(** [cleaned.replace(/^word[^:]*:\s*/i, "")]. *)
Definition stripPrefix (cleaned : jsstring) (word : jsstring) : jsstring :=
  if startsWithFolded word cleaned then
    match dropUntilColon (drop (length word) cleaned) with
    | Some rest => trimStart rest
    | None => cleaned
    end
  else cleaned.

Definition prefixWords : list jsstring :=
  [ js "Пользователь"; js "Из ответов"; js "В диалоге";
    js "Критичные функции"; js "Основные риски" ].

(** [s.split(sep)] for a separator that is not empty; [skip] code units
    of a separator are still to be dropped, [current] is the part being
    read. *)
Fixpoint splitFrom (sep : jsstring) (skip : nat) (current : jsstring) (s : jsstring)
  : list jsstring :=
  match s with
  | [] => [current]
  | c :: r =>
      match skip with
      | S k => splitFrom sep k current r
      | O =>
          if startsWith sep s
          then current :: splitFrom sep (length sep - 1) [] r
          else splitFrom sep 0 (current ++ [c]) r
      end
  end.

Definition split (sep : jsstring) (s : jsstring) : list jsstring :=
  splitFrom sep 0 [] s.

Fixpoint takeUntil (close : N) (s : jsstring) : jsstring :=
  match s with
  | c :: r => if c =? close then [] else c :: takeUntil close r
  | [] => []
  end.

(** Group 1 of [/open([^close]{3,160})close/]: leftmost start. *)
Fixpoint quotedMatch (open close : N) (s : jsstring) : option jsstring :=
  match s with
  | [] => None
  | c :: r =>
      let inner := takeUntil close r in
      if (c =? open)
         && (3 <=? length inner)%nat && (length inner <=? 160)%nat
         && startsWith [close] (drop (length inner) r)
      then Some inner
      else quotedMatch open close r
  end.

Definition sanitizeValue (value : jsstring) : jsstring :=
  let cleaned := trim (collapseWhiteSpace false value) in
  let cleaned := foldl stripPrefix cleaned prefixWords in
  let cleaned :=
    if includes (js "->") cleaned
    then match last (split (js "->") cleaned) with
         | Some part => trim part
         | None => cleaned
         end
    else cleaned in
  let cleaned :=
    if includes (js ":") cleaned then
      let tail := trim (default [] (last (split (js ":") cleaned))) in
      if (0 <? length tail)%nat && (length tail <? length cleaned)%nat
      then tail else cleaned
    else cleaned in
  let cleaned :=
    if includes (js ".") cleaned then
      let firstSentence := trim (default [] (head (split (js ".") cleaned))) in
      if (0 <? length firstSentence)%nat && (length firstSentence <? length cleaned)%nat
      then firstSentence else cleaned
    else cleaned in
  let quoteMatch :=
    match quotedMatch dquote dquote cleaned with
    | Some g => Some g
    | None => quotedMatch 171 187 cleaned
    end in
  match quoteMatch with
  | Some ((_ :: _) as g) => trim g
  | _ => cleaned
  end.

Definition textOf (value : RowValue) : option jsstring :=
  match value with
  | Text text => Some text
  | Inherited _ => None
  end.

(** The TypeError of [value.replace(...)] on a value that is no string,
    in the words of V8. *)
Definition replaceOfMethod : jsstring := js "value.replace is not a function".

(** [enrichRow(row, session)]; [Err] when it throws: [sanitizeValue]
    calls [replace] on every value of the row. *)
Definition enrichRow (row : gmap jsstring RowValue) (session : IInterviewSession)
  : Result (gmap jsstring jsstring) :=
  if forallb (fun kv => bool_decide (is_Some (textOf (snd kv)))) (map_to_list row)
  then Ok (omap (fun value => sanitizeValue <$> textOf value) row
           ∪ {[ js "personaId" := personaId session;
                js "segmentId" := segmentId session ]})
  else Err replaceOfMethod.

Definition buildEmptyRow (config : IProjectConfig) : gmap jsstring RowValue :=
  normalizeRow ∅ config.

Definition buildAnalysisMessages (prompt : jsstring) (language : jsstring)
  : list OpenAIMessage :=
  let isRussian := startsWith (js "ru") (toLowerCase language) in
  let userPrompt :=
    if isRussian
    then js "Верни только JSON по шаблону. Без комментариев."
    else js "Return only JSON in " ++ language ++ js ". No extra commentary." in
  [ {| role := system; content := prompt |};
    {| role := user; content := userPrompt |} ].

Definition analysisRequest (prompt model language : jsstring) : ChatCompletionRequest :=
  {| model := model; messages := buildAnalysisMessages prompt language;
     temperature := Some 0%Z; max_tokens := Some 250%Z |}.

(** The for loop of [requestAnalysisContent] over the attempts that are
    left. *)
Fixpoint requestAnalysisLoop (client : LlmClient) (prompt model language : jsstring)
    (maxAttempts : nat) (attempts : list nat) : M jsstring :=
  match attempts with
  | [] => ret []
  | attempt :: rest =>
      let* response := createChatCompletion client (analysisRequest prompt model language) in
      let content := extractMessageText (firstMessage response) in
      if truthy content then ret content
      else
        await log warn (js "Analyzer response missing content for " ++ model
                        ++ js " (attempt " ++ String_N (N.of_nat attempt) ++ js "/"
                        ++ String_N (N.of_nat maxAttempts) ++ js ").") then
        requestAnalysisLoop client prompt model language maxAttempts rest
  end.

Definition requestAnalysisContent (client : LlmClient) (prompt model language : jsstring)
  : M jsstring :=
  requestAnalysisLoop client prompt model language 3 [1; 2; 3]%nat.

(** A [catch] block of the loop over the models: the strict parse of
    [content] threw [message].  [Some row] is the [break] with the loose
    row, [None] falls out of the block. *)
Definition catchParse (config : IProjectConfig) (model content message : jsstring)
    (failedLine : jsstring) : M (option (gmap jsstring RowValue)) :=
  match parseLooseAnalysisRow content config with
  | Err thrown => throw thrown
  | Ok looseRow =>
      if hasAnyValue looseRow then
        await log warn (js "Analyzer fallback parse used for " ++ model ++ js ": "
                        ++ message) then
        ret (Some (Text <$> looseRow))
      else
        await log warn (failedLine ++ message) then
        ret None
  end.

Definition reminder : jsstring :=
  js "REMINDER: Respond ONLY with JSON matching the template. No extra text.".

(** The request of the one retry: the prompt, an empty line and the
    reminder. *)
Definition reminderRequest (config : IProjectConfig) (prompt model : jsstring)
  : ChatCompletionRequest :=
  let retryPrompt := join [10] [prompt; []; reminder] in
  analysisRequest retryPrompt model (settingsLang config).

(** The loop body after the response to the reminder request. *)
Definition afterReminder (config : IProjectConfig) (model : jsstring)
    (retryResponse : ChatCompletionResponse) : M (option (gmap jsstring RowValue)) :=
  let retryContent := extractMessageText (firstMessage retryResponse) in
  if negb (truthy retryContent) then
    await log warn (js "Analyzer retry response missing for " ++ model ++ js ".") then
    ret None
  else
    match parseAnalysisRow retryContent config with
    | Ok row => ret (Some row)
    | Err message =>
        catchParse config model retryContent message
          (js "Analyzer retry parse failed for " ++ model ++ js ": ")
    end.

(** The first [try] of the loop body, on the content of the first
    response. *)
Definition firstParse (config : IProjectConfig) (model content : jsstring)
  : M (option (gmap jsstring RowValue)) :=
  match parseAnalysisRow content config with
  | Ok row => ret (Some row)
  | Err message =>
      catchParse config model content message
        (js "Analyzer parse failed for " ++ model ++ js ", retrying once: ")
  end.

(** One iteration of the loop over [modelsToTry]: [Some row] is a
    [break] with [resolvedRow], [None] goes on to the next model. *)
Definition tryModel (config : IProjectConfig) (client : LlmClient)
    (prompt model : jsstring) : M (option (gmap jsstring RowValue)) :=
  let* content := requestAnalysisContent client prompt model (settingsLang config) in
  if negb (truthy content) then
    await log warn (js "Analyzer response missing for " ++ model
                    ++ js ", trying fallback.") then
    ret None
  else
    let* first := firstParse config model content in
    match first with
    | Some row => ret (Some row)
    | None =>
        let* retryResponse :=
          createChatCompletion client (reminderRequest config prompt model) in
        afterReminder config model retryResponse
    end.

(** The loop over [modelsToTry]: the resolved row and model, if any. *)
Fixpoint resolve (config : IProjectConfig) (client : LlmClient) (prompt : jsstring)
    (modelsToTry : list jsstring) : M (option (gmap jsstring RowValue * jsstring)) :=
  match modelsToTry with
  | [] => ret None
  | model :: rest =>
      let* resolved := tryModel config client prompt model in
      match resolved with
      | Some row => ret (Some (row, model))
      | None => resolve config client prompt rest
      end
  end.

(** The body of the loop of [analyzeInterviews] over the sessions. *)
Definition analyzeSession (config : IProjectConfig) (client : LlmClient)
    (fallback : FallbackModels) (prompt : jsstring) (session : IInterviewSession)
  : M (gmap jsstring jsstring) :=
  let modelsToTry := modelsAnalyzer config :: models fallback in
  let* resolved := resolve config client prompt modelsToTry in
  match resolved with
  | None =>
      await log warn
        (js "Analyzer response missing after all fallbacks, writing empty row.") then
      orThrow (enrichRow (buildEmptyRow config) session)
  | Some (resolvedRow, resolvedModel) =>
      await (if truthy resolvedModel
                && negb (bool_decide (resolvedModel = modelsAnalyzer config))
             then log info (js "Analyzer fallback model used for "
                            ++ personaId session ++ js ": " ++ resolvedModel)
             else ret tt) then
      orThrow (enrichRow resolvedRow session)
  end.

(** [loadSessions] of the analysis stage: every [.json] file of the logs
    directory must read and parse. *)
Definition loadSessions : M (list IInterviewSession) :=
  fun w =>
    match logsDir w with
    | None => (Thrown (ioError w), w)
    | Some files =>
        match mapM fileSession
                (List.filter (fun f => endsWith (js ".json") (fileName f)) files) with
        | Some sessions => (Returned sessions, w)
        | None => (Thrown (ioError w), w)
        end
    end.

Definition readFallbackModels (primaryModel : jsstring) : M FallbackModels :=
  fun w => (Returned (loadFallbackModels (fallbackModelsFile w) (Some primaryModel)), w).

Fixpoint analyzeSessions (config : IProjectConfig) (client : LlmClient)
    (fallback : FallbackModels)
    (buildAnalyticsPrompt : IProjectConfig -> IInterviewSession -> jsstring)
    (sessions : list IInterviewSession) : M (list (gmap jsstring jsstring)) :=
  match sessions with
  | [] => ret []
  | session :: rest =>
      let prompt := buildAnalyticsPrompt config session in
      let* row := analyzeSession config client fallback prompt session in
      let* rows := analyzeSessions config client fallback buildAnalyticsPrompt rest in
      ret (row :: rows)
  end.

(** [analyzeInterviews]; the wording of the prompt
    ([buildAnalyticsPrompt]) is a parameter, and the writing of
    [analysis.csv] and [summary.json] with its two closing log lines is
    left out. *)
Definition analyzeInterviews
    (buildAnalyticsPrompt : IProjectConfig -> IInterviewSession -> jsstring)
    (config : IProjectConfig) : M (list (gmap jsstring jsstring)) :=
  let* client := constructLlmClient defaultOptions in
  let* sessions := loadSessions in
  await log info (js "Analyzing " ++ String_N (N.of_nat (length sessions))
                  ++ js " sessions...") then
  let* fallback := readFallbackModels (modelsAnalyzer config) in
  await (match models fallback with
         | [] => ret tt
         | _ =>
             log info (js "Analyzer fallback models ("
                       ++ match source fallback with
                          | fromFile => js "file"
                          | fromDefault => js "default"
                          end
                       ++ js "): " ++ join (js ", ") (models fallback))
         end) then
  analyzeSessions config client fallback buildAnalyticsPrompt sessions.

End WithRuntime.

End Analyze.

(** ** stages/3-analyze: the summary *)

Module Summary.

Import Analyze.

Section WithRuntime.
Context {rt : JsRuntime}.

(** [classifyYesNoMaybe(value)]; the result is one of the four strings
    yes, no, maybe and unknown. *)
Definition classifyYesNoMaybe (value : jsstring) : jsstring :=
  let normalized := toLowerCase (trim value) in
  if negb (truthy normalized) then js "unknown"
  else if includes (js "нет") normalized then js "no"
  else if includes (js "да") normalized then js "yes"
  else if includes (js "возмож") normalized
          || includes (js "может") normalized
          || includes (js "после") normalized
          || includes (js "не уверен") normalized
  then js "maybe"
  else js "unknown".

(** [value.split(/[,;]\s*/)]: a separator is a comma or a semicolon
    together with the white space that follows it; [afterSeparator]
    while that white space is being passed over, [current] is the part
    being read. *)
Fixpoint splitOnSeparators (afterSeparator : bool) (current : jsstring) (s : jsstring)
  : list jsstring :=
  match s with
  | [] => [current]
  | c :: r =>
      if afterSeparator && isWhiteSpace c then splitOnSeparators true current r
      else if (c =? 44) || (c =? 59) then current :: splitOnSeparators true [] r
      else splitOnSeparators false (current ++ [c]) r
  end.

Definition splitItems (value : jsstring) : list jsstring :=
  List.filter (fun item => (0 <? length item)%nat)
              (map trim (splitOnSeparators false [] value)).

(** An entry of the [Map] of [topItems]: the normalized item, its count
    and the label of its first occurrence. *)
Record ItemCount := {
  normalizedItem : jsstring;
  itemCount : nat;
  itemLabel : jsstring;
}.

(** [counts.get(normalized)] followed by the increment or by
    [counts.set]: the entries stay in the order of their insertion. *)
Fixpoint countItem (item : jsstring) (counts : list ItemCount) : list ItemCount :=
  match counts with
  | [] => [{| normalizedItem := toLowerCase item; itemCount := 1; itemLabel := item |}]
  | entry :: rest =>
      if eqb (normalizedItem entry) (toLowerCase item)
      then {| normalizedItem := normalizedItem entry;
              itemCount := itemCount entry + 1;
              itemLabel := itemLabel entry |} :: rest
      else entry :: countItem item rest
  end.

(** [entries.sort((a, b) => b.count - a.count)]: the sort is stable, so
    an entry goes behind those that count as much and were there before. *)
Fixpoint insertByCount (entry : ItemCount) (sorted : list ItemCount) : list ItemCount :=
  match sorted with
  | [] => [entry]
  | other :: rest =>
      if (itemCount other <? itemCount entry)%nat
      then entry :: other :: rest
      else other :: insertByCount entry rest
  end.

Definition sortByCount (entries : list ItemCount) : list ItemCount :=
  foldl (fun sorted entry => insertByCount entry sorted) [] entries.

(** [topItems(rows, key, limit)]. *)
Definition topItems (rows : list (gmap jsstring jsstring)) (field : jsstring) (limit : nat)
  : list jsstring :=
  let counts :=
    foldl (fun counts row =>
             foldl (fun counts item => countItem item counts) counts
                   (splitItems (default [] (row !! field))))
          [] rows in
  map itemLabel (take limit (sortByCount counts)).

Record Bucket := {
  count : nat;
  would_use : gmap jsstring nat;
  recommendation : gmap jsstring nat;
  top_needed_features : list jsstring;
  top_trust_risks : list jsstring;
  top_value_metrics : list jsstring;
  personas : list (gmap jsstring jsstring);
}.

Definition newBucket : Bucket :=
  {| count := 0; would_use := ∅; recommendation := ∅;
     top_needed_features := []; top_trust_risks := []; top_value_metrics := [];
     personas := [] |}.

(** The TypeError of [value.trim()] on [undefined], in the words of V8. *)
Definition trimOfUndefined : jsstring :=
  js "Cannot read properties of undefined (reading 'trim')".

(** [classifyYesNoMaybe(row[field])]: the field of a row that does not
    have it is [undefined], and [trim] throws on it. *)
Definition classifyField (row : gmap jsstring jsstring) (field : jsstring)
  : Result jsstring :=
  match row !! field with
  | Some value => Ok (classifyYesNoMaybe value)
  | None => Err trimOfUndefined
  end.

(** The TypeError of [undefined[name]], in the words of V8. *)
Definition readOfUndefined (name : jsstring) : jsstring :=
  js "Cannot read properties of undefined (reading '" ++ name ++ js "')".

(** [row.segmentId] as a property key. *)
Definition segmentKey (row : gmap jsstring jsstring) : jsstring :=
  default (js "undefined") (row !! js "segmentId").

Definition tally (key : jsstring) (counts : gmap jsstring nat) : gmap jsstring nat :=
  <[key := (default 0 (counts !! key) + 1)%nat]> counts.

(** The first loop of [buildSummary], over the rows.  [perSegment] is
    an object literal: under an inherited name [perSegment[name]] is
    what the prototype holds, which is not nullish, takes a [count] and
    has no [would_use].  A segment of such a name never gets a bucket of
    its own: the tally of [would_use] is read from [undefined] and
    throws. *)
Fixpoint collectBuckets (rows : list (gmap jsstring jsstring))
    (perSegment : gmap jsstring Bucket) : Result (gmap jsstring Bucket) :=
  match rows with
  | [] => Ok perSegment
  | row :: rest =>
      let bucket := default newBucket (perSegment !! segmentKey row) in
      match classifyField row (js "would_use") with
      | Err thrown => Err thrown
      | Ok wouldUseKey =>
          if inherited (segmentKey row) then Err (readOfUndefined wouldUseKey)
          else
            match classifyField row (js "recommendation") with
            | Err thrown => Err thrown
            | Ok recommendationKey =>
                let bucket :=
                  {| count := count bucket + 1;
                     would_use := tally wouldUseKey (would_use bucket);
                     recommendation := tally recommendationKey (recommendation bucket);
                     top_needed_features := top_needed_features bucket;
                     top_trust_risks := top_trust_risks bucket;
                     top_value_metrics := top_value_metrics bucket;
                     personas := personas bucket ++ [row] |} in
                collectBuckets rest (<[segmentKey row := bucket]> perSegment)
            end
      end
  end.

(** The body of the second loop, over the buckets. *)
Definition rankItems (bucket : Bucket) : Bucket :=
  {| count := count bucket;
     would_use := would_use bucket;
     recommendation := recommendation bucket;
     top_needed_features := topItems (personas bucket) (js "needed_features") 3;
     top_trust_risks := topItems (personas bucket) (js "trust_risks") 3;
     top_value_metrics := topItems (personas bucket) (js "value_metric") 3;
     personas := personas bucket |}.

Record SummaryReport := {
  project : jsstring;
  total_sessions : nat;
  summarySegments : gmap jsstring nat;
  per_segment : gmap jsstring Bucket;
}.

(** [buildSummary(rows, config)]; [Err] when it throws. *)
Definition buildSummary (rows : list (gmap jsstring jsstring)) (config : IProjectConfig)
  : Result SummaryReport :=
  match collectBuckets rows ∅ with
  | Err thrown => Err thrown
  | Ok collected =>
      let perSegment := rankItems <$> collected in
      let segmentsSummary :=
        foldl (fun acc segment =>
                 assignProperty (segId segment)
                   (default 0%nat (count <$> (perSegment !! segId segment))) acc)
              (∅ : gmap jsstring nat) (segments config) in
      Ok {| project := metaProjectName config;
            total_sessions := length rows;
            summarySegments := segmentsSummary;
            per_segment := perSegment |}
  end.

(** [writeSummary(outputDir, rows, config)]: the summary is built before
    the file is opened.  The file [summary.json] is no part of the
    world, and the model returns what is written in place of its path. *)
Definition writeSummary (rows : list (gmap jsstring jsstring)) (config : IProjectConfig)
  : M SummaryReport :=
  match buildSummary rows config with
  | Ok summary => ret summary
  | Err thrown => throw thrown
  end.

(** [analyzeInterviews] with the steps that follow its loop: the rows go
    to [analysis.csv] (no part of the world either), the summary is
    written, and two lines are logged.  [csvPath] and [summaryPath] are
    the paths of the two files. *)
Definition analyzeInterviewsWithSummary
    (buildAnalyticsPrompt : IProjectConfig -> IInterviewSession -> jsstring)
    (config : IProjectConfig) (csvPath summaryPath : jsstring)
  : M (list (gmap jsstring jsstring)) :=
  let* rows := analyzeInterviews buildAnalyticsPrompt config in
  let* _ := writeSummary rows config in
  await log info (js "Analysis complete. CSV saved to " ++ csvPath) then
  await log info (js "Summary saved to " ++ summaryPath) then
  ret rows.

End WithRuntime.

End Summary.

(** ** utils/progress *)

Module Progress.

(** The tracker without its rendering: [label], [width] and
    [lastRender] only shape the bar that is written.  Totals and steps
    are whole numbers. *)
Record ProgressTracker := {
  total : Z;
  current : Z;
}.

(** [new ProgressTracker(total)]. *)
Definition newProgressTracker (total : Z) : ProgressTracker :=
  {| total := Z.max 0 total; current := 0 |}.

Definition tick (self : ProgressTracker) (step : Z) : ProgressTracker :=
  if (total self <=? 0)%Z then self
  else {| total := total self; current := Z.min (total self) (current self + step) |}.

Definition complete (self : ProgressTracker) : ProgressTracker :=
  if (total self <=? 0)%Z then self
  else {| total := total self; current := total self |}.

(** [reportProgress(step)] on [activeTracker]. *)
Definition reportProgress (activeTracker : option ProgressTracker) (step : Z)
  : option ProgressTracker :=
  match activeTracker with
  | Some tracker => Some (tick tracker step)
  | None => None
  end.

End Progress.

(** ** core/ConfigLoader: normalizeConfig *)

Module ConfigLoader.

Section WithNumber.
Context {number : Type}.

(** [object[key]] on a value; [None] is [undefined]. *)
Definition property (key : jsstring) (value : json number) : option (json number) :=
  match value with
  | JObj members => member key members
  | _ => None
  end.

(** [object[key] = value]: the value of an existing key is replaced
    where it stands, a new key goes last. *)
Fixpoint setProperty (key : jsstring) (value : json number)
    (members : list (jsstring * json number)) : list (jsstring * json number) :=
  match members with
  | [] => [(key, value)]
  | (k, v) :: rest =>
      if eqb k key then (key, value) :: rest else (k, v) :: setProperty key value rest
  end.

(** [delete object[key]]. *)
Definition deleteProperty (key : jsstring) (members : list (jsstring * json number))
  : list (jsstring * json number) :=
  List.filter (fun kv => negb (eqb (fst kv) key)) members.

(** The language the settings ask for, before it is trimmed. *)
Definition rawLang (settings : list (jsstring * json number)) : jsstring :=
  match member (js "lang") settings with
  | Some (JStr lang) => lang
  | _ =>
      match member (js "language") settings with
      | Some (JStr language) => language
      | _ => []
      end
  end.

(** The block that rewrites the settings object. *)
Definition normalizeSettings (settings : list (jsstring * json number))
  : list (jsstring * json number) :=
  let raw := rawLang settings in
  let normalizedLang := if (0 <? length (trim raw))%nat then trim raw else js "ru" in
  deleteProperty (js "language") (setProperty (js "lang") (JStr normalizedLang) settings).

(** [normalizeConfig(parsed)].  The code also sets the property on an
    array that stands in the place of the settings; an array with a
    property is no JSON value, the schema refuses an array there with
    or without it, and the model leaves the array as it is. *)
Definition normalizeConfig (parsed : json number) : json number :=
  match parsed with
  | JObj members =>
      match member (js "settings") members with
      | Some (JObj settings) =>
          JObj (setProperty (js "settings") (JObj (normalizeSettings settings)) members)
      | _ => parsed
      end
  | _ => parsed
  end.

End WithNumber.

End ConfigLoader.

(** * Properties *)

(** ** The extractor *)

Section Extractor.

(** The two fixtures of the specification. *)
Definition proseFixture : jsstring :=
  js "Here is the result: {" ++ dq ++ js "a" ++ dq ++ js ": 1} thanks".

Definition objectOfProse : jsstring :=
  js "{" ++ dq ++ js "a" ++ dq ++ js ": 1}".

Definition braceInStringFixture : jsstring :=
  js "{" ++ dq ++ js "a" ++ dq ++ js ": " ++ dq ++ js "} " ++ dq ++ js "}".

(** Inside a string the scan only looks for the closing quote. *)
Lemma scanFrom_inside_string open close body rest i d :
  Forall (fun c => c <> dquote /\ c <> backslash) body ->
  scanFrom open close (body ++ dquote :: rest) i
    {| depth := d; inString := true; escape := false |}
  = scanFrom open close rest (i + length body + 1)
      {| depth := d; inString := false; escape := false |}.
Proof.
  intros Hbody. revert i.
  induction Hbody as [| c body [Hq Hb] _ IH]; intros i.
  - simpl. unfold scanStep. simpl.
    replace (i + 0 + 1)%nat with (S i) by lia. reflexivity.
  - simpl. unfold scanStep at 1. simpl.
    destruct (N.eqb_spec c backslash) as [-> |_]; [contradiction|].
    destruct (N.eqb_spec c dquote) as [-> |_]; [contradiction|].
    rewrite IH. f_equal. lia.
Qed.

(** C8: without a fenced block the extractor finds its candidate by
    bracket matching that skips over double-quoted strings: the prose
    fixture yields exactly its object, the object whose string value
    holds a closing brace is returned whole, and in general a string
    body without quote or backslash leaves the bracket depth as it was. *)
Theorem extractJsonBlock_brackets_skip_strings :
  extractJsonBlock proseFixture = Some objectOfProse
  /\ extractJsonBlock braceInStringFixture = Some braceInStringFixture
  /\ (forall open close body rest i d,
        Forall (fun c => c <> dquote /\ c <> backslash) body ->
        scanFrom open close (dquote :: body ++ dquote :: rest) i
          {| depth := d; inString := false; escape := false |}
        = scanFrom open close rest (i + length body + 2)
            {| depth := d; inString := false; escape := false |}).
Proof.
  split; [vm_compute; reflexivity|].
  split; [vm_compute; reflexivity|].
  intros open close body rest i d Hbody.
  cbn [scanFrom]. unfold scanStep at 1. cbn [inString escape depth].
  change (dquote =? dquote) with true. cbn iota.
  rewrite scanFrom_inside_string by assumption. f_equal. lia.
Qed.

Lemma extractJsonBlock_brackets_skip_strings_witness :
  scanFrom lbrace rbrace (dquote :: js "}{" ++ dquote :: js "}") 1
    {| depth := 1; inString := false; escape := false |}
  = scanFrom lbrace rbrace (js "}") (1 + length (js "}{") + 2)
      {| depth := 1; inString := false; escape := false |}.
Proof.
  apply (proj2 (proj2 extractJsonBlock_brackets_skip_strings)).
  repeat constructor; discriminate.
Defined.

End Extractor.

(** ** The completion client *)

Section CompletionClient.

Variable self : LlmClient.
Variable payload : ChatCompletionRequest.

(** The loop of the client ends before its fuel does. *)
Lemma retryLoop_total fuel attempt backoff w :
  (attempt <= maxRetries self < attempt + fuel)%nat ->
  fst (retryLoop self payload fuel attempt backoff w) <> OutOfFuel.
Proof.
  revert attempt backoff w.
  induction fuel as [| fuel IH]; intros attempt backoff w Hfuel.
  - lia.
  - simpl. destruct (backend w (length (posted w)) payload) as [response | error].
    + unfold bind, reportProgress, ret. simpl. discriminate.
    + destruct (negb (shouldRetry error) || (maxRetries self <=? attempt)%nat) eqn:Hstop.
      * unfold throw. simpl. discriminate.
      * apply orb_false_iff in Hstop as [_ Hle].
        apply Nat.leb_gt in Hle.
        unfold bind, sleep. apply IH. lia.
Qed.

Lemma createChatCompletion_total w :
  fst (createChatCompletion self payload w) <> OutOfFuel.
Proof. apply retryLoop_total. lia. Qed.

Definition rateLimited (error : RequestError) : Prop := status error = Some 429%Z.

Lemma rateLimited_shouldRetry error : rateLimited error -> shouldRetry error = true.
Proof.
  unfold rateLimited, shouldRetry. intros ->.
  rewrite (bool_decide_eq_true_2 (Some 429%Z = Some 429%Z)) by reflexivity.
  destruct (isTimeout error); reflexivity.
Qed.

Definition sumZ (l : list Z) : Z := foldr Z.add 0%Z l.

(** C1: a backend that rejects twice with status 429 and then responds
    makes the client return that response after exactly two retries
    (three requests in all); it sleeps the larger of the backoff and the
    server's retry delay before each retry, the backoff being the
    configured initial value and then its double, so that it sleeps at
    least three times the initial value in total.  The retry budget must
    allow two retries, as the default of six does. *)
Theorem createChatCompletion_retries_twice w e1 e2 response :
  (2 <= maxRetries self)%nat ->
  backend w (length (posted w)) payload = Rejects e1 -> rateLimited e1 ->
  backend w (S (length (posted w))) payload = Rejects e2 -> rateLimited e2 ->
  backend w (S (S (length (posted w)))) payload = Responds response ->
  exists w',
    createChatCompletion self payload w = (Returned response, w')
    /\ posted w' = posted w ++ [payload; payload; payload]
    /\ exists d1 d2,
         slept w' = slept w ++ [d1; d2]
         /\ d1 = Z.max (initialBackoffMs self) (retryAfterMs e1)
         /\ d2 = Z.max (initialBackoffMs self * 2) (retryAfterMs e2)
         /\ (initialBackoffMs self + 2 * initialBackoffMs self <= d1 + d2)%Z
         /\ ticks w' = (ticks w + 1)%nat.
Proof.
  intros Hbudget H1 R1 H2 R2 H3.
  unfold createChatCompletion.
  destruct (maxRetries self) as [| [| n]] eqn:Hmax; [lia | lia |].
  cbn [retryLoop]. unfold post at 1. rewrite H1.
  rewrite (rateLimited_shouldRetry _ R1). rewrite Hmax.
  cbn [negb orb Nat.leb]. unfold bind at 1, sleep at 1.
  unfold post at 1. cbn [posted setSlept setPosted backend].
  rewrite length_app. cbn [length]. rewrite Nat.add_1_r.
  rewrite H2. rewrite (rateLimited_shouldRetry _ R2).
  cbn [negb orb Nat.leb Nat.add]. unfold bind at 1, sleep at 1.
  unfold post at 1. cbn [posted setSlept setPosted backend].
  rewrite !length_app. cbn [length]. rewrite !Nat.add_1_r.
  rewrite H3.
  unfold bind, reportProgress, ret. cbn.
  eexists. split; [reflexivity|]. cbn.
  split; [by rewrite <- !app_assoc|].
  exists (Z.max (initialBackoffMs self) (retryAfterMs e1)),
         (Z.max (initialBackoffMs self * 2) (retryAfterMs e2)).
  split; [by rewrite <- !app_assoc|].
  repeat split; lia.
Qed.

End CompletionClient.

(** *** A scripted backend for the fixtures *)

Section Fixtures.

Definition textResponse (text : jsstring) : ChatCompletionResponse :=
  {| responseId := js "r";
     choices := [{| responseContent := Some text; reasoning := None |}] |}.

Definition statusError (code : Z) (retryAfter : option Z) : RequestError :=
  {| errIsAxios := true; errStatus := Some code; errCode := Some (js "ERR_BAD_REQUEST");
     errMessage := js "Request failed with status code " ++ String_Z code;
     errData := Some (js "{" ++ dq ++ js "error" ++ dq ++ js ":" ++ dq ++ js "no"
                      ++ dq ++ js "}");
     errRetryAfter := retryAfter |}.

(** A world with nothing posted, slept or logged yet. *)
Definition freshWorld (answers : nat -> ChatCompletionRequest -> BackendOutcome) : World :=
  {| backend := answers; posted := []; slept := []; ticks := 0; logged := [];
     logsDir := None; personasFile := None; fallbackModelsFile := None;
     respondentPromptFile := Some (js "Answer honestly.");
     interviewerPromptFile := Some (js "Interview politely.");
     ioError := js "ENOENT: no such file or directory";
     apiKey := Some (js "sk-test");
     clock := fun n => js "2024-01-01T00:00:0" ++ String_N (N.of_nat n) ++ js ".000Z";
     clockReads := 0 |}.

Definition someRequest : ChatCompletionRequest :=
  {| model := js "m"; messages := [{| role := user; content := js "hi" |}];
     temperature := None; max_tokens := None |}.

(** Rejects twice with 429, the second time asking for five seconds,
    then responds. *)
Definition twiceRateLimited : nat -> ChatCompletionRequest -> BackendOutcome :=
  fun n _ =>
    match n with
    | 0%nat => Rejects (statusError 429 None)
    | 1%nat => Rejects (statusError 429 (Some 5%Z))
    | _ => Responds (textResponse (js "ok"))
    end.

Example twiceRateLimited_run :
  let r := createChatCompletion (newLlmClient defaultOptions) someRequest
             (freshWorld twiceRateLimited) in
  fst r = Returned (textResponse (js "ok"))
  /\ slept (snd r) = [2000; 5000]%Z
  /\ length (posted (snd r)) = 3%nat
  /\ ticks (snd r) = 1%nat.
Proof. vm_compute. repeat split; reflexivity. Qed.

End Fixtures.

Lemma createChatCompletion_retries_twice_witness :
  exists w',
    createChatCompletion (newLlmClient defaultOptions) someRequest
      (freshWorld twiceRateLimited)
    = (Returned (textResponse (js "ok")), w')
    /\ posted w' = [] ++ [someRequest; someRequest; someRequest]
    /\ exists d1 d2,
         slept w' = [] ++ [d1; d2]
         /\ d1 = Z.max 2000 (retryAfterMs (statusError 429 None))
         /\ d2 = Z.max (2000 * 2) (retryAfterMs (statusError 429 (Some 5%Z)))
         /\ (2000 + 2 * 2000 <= d1 + d2)%Z
         /\ ticks w' = (0 + 1)%nat.
Proof.
  apply (createChatCompletion_retries_twice (newLlmClient defaultOptions) someRequest
           (freshWorld twiceRateLimited)
           (statusError 429 None) (statusError 429 (Some 5%Z))
           (textResponse (js "ok"))).
  - simpl. lia.
  - reflexivity.
  - reflexivity.
  - reflexivity.
  - reflexivity.
  - reflexivity.
Defined.

Section TerminalFailure.

Variable self : LlmClient.
Variable payload : ChatCompletionRequest.

(** C2: when the backend rejects the first request with a failure that
    is not transient, the client throws at once: one request, no retry,
    no sleep, no progress tick.  The message of the error holds the HTTP
    status when there is one, the message of the underlying error, and
    the serialized response body when there is one. *)
Theorem createChatCompletion_terminal_failure w error :
  backend w (length (posted w)) payload = Rejects error ->
  shouldRetry error = false ->
  createChatCompletion self payload w
  = (Thrown (failureMessage error), setPosted w (posted w ++ [payload]))
  /\ slept (snd (createChatCompletion self payload w)) = slept w
  /\ ticks (snd (createChatCompletion self payload w)) = ticks w
  /\ failureMessage error
     = js "LLM request failed" ++ statusInfo error ++ js ": " ++ errMessage error
       ++ details error
  /\ (forall s, status error = Some s -> s <> 0%Z ->
        statusInfo error = js " (status " ++ String_Z s ++ js ")")
  /\ (status error = None -> statusInfo error = [])
  /\ (forall body, errIsAxios error = true -> errData error = Some body ->
        body <> [] -> details error = js " - " ++ body).
Proof.
  intros Hback Hterminal.
  assert (Hrun : createChatCompletion self payload w
                 = (Thrown (failureMessage error), setPosted w (posted w ++ [payload]))).
  { unfold createChatCompletion. cbn [retryLoop]. unfold post.
    rewrite Hback, Hterminal. reflexivity. }
  rewrite Hrun. cbn [snd].
  split; [reflexivity|]. split; [reflexivity|]. split; [reflexivity|].
  split; [reflexivity|].
  split.
  - intros s Hs Hnz. unfold statusInfo. rewrite Hs.
    destruct (Z.eqb_spec s 0); [contradiction | reflexivity].
  - split.
    + intros Hs. unfold statusInfo. rewrite Hs. reflexivity.
    + intros body Haxios Hdata Hbody. unfold details, responseData.
      rewrite Haxios, Hdata. cbn [default]. destruct body; [contradiction | reflexivity].
Qed.

End TerminalFailure.

Lemma createChatCompletion_terminal_failure_witness :
  createChatCompletion (newLlmClient defaultOptions) someRequest
    (freshWorld (fun _ _ => Rejects (statusError 400 None)))
  = (Thrown (failureMessage (statusError 400 None)),
     setPosted (freshWorld (fun _ _ => Rejects (statusError 400 None)))
       ([] ++ [someRequest])).
Proof.
  apply (createChatCompletion_terminal_failure (newLlmClient defaultOptions) someRequest
           (freshWorld (fun _ _ => Rejects (statusError 400 None)))
           (statusError 400 None)).
  - reflexivity.
  - vm_compute. reflexivity.
Defined.

Example terminal_failure_message :
  failureMessage (statusError 400 None)
  = js "LLM request failed (status 400): Request failed with status code 400 - {"
    ++ dq ++ js "error" ++ dq ++ js ":" ++ dq ++ js "no" ++ dq ++ js "}".
Proof. vm_compute. reflexivity. Qed.

(** ** Reasoning about computations *)

Section Computations.

Context {A B : Type}.

Lemma bind_Returned_inv (m : M A) (k : A -> M B) w b w' :
  bind m k w = (Returned b, w') ->
  exists a w1, m w = (Returned a, w1) /\ k a w1 = (Returned b, w').
Proof.
  unfold bind. destruct (m w) as [[a | e |] w1]; intros H; try discriminate.
  exists a, w1. split; [reflexivity | exact H].
Qed.

Lemma bind_Returned_step (m : M A) (k : A -> M B) w a w1 :
  m w = (Returned a, w1) -> bind m k w = k a w1.
Proof. unfold bind. intros ->. reflexivity. Qed.

Lemma bind_Thrown_step (m : M A) (k : A -> M B) w e w1 :
  m w = (Thrown e, w1) -> bind m k w = (Thrown e, w1).
Proof. unfold bind. intros ->. reflexivity. Qed.

Lemma bind_total (m : M A) (k : A -> M B) w :
  fst (m w) <> OutOfFuel ->
  (forall a w1, fst (k a w1) <> OutOfFuel) ->
  fst (bind m k w) <> OutOfFuel.
Proof.
  unfold bind. intros Hm Hk. destruct (m w) as [[a | e |] w1]; simpl in *.
  - apply Hk.
  - discriminate.
  - contradiction.
Qed.

End Computations.

Lemma tryCatch_total {A} (m : M A) (handler : jsstring -> M A) w :
  fst (m w) <> OutOfFuel ->
  (forall e w1, fst (handler e w1) <> OutOfFuel) ->
  fst (tryCatch m handler w) <> OutOfFuel.
Proof.
  unfold tryCatch. intros Hm Hh. destruct (m w) as [[a | e |] w1]; simpl in *.
  - discriminate.
  - apply Hh.
  - contradiction.
Qed.

Create HintDb total.
#[local] Hint Resolve createChatCompletion_total : total.

(** ** The session runner *)

Section SessionRunner.

Import Simulate.

Variable self : InterviewSession.

(** The turns of a finished interview: for each step the interviewer's
    line with role user, then the respondent's answer with role
    assistant. *)
Definition transcript (turns : list (jsstring * jsstring)) : list OpenAIMessage :=
  flat_map (fun turn => [ {| role := user; content := fst turn |};
                          {| role := assistant; content := snd turn |} ]) turns.

Lemma transcript_length turns : length (transcript turns) = (2 * length turns)%nat.
Proof. induction turns as [| t turns IH]; simpl; [reflexivity | rewrite IH; lia]. Qed.

Lemma transcript_app t1 t2 : transcript (t1 ++ t2) = transcript t1 ++ transcript t2.
Proof. unfold transcript. apply flat_map_app. Qed.

Lemma requestContentLoop_total params maxAttempts fuel attempt w :
  (maxAttempts <= attempt + fuel)%nat ->
  fst (requestContentLoop self params maxAttempts fuel attempt w) <> OutOfFuel.
Proof.
  revert attempt w. induction fuel as [| fuel IH]; intros attempt w Hfuel.
  - simpl. destruct (Nat.ltb_spec attempt maxAttempts); [lia|].
    unfold throw. simpl. discriminate.
  - simpl. destruct (Nat.ltb_spec attempt maxAttempts); [| unfold throw; simpl; discriminate].
    apply bind_total; [auto with total|]. intros response w1.
    destruct (truthy _); [unfold ret; simpl; discriminate|].
    apply bind_total; [unfold log; simpl; discriminate|]. intros _ w2.
    apply bind_total.
    + destruct (_ <? _)%nat; [unfold sleep | unfold ret]; simpl; discriminate.
    + intros _ w3. apply IH. lia.
Qed.

Lemma requestContent_total params w :
  fst (requestContent self params w) <> OutOfFuel.
Proof. apply requestContentLoop_total. lia. Qed.

Lemma interviewerTurn_total sys messages step w :
  fst (interviewerTurn self sys messages step w) <> OutOfFuel.
Proof.
  unfold interviewerTurn. destruct (interviewerMode self).
  - unfold ret. simpl. discriminate.
  - apply tryCatch_total; [apply requestContent_total|].
    intros e w1. apply bind_total; [unfold log; simpl; discriminate|].
    intros _ w2. unfold ret. simpl. discriminate.
Qed.

Lemma runSteps_total rsys isys steps index messages w :
  fst (runSteps self rsys isys steps index messages w) <> OutOfFuel.
Proof.
  revert index messages w. induction steps as [| step rest IH]; intros index messages w.
  - simpl. unfold ret. simpl. discriminate.
  - simpl. apply bind_total; [unfold log; simpl; discriminate|]. intros _ w1.
    apply bind_total; [apply interviewerTurn_total|]. intros q w2.
    apply bind_total; [apply requestContent_total|]. intros a w3.
    apply IH.
Qed.

Lemma run_total w : fst (run self w) <> OutOfFuel.
Proof.
  unfold run. apply bind_total; [unfold now; simpl; discriminate|]. intros t0 w1.
  apply bind_total; [apply runSteps_total|]. intros messages w2.
  apply bind_total; [unfold now; simpl; discriminate|]. intros t1 w3.
  apply bind_total; [unfold log; simpl; discriminate|]. intros _ w4.
  unfold ret. simpl. discriminate.
Qed.

Lemma interviewerTurn_script sys messages step w q w' :
  interviewerMode self = scriptMode ->
  interviewerTurn self sys messages step w = (Returned q, w') -> q = step.
Proof.
  unfold interviewerTurn. intros ->. unfold ret. intros H. congruence.
Qed.

(** What the loop over the script appends to the messages. *)
Lemma runSteps_appends rsys isys steps index messages w result w' :
  runSteps self rsys isys steps index messages w = (Returned result, w') ->
  exists turns,
    result = messages ++ transcript turns
    /\ length turns = length steps
    /\ (interviewerMode self = scriptMode -> map fst turns = steps).
Proof.
  revert index messages w.
  induction steps as [| step rest IH]; intros index messages w Hrun.
  - simpl in Hrun. unfold ret in Hrun. injection Hrun as <- _.
    exists []. simpl. rewrite app_nil_r. auto.
  - simpl in Hrun.
    apply bind_Returned_inv in Hrun as (_ & w1 & _ & Hrun).
    apply bind_Returned_inv in Hrun as (q & w2 & Hq & Hrun).
    apply bind_Returned_inv in Hrun as (a & w3 & _ & Hrun).
    apply IH in Hrun as (turns & -> & Hlen & Hscript).
    exists ((q, a) :: turns). split; [| split].
    + simpl. rewrite <- !app_assoc. reflexivity.
    + simpl. congruence.
    + intros Hmode. simpl. rewrite (Hscript Hmode).
      rewrite (interviewerTurn_script _ _ _ _ _ _ Hmode Hq). reflexivity.
Qed.

(** C5: in either interviewer mode the runner ends (it returns or
    throws), and a session it returns has exactly two turns for each
    step of the script: the interviewer's turn with role user followed
    by the respondent's turn with role assistant, step after step; in
    script mode the interviewer's turns are the lines of the script in
    their order. *)
Theorem run_turns w :
  fst (run self w) <> OutOfFuel
  /\ forall session w',
       run self w = (Returned session, w') ->
       length (sessionMessages session) = (2 * length (interviewScript self))%nat
       /\ exists turns,
            sessionMessages session = transcript turns
            /\ length turns = length (interviewScript self)
            /\ (interviewerMode self = scriptMode ->
                map fst turns = interviewScript self).
Proof.
  split; [apply run_total|].
  intros session w' Hrun. unfold run in Hrun.
  apply bind_Returned_inv in Hrun as (t0 & w1 & _ & Hrun).
  apply bind_Returned_inv in Hrun as (messages & w2 & Hsteps & Hrun).
  apply bind_Returned_inv in Hrun as (t1 & w3 & _ & Hrun).
  apply bind_Returned_inv in Hrun as (_ & w4 & _ & Hrun).
  unfold ret in Hrun. injection Hrun as <- _. cbn [sessionMessages].
  apply runSteps_appends in Hsteps as (turns & -> & Hlen & Hscript).
  cbn [app]. split.
  - rewrite transcript_length. lia.
  - exists turns. auto.
Qed.

End SessionRunner.

(** *** Failing turns *)

Section FailingTurns.

Import Simulate.

(** The text [requestContent] accepts from a response. *)
Definition usableText (response : ChatCompletionResponse) : jsstring :=
  let content := extractMessageText (firstMessage response) in
  if truthy content then sanitizeContent content else [].

(** A backend that answers every request, never with usable text. *)
Definition blankBackend (answers : nat -> ChatCompletionRequest -> BackendOutcome) : Prop :=
  forall n request, exists response,
    answers n request = Responds response /\ usableText response = [].

Lemma createChatCompletion_responds client payload w response :
  backend w (length (posted w)) payload = Responds response ->
  createChatCompletion client payload w
  = (Returned response,
     setTicks (setPosted w (posted w ++ [payload])) (ticks w + 1)).
Proof.
  intros Hback. unfold createChatCompletion. cbn [retryLoop]. unfold post.
  rewrite Hback. reflexivity.
Qed.

Definition linearDelays (from count : nat) : list Z :=
  map (fun attempt => (1000 * Z.of_nat attempt)%Z) (seq from count).

Variable self : InterviewSession.

(** With a blank backend the loop uses up its attempts: one request for
    each attempt left, a delay of 1000 ms times the attempt number
    between two attempts, then the error. *)
Lemma requestContentLoop_blank params maxAttempts fuel attempt w :
  blankBackend (backend w) ->
  (attempt + fuel = maxAttempts)%nat ->
  exists w',
    requestContentLoop self params maxAttempts fuel attempt w
    = (Thrown (label params ++ js " response missing."), w')
    /\ slept w' = slept w ++ linearDelays (attempt + 1) (fuel - 1)
    /\ length (posted w') = (length (posted w) + fuel)%nat
    /\ backend w' = backend w.
Proof.
  revert attempt w. induction fuel as [| fuel IH]; intros attempt w Hblank Hsum.
  - simpl. destruct (Nat.ltb_spec attempt maxAttempts); [lia|].
    eexists. split; [reflexivity|]. simpl.
    rewrite app_nil_r, Nat.add_0_r. auto.
  - simpl. destruct (Nat.ltb_spec attempt maxAttempts); [| lia].
    match goal with |- context [createChatCompletion ?c ?p] =>
      destruct (Hblank (length (posted w)) p) as (response & Hresp & Hblank');
      rewrite (bind_Returned_step _ _ _ _ _ (createChatCompletion_responds c p w response Hresp))
    end.
    unfold usableText in Hblank'. cbn zeta in Hblank'. rewrite Hblank'.
    cbn [truthy].
    unfold bind at 1, log at 1.
    set (w2 := setLogged _ _).
    assert (Hb2 : backend w2 = backend w) by reflexivity.
    destruct fuel as [| fuel].
    + destruct (Nat.ltb_spec (attempt + 1) maxAttempts); [lia|].
      unfold bind at 1, ret at 1.
      destruct (IH (attempt + 1)%nat w2) as (w' & Hrun & Hslept & Hposted & Hback);
        [rewrite Hb2; exact Hblank | lia |].
      exists w'. split; [exact Hrun|]. rewrite Hslept, Hposted, Hback.
      subst w2. cbn. rewrite length_app. cbn. rewrite app_nil_r.
      repeat split; lia.
    + destruct (Nat.ltb_spec (attempt + 1) maxAttempts); [| lia].
      unfold bind at 1, sleep at 1.
      set (w3 := setSlept _ _).
      destruct (IH (attempt + 1)%nat w3) as (w' & Hrun & Hslept & Hposted & Hback);
        [exact Hblank | lia |].
      exists w'. split; [exact Hrun|]. rewrite Hslept, Hposted, Hback.
      subst w3 w2. cbn [slept posted backend setSlept setLogged setTicks setPosted].
      rewrite length_app. cbn [length].
      unfold linearDelays. cbn [seq map Nat.sub].
      rewrite Nat.sub_0_r, <- app_assoc.
      replace (attempt + 1 + 1)%nat with (S (attempt + 1)) by lia.
      repeat split; try lia; reflexivity.
Qed.

Lemma requestContent_blank params w :
  blankBackend (backend w) ->
  exists w',
    requestContent self params w
    = (Thrown (label params ++ js " response missing."), w')
    /\ slept w' = slept w ++ linearDelays 1 (default 3%nat (maxAttempts params) - 1)
    /\ length (posted w')
       = (length (posted w) + default 3%nat (maxAttempts params))%nat
    /\ backend w' = backend w.
Proof.
  intros Hblank. unfold requestContent.
  apply (requestContentLoop_blank params _ _ 0%nat w Hblank). lia.
Qed.

Lemma interviewerTurn_returns sys messages step w :
  exists q w', interviewerTurn self sys messages step w = (Returned q, w').
Proof.
  unfold interviewerTurn. destruct (interviewerMode self).
  - eexists _, _. reflexivity.
  - unfold tryCatch.
    pose proof (requestContent_total self (interviewerParams self sys messages step) w) as Htotal.
    destruct (requestContent self _ w) as [[q | e |] w1]; simpl in Htotal.
    + eexists _, _. reflexivity.
    + eexists _, _. reflexivity.
    + contradiction.
Qed.

Lemma interviewerTurn_fallback sys messages step w e w1 :
  interviewerMode self = llmMode ->
  requestContent self (interviewerParams self sys messages step) w = (Thrown e, w1) ->
  interviewerTurn self sys messages step w
  = (Returned step,
     setLogged w1 (logged w1 ++ [(warn, js "Interviewer fallback to script: " ++ e)])).
Proof.
  intros Hmode Hthrow. unfold interviewerTurn, tryCatch. rewrite Hmode, Hthrow.
  reflexivity.
Qed.

Lemma interviewerTurn_backend sys messages step w q w' :
  blankBackend (backend w) ->
  interviewerTurn self sys messages step w = (Returned q, w') ->
  backend w' = backend w.
Proof.
  intros Hblank. unfold interviewerTurn. destruct (interviewerMode self).
  - unfold ret. intros H. injection H as _ <-. reflexivity.
  - unfold tryCatch.
    destruct (requestContent_blank (interviewerParams self sys messages step) w Hblank)
      as (w1 & -> & _ & _ & Hback).
    unfold bind, log, ret. intros H. injection H as _ <-. exact Hback.
Qed.

Lemma runSteps_blank rsys isys step rest index messages w :
  blankBackend (backend w) ->
  exists w', runSteps self rsys isys (step :: rest) index messages w
             = (Thrown (js "respondent response missing."), w').
Proof.
  intros Hblank. cbn [runSteps]. unfold bind at 1, log at 1.
  set (w1 := setLogged _ _).
  destruct (interviewerTurn_returns isys messages step w1) as (q & w2 & Hq).
  rewrite (bind_Returned_step _ _ _ _ _ Hq).
  assert (Hb2 : blankBackend (backend w2)).
  { rewrite (interviewerTurn_backend isys messages step w1 q w2 Hblank Hq).
    exact Hblank. }
  match goal with |- context [requestContent self ?p] =>
    destruct (requestContent_blank p w2 Hb2) as (w3 & Hthrow & _)
  end.
  rewrite (bind_Thrown_step _ _ _ _ _ Hthrow). eexists. reflexivity.
Qed.

(** C7: an interviewer turn never aborts the session: it always yields a
    line, and in model-driven mode a request of the interviewer turn
    that throws (attempts used up, or an error of the client) is
    answered by the script line of that step.  The respondent turn has
    five attempts with a delay of 1000 ms times the attempt number
    between them; when none gives usable text it throws, and the session
    throws with it. *)
Theorem interviewer_falls_back_respondent_fails :
  (forall sys messages step w,
     exists q w', interviewerTurn self sys messages step w = (Returned q, w'))
  /\ (forall sys messages step w e w1,
        interviewerMode self = llmMode ->
        requestContent self (interviewerParams self sys messages step) w = (Thrown e, w1) ->
        exists w', interviewerTurn self sys messages step w = (Returned step, w'))
  /\ (forall rsys messages w,
        blankBackend (backend w) ->
        exists w',
          requestContent self (respondentParams self rsys messages) w
          = (Thrown (js "respondent response missing."), w')
          /\ slept w' = slept w ++ [1000; 2000; 3000; 4000]%Z
          /\ length (posted w') = (length (posted w) + 5)%nat)
  /\ (forall w,
        blankBackend (backend w) ->
        interviewScript self <> [] ->
        exists w', run self w = (Thrown (js "respondent response missing."), w')).
Proof.
  split; [apply interviewerTurn_returns|].
  split.
  { intros sys messages step w e w1 Hmode Hthrow. eexists.
    apply (interviewerTurn_fallback _ _ _ _ _ _ Hmode Hthrow). }
  split.
  { intros rsys messages w Hblank.
    destruct (requestContent_blank (respondentParams self rsys messages) w Hblank)
      as (w' & Hrun & Hslept & Hposted & _).
    exists w'. split; [exact Hrun|]. split; [exact Hslept | exact Hposted]. }
  intros w Hblank Hscript. unfold run.
  rewrite (bind_Returned_step now _ w _ _ eq_refl).
  destruct (interviewScript self) as [| step rest] eqn:Hsteps; [contradiction|].
  match goal with |- context [bind (runSteps self ?a ?b _ ?i ?m) _ ?w1] =>
    destruct (runSteps_blank a b step rest i m w1) as (w' & Hthrow); [exact Hblank|]
  end.
  rewrite (bind_Thrown_step _ _ _ _ _ Hthrow). eexists. reflexivity.
Qed.

End FailingTurns.

(** *** Fixtures of the session runner *)

Section SessionFixtures.

Import Simulate.

Definition anna : IPersona :=
  {| id := js "p-001"; personaSegmentId := js "s1"; name := js "Anna"; age := 31;
     occupation := js "cook"; bio := js "Cooks daily."; hiddenTraits := [js "frugal"] |}.

Definition runnerFor (mode : InterviewerMode) (persona : IPersona) : InterviewSession :=
  {| client := newLlmClient defaultOptions;
     respondentModel := js "respondent-model";
     interviewerModel := js "interviewer-model";
     interviewScript := [js "How do you plan meals?"; js "Would you use the app?"];
     respondentContext := js "You are a user.";
     respondentPrompt := js "Answer honestly. ";
     interviewerPrompt := js "Interview politely.";
     interviewerMode := mode;
     persona := persona;
     segmentNotes := [];
     language := js "en" |}.

(** The respondent model answers; every other model sends no text. *)
Definition onlyRespondentAnswers : nat -> ChatCompletionRequest -> BackendOutcome :=
  fun _ request =>
    if eqb (model request) (js "respondent-model")
    then Responds (textResponse (js " <s>I plan weekly.</s> "))
    else Responds (textResponse []).

Definition silent : nat -> ChatCompletionRequest -> BackendOutcome :=
  fun _ _ => Responds (textResponse (js "  [OUT] "))  .

Lemma silent_blank : blankBackend silent.
Proof. intros n request. eexists. split; [reflexivity | vm_compute; reflexivity]. Qed.

Definition finished (mode : InterviewerMode) : Completion IInterviewSession * World :=
  run (runnerFor mode anna) (freshWorld onlyRespondentAnswers).

Definition finishedSession (mode : InterviewerMode) : IInterviewSession :=
  match fst (finished mode) with
  | Returned session => session
  | _ => {| sessionId := []; projectName := []; personaId := []; segmentId := [];
            startedAt := []; endedAt := []; sessionMessages := [] |}
  end.

Example finished_llm_transcript :
  sessionMessages (finishedSession llmMode)
  = transcript [ (js "How do you plan meals?", js "I plan weekly.");
                 (js "Would you use the app?", js "I plan weekly.") ]
  /\ slept (snd (finished llmMode)) = [1000; 2000; 1000; 2000]%Z
  /\ length (posted (snd (finished llmMode))) = 8%nat.
Proof. vm_compute. repeat split; reflexivity. Qed.

End SessionFixtures.

Lemma run_turns_witness :
  length (sessionMessages (finishedSession llmMode))
  = (2 * length (Simulate.interviewScript (runnerFor llmMode anna)))%nat
  /\ exists turns,
       sessionMessages (finishedSession llmMode) = transcript turns
       /\ length turns
          = length (Simulate.interviewScript (runnerFor llmMode anna))
       /\ (Simulate.interviewerMode (runnerFor llmMode anna) = scriptMode ->
           map fst turns = Simulate.interviewScript (runnerFor llmMode anna)).
Proof.
  apply (proj2 (run_turns (runnerFor llmMode anna)
                  (freshWorld onlyRespondentAnswers))
           (finishedSession llmMode) (snd (finished llmMode))).
  vm_compute. reflexivity.
Defined.

Lemma interviewer_falls_back_respondent_fails_witness :
  (exists q w',
     Simulate.interviewerTurn (runnerFor llmMode anna) (js "sys") []
       (js "How do you plan meals?") (freshWorld silent) = (Returned q, w'))
  /\ (exists w',
        Simulate.interviewerTurn (runnerFor llmMode anna) (js "sys") []
          (js "How do you plan meals?") (freshWorld silent)
        = (Returned (js "How do you plan meals?"), w'))
  /\ (exists w',
        Simulate.requestContent (runnerFor llmMode anna)
          (Simulate.respondentParams (runnerFor llmMode anna) (js "sys") [])
          (freshWorld silent)
        = (Thrown (js "respondent response missing."), w')
        /\ slept w' = [] ++ [1000; 2000; 3000; 4000]%Z
        /\ length (posted w') = (0 + 5)%nat)
  /\ (exists w',
        Simulate.run (runnerFor llmMode anna) (freshWorld silent)
        = (Thrown (js "respondent response missing."), w')).
Proof.
  pose proof (interviewer_falls_back_respondent_fails (runnerFor llmMode anna))
    as (Hreturns & Hfallback & Hrespondent & Hsession).
  split; [apply Hreturns|].
  split.
  { apply (Hfallback (js "sys") [] (js "How do you plan meals?") (freshWorld silent)
             (js "interviewer response missing.")
             (snd (Simulate.requestContent (runnerFor llmMode anna)
                     (Simulate.interviewerParams (runnerFor llmMode anna) (js "sys") []
                        (js "How do you plan meals?"))
                     (freshWorld silent)))).
    - reflexivity.
    - vm_compute. reflexivity. }
  split.
  { apply (Hrespondent (js "sys") [] (freshWorld silent)). exact silent_blank. }
  apply (Hsession (freshWorld silent)).
  - exact silent_blank.
  - discriminate.
Defined.

(** ** The batch scheduler *)

Section BatchScheduler.

Import Simulate.

(** The completed set, read off the files: the non-empty personaIds of
    the sessions in the [.json] files. *)
Lemma collectCompleted_spec files acc result :
  collectCompleted files acc = Some result ->
  forall x,
    x ∈ result <->
    x ∈ acc
    \/ (x <> []
        /\ exists file session,
             file ∈ files /\ endsWith (js ".json") (fileName file) = true
             /\ fileSession file = Some session /\ personaId session = x).
Proof.
  revert acc. induction files as [| file rest IH]; intros acc Hcollect x.
  - simpl in Hcollect. injection Hcollect as <-. split; [auto|].
    intros [H | (_ & f & s & Hin & _)]; [exact H | inversion Hin].
  - simpl in Hcollect.
    destruct (endsWith (js ".json") (fileName file)) eqn:Hjson; simpl in Hcollect.
    + destruct (fileSession file) as [session|] eqn:Hsession; [| discriminate].
      destruct (truthy (personaId session)) eqn:Hid.
      * rewrite (IH _ Hcollect x). rewrite elem_of_union, elem_of_singleton. split.
        -- intros [[-> | H] | (Hne & f & s & Hin & Hrest)].
           ++ right. split; [destruct (personaId session); [discriminate | done]|].
              exists file, session. split; [left | auto].
           ++ left. exact H.
           ++ right. split; [exact Hne|]. exists f, s. split; [right; exact Hin | exact Hrest].
        -- intros [H | (Hne & f & s & Hin & Hj & Hs & Hx)]; [left; right; exact H|].
           apply elem_of_cons in Hin as [-> | Hin].
           ++ left. left. congruence.
           ++ right. split; [exact Hne|]. exists f, s. auto.
      * rewrite (IH _ Hcollect x). split.
        -- intros [H | (Hne & f & s & Hin & Hrest)]; [left; exact H|].
           right. split; [exact Hne|]. exists f, s. split; [right; exact Hin | exact Hrest].
        -- intros [H | (Hne & f & s & Hin & Hj & Hs & Hx)]; [left; exact H|].
           apply elem_of_cons in Hin as [-> | Hin].
           ++ exfalso. rewrite Hsession in Hs. injection Hs as <-.
              rewrite Hx in Hid. destruct x; [contradiction | discriminate].
           ++ right. split; [exact Hne|]. exists f, s. auto.
    + rewrite (IH _ Hcollect x). split.
      * intros [H | (Hne & f & s & Hin & Hrest)]; [left; exact H|].
        right. split; [exact Hne|]. exists f, s. split; [right; exact Hin | exact Hrest].
      * intros [H | (Hne & f & s & Hin & Hj & Hs & Hx)]; [left; exact H|].
        apply elem_of_cons in Hin as [-> | Hin]; [congruence|].
        right. split; [exact Hne|]. exists f, s. auto.
Qed.

(** Every [.json] file of the directory reads and parses. *)
Definition readable (files : list LogFile) : Prop :=
  Forall (fun file => endsWith (js ".json") (fileName file) = true ->
                      fileSession file <> None) files.

Lemma collectCompleted_readable files acc :
  readable files -> exists result, collectCompleted files acc = Some result.
Proof.
  intros Hreadable. revert acc.
  induction Hreadable as [| file rest Hfile _ IH]; intros acc.
  - exists acc. reflexivity.
  - simpl. destruct (endsWith (js ".json") (fileName file)); simpl; [| apply IH].
    destruct (fileSession file) as [session|]; [| exfalso; by apply Hfile].
    destruct (truthy (personaId session)); apply IH.
Qed.

Lemma completedOf_readable files x :
  readable files ->
  x ∈ completedOf (Some files) <->
  x <> []
  /\ exists file session,
       file ∈ files /\ endsWith (js ".json") (fileName file) = true
       /\ fileSession file = Some session /\ personaId session = x.
Proof.
  intros Hreadable. unfold completedOf.
  destruct (collectCompleted_readable files ∅ Hreadable) as (result & Hcollect).
  rewrite Hcollect. cbn [default]. rewrite (collectCompleted_spec _ _ _ Hcollect x).
  split; [intros [H | H]; [set_solver | exact H] | auto].
Qed.

Lemma pendingPersonas_spec (personas : list IPersona) (completed : gset jsstring)
    (persona : IPersona) :
  persona ∈ pendingPersonas personas completed <->
  persona ∈ personas /\ id persona ∉ completed.
Proof.
  unfold pendingPersonas. rewrite !list_elem_of_In, filter_In, negb_true_iff.
  rewrite bool_decide_eq_false. reflexivity.
Qed.

Lemma run_personaId self w session w' :
  run self w = (Returned session, w') -> personaId session = id (persona self).
Proof.
  unfold run. intros Hrun.
  apply bind_Returned_inv in Hrun as (t0 & w1 & _ & Hrun).
  apply bind_Returned_inv in Hrun as (messages & w2 & _ & Hrun).
  apply bind_Returned_inv in Hrun as (t1 & w3 & _ & Hrun).
  apply bind_Returned_inv in Hrun as (_ & w4 & _ & Hrun).
  unfold ret in Hrun. injection Hrun as <- _. reflexivity.
Qed.

Lemma task_personaId config options client persona w session w' :
  task config options client persona w = (Returned session, w') ->
  personaId session = id persona.
Proof.
  unfold task. intros Htask.
  apply bind_Returned_inv in Htask as (s & w1 & Hrun & Htask).
  apply bind_Returned_inv in Htask as (_ & w2 & _ & Htask).
  unfold ret in Htask. injection Htask as <- _. cbn [personaId].
  apply run_personaId in Hrun. exact Hrun.
Qed.

(** A batch that returns: its first task has returned, and so have the
    tasks behind it. *)
Lemma alongside_Returned_inv {A} (first : M A) (others : M (list A)) w all w' :
  alongside first others w = (Returned all, w') ->
  exists a w1 rest,
    first w = (Returned a, w1) /\ others w1 = (Returned rest, w') /\ all = a :: rest.
Proof.
  unfold alongside. destruct (first w) as [[a | thrown |] w1]; [| | discriminate].
  - destruct (others w1) as [[rest | thrown |] w2] eqn:Hothers; try discriminate.
    intros H. injection H as <- <-. exists a, w1, rest. repeat split. exact Hothers.
  - destruct (others w1) as [[rest | thrown2 |] w2]; discriminate.
Qed.


(** The tasks behind one that has thrown still run. *)
Lemma alongside_Thrown {A} (first : M A) (others : M (list A)) w thrown w1 :
  first w = (Thrown thrown, w1) ->
  fst (others w1) <> OutOfFuel ->
  alongside first others w = (Thrown thrown, snd (others w1)).
Proof.
  unfold alongside. intros -> Hothers.
  destruct (others w1) as [[rest | thrown2 |] w2]; cbn [fst snd] in *;
    [reflexivity | reflexivity | contradiction].
Qed.

Lemma runTasks_cons_inv config setup client persona rest w sessions w' :
  runTasks config setup client (persona :: rest) w = (Returned sessions, w') ->
  exists session w1 others,
    task config setup client persona w = (Returned session, w1)
    /\ runTasks config setup client rest w1 = (Returned others, w')
    /\ sessions = session :: others.
Proof. cbn [runTasks]. apply alongside_Returned_inv. Qed.

Lemma runTasks_personaIds config options client pending w sessions w' :
  runTasks config options client pending w = (Returned sessions, w') ->
  map personaId sessions = map id pending.
Proof.
  revert w sessions w'. induction pending as [| persona rest IH]; intros w sessions w' Hrun.
  - simpl in Hrun. unfold ret in Hrun. injection Hrun as <- _. reflexivity.
  - apply runTasks_cons_inv in Hrun as (s & w1 & ss & Htask & Hrest & ->). simpl.
    rewrite (task_personaId _ _ _ _ _ _ _ Htask), (IH _ _ _ Hrest). reflexivity.
Qed.





End BatchScheduler.

(** *** Fixtures of the batch scheduler *)

Section BatchFixtures.

Import Simulate.

Definition personaNamed (i : jsstring) : IPersona :=
  {| id := i; personaSegmentId := js "s1"; name := js "N"; age := 30;
     occupation := js "cook"; bio := js "Cooks."; hiddenTraits := [js "frugal"] |}.

Definition demoConfig : IProjectConfig :=
  {| metaProjectName := js "demo"; settingsConcurrency := 2; settingsLang := js "en";
     modelsInterviewer := js "interviewer-model";
     modelsRespondent := js "respondent-model";
     modelsAnalyzer := js "analyzer-model";
     segments := [];
     flowContext := js "You are a user.";
     flowScript := [js "How do you plan meals?"; js "Would you use the app?"];
     flowInterviewerMode := None;
     analyticsSchema :=
       [ {| key := js "would_use"; description := js "Would they use it?" |};
         {| key := js "pain"; description := js "Main pain" |} ] |}.

Definition demoOptions : SimulateOptions := {| optInterviewerMode := None |}.

(** What the tasks of the batches below close over. *)
Definition demoSetup : TaskSetup :=
  {| setupRespondentPrompt := js "Answer honestly.";
     setupInterviewerPrompt := js "Interview politely.";
     setupInterviewerMode := scriptMode |}.

Definition persistedSession (i : jsstring) : IInterviewSession :=
  {| sessionId := i ++ js "-2023"; projectName := js "demo"; personaId := i;
     segmentId := js "s1"; startedAt := js "2023"; endedAt := js "2023";
     sessionMessages := transcript [(js "q", js "a")] |}.

Definition persistedFile (i : jsstring) : LogFile :=
  {| fileName := i ++ js "-2023.json"; fileSession := Some (persistedSession i) |}.

(** A world with the personas and the logs directory given. *)
Definition batchWorld (personas : list IPersona) (files : list LogFile) : World :=
  {| backend := onlyRespondentAnswers; posted := []; slept := []; ticks := 0;
     logged := []; logsDir := Some files; personasFile := Some personas;
     fallbackModelsFile := None;
     respondentPromptFile := Some (js "Answer honestly.");
     interviewerPromptFile := Some (js "Interview politely.");
     ioError := js "ENOENT: no such file or directory";
     apiKey := Some (js "sk-test");
     clock := fun n => js "2024-01-01T00:00:0" ++ String_N (N.of_nat n) ++ js ".000Z";
     clockReads := 0 |}.

Definition fivePersonas : list IPersona :=
  map personaNamed [js "p-001"; js "p-002"; js "p-003"; js "p-004"; js "p-005"].

Definition twoPersisted : list LogFile :=
  [persistedFile (js "p-002"); persistedFile (js "p-004")].

Definition resumed : Completion (list IInterviewSession) * World :=
  simulateInterviews demoConfig demoOptions (batchWorld fivePersonas twoPersisted).

Definition resumedSessions : list IInterviewSession :=
  match fst resumed with Returned sessions => sessions | _ => [] end.

(** Five personas, two of them with a persisted session: three runners
    run, and the directory ends with one session for each persona. *)
Example resumed_runs_three :
  map personaId resumedSessions = [js "p-001"; js "p-003"; js "p-005"]
  /\ (personaId <$> omap fileSession (default [] (logsDir (snd resumed))))
     = [js "p-002"; js "p-004"; js "p-001"; js "p-003"; js "p-005"].
Proof. vm_compute. split; reflexivity. Qed.


End BatchFixtures.



(** ** Trimming *)

Section Trimming.

(** The first code unit, if any, is not white space. *)
Definition headOk (s : jsstring) : Prop :=
  match s with
  | c :: _ => isWhiteSpace c = false
  | [] => True
  end.

Lemma trimStart_headOk s : headOk (trimStart s).
Proof.
  induction s as [| c r IH]; simpl; [exact I|].
  destruct (isWhiteSpace c) eqn:Hc; [exact IH | exact Hc].
Qed.

Lemma trimStart_fixed s : headOk s -> trimStart s = s.
Proof. destruct s as [| c r]; simpl; [reflexivity | intros ->; reflexivity]. Qed.

Lemma trimStart_suffix s :
  exists ws, s = ws ++ trimStart s /\ forallb isWhiteSpace ws = true.
Proof.
  induction s as [| c r (ws & Heq & Hws)]; simpl.
  - exists []. auto.
  - destruct (isWhiteSpace c) eqn:Hc.
    + exists (c :: ws). simpl. rewrite Hc, Hws. split; [congruence | reflexivity].
    + exists []. auto.
Qed.

Lemma trimEnd_prefix s :
  exists ws, s = trimEnd s ++ ws /\ forallb isWhiteSpace ws = true.
Proof.
  unfold trimEnd. destruct (trimStart_suffix (rev s)) as (ws & Heq & Hws).
  exists (rev ws). split.
  - rewrite <- rev_app_distr, <- Heq, rev_involutive. reflexivity.
  - rewrite forallb_forall in *. intros c Hc. apply Hws, in_rev, Hc.
Qed.

Lemma trimEnd_fixed s : headOk (rev s) -> trimEnd s = s.
Proof. intros H. unfold trimEnd. rewrite (trimStart_fixed _ H). apply rev_involutive. Qed.

Lemma trimEnd_lastOk s : headOk (rev (trimEnd s)).
Proof. unfold trimEnd. rewrite rev_involutive. apply trimStart_headOk. Qed.

Lemma trimEnd_headOk s : headOk s -> headOk (trimEnd s).
Proof.
  intros H. destruct (trimEnd_prefix s) as (ws & Heq & _).
  destruct (trimEnd s) as [| c r]; [exact I|].
  rewrite Heq in H. exact H.
Qed.

Lemma trim_headOk s : headOk (trim s).
Proof. apply trimEnd_headOk, trimStart_headOk. Qed.

Lemma trim_lastOk s : headOk (rev (trim s)).
Proof. apply trimEnd_lastOk. Qed.

Lemma trim_fixed s : headOk s -> headOk (rev s) -> trim s = s.
Proof.
  intros Hhead Hlast. unfold trim. rewrite (trimStart_fixed _ Hhead).
  apply trimEnd_fixed, Hlast.
Qed.

Lemma trim_idempotent s : trim (trim s) = trim s.
Proof. apply trim_fixed; [apply trim_headOk | apply trim_lastOk]. Qed.

End Trimming.

(** ** The fallback model list *)

Section FallbackModelList.

Import FallbackModels.
Context {rt : JsRuntime}.

(** An entry of the input that the loop does not skip at sight. *)
Definition admissible (primaryModel : option jsstring) (trimmed : jsstring) : bool :=
  negb (negb (truthy trimmed) || bool_decide (Some trimmed = primaryModel)).

Definition candidates (primaryModel : option jsstring) (models : list jsstring)
  : list jsstring :=
  List.filter (admissible primaryModel) (map trim models).

Lemma normalizeLoop_spec (primaryModel : option jsstring) (models : list jsstring)
    (seen : gset jsstring) (normalized : list jsstring) :
  (forall k, k ∈ seen <-> k ∈ map toLowerCase normalized) ->
  NoDup (map toLowerCase normalized) ->
  exists added : list jsstring,
    normalizeLoop primaryModel models seen normalized = normalized ++ added
    /\ sublist added (candidates primaryModel models)
    /\ NoDup (map toLowerCase (normalized ++ added))
    /\ (forall c, c ∈ candidates primaryModel models ->
          toLowerCase c ∈ map toLowerCase (normalized ++ added))
    /\ (forall before c after,
          candidates primaryModel models = before ++ c :: after ->
          toLowerCase c ∉ map toLowerCase (normalized ++ before) ->
          c ∈ added).
Proof.
  revert seen normalized.
  induction models as [| model rest IH]; intros seen normalized Hseen Hnodup.
  - exists []. cbn [normalizeLoop]. rewrite app_nil_r.
    split; [reflexivity|]. split; [constructor|]. split; [exact Hnodup|]. split.
    + intros c Hc. inversion Hc.
    + intros before c after Heq. destruct before; discriminate.
  - cbn [normalizeLoop]. unfold candidates. cbn [map List.filter].
    fold (candidates primaryModel rest). unfold admissible.
    destruct (negb (truthy (trim model)) || bool_decide (Some (trim model) = primaryModel))
      eqn:Hskip; cbn [negb].
    { apply IH; assumption. }
    destruct (bool_decide (toLowerCase (trim model) ∈ seen)) eqn:Hdup.
    + apply bool_decide_eq_true in Hdup. apply Hseen in Hdup.
      destruct (IH seen normalized Hseen Hnodup) as (added & Hrun & Hsub & Hnd & Hall & Hfirst).
      exists added. split; [exact Hrun|]. split; [by apply sublist_cons|].
      split; [exact Hnd|]. split.
      * intros c Hc. apply elem_of_cons in Hc as [-> | Hc]; [| by apply Hall].
        rewrite map_app. apply elem_of_app. left. exact Hdup.
      * intros before c after Heq Hfresh. destruct before as [| b before].
        -- injection Heq as <- _. exfalso. apply Hfresh. rewrite app_nil_r. exact Hdup.
        -- injection Heq as <- Heq. apply (Hfirst before c after Heq).
           intros Hin. apply Hfresh. rewrite map_app in *. cbn [map].
           apply elem_of_app in Hin as [Hin | Hin]; apply elem_of_app; [left | right]; auto.
           by right.
    + apply bool_decide_eq_false in Hdup.
      assert (Hfreshkey : toLowerCase (trim model) ∉ map toLowerCase normalized).
      { intros Hin. apply Hdup, Hseen, Hin. }
      destruct (IH ({[toLowerCase (trim model)]} ∪ seen) (normalized ++ [trim model]))
        as (added & Hrun & Hsub & Hnd & Hall & Hfirst).
      * intros k. rewrite elem_of_union, elem_of_singleton, map_app, elem_of_app, Hseen.
        cbn [map]. rewrite list_elem_of_singleton. tauto.
      * rewrite map_app. cbn [map]. apply NoDup_app. split; [exact Hnodup|]. split.
        -- intros k Hk Hin. apply list_elem_of_singleton in Hin as ->. contradiction.
        -- apply NoDup_singleton.
      * exists (trim model :: added). rewrite Hrun, <- app_assoc. cbn [app].
        split; [reflexivity|]. split; [by apply sublist_skip|].
        replace (normalized ++ trim model :: added)
          with ((normalized ++ [trim model]) ++ added) by (by rewrite <- app_assoc).
        split; [exact Hnd|]. split.
        -- intros c Hc. apply elem_of_cons in Hc as [-> | Hc]; [| by apply Hall].
           rewrite !map_app. cbn [map]. apply elem_of_app. left. apply elem_of_app.
           right. left.
        -- intros before c after Heq Hfresh. destruct before as [| b before].
           ++ injection Heq as <- _. left.
           ++ injection Heq as <- Heq. right. apply (Hfirst before c after Heq).
              intros Hin. apply Hfresh. rewrite <- app_assoc in Hin. exact Hin.
Qed.

Lemma candidates_admissible (primaryModel : option jsstring) (models : list jsstring)
    (c : jsstring) :
  c ∈ candidates primaryModel models ->
  c <> [] /\ trim c = c /\ Some c <> primaryModel.
Proof.
  unfold candidates. rewrite list_elem_of_In, filter_In, in_map_iff.
  intros ((model & <- & _) & Hadm). unfold admissible in Hadm.
  apply negb_true_iff, orb_false_iff in Hadm as [Hne Hprimary].
  apply negb_false_iff in Hne. apply bool_decide_eq_false in Hprimary.
  split; [destruct (trim model); [discriminate | done]|].
  split; [apply trim_idempotent | exact Hprimary].
Qed.

Lemma normalizeModels_spec (models : list jsstring) (primaryModel : option jsstring) :
  sublist (normalizeModels models primaryModel) (candidates primaryModel models)
  /\ NoDup (map toLowerCase (normalizeModels models primaryModel))
  /\ (forall c, c ∈ candidates primaryModel models ->
        toLowerCase c ∈ map toLowerCase (normalizeModels models primaryModel))
  /\ (forall before c after,
        candidates primaryModel models = before ++ c :: after ->
        toLowerCase c ∉ map toLowerCase before ->
        c ∈ normalizeModels models primaryModel).
Proof.
  unfold normalizeModels.
  destruct (normalizeLoop_spec primaryModel models ∅ [])
    as (added & -> & Hsub & Hnd & Hall & Hfirst).
  - intros k. cbn [map]. set_solver.
  - constructor.
  - cbn [app] in *. auto.
Qed.

Lemma normalizeModels_entries (models : list jsstring) (primaryModel : option jsstring) :
  Forall (fun entry => entry <> [] /\ trim entry <> [] /\ trim entry = entry
                       /\ Some entry <> primaryModel)
         (normalizeModels models primaryModel).
Proof.
  apply Forall_forall. intros entry Hin.
  destruct (normalizeModels_spec models primaryModel) as (Hsub & _).
  apply (fun H => elem_of_sublist _ _ _ H Hsub), candidates_admissible in Hin
    as (Hne & Htrim & Hp).
  rewrite Htrim. auto.
Qed.

(** The models a valid file gives, if the file is one. *)
Definition modelsOfFile (file : option jsstring) : option (list jsstring) :=
  match file with
  | None => None
  | Some raw =>
      match JSON_parse raw with
      | Err _ => None
      | Ok parsed =>
          match ModelsArraySchema parsed with
          | Some data => Some data
          | None => ModelsConfigSchema parsed
          end
      end
  end.

(** C10: whatever the file and the primary model are, the list that
    loadFallbackModels returns has no entry equal to the primary model,
    no entry that is empty or only white space, and no two entries equal
    up to case; it keeps the trimmed entries of its input in their order
    and with their casing, each at its first occurrence.  When the file
    cannot be read, is not JSON, or fits neither schema, the result is
    the normalized built-in list with source default. *)
Theorem loadFallbackModels_normalized (file : option jsstring)
    (primaryModel : option jsstring) :
  let loaded := loadFallbackModels file primaryModel in
  let input := default DEFAULT_FALLBACK_MODELS (modelsOfFile file) in
  Forall (fun entry => Some entry <> primaryModel /\ entry <> [] /\ trim entry <> [])
         (models loaded)
  /\ NoDup (map toLowerCase (models loaded))
  /\ sublist (models loaded) (candidates primaryModel input)
  /\ (forall before c after,
        candidates primaryModel input = before ++ c :: after ->
        toLowerCase c ∉ map toLowerCase before ->
        c ∈ models loaded)
  /\ (file = None
      \/ (exists raw message, file = Some raw /\ JSON_parse raw = Err message)
      \/ (exists raw parsed, file = Some raw /\ JSON_parse raw = Ok parsed
            /\ ModelsArraySchema parsed = None /\ ModelsConfigSchema parsed = None) ->
      loaded = {| models := normalizeModels DEFAULT_FALLBACK_MODELS primaryModel;
                  source := fromDefault |}).
Proof.
  intros loaded input.
  assert (Hloaded : models loaded = normalizeModels input primaryModel).
  { subst loaded input. unfold loadFallbackModels, modelsOfFile.
    destruct file as [raw|]; [| reflexivity].
    destruct (JSON_parse raw) as [parsed | message]; [| reflexivity].
    destruct (ModelsArraySchema parsed); [reflexivity|].
    destruct (ModelsConfigSchema parsed); reflexivity. }
  rewrite Hloaded.
  destruct (normalizeModels_spec input primaryModel) as (Hsub & Hnd & _ & Hfirst).
  split.
  { eapply Forall_impl; [apply normalizeModels_entries|].
    intros entry (H1 & H2 & _ & H4). auto. }
  split; [exact Hnd|]. split; [exact Hsub|]. split; [exact Hfirst|].
  subst loaded. unfold loadFallbackModels.
  intros [-> | [(raw & message & -> & Hparse) | (raw & parsed & -> & Hparse & Hlist & Hconfig)]].
  - reflexivity.
  - rewrite Hparse. reflexivity.
  - rewrite Hparse, Hlist, Hconfig. reflexivity.
Qed.

End FallbackModelList.

(** *** A runtime for the fixtures

    Integers for numbers, the JSON module for [JSON.parse], ASCII case
    mapping, and a pattern engine that refuses keys with pattern
    syntax. *)
Definition asciiRuntime : JsRuntime :=
  {| number := Z;
     String_number := String_Z;
     JSON_parse := Json.JSON_parse;
     zodErrorMessage := fun _ => js "Invalid input";
     toLowerCase := map asciiLower;
     canonicalize := asciiUpper;
     patternKeyMatch := fun _ _ => Err (js "Invalid regular expression") |}.

Section FallbackFixtures.

Import FallbackModels.

Definition modelsFile : jsstring :=
  js "{" ++ dq ++ js "models" ++ dq ++ js ": [" ++ dq ++ js " Alpha/One " ++ dq
  ++ js ", " ++ dq ++ js "beta/two" ++ dq ++ js ", " ++ dq ++ js "ALPHA/one" ++ dq
  ++ js ", " ++ dq ++ js "   " ++ dq ++ js ", " ++ dq ++ js "gamma/three" ++ dq
  ++ js "]}".

Example modelsFile_loaded :
  loadFallbackModels (rt := asciiRuntime) (Some modelsFile) (Some (js "beta/two"))
  = {| models := [js "Alpha/One"; js "gamma/three"]; source := fromFile |}.
Proof. vm_compute. reflexivity. Qed.

Example brokenFile_loaded :
  loadFallbackModels (rt := asciiRuntime) (Some (js "{oops"))
    (Some (js "deepseek/deepseek-r1-0528:free"))
  = {| models := [ js "mistralai/mistral-7b-instruct:free";
                   js "meta-llama/llama-3.1-8b-instruct:free";
                   js "google/gemma-2-9b-it:free";
                   js "qwen/qwen-2.5-7b-instruct:free" ];
       source := fromDefault |}.
Proof. vm_compute. reflexivity. Qed.

End FallbackFixtures.

Lemma loadFallbackModels_normalized_witness :
  FallbackModels.loadFallbackModels (rt := asciiRuntime) (Some (js "{oops"))
    (Some (js "deepseek/deepseek-r1-0528:free"))
  = {| FallbackModels.models :=
         FallbackModels.normalizeModels (rt := asciiRuntime)
           FallbackModels.DEFAULT_FALLBACK_MODELS
           (Some (js "deepseek/deepseek-r1-0528:free"));
       FallbackModels.source := FallbackModels.fromDefault |}.
Proof.
  apply (proj2 (proj2 (proj2 (proj2
           (loadFallbackModels_normalized (rt := asciiRuntime) (Some (js "{oops"))
              (Some (js "deepseek/deepseek-r1-0528:free"))))))).
  right. left. exists (js "{oops"), Json.syntaxError. split; reflexivity.
Defined.

(** ** The analysis cascade *)

Section AnalysisRecords.

Import FallbackModels Analyze.
Context {rt : JsRuntime}.

Definition keySet (config : IProjectConfig) : gset jsstring :=
  list_to_set (keysOf config).

Definition protoKey : jsstring := js "__proto__".

(** The configured keys a row has a field for: all but [__proto__]. *)
Definition fieldSet (config : IProjectConfig) : gset jsstring :=
  keySet config ∖ {[protoKey]}.

Lemma assignProperty_lookup {V} (name : jsstring) (value : V) (object : gmap jsstring V)
    (k : jsstring) :
  assignProperty name value object !! k
  = if decide (k = name /\ k <> protoKey) then Some value else object !! k.
Proof.
  unfold assignProperty, eqb.
  destruct (decide (name = protoKey)) as [-> | Hname].
  - rewrite bool_decide_eq_true_2 by reflexivity.
    rewrite decide_False by (intros [-> Hne]; contradiction). reflexivity.
  - rewrite bool_decide_eq_false_2 by exact Hname.
    destruct (decide (k = name)) as [-> | Hne].
    + rewrite decide_True by (split; [reflexivity | exact Hname]). apply lookup_insert_eq.
    + rewrite decide_False by (intros [Heq _]; contradiction).
      apply lookup_insert_ne. congruence.
Qed.

Lemma assign_fold_lookup {V} (f : jsstring -> V) (schema : list IAnalyticsMetric)
    (row : gmap jsstring V) (k : jsstring) :
  foldl (fun row metric => assignProperty (key metric) (f (key metric)) row) row schema !! k
  = if decide (k ∈ map key schema /\ k <> protoKey) then Some (f k) else row !! k.
Proof.
  revert row. induction schema as [| metric rest IH]; intros row.
  - cbn [foldl map]. rewrite decide_False by (intros [Hin _]; inversion Hin). reflexivity.
  - cbn [foldl map]. rewrite IH.
    destruct (decide (k ∈ map key rest /\ k <> protoKey)) as [[Hin Hk] | Hnot].
    + rewrite decide_True by (split; [by right | exact Hk]). reflexivity.
    + rewrite assignProperty_lookup.
      destruct (decide (k = key metric /\ k <> protoKey)) as [[-> Hk] | Hnot2].
      * rewrite decide_True by (split; [by left | exact Hk]). reflexivity.
      * rewrite decide_False; [reflexivity|].
        intros [[-> | Hin]%elem_of_cons Hk]; [apply Hnot2 | apply Hnot]; by split.
Qed.

(** A normalized row has a field for every configured key but
    [__proto__], and no other: the value parsed for the key, or what a
    read of the missing key finds. *)
Lemma normalizeRow_lookup (parsed : gmap jsstring jsstring) (config : IProjectConfig)
    (k : jsstring) :
  normalizeRow parsed config !! k
  = if decide (k ∈ keysOf config /\ k <> protoKey)
    then Some (readOrEmpty parsed k) else None.
Proof.
  unfold normalizeRow, keysOf.
  rewrite (assign_fold_lookup (readOrEmpty parsed)). reflexivity.
Qed.

Lemma elem_of_fieldSet (config : IProjectConfig) (k : jsstring) :
  k ∈ fieldSet config <-> k ∈ keysOf config /\ k <> protoKey.
Proof.
  unfold fieldSet, keySet.
  rewrite elem_of_difference, elem_of_list_to_set, not_elem_of_singleton. reflexivity.
Qed.

Lemma normalizeRow_dom (parsed : gmap jsstring jsstring) (config : IProjectConfig) :
  dom (normalizeRow parsed config) = fieldSet config.
Proof.
  apply set_eq. intros k. rewrite elem_of_dom, normalizeRow_lookup, elem_of_fieldSet.
  destruct (decide (k ∈ keysOf config /\ k <> protoKey)); split; intros H; try done.
Qed.

Lemma looseLoop_lookup_any (sanitized : jsstring) (schema : list IAnalyticsMetric)
    (acc row : gmap jsstring jsstring) (k : jsstring) :
  looseLoop sanitized schema acc = Ok row ->
  (k ∈ map key schema /\ k <> protoKey -> is_Some (row !! k))
  /\ (~ (k ∈ map key schema /\ k <> protoKey) -> row !! k = acc !! k).
Proof.
  revert acc. induction schema as [| metric rest IH]; intros acc Hloop.
  - cbn in Hloop. injection Hloop as <-. split; [intros [Hin _]; inversion Hin | reflexivity].
  - cbn [looseLoop] in Hloop.
    destruct (looseMatch (key metric) sanitized) as [matched | message]; [| discriminate].
    destruct (IH _ Hloop) as [Hsome Hother]. cbn [map]. split.
    + intros [Hin Hk].
      destruct (decide (k ∈ map key rest)) as [Hrest | Hrest]; [by apply Hsome|].
      rewrite Hother by (intros [? _]; contradiction).
      apply elem_of_cons in Hin as [-> | Hin]; [| contradiction].
      rewrite assignProperty_lookup, decide_True by (by split). eexists. reflexivity.
    + intros Hnot. rewrite Hother by (intros [Hin Hk]; apply Hnot; split; [by right | done]).
      rewrite assignProperty_lookup. rewrite decide_False; [reflexivity|].
      intros [-> Hk]. apply Hnot. split; [by left | exact Hk].
Qed.

Lemma parseLooseAnalysisRow_dom content config row :
  parseLooseAnalysisRow content config = Ok row -> dom row = fieldSet config.
Proof.
  unfold parseLooseAnalysisRow. intros H. apply set_eq. intros k.
  destruct (looseLoop_lookup_any _ _ _ _ k H) as [Hsome Hother].
  rewrite elem_of_dom, elem_of_fieldSet. unfold keysOf. split.
  - intros Hk. destruct (decide (k ∈ map key (analyticsSchema config) /\ k <> protoKey))
      as [Hin | Hnot]; [exact Hin|].
    rewrite (Hother Hnot), lookup_empty in Hk. by destruct Hk.
  - exact Hsome.
Qed.

Lemma parseAnalysisRow_dom content config row :
  parseAnalysisRow content config = Ok row -> dom row = fieldSet config.
Proof.
  unfold parseAnalysisRow. intros H.
  destruct (parseJsonFromText _) as [parsed | message]; [| discriminate].
  destruct (AnalysisRowSchema parsed) as [data|]; [| discriminate].
  injection H as <-. apply normalizeRow_dom.
Qed.

Definition personaIdKey : jsstring := js "personaId".
Definition segmentIdKey : jsstring := js "segmentId".

(** A row all of whose values are strings. *)
Definition textual (row : gmap jsstring RowValue) : Prop :=
  forall k value, row !! k = Some value -> is_Some (textOf value).

Lemma enrichRow_guard (row : gmap jsstring RowValue) :
  forallb (fun kv => bool_decide (is_Some (textOf (snd kv)))) (map_to_list row) = true
  <-> textual row.
Proof.
  rewrite forallb_forall. unfold textual. split.
  - intros Hall k value Hk.
    apply (bool_decide_eq_true_1 _). apply (Hall (k, value)).
    apply list_elem_of_In, elem_of_map_to_list, Hk.
  - intros Hall [k value] Hin. apply bool_decide_eq_true_2. apply (Hall k).
    apply elem_of_map_to_list, list_elem_of_In, Hin.
Qed.

(** [enrichRow] returns for a row of strings, and throws for a row that
    holds a method. *)
Lemma enrichRow_textual (row : gmap jsstring RowValue) session :
  textual row ->
  enrichRow row session
  = Ok (omap (fun value => sanitizeValue <$> textOf value) row
        ∪ {[ js "personaId" := personaId session; js "segmentId" := segmentId session ]}).
Proof.
  intros Htext. unfold enrichRow.
  rewrite (proj2 (enrichRow_guard row) Htext). reflexivity.
Qed.

Lemma enrichRow_throws (row : gmap jsstring RowValue) session k name :
  row !! k = Some (Inherited name) -> enrichRow row session = Err replaceOfMethod.
Proof.
  intros Hk. unfold enrichRow.
  destruct (forallb _ (map_to_list row)) eqn:Hall; [| reflexivity].
  apply enrichRow_guard in Hall. destruct (Hall _ _ Hk) as [text Htext]. discriminate.
Qed.

Lemma enrichRow_Ok_inv (row : gmap jsstring RowValue) session record :
  enrichRow row session = Ok record ->
  textual row
  /\ record
     = omap (fun value => sanitizeValue <$> textOf value) row
       ∪ {[ js "personaId" := personaId session; js "segmentId" := segmentId session ]}.
Proof.
  unfold enrichRow. destruct (forallb _ (map_to_list row)) eqn:Hall; [| discriminate].
  intros H. injection H as <-. split; [by apply enrichRow_guard | reflexivity].
Qed.

Lemma enrichRow_dom (row : gmap jsstring RowValue) session record :
  enrichRow row session = Ok record ->
  dom record = dom row ∪ {[personaIdKey; segmentIdKey]}.
Proof.
  intros H. apply enrichRow_Ok_inv in H as [Htext ->].
  rewrite dom_union_L, dom_insert_L, dom_singleton_L. f_equal.
  apply set_eq. intros k. rewrite !elem_of_dom, lookup_omap.
  destruct (row !! k) as [value |] eqn:Hk; cbn.
  - destruct (Htext _ _ Hk) as [text Hvalue]. rewrite Hvalue. cbn.
    split; intros _; eexists; reflexivity.
  - split; intros [x Hx]; discriminate.
Qed.

Lemma enrichRow_lookup_field (row : gmap jsstring RowValue) session record k text :
  enrichRow row session = Ok record ->
  row !! k = Some (Text text) -> record !! k = Some (sanitizeValue text).
Proof.
  intros H Hk. apply enrichRow_Ok_inv in H as [_ ->]. apply lookup_union_Some_l.
  rewrite lookup_omap, Hk. reflexivity.
Qed.

Lemma enrichRow_lookup_ids (row : gmap jsstring RowValue) session record :
  enrichRow row session = Ok record ->
  (row !! personaIdKey = None -> record !! personaIdKey = Some (personaId session))
  /\ (row !! segmentIdKey = None -> record !! segmentIdKey = Some (segmentId session)).
Proof.
  intros H. apply enrichRow_Ok_inv in H as [_ ->]. split; intros Hnone.
  - rewrite lookup_union_r by (by rewrite lookup_omap, Hnone).
    apply lookup_insert_eq.
  - rewrite lookup_union_r by (by rewrite lookup_omap, Hnone).
    rewrite lookup_insert_ne by (vm_compute; discriminate).
    apply lookup_singleton_eq.
Qed.

(** A loose row holds strings only. *)
Lemma loose_textual (loose : gmap jsstring jsstring) : textual (Text <$> loose).
Proof.
  intros k value Hk. rewrite lookup_fmap in Hk.
  destruct (loose !! k) as [text |]; [| discriminate].
  injection Hk as <-. eexists. reflexivity.
Qed.

Lemma sanitizeValue_empty : sanitizeValue [] = [].
Proof. reflexivity. Qed.

(** The methods among the configured keys. *)
Definition methodKey (config : IProjectConfig) (k : jsstring) : Prop :=
  k ∈ keysOf config /\ inherited k = true /\ k <> protoKey.

Lemma buildEmptyRow_lookup config k :
  buildEmptyRow config !! k
  = if decide (k ∈ keysOf config /\ k <> protoKey)
    then Some (if inherited k then Inherited k else Text [])
    else None.
Proof.
  unfold buildEmptyRow. rewrite normalizeRow_lookup. unfold readOrEmpty.
  rewrite lookup_empty. reflexivity.
Qed.

(** The empty row is a row of strings exactly when no configured key
    names a method. *)
Lemma buildEmptyRow_textual config :
  textual (buildEmptyRow config) <-> forall k, ~ methodKey config k.
Proof.
  unfold textual, methodKey. split.
  - intros Htext k (Hin & Hinherited & Hk).
    specialize (Htext k (Inherited k)). rewrite buildEmptyRow_lookup in Htext.
    rewrite decide_True, Hinherited in Htext by (by split).
    destruct (Htext eq_refl) as [text Hx]. discriminate.
  - intros Hnone k value Hk. rewrite buildEmptyRow_lookup in Hk.
    destruct (decide (k ∈ keysOf config /\ k <> protoKey)) as [[Hin Hne] | _];
      [| discriminate].
    destruct (inherited k) eqn:Hinherited.
    + exfalso. apply (Hnone k). auto.
    + injection Hk as <-. eexists. reflexivity.
Qed.

Lemma emptyRecord_fields config session record k :
  enrichRow (buildEmptyRow config) session = Ok record ->
  k ∈ keysOf config -> k <> protoKey ->
  record !! k = Some [].
Proof.
  intros Hrecord Hk Hne.
  pose proof (enrichRow_Ok_inv _ _ _ Hrecord) as [Htext0 _].
  pose proof (proj1 (buildEmptyRow_textual config) Htext0) as Htext.
  change (record !! k = Some (sanitizeValue [])).
  apply (enrichRow_lookup_field _ _ _ _ _ Hrecord).
  rewrite buildEmptyRow_lookup, decide_True by (by split).
  destruct (inherited k) eqn:Hinherited; [| reflexivity].
  exfalso. apply (Htext k). split; [exact Hk | split; [exact Hinherited | exact Hne]].
Qed.

End AnalysisRecords.

Section Cascade.

Import FallbackModels Analyze.
Context {rt : JsRuntime}.

Variable config : IProjectConfig.
Variable client : LlmClient.

Lemma orThrow_Returned_inv {A} (outcome : Result A) w a w' :
  orThrow outcome w = (Returned a, w') -> outcome = Ok a /\ w' = w.
Proof.
  destruct outcome as [x | thrown]; unfold orThrow, ret, throw; intros H;
    [injection H as <- <-; auto | discriminate].
Qed.

Lemma catchParse_inv model content message line w r w' :
  catchParse config model content message line w = (Returned r, w') ->
  exists loose,
    parseLooseAnalysisRow content config = Ok loose
    /\ r = (if hasAnyValue loose then Some (Text <$> loose) else None).
Proof.
  unfold catchParse. destruct (parseLooseAnalysisRow content config) as [loose | thrown].
  - intros H. exists loose. split; [reflexivity|].
    destruct (hasAnyValue loose);
      apply bind_Returned_inv in H as (_ & w1 & _ & H);
      unfold ret in H; congruence.
  - unfold throw. discriminate.
Qed.

Lemma loose_dom (content : jsstring) (loose : gmap jsstring jsstring) :
  parseLooseAnalysisRow content config = Ok loose ->
  dom ((Text <$> loose) : gmap jsstring RowValue) = fieldSet config.
Proof. intros H. rewrite dom_fmap_L. by eapply parseLooseAnalysisRow_dom. Qed.

Lemma firstParse_dom content model w r w' :
  firstParse config model content w = (Returned (Some r), w') ->
  dom r = fieldSet config.
Proof.
  unfold firstParse.
  destruct (parseAnalysisRow content config) as [row | message] eqn:Hstrict.
  - unfold ret. intros H. injection H as <- _. by eapply parseAnalysisRow_dom.
  - intros H. apply catchParse_inv in H as (loose & Hloose & Hr).
    destruct (hasAnyValue loose); [| discriminate].
    injection Hr as ->. by eapply loose_dom.
Qed.

Lemma afterReminder_dom model retryResponse w r w' :
  afterReminder config model retryResponse w = (Returned (Some r), w') ->
  dom r = fieldSet config.
Proof.
  unfold afterReminder. cbn zeta.
  destruct (truthy (extractMessageText (firstMessage retryResponse))); cbn [negb].
  2:{ intros H. apply bind_Returned_inv in H as (_ & w4 & _ & H).
      unfold ret in H. discriminate. }
  destruct (parseAnalysisRow _ config) as [row | message] eqn:Hstrict.
  - unfold ret. intros H. injection H as <- _. by eapply parseAnalysisRow_dom.
  - intros H. apply catchParse_inv in H as (loose & Hloose & Hr).
    destruct (hasAnyValue loose); [| discriminate].
    injection Hr as ->. by eapply loose_dom.
Qed.

Lemma tryModel_row_dom prompt model w row w' :
  tryModel config client prompt model w = (Returned (Some row), w') ->
  dom row = fieldSet config.
Proof.
  unfold tryModel. intros H.
  apply bind_Returned_inv in H as (content & w1 & _ & H).
  destruct (truthy content); cbn [negb] in H.
  2:{ apply bind_Returned_inv in H as (_ & w2 & _ & H). unfold ret in H. discriminate. }
  apply bind_Returned_inv in H as (first & w2 & Hfirst & H).
  destruct first as [row1|].
  { unfold ret in H. injection H as <- _. by eapply firstParse_dom. }
  apply bind_Returned_inv in H as (retryResponse & w3 & _ & H).
  by eapply afterReminder_dom.
Qed.

Lemma resolve_row_dom prompt modelsToTry w row model w' :
  resolve config client prompt modelsToTry w = (Returned (Some (row, model)), w') ->
  dom row = fieldSet config.
Proof.
  revert w. induction modelsToTry as [| m rest IH]; intros w H.
  - cbn in H. unfold ret in H. discriminate.
  - cbn [resolve] in H. apply bind_Returned_inv in H as (resolved & w1 & Htry & H).
    destruct resolved as [r|].
    + unfold ret in H. injection H as <- _ _. by eapply tryModel_row_dom.
    + by eapply IH.
Qed.

(** The keys of a record: the configured keys but [__proto__], personaId
    and segmentId. *)
Definition recordKeys : gset jsstring :=
  fieldSet config ∪ {[personaIdKey; segmentIdKey]}.

(** What the analysis of a session returns: the row the cascade has
    resolved, or the empty row, with its values sanitized and the ids of
    the session. *)
Lemma analyzeSession_shape fallback prompt session w row w' :
  analyzeSession config client fallback prompt session w = (Returned row, w') ->
  exists resolved w1 inner,
    resolve config client prompt (modelsAnalyzer config :: models fallback) w
    = (Returned resolved, w1)
    /\ enrichRow inner session = Ok row
    /\ dom inner = fieldSet config
    /\ inner = match resolved with
               | Some (resolvedRow, _) => resolvedRow
               | None => buildEmptyRow config
               end.
Proof.
  unfold analyzeSession. intros H.
  apply bind_Returned_inv in H as (resolved & w1 & Hresolve & H).
  exists resolved, w1. destruct resolved as [[resolvedRow resolvedModel]|].
  - apply bind_Returned_inv in H as (_ & w2 & _ & H).
    apply orThrow_Returned_inv in H as [H _].
    exists resolvedRow. split; [exact Hresolve|].
    split; [exact H|]. split; [by eapply resolve_row_dom | reflexivity].
  - apply bind_Returned_inv in H as (_ & w2 & _ & H).
    apply orThrow_Returned_inv in H as [H _].
    exists (buildEmptyRow config). split; [exact Hresolve|].
    split; [exact H|]. split; [apply normalizeRow_dom | reflexivity].
Qed.

Lemma analyzeSession_keys fallback prompt session w row w' :
  analyzeSession config client fallback prompt session w = (Returned row, w') ->
  dom row = recordKeys.
Proof.
  intros H. apply analyzeSession_shape in H as (resolved & w1 & inner & _ & Hrow & Hdom & _).
  rewrite (enrichRow_dom _ _ _ Hrow), Hdom. reflexivity.
Qed.


End Cascade.

Section CascadeTotal.

Import FallbackModels Analyze.
Context {rt : JsRuntime}.

Variable config : IProjectConfig.
Variable client : LlmClient.










End CascadeTotal.

Section AnalysisTheorems.

Import FallbackModels Analyze.
Context {rt : JsRuntime}.

Variable config : IProjectConfig.






End AnalysisTheorems.

(** *** The order of the parse techniques *)

Section RequestsPosted.

Variable self : LlmClient.
Variable payload : ChatCompletionRequest.

Lemma retryLoop_posted fuel attempt backoff w r w' :
  retryLoop self payload fuel attempt backoff w = (r, w') ->
  r = OutOfFuel
  \/ exists retries, posted w' = posted w ++ replicate (S retries) payload.
Proof.
  revert attempt backoff w. induction fuel as [| fuel IH]; intros attempt backoff w H.
  - cbn in H. left. congruence.
  - cbn [retryLoop] in H. unfold post in H.
    destruct (backend w (length (posted w)) payload) as [response | error].
    + unfold bind, reportProgress, ret in H. cbn in H. injection H as <- <-.
      right. exists 0%nat. reflexivity.
    + destruct (negb (shouldRetry error) || (maxRetries self <=? attempt)%nat).
      * unfold throw in H. injection H as <- <-. right. exists 0%nat. reflexivity.
      * unfold bind at 1, sleep at 1 in H.
        apply IH in H as [-> | (retries & Hposted)]; [left; reflexivity|].
        right. exists (S retries). rewrite Hposted. cbn [posted setSlept setPosted].
        rewrite <- app_assoc. reflexivity.
Qed.

(** One call of the client posts its payload, and nothing else, once
    and then once more for each retry. *)
Lemma createChatCompletion_posted w r w' :
  createChatCompletion self payload w = (r, w') ->
  exists retries, posted w' = posted w ++ replicate (S retries) payload.
Proof.
  intros H. pose proof (createChatCompletion_total self payload w) as Htotal.
  rewrite H in Htotal. apply retryLoop_posted in H as [-> | H]; [contradiction | exact H].
Qed.

End RequestsPosted.

Section ParseOrder.

Import FallbackModels Analyze.
Context {rt : JsRuntime}.

Variable config : IProjectConfig.
Variable client : LlmClient.
Variable prompt model : jsstring.

Lemma hasAnyValue_spec (row : gmap jsstring jsstring) :
  hasAnyValue row = true <-> exists k v, row !! k = Some v /\ trim v <> [].
Proof.
  unfold hasAnyValue. rewrite existsb_exists. split.
  - intros ([k v] & Hin & Hv). exists k, v. split.
    + apply elem_of_map_to_list, list_elem_of_In, Hin.
    + intros Hblank. change (truthy (trim v) = true) in Hv.
      rewrite Hblank in Hv. discriminate.
  - intros (k & v & Hk & Hv). exists (k, v). split.
    + apply list_elem_of_In, elem_of_map_to_list, Hk.
    + change (truthy (trim v) = true). destruct (trim v); [contradiction | reflexivity].
Qed.

Lemma catchParse_accepts content message line w loose :
  parseLooseAnalysisRow content config = Ok loose ->
  hasAnyValue loose = true ->
  exists w', catchParse config model content message line w
             = (Returned (Some (Text <$> loose)), w')
             /\ posted w' = posted w.
Proof.
  intros Hloose Hany. unfold catchParse. rewrite Hloose, Hany.
  eexists. split; reflexivity.
Qed.

Lemma catchParse_rejects content message line w loose :
  parseLooseAnalysisRow content config = Ok loose ->
  hasAnyValue loose = false ->
  catchParse config model content message line w
  = (Returned None, setLogged w (logged w ++ [(warn, line ++ message)])).
Proof.
  intros Hloose Hany. unfold catchParse. rewrite Hloose, Hany. reflexivity.
Qed.

(** A loose row gives every configured literal key but [__proto__] the
    trimmed value the pattern captures, or the empty string when the
    pattern finds nothing. *)
Lemma looseLoop_lookup (sanitized : jsstring) (schema : list IAnalyticsMetric)
    (acc row : gmap jsstring jsstring) (k : jsstring) :
  looseLoop sanitized schema acc = Ok row ->
  k ∈ map key schema -> k <> protoKey ->
  isLiteralKey k = true ->
  row !! k = Some (match literalKeyMatch k sanitized with
                   | Some g => trim g
                   | None => []
                   end).
Proof.
  revert acc. induction schema as [| metric rest IH]; intros acc Hloop Hk Hne Hliteral.
  - inversion Hk.
  - cbn [looseLoop] in Hloop.
    destruct (looseMatch (key metric) sanitized) as [matched | thrown] eqn:Hmatch;
      [| discriminate].
    destruct (decide (k ∈ map key rest)) as [Hin | Hnotin]; [by eapply IH|].
    cbn [map] in Hk. apply elem_of_cons in Hk as [-> | Hk]; [| contradiction].
    destruct (looseLoop_lookup_any _ _ _ _ (key metric) Hloop) as [_ Hother].
    rewrite Hother by (intros [? _]; contradiction).
    rewrite assignProperty_lookup, decide_True by (by split).
    unfold looseMatch in Hmatch. rewrite Hliteral in Hmatch.
    injection Hmatch as <-. reflexivity.
Qed.

(** A match of the pattern has, after the key, optional white space and
    then one of the four separators. *)
Lemma matchAfterKey_separator (s g : jsstring) :
  matchAfterKey s = Some g ->
  exists (ws : jsstring) (c : N) (rest : jsstring),
    s = ws ++ c :: rest
    /\ forallb isWhiteSpace ws = true
    /\ canonicalize c ∈ map canonicalize separators.
Proof.
  unfold matchAfterKey. destruct (trimStart_suffix s) as (ws & Heq & Hws).
  destruct (trimStart s) as [| c rest]; [discriminate|].
  destruct (bool_decide (canonicalize c ∈ map canonicalize separators)) eqn:Hsep;
    [| discriminate].
  intros _. exists ws, c, rest. apply bool_decide_eq_true in Hsep. auto.
Qed.

(** A match of the pattern starts where the key stands, up to the case
    folding of the i flag. *)
Lemma literalKeyMatch_key (k s g : jsstring) :
  literalKeyMatch k s = Some g ->
  exists before rest,
    s = before ++ rest
    /\ startsWithFolded k rest = true
    /\ matchAfterKey (drop (length k) rest) = Some g.
Proof.
  induction s as [| c r IH]; cbn [literalKeyMatch].
  - destruct (startsWithFolded k []) eqn:Hstart.
    + destruct (matchAfterKey (drop (length k) [])) eqn:Hafter; [| discriminate].
      intros H. injection H as <-. exists [], []. auto.
    + discriminate.
  - destruct (startsWithFolded k (c :: r)) eqn:Hstart.
    + destruct (matchAfterKey (drop (length k) (c :: r))) eqn:Hafter.
      * intros H. injection H as <-. exists [], (c :: r). auto.
      * intros H. apply IH in H as (before & rest & -> & H1 & H2).
        exists (c :: before), rest. auto.
    + intros H. apply IH in H as (before & rest & -> & H1 & H2).
      exists (c :: before), rest. auto.
Qed.

(** The steps of [tryModel] up to the reminder request. *)
Lemma tryModel_accepts_loose w content w1 message loose :
  requestAnalysisContent client prompt model (settingsLang config) w
  = (Returned content, w1) ->
  content <> [] ->
  parseAnalysisRow content config = Err message ->
  parseLooseAnalysisRow content config = Ok loose ->
  hasAnyValue loose = true ->
  exists w', tryModel config client prompt model w
             = (Returned (Some (Text <$> loose)), w')
             /\ posted w' = posted w1.
Proof.
  intros Hcontent Hne Hstrict Hloose Hany.
  destruct (catchParse_accepts content message
              (js "Analyzer parse failed for " ++ model ++ js ", retrying once: ")
              w1 loose Hloose Hany) as (w' & Hcatch & Hposted).
  exists w'. split; [| exact Hposted].
  unfold tryModel. rewrite (bind_Returned_step _ _ _ _ _ Hcontent).
  destruct content as [| c0 text]; [contradiction|]. cbn [truthy negb].
  assert (Hfirst : firstParse config model (c0 :: text) w1
                   = (Returned (Some (Text <$> loose)), w')).
  { unfold firstParse. rewrite Hstrict. exact Hcatch. }
  rewrite (bind_Returned_step _ _ _ _ _ Hfirst). reflexivity.
Qed.

Lemma tryModel_reminds w content w1 message loose :
  requestAnalysisContent client prompt model (settingsLang config) w
  = (Returned content, w1) ->
  content <> [] ->
  parseAnalysisRow content config = Err message ->
  parseLooseAnalysisRow content config = Ok loose ->
  hasAnyValue loose = false ->
  tryModel config client prompt model w
  = bind (createChatCompletion client (reminderRequest config prompt model))
         (afterReminder config model)
         (setLogged w1
            (logged w1
             ++ [(warn, (js "Analyzer parse failed for " ++ model
                         ++ js ", retrying once: ") ++ message)])).
Proof.
  intros Hcontent Hne Hstrict Hloose Hany.
  unfold tryModel. rewrite (bind_Returned_step _ _ _ _ _ Hcontent).
  destruct content as [| c0 text]; [contradiction|]. cbn [truthy negb].
  assert (Hfirst : firstParse config model (c0 :: text) w1
                   = (Returned None,
                      setLogged w1
                        (logged w1
                         ++ [(warn, (js "Analyzer parse failed for " ++ model
                                     ++ js ", retrying once: ") ++ message)]))).
  { unfold firstParse. rewrite Hstrict.
    by apply (catchParse_rejects _ _ _ _ loose). }
  rewrite (bind_Returned_step _ _ _ _ _ Hfirst). reflexivity.
Qed.

Lemma afterReminder_posted retryResponse w r w' :
  afterReminder config model retryResponse w = (r, w') -> posted w' = posted w.
Proof.
  unfold afterReminder. cbn zeta. destruct (truthy _); cbn [negb].
  2:{ unfold bind, log, ret. intros H. injection H as _ <-. reflexivity. }
  destruct (parseAnalysisRow _ config) as [row | message].
  - unfold ret. intros H. injection H as _ <-. reflexivity.
  - unfold catchParse. destruct (parseLooseAnalysisRow _ config) as [loose | thrown].
    + destruct (hasAnyValue loose); unfold bind, log, ret; intros H;
        injection H as _ <-; reflexivity.
    + unfold throw. intros H. injection H as _ <-. reflexivity.
Qed.

(** C4, amended: when the strict parse of a model's first response
    throws, the loose parse of that same response comes first, and a
    loose row with a field that is not empty is accepted without any
    further request.  Otherwise exactly one reminder call is made (the
    same prompt, an empty line and the JSON-only instruction; the client
    posts nothing but this request), the strict parse is repeated on its
    output, and if that throws again the loose parse of the reminder
    output is accepted under the same condition.  The loose parse gives
    each configured literal key the trimmed capture of the pattern: the
    key up to case folding, optional white space, one of the separators
    hyphen-minus, em dash, colon and equals, optional white space, and
    the rest of the line.  A configured key [__proto__] gets no field:
    the assignment of its capture stores nothing, and the capture does
    not count as a value. *)
Theorem loose_parse_then_one_reminder (w : World) (content : jsstring) (w1 : World)
    (message : jsstring) (loose : gmap jsstring jsstring) :
  requestAnalysisContent client prompt model (settingsLang config) w
  = (Returned content, w1) ->
  content <> [] ->
  parseAnalysisRow content config = Err message ->
  parseLooseAnalysisRow content config = Ok loose ->
  (hasAnyValue loose = true ->
   exists w', tryModel config client prompt model w
              = (Returned (Some (Text <$> loose)), w')
              /\ posted w' = posted w1)
  /\ (hasAnyValue loose = false ->
      exists w2,
        posted w2 = posted w1
        /\ forall outcome w3,
             createChatCompletion client (reminderRequest config prompt model) w2
             = (outcome, w3) ->
             (exists retries,
                posted w3
                = posted w1 ++ replicate (S retries) (reminderRequest config prompt model))
             /\ match outcome with
                | OutOfFuel => False
                | Thrown e =>
                    tryModel config client prompt model w = (Thrown e, w3)
                | Returned retryResponse =>
                    let retryContent := extractMessageText (firstMessage retryResponse) in
                    tryModel config client prompt model w
                    = afterReminder config model retryResponse w3
                    /\ posted (snd (afterReminder config model retryResponse w3))
                       = posted w3
                    /\ (retryContent = [] ->
                        exists w',
                          tryModel config client prompt model w = (Returned None, w'))
                    /\ (forall row,
                          retryContent <> [] ->
                          parseAnalysisRow retryContent config = Ok row ->
                          tryModel config client prompt model w
                          = (Returned (Some row), w3))
                    /\ (forall message2 loose2,
                          retryContent <> [] ->
                          parseAnalysisRow retryContent config = Err message2 ->
                          parseLooseAnalysisRow retryContent config = Ok loose2 ->
                          exists w',
                            tryModel config client prompt model w
                            = (Returned (if hasAnyValue loose2
                                         then Some (Text <$> loose2) else None),
                               w'))
                end)
  /\ messages (reminderRequest config prompt model)
     = buildAnalysisMessages (prompt ++ [10] ++ [10] ++ reminder) (settingsLang config)
  /\ (hasAnyValue loose = true <-> exists k v, loose !! k = Some v /\ trim v <> [])
  /\ (forall k : jsstring, k ∈ keysOf config -> k <> protoKey -> isLiteralKey k = true ->
        loose !! k
        = Some (match literalKeyMatch k (trim (stripArtifacts content)) with
                | Some g => trim g
                | None => []
                end))
  /\ loose !! protoKey = None
  /\ dom loose = fieldSet config
  /\ (forall k s g : jsstring,
        literalKeyMatch k s = Some g ->
        exists (before rest ws : jsstring) (c : N) (value : jsstring),
          s = before ++ rest
          /\ startsWithFolded k rest = true
          /\ drop (length k) rest = ws ++ c :: value
          /\ forallb isWhiteSpace ws = true
          /\ canonicalize c ∈ map canonicalize separators)
  /\ separators = [45; 8212; 58; 61].
Proof.
  intros Hcontent Hne Hstrict Hloose.
  split; [by eapply tryModel_accepts_loose|].
  split.
  2:{ split.
      { unfold reminderRequest, analysisRequest. cbn [messages join app]. reflexivity. }
      split; [apply hasAnyValue_spec|]. split.
      { intros k Hk Hne0 Hliteral. unfold parseLooseAnalysisRow in Hloose.
        by eapply looseLoop_lookup. }
      pose proof (parseLooseAnalysisRow_dom _ _ _ Hloose) as Hdom.
      split.
      { apply not_elem_of_dom. rewrite Hdom, elem_of_fieldSet. intros [_ Hne0].
        by apply Hne0. }
      split; [exact Hdom|].
      split; [| reflexivity].
      intros k s g Hmatch.
      apply literalKeyMatch_key in Hmatch as (before & rest & -> & Hstart & Hafter).
      apply matchAfterKey_separator in Hafter as (ws & c & value & Heq & Hws & Hsep).
      exists before, rest, ws, c, value. auto. }
  intros Hany.
  pose proof (tryModel_reminds w content w1 message loose Hcontent Hne Hstrict Hloose Hany)
    as Htry.
  exists (setLogged w1
            (logged w1
             ++ [(warn, (js "Analyzer parse failed for " ++ model
                         ++ js ", retrying once: ") ++ message)])).
  split; [reflexivity|]. intros outcome w3 Hreminder.
  split.
  { apply createChatCompletion_posted in Hreminder as (retries & Hposted).
    exists retries. exact Hposted. }
  assert (Hrun : tryModel config client prompt model w
                 = match outcome with
                   | Returned retryResponse => afterReminder config model retryResponse w3
                   | Thrown e => (Thrown e, w3)
                   | OutOfFuel => (OutOfFuel, w3)
                   end).
  { rewrite Htry. unfold bind. rewrite Hreminder. destruct outcome; reflexivity. }
  rewrite Hrun. clear Hrun Htry.
  destruct outcome as [retryResponse | e |].
  - cbn zeta. split; [reflexivity|]. split; [| split; [| split]].
    + destruct (afterReminder config model retryResponse w3) as [r w'] eqn:Hafter.
      by eapply afterReminder_posted.
    + intros Hempty. unfold afterReminder. cbn zeta. rewrite Hempty. cbn [truthy negb].
      eexists. reflexivity.
    + intros row Hne2 Hstrict2. unfold afterReminder. cbn zeta.
      destruct (extractMessageText (firstMessage retryResponse)); [contradiction|].
      cbn [truthy negb]. rewrite Hstrict2. reflexivity.
    + intros message2 loose2 Hne2 Hstrict2 Hloose2. unfold afterReminder. cbn zeta.
      destruct (extractMessageText (firstMessage retryResponse)) eqn:Hretry;
        [contradiction|].
      cbn [truthy negb]. rewrite Hstrict2. unfold catchParse. rewrite Hloose2.
      destruct (hasAnyValue loose2); eexists; reflexivity.
  - reflexivity.
  - pose proof (createChatCompletion_total client (reminderRequest config prompt model)
                  (setLogged w1
                     (logged w1
                      ++ [(warn, (js "Analyzer parse failed for " ++ model
                                  ++ js ", retrying once: ") ++ message)]))) as Htotal.
    rewrite Hreminder in Htotal. apply Htotal. reflexivity.
Qed.

End ParseOrder.

(** *** Fixtures of the analysis *)

Section AnalysisFixtures.

Import FallbackModels Analyze.

Definition fixedPrompt : IProjectConfig -> IInterviewSession -> jsstring :=
  fun _ _ => js "Extract the fields.".

Definition demoClient : LlmClient := newLlmClient defaultOptions.

(** Every model answers with one line of plain text. *)
Definition plainLine : nat -> ChatCompletionRequest -> BackendOutcome :=
  fun _ _ => Responds (textResponse (js "Would_Use = yes")).

Definition jsonAnswer : jsstring :=
  js "Here you go: {" ++ dq ++ js "would_use" ++ dq ++ js ": " ++ dq ++ js "maybe" ++ dq
  ++ js ", " ++ dq ++ js "pain" ++ dq ++ js ": 3, " ++ dq ++ js "extra" ++ dq
  ++ js ": true}".

(** Prose first; JSON once the request carries the reminder. *)
Definition proseThenJson : nat -> ChatCompletionRequest -> BackendOutcome :=
  fun n _ =>
    match n with
    | 0%nat => Responds (textResponse (js "I would rather not say."))
    | _ => Responds (textResponse jsonAnswer)
    end.

Definition tried (answers : nat -> ChatCompletionRequest -> BackendOutcome)
  : Completion (option (gmap jsstring RowValue)) * World :=
  tryModel (rt := asciiRuntime) demoConfig demoClient (js "Extract the fields.")
    (js "analyzer-model") (freshWorld answers).

Definition fieldsOf (r : Completion (option (gmap jsstring RowValue)))
  : list (option jsstring) :=
  match r with
  | Returned (Some row) =>
      map (fun k => row !! k ≫= textOf) [js "would_use"; js "pain"; js "extra"]
  | _ => []
  end.

Example plainLine_accepted_at_once :
  fieldsOf (fst (tried plainLine)) = [Some (js "yes"); Some []; None]
  /\ length (posted (snd (tried plainLine))) = 1%nat.
Proof. vm_compute. split; reflexivity. Qed.

Example proseThenJson_reminded_once :
  fieldsOf (fst (tried proseThenJson)) = [Some (js "maybe"); Some (js "3"); None]
  /\ posted (snd (tried proseThenJson))
     = [ analysisRequest (rt := asciiRuntime) (js "Extract the fields.")
           (js "analyzer-model") (js "en");
         reminderRequest (rt := asciiRuntime) demoConfig (js "Extract the fields.")
           (js "analyzer-model") ].
Proof. vm_compute. split; reflexivity. Qed.

(** The em dash separates a key from its value, the en dash does not. *)
Definition looseFields (content : jsstring) : list (option jsstring) :=
  match parseLooseAnalysisRow (rt := asciiRuntime) content demoConfig with
  | Ok row => [row !! js "would_use"; row !! js "pain"]
  | Err _ => []
  end.

Example loose_separators :
  looseFields (js "would_use — often; PAIN:cost") = [Some (js "often; PAIN:cost"); Some (js "cost")]
  /\ looseFields (js "would_use – often") = [Some []; Some []]
  /\ looseFields (js "pain-x") = [Some []; Some (js "x")].
Proof. vm_compute. repeat split; reflexivity. Qed.

(** A world for the analysis stage: one persisted session, no fallback
    file. *)
Definition analysisWorld (answers : nat -> ChatCompletionRequest -> BackendOutcome)
  : World :=
  {| backend := answers; posted := []; slept := []; ticks := 0; logged := [];
     logsDir := Some [persistedFile (js "p-002")]; personasFile := None;
     fallbackModelsFile := None; respondentPromptFile := None;
     interviewerPromptFile := None;
     ioError := js "ENOENT: no such file or directory";
     apiKey := Some (js "sk-test");
     clock := fun _ => js "2024-01-01T00:00:00.000Z"; clockReads := 0 |}.

Definition analyzed (answers : nat -> ChatCompletionRequest -> BackendOutcome)
  : Completion (list (gmap jsstring jsstring)) * World :=
  analyzeInterviews (rt := asciiRuntime) fixedPrompt demoConfig (analysisWorld answers).

Definition analyzedRows (answers : nat -> ChatCompletionRequest -> BackendOutcome)
  : list (gmap jsstring jsstring) :=
  match fst (analyzed answers) with Returned rows => rows | _ => [] end.

Definition recordFields (row : gmap jsstring jsstring) : list (option jsstring) :=
  [ row !! js "personaId"; row !! js "segmentId"; row !! js "would_use";
    row !! js "pain"; row !! js "extra" ].

(** No model sends more than a formatting artifact: each of the six
    models is asked once and reminded once, and the record has its
    fields empty. *)
Example silent_analysis :
  map recordFields (analyzedRows silent)
  = [[Some (js "p-002"); Some (js "s1"); Some []; Some []; None]]
  /\ length (posted (snd (analyzed silent))) = 12%nat.
Proof. vm_compute. split; reflexivity. Qed.

Example reminded_analysis :
  map recordFields (analyzedRows proseThenJson)
  = [[Some (js "p-002"); Some (js "s1"); Some (js "maybe"); Some (js "3"); None]].
Proof. vm_compute. reflexivity. Qed.

(** The analyzer model answers with JSON at once. *)
Definition jsonAtOnce : nat -> ChatCompletionRequest -> BackendOutcome :=
  fun _ _ => Responds (textResponse jsonAnswer).

Example strict_analysis :
  map recordFields (analyzedRows jsonAtOnce)
  = [[Some (js "p-002"); Some (js "s1"); Some (js "maybe"); Some (js "3"); None]]
  /\ length (posted (snd (analyzed jsonAtOnce))) = 1%nat.
Proof. vm_compute. split; reflexivity. Qed.

(** The schema of the demo with one more key. *)
Definition withKey (k : jsstring) : IProjectConfig :=
  {| metaProjectName := metaProjectName demoConfig;
     settingsConcurrency := settingsConcurrency demoConfig;
     settingsLang := settingsLang demoConfig;
     modelsInterviewer := modelsInterviewer demoConfig;
     modelsRespondent := modelsRespondent demoConfig;
     modelsAnalyzer := modelsAnalyzer demoConfig;
     segments := segments demoConfig;
     flowContext := flowContext demoConfig;
     flowScript := flowScript demoConfig;
     flowInterviewerMode := flowInterviewerMode demoConfig;
     analyticsSchema :=
       analyticsSchema demoConfig ++ [ {| key := k; description := js "One more" |} ] |}.


End AnalysisFixtures.

(** C4 as stated fails: the first response is one line of plain text,
    its strict parse throws, and the loose parse of that response is
    accepted at once: the analysis of this model has posted the one
    request and no reminder.  The en dash, moreover, is not among the
    separators of the pattern. *)
Lemma loose_parse_precedes_reminder :
  (exists message,
     Analyze.parseAnalysisRow (rt := asciiRuntime) (js "Would_Use = yes") demoConfig
     = Err message)
  /\ fieldsOf (fst (tried plainLine)) = [Some (js "yes"); Some []; None]
  /\ posted (snd (tried plainLine))
     = [Analyze.analysisRequest (rt := asciiRuntime) (js "Extract the fields.")
          (js "analyzer-model") (js "en")]
  /\ looseFields (js "would_use – often") = [Some []; Some []].
Proof.
  split; [eexists; vm_compute; reflexivity|].
  vm_compute. repeat split; reflexivity.
Qed.

Definition plainLineLoose : gmap jsstring jsstring :=
  match Analyze.parseLooseAnalysisRow (rt := asciiRuntime) (js "Would_Use = yes") demoConfig with
  | Ok row => row
  | Err _ => ∅
  end.

Lemma loose_parse_then_one_reminder_witness :
  exists w',
    Analyze.tryModel (rt := asciiRuntime) demoConfig demoClient (js "Extract the fields.")
      (js "analyzer-model") (freshWorld plainLine)
    = (Returned (Some (Analyze.Text <$> plainLineLoose)), w')
    /\ posted w'
       = posted (snd (Analyze.requestAnalysisContent (rt := asciiRuntime) demoClient
                        (js "Extract the fields.")
                        (js "analyzer-model") (js "en") (freshWorld plainLine))).
Proof.
  apply (proj1 (loose_parse_then_one_reminder (rt := asciiRuntime) demoConfig demoClient
                  (js "Extract the fields.") (js "analyzer-model")
                  (freshWorld plainLine) (js "Would_Use = yes")
                  (snd (Analyze.requestAnalysisContent (rt := asciiRuntime) demoClient
                          (js "Extract the fields.") (js "analyzer-model") (js "en")
                          (freshWorld plainLine)))
                  (js "Failed to parse analysis JSON: No JSON block found in LLM response.")
                  plainLineLoose
                  ltac:(vm_compute; reflexivity)
                  ltac:(discriminate)
                  ltac:(vm_compute; reflexivity)
                  ltac:(vm_compute; reflexivity))).
  vm_compute. reflexivity.
Defined.




(** ** The extractor on a fenced block *)

Section FencedBlock.

(** The serialized text inside a fenced block, with or without the
    language tag. *)
Definition wrapFenced (tagged : bool) (text : jsstring) : jsstring :=
  fence ++ (if tagged then js "json" else []) ++ [10] ++ text ++ [10] ++ fence.

Lemma startsWith_fence_app (s t : jsstring) :
  startsWith fence (s ++ 10 :: t) = true -> startsWith fence s = true.
Proof.
  unfold fence, backtick.
  destruct s as [| a [| b [| c r]]]; cbn; try discriminate.
  - rewrite andb_false_r. discriminate.
  - rewrite !andb_false_r. discriminate.
  - auto.
Qed.

Lemma lazyUntilFence_clean (s rest : jsstring) :
  includes fence s = false ->
  lazyUntilFence (s ++ [10] ++ fence ++ rest) = Some (s ++ [10]).
Proof.
  induction s as [| c r IH]; intros Hclean.
  - reflexivity.
  - cbn [includes] in Hclean. apply orb_false_iff in Hclean as [Hhere Hlater].
    cbn [app lazyUntilFence].
    destruct (startsWith fence (c :: r ++ 10 :: fence ++ rest)) eqn:Hstart.
    + apply (startsWith_fence_app (c :: r)) in Hstart. congruence.
    + change (r ++ 10 :: fence ++ rest) with (r ++ [10] ++ fence ++ rest).
      rewrite (IH Hlater). reflexivity.
Qed.

Lemma wsStarAlternatives_headOk (s : jsstring) :
  s <> [] -> headOk s -> wsStarAlternatives s = [s].
Proof.
  destruct s as [| c r]; [contradiction|]. cbn. intros _ ->. reflexivity.
Qed.

Lemma trim_line (s : jsstring) :
  headOk s -> headOk (rev s) -> s <> [] -> trim (s ++ [10]) = s.
Proof.
  intros Hhead Hlast Hne. unfold trim.
  rewrite trimStart_fixed by (destruct s; [contradiction | exact Hhead]).
  unfold trimEnd. rewrite rev_app_distr. cbn [rev app trimStart].
  change (isWhiteSpace 10) with true. cbn iota.
  rewrite (trimStart_fixed _ Hlast). apply rev_involutive.
Qed.

Lemma fencedMatch_here (s g : jsstring) :
  startsWith fence s = true ->
  matchAfterOpener (drop 3 s) = Some g ->
  fencedMatch s = Some g.
Proof.
  intros Hstart Hmatch. destruct s as [| c r]; cbn [fencedMatch];
    rewrite Hstart, Hmatch; reflexivity.
Qed.

Lemma afterWhiteSpace_clean (text : jsstring) :
  text <> [] -> headOk text -> includes fence text = false ->
  firstSome lazyUntilFence (wsStarAlternatives (10 :: text ++ [10] ++ fence))
  = Some (text ++ [10]).
Proof.
  intros Hne Hhead Hclean.
  cbn [wsStarAlternatives]. change (isWhiteSpace 10) with true. cbn iota.
  rewrite wsStarAlternatives_headOk.
  - cbn [app firstSome].
    pose proof (lazyUntilFence_clean text [] Hclean) as Hlazy.
    rewrite app_nil_r in Hlazy. cbn [app] in Hlazy. rewrite Hlazy. reflexivity.
  - destruct text; [contradiction | discriminate].
  - destruct text; [contradiction | exact Hhead].
Qed.

Lemma matchAfterOpener_fenced (tagged : bool) (text : jsstring) :
  text <> [] -> headOk text -> includes fence text = false ->
  matchAfterOpener ((if tagged then js "json" else []) ++ [10] ++ text ++ [10] ++ fence)
  = Some (text ++ [10]).
Proof.
  intros Hne Hhead Hclean.
  pose proof (afterWhiteSpace_clean text Hne Hhead Hclean) as Hrest.
  unfold matchAfterOpener. destruct tagged.
  - change (js "json" ++ [10] ++ text ++ [10] ++ fence)
      with (106 :: 115 :: 111 :: 110 :: 10 :: text ++ [10] ++ fence).
    unfold jsonTagAlternatives. cbn [take map drop].
    replace (startsWith (js "json") [asciiLower 106; asciiLower 115; asciiLower 111;
                                     asciiLower 110]) with true by reflexivity.
    cbn [firstSome]. rewrite Hrest. reflexivity.
  - change ([] ++ [10] ++ text ++ [10] ++ fence) with (10 :: text ++ [10] ++ fence).
    unfold jsonTagAlternatives.
    replace (startsWith (js "json") (map asciiLower (take 4 (10 :: text ++ [10] ++ fence))))
      with false by reflexivity.
    cbn [firstSome]. rewrite Hrest. reflexivity.
Qed.

(** A text that is trimmed, not empty and free of three backticks in a
    row comes back from its fenced block as it went in. *)
Lemma extractJsonBlock_fenced (tagged : bool) (text : jsstring) :
  text <> [] -> headOk text -> headOk (rev text) ->
  includes fence text = false ->
  extractJsonBlock (wrapFenced tagged text) = Some text.
Proof.
  intros Hne Hhead Hlast Hclean.
  assert (Hgroup : fencedMatch (wrapFenced tagged text) = Some (text ++ [10])).
  { apply fencedMatch_here; [reflexivity|].
    unfold wrapFenced. change (drop 3 (fence ++ ?x)) with x.
    by apply matchAfterOpener_fenced. }
  unfold extractJsonBlock. rewrite Hgroup.
  replace (truthy (text ++ [10])) with true by (destruct text; reflexivity).
  rewrite (trim_line text Hhead Hlast Hne). reflexivity.
Qed.

End FencedBlock.


(** ** JSON.parse after JSON.stringify *)

Section JsonStrings.

Import Json.

Definition hexCheck (c : N) : bool :=
  match map hexValue (hex4 c) with
  | [Some d1; Some d2; Some d3; Some d4] => d1 * 4096 + d2 * 256 + d3 * 16 + d4 =? c
  | _ => false
  end.

Fixpoint unitsFrom (count : nat) (start : N) : list N :=
  match count with
  | O => []
  | S count' => start :: unitsFrom count' (start + 1)
  end.

Lemma unitsFrom_In (count : nat) (start c : N) :
  start <= c < start + N.of_nat count -> In c (unitsFrom count start).
Proof.
  revert start. induction count as [| count IH]; intros start Hc; [lia|].
  cbn [unitsFrom]. destruct (N.eq_dec start c) as [-> | Hne]; [by left|].
  right. apply IH. lia.
Qed.

Lemma hexCheck_all : forallb hexCheck (unitsFrom (N.to_nat 65536) 0) = true.
Proof. vm_compute. reflexivity. Qed.

Lemma hexCheck_unit (c : N) : c < 65536 -> hexCheck c = true.
Proof.
  intros Hc. pose proof hexCheck_all as Hall. rewrite forallb_forall in Hall.
  apply Hall, unitsFrom_In. rewrite N2Nat.id. lia.
Qed.

Lemma parse_unicodeEscape (c : N) (tail units rest : jsstring) :
  c < 65536 ->
  parseStringUnits tail = Some (units, rest) ->
  parseStringUnits (unicodeEscape c ++ tail) = Some (c :: units, rest).
Proof.
  intros Hc Htail. pose proof (hexCheck_unit c Hc) as Hhex.
  unfold hexCheck in Hhex. unfold unicodeEscape. cbn [app hex4 map] in *.
  cbn [parseStringUnits].
  change (backslash =? dquote) with false. change (backslash =? backslash) with true.
  change (117 =? 117) with true. cbn iota.
  destruct (hexValue (hexDigit ((c / 4096) mod 16))) as [d1|]; [| discriminate].
  destruct (hexValue (hexDigit ((c / 256) mod 16))) as [d2|]; [| discriminate].
  destruct (hexValue (hexDigit ((c / 16) mod 16))) as [d3|]; [| discriminate].
  destruct (hexValue (hexDigit (c mod 16))) as [d4|]; [| discriminate].
  apply N.eqb_eq in Hhex. rewrite Htail, Hhex. reflexivity.
Qed.

Lemma parse_raw (c : N) (tail units rest : jsstring) :
  c <> dquote -> c <> backslash -> (c <? 32) = false ->
  parseStringUnits tail = Some (units, rest) ->
  parseStringUnits (c :: tail) = Some (c :: units, rest).
Proof.
  intros Hq Hb Hc Htail. cbn [parseStringUnits].
  apply N.eqb_neq in Hq, Hb. rewrite Hq, Hb, Hc, Htail. reflexivity.
Qed.

Lemma parse_quoteUnit (prevHigh : bool) (c : N) (next : option N)
    (tail units rest : jsstring) :
  parseStringUnits tail = Some (units, rest) ->
  parseStringUnits (quoteUnit prevHigh c next ++ tail) = Some (c :: units, rest).
Proof.
  intros Htail. unfold quoteUnit.
  destruct (N.eqb_spec c 8) as [-> | H8]; [cbn; by rewrite Htail|].
  destruct (N.eqb_spec c 9) as [-> | H9]; [cbn; by rewrite Htail|].
  destruct (N.eqb_spec c 10) as [-> | H10]; [cbn; by rewrite Htail|].
  destruct (N.eqb_spec c 12) as [-> | H12]; [cbn; by rewrite Htail|].
  destruct (N.eqb_spec c 13) as [-> | H13]; [cbn; by rewrite Htail|].
  destruct (N.eqb_spec c dquote) as [-> | Hq]; [cbn; by rewrite Htail|].
  destruct (N.eqb_spec c backslash) as [-> | Hb]; [cbn; by rewrite Htail|].
  destruct (N.ltb_spec c 32) as [Hlow | Hhigh].
  { apply parse_unicodeEscape; [lia | exact Htail]. }
  assert (Hc : (c <? 32) = false) by (apply N.ltb_ge; exact Hhigh).
  destruct (isHighSurrogate c) eqn:Hhs.
  { assert (c < 65536).
    { unfold isHighSurrogate in Hhs. apply andb_true_iff in Hhs as [_ Hle].
      apply N.leb_le in Hle. lia. }
    destruct next as [n|]; [destruct (isLowSurrogate n)|];
      first [by apply parse_unicodeEscape | by apply parse_raw]. }
  destruct (isLowSurrogate c) eqn:Hls.
  { assert (c < 65536).
    { unfold isLowSurrogate in Hls. apply andb_true_iff in Hls as [_ Hle].
      apply N.leb_le in Hle. lia. }
    destruct prevHigh; first [by apply parse_unicodeEscape | by apply parse_raw]. }
  by apply parse_raw.
Qed.

(** A quoted string reads back as the string. *)
Lemma parse_quoteUnits (s : jsstring) (prevHigh : bool) (rest : jsstring) :
  parseStringUnits (quoteUnits prevHigh s ++ dq ++ rest) = Some (s, rest).
Proof.
  revert prevHigh. induction s as [| c r IH]; intros prevHigh.
  - reflexivity.
  - cbn [quoteUnits]. rewrite <- app_assoc. apply parse_quoteUnit, IH.
Qed.

Lemma parse_quoted (s : jsstring) (rest : jsstring) :
  parseStringUnits (quoteUnits false s ++ dquote :: rest) = Some (s, rest).
Proof. exact (parse_quoteUnits s false rest). Qed.

End JsonStrings.

Section JsonNumbers.

Import Json.

Lemma digitsValue_snoc (ds : jsstring) (d : N) :
  digitsValue (ds ++ [d]) = digitsValue ds * 10 + (d - 48).
Proof. unfold digitsValue. rewrite foldl_app. reflexivity. Qed.

Lemma digitsOf_spec (fuel : nat) (n : N) :
  n < 2 ^ N.of_nat (S fuel) ->
  forallb isDigit (digitsOf (S fuel) n) = true
  /\ digitsValue (digitsOf (S fuel) n) = n
  /\ digitsOf (S fuel) n <> []
  /\ (head (digitsOf (S fuel) n) = Some 48 -> digitsOf (S fuel) n = [48]).
Proof.
  revert n. induction fuel as [| fuel IH]; intros n Hn.
  - assert (Hsmall : n < 10) by (cbn in Hn; lia).
    cbn [digitsOf]. apply N.ltb_lt in Hsmall as Hlt. rewrite Hlt.
    rewrite (N.mod_small n 10 Hsmall). cbn [app].
    assert (Hdigit : isDigit (48 + n) = true).
    { unfold isDigit. apply andb_true_iff. split; apply N.leb_le; lia. }
    split; [cbn; by rewrite Hdigit|]. split; [unfold digitsValue; cbn [foldl]; lia|]. split; [discriminate|].
    cbn [head]. intros H. injection H as H. f_equal. lia.
  - remember (S fuel) as fuel' eqn:Hfuel. cbn [digitsOf].
    assert (Hdigit : isDigit (48 + n mod 10) = true).
    { unfold isDigit. pose proof (N.mod_lt n 10 ltac:(lia)) as Hmod.
      generalize dependent (n mod 10). intros m Hmod.
      apply andb_true_iff. split; apply N.leb_le; lia. }
    destruct (N.ltb_spec n 10) as [Hsmall | Hbig].
    + cbn [app forallb]. rewrite Hdigit. rewrite (N.mod_small n 10 Hsmall).
      split; [reflexivity|]. split; [unfold digitsValue; cbn [foldl]; lia|]. split; [discriminate|].
      cbn [head]. intros H. injection H as H. f_equal. lia.
    + assert (Hdiv : n / 10 < 2 ^ N.of_nat fuel').
      { apply N.Div0.div_lt_upper_bound.
        rewrite Nat2N.inj_succ, N.pow_succ_r' in Hn. lia. }
      subst fuel'. destruct (IH _ Hdiv) as (Hall & Hvalue & Hne & Hhead).
      split; [rewrite forallb_app, Hall; cbn; by rewrite Hdigit|].
      split.
      { rewrite digitsValue_snoc, Hvalue.
        pose proof (N.div_mod n 10 ltac:(lia)) as Hdm.
        generalize dependent (n mod 10). generalize dependent (n / 10).
        intros. lia. }
      split; [by destruct (digitsOf (S fuel) (n / 10))|].
      destruct (digitsOf (S fuel) (n / 10)) as [| d more] eqn:Hds; [contradiction|].
      cbn [app head]. intros H. specialize (Hhead H). injection Hhead as -> ->.
      unfold digitsValue in Hvalue. cbn [foldl] in Hvalue. assert (n / 10 <> 0) by (intros H0; apply N.div_small_iff in H0; lia).
      lia.
Qed.

Lemma String_N_spec (n : N) :
  forallb isDigit (String_N n) = true
  /\ digitsValue (String_N n) = n
  /\ String_N n <> []
  /\ (head (String_N n) = Some 48 -> String_N n = [48]).
Proof.
  unfold String_N. apply digitsOf_spec.
  destruct n as [| p]; [cbn; lia|].
  rewrite Nat2N.inj_succ, N2Nat.id.
  apply N.log2_spec. lia.
Qed.

(** What may follow a value: nothing, or a code unit that is not part
    of a number. *)
Definition endsNumber (rest : jsstring) : Prop :=
  match rest with
  | [] => True
  | c :: _ => isDigit c = false /\ c <> 46 /\ c <> 101 /\ c <> 69
  end.

Lemma takeDigits_app (ds rest : jsstring) :
  forallb isDigit ds = true -> endsNumber rest ->
  takeDigits (ds ++ rest) = (ds, rest).
Proof.
  intros Hds Hrest. induction ds as [| d more IH].
  - cbn. destruct rest as [| c r]; [reflexivity|].
    destruct Hrest as [Hc _]. cbn. rewrite Hc. reflexivity.
  - cbn in Hds. apply andb_true_iff in Hds as [Hd Hmore].
    cbn. rewrite Hd, (IH Hmore). reflexivity.
Qed.

Lemma parseNumber_digits (negative : bool) (n : N) (rest : jsstring) :
  endsNumber rest ->
  (let (ds, after) := takeDigits (String_N n ++ rest) in
   match ds with
   | [] => None
   | d :: more =>
       if (d =? 48) && truthy more then None
       else
         match after with
         | c :: _ =>
             if (c =? 46) || (c =? 101) || (c =? 69) then None
             else Some (if negative then (- Z.of_N (digitsValue ds))%Z
                        else Z.of_N (digitsValue ds), after)
         | [] => Some (if negative then (- Z.of_N (digitsValue ds))%Z
                       else Z.of_N (digitsValue ds), after)
         end
   end)
  = Some (if negative then (- Z.of_N n)%Z else Z.of_N n, rest).
Proof.
  intros Hrest. destruct (String_N_spec n) as (Hall & Hvalue & Hne & Hhead).
  rewrite (takeDigits_app _ _ Hall Hrest).
  destruct (String_N n) as [| d more] eqn:Hds; [contradiction|].
  assert (Hzero : (d =? 48) && truthy more = false).
  { destruct (N.eqb_spec d 48) as [-> | Hd]; [| reflexivity].
    specialize (Hhead eq_refl). injection Hhead as ->. reflexivity. }
  rewrite Hzero, Hvalue.
  destruct rest as [| c r]; [reflexivity|].
  destruct Hrest as (_ & H1 & H2 & H3).
  apply N.eqb_neq in H1, H2, H3. rewrite H1, H2, H3. reflexivity.
Qed.

Lemma String_N_head (n : N) :
  exists d more, String_N n = d :: more /\ isDigit d = true.
Proof.
  destruct (String_N_spec n) as (Hall & _ & Hne & _).
  destruct (String_N n) as [| d more]; [contradiction|].
  cbn in Hall. apply andb_true_iff in Hall as [Hd _]. exists d, more. auto.
Qed.

Lemma parseNumber_unsigned (m : N) (rest : jsstring) :
  endsNumber rest ->
  parseNumber (String_N m ++ rest) = Some (Z.of_N m, rest).
Proof.
  intros Hrest. pose proof (parseNumber_digits false m rest Hrest) as Hdigits.
  destruct (String_N_head m) as (d & more & Hds & Hd).
  unfold parseNumber. rewrite Hds in *. cbn [app] in *.
  replace (d =? 45) with false.
  - exact Hdigits.
  - unfold isDigit in Hd. apply andb_true_iff in Hd as [Hd _].
    apply N.leb_le in Hd. symmetry. apply N.eqb_neq. lia.
Qed.

(** A serialized integer reads back as the integer. *)
Lemma parseNumber_String_Z (n : Z) (rest : jsstring) :
  endsNumber rest ->
  parseNumber (String_Z n ++ rest) = Some (n, rest).
Proof.
  intros Hrest. unfold String_Z. destruct n as [| p | p].
  - apply (parseNumber_unsigned 0 rest Hrest).
  - apply (parseNumber_unsigned (N.pos p) rest Hrest).
  - unfold parseNumber. cbn [app]. change (45 =? 45) with true. cbn iota.
    apply (parseNumber_digits true (N.pos p) rest Hrest).
Qed.

End JsonNumbers.

Section JsonValues.

Import Json.

(** Induction on values, with the hypothesis for every item of an array
    and every member of an object. *)
Lemma json_nested_ind (P : json Z -> Prop) :
  P JNull ->
  (forall b, P (JBool b)) ->
  (forall n, P (JNum n)) ->
  (forall s, P (JStr s)) ->
  (forall items, Forall P items -> P (JArr items)) ->
  (forall members, Forall (fun kv => P (snd kv)) members -> P (JObj members)) ->
  forall v, P v.
Proof.
  intros Hnull Hbool Hnum Hstr Harr Hobj.
  fix IH 1. intros [| b | n | s | items | members].
  - exact Hnull.
  - apply Hbool.
  - apply Hnum.
  - apply Hstr.
  - apply Harr. induction items as [| item rest IHitems]; constructor.
    + apply IH.
    + exact IHitems.
  - apply Hobj. induction members as [| [k v] rest IHmembers]; constructor.
    + apply IH.
    + exact IHmembers.
Qed.

(** The nodes of a value, which bound the fuel its parse needs. *)
Fixpoint size (v : json Z) : nat :=
  match v with
  | JArr items => S (list_sum (map (fun item => S (size item)) items))
  | JObj members => S (list_sum (map (fun kv => S (size (snd kv))) members))
  | _ => 1
  end.

(** The values [JSON.stringify] and [JSON.parse] carry faithfully in
    this model: integers that a JavaScript number holds exactly, and
    objects whose keys are distinct. *)
Fixpoint serializable (v : json Z) : bool :=
  match v with
  | JNum n => (Z.abs n <=? 9007199254740991)%Z
  | JArr items => forallb serializable items
  | JObj members =>
      bool_decide (NoDup (map fst members))
      && forallb (fun kv => serializable (snd kv)) members
  | _ => true
  end.

Lemma String_Z_head (n : Z) :
  exists d more, String_Z n = d :: more /\ (d = 45 \/ isDigit d = true).
Proof.
  unfold String_Z. destruct n as [| p | p].
  - destruct (String_N_head (Z.to_N 0)) as (d & more & -> & Hd). eauto.
  - destruct (String_N_head (Z.to_N (Z.pos p))) as (d & more & -> & Hd). eauto.
  - eauto.
Qed.

Lemma String_Z_last (n : Z) :
  exists front d, String_Z n = front ++ [d] /\ isDigit d = true.
Proof.
  assert (Hlast : forall m, exists front d, String_N m = front ++ [d] /\ isDigit d = true).
  { intros m. destruct (String_N_spec m) as (Hall & _ & Hne & _).
    destruct (exists_last Hne) as (front & d & Heq). exists front, d.
    split; [exact Heq|]. rewrite Heq, forallb_app in Hall.
    apply andb_true_iff in Hall as [_ Hd]. cbn in Hd.
    by apply andb_true_iff in Hd as [Hd _]. }
  unfold String_Z. destruct n as [| p | p].
  - apply Hlast.
  - apply Hlast.
  - destruct (Hlast (N.pos p)) as (front & d & -> & Hd). exists (45 :: front), d. auto.
Qed.

(** The first code unit of a serialized value: it tells the parser the
    kind of the value, and it is no white space. *)
Definition startsValue (c : N) : Prop :=
  c = 110 \/ c = 116 \/ c = 102 \/ c = dquote \/ c = lbracket \/ c = lbrace
  \/ c = 45 \/ isDigit c = true.

Lemma JSON_stringify_head (v : json Z) :
  exists c more, JSON_stringify v = c :: more /\ startsValue c.
Proof.
  unfold startsValue. destruct v as [| [|] | n | s | items | members]; cbn [JSON_stringify].
  - exists 110, (js "ull"). auto.
  - exists 116, (js "rue"). auto.
  - exists 102, (js "alse"). auto 10.
  - destruct (String_Z_head n) as (d & more & Heq & Hd). exists d, more.
    split; [exact Heq|]. destruct Hd; auto 10.
  - exists dquote, (quoteUnits false s ++ dq). split; [reflexivity | auto 10].
  - eexists lbracket, _. split; [reflexivity | auto 10].
  - eexists lbrace, _. split; [reflexivity | auto 10].
Qed.

Lemma startsValue_facts (c : N) :
  startsValue c ->
  isJsonWhiteSpace c = false /\ isWhiteSpace c = false
  /\ c <> rbracket /\ c <> rbrace.
Proof.
  unfold startsValue, isDigit.
  intros [-> | [-> | [-> | [-> | [-> | [-> | [-> | Hd]]]]]]];
    try (repeat split; (reflexivity || discriminate)).
  apply andb_true_iff in Hd as [H1 H2]. apply N.leb_le in H1, H2.
  unfold isJsonWhiteSpace, isWhiteSpace, rbracket, rbrace.
  repeat split; try lia;
    repeat (apply orb_false_iff; split); try (apply N.eqb_neq; lia);
    apply andb_false_iff; left; apply N.leb_gt; lia.
Qed.

End JsonValues.

Section JsonRoundTrip.

Import Json.

Lemma parseValue_number (fuel : nat) (d : N) (r : jsstring) :
  d = 45 \/ isDigit d = true ->
  parseValue (S fuel) (d :: r)
  = match parseNumber (d :: r) with
    | Some (n, rest) => Some (JNum n, rest)
    | None => None
    end.
Proof.
  intros Hd.
  assert (Hfacts : isJsonWhiteSpace d = false /\ d <> 110 /\ d <> 116 /\ d <> 102
                   /\ d <> dquote /\ d <> lbracket /\ d <> lbrace).
  { unfold isJsonWhiteSpace, isDigit, dquote, lbracket, lbrace in *.
    destruct Hd as [-> | Hd]; [repeat split; (reflexivity || discriminate)|].
    apply andb_true_iff in Hd as [H1 H2]. apply N.leb_le in H1, H2.
    repeat split; try lia.
    repeat (apply orb_false_iff; split); apply N.eqb_neq; lia. }
  destruct Hfacts as (Hws & H1 & H2 & H3 & H4 & H5 & H6).
  cbn [parseValue skipWhiteSpace]. rewrite Hws.
  apply N.eqb_neq in H1, H2, H3, H4, H5, H6.
  rewrite H1, H2, H3, H4, H5, H6. reflexivity.
Qed.

(** The round trip of one value, whatever follows it. *)
Definition readsBack (v : json Z) : Prop :=
  serializable v = true ->
  forall fuel rest,
    (size v <= fuel)%nat -> endsNumber rest ->
    parseValue fuel (JSON_stringify v ++ rest) = Some (v, rest).

Lemma endsNumber_comma rest : endsNumber (44 :: rest).
Proof. cbn. repeat split; discriminate. Qed.

Lemma endsNumber_rbracket rest : endsNumber (93 :: rest).
Proof. cbn. repeat split; discriminate. Qed.

Lemma endsNumber_rbrace rest : endsNumber (125 :: rest).
Proof. cbn. repeat split; discriminate. Qed.

Lemma parseElements_items (items : list (json Z)) :
  Forall readsBack items ->
  forallb serializable items = true ->
  items <> [] ->
  forall acc fuel rest,
    (list_sum (map (fun item => S (size item)) items) <= fuel)%nat ->
    parseElements fuel (join [44] (map JSON_stringify items) ++ [93] ++ rest) acc
    = Some (JArr (acc ++ items), rest).
Proof.
  induction 1 as [| item more Hitem Hmore IH]; intros Hser Hne acc fuel rest Hfuel;
    [contradiction|].
  cbn [forallb] in Hser. apply andb_true_iff in Hser as [Hser1 Hser2].
  cbn [map list_sum fold_right] in Hfuel.
  destruct fuel as [| fuel]; [lia|].
  destruct more as [| item2 more].
  - cbn [map join parseElements].
    rewrite (Hitem Hser1 fuel ([93] ++ rest)) by (lia || apply endsNumber_rbracket).
    reflexivity.
  - cbn [map join parseElements]. rewrite <- !app_assoc.
    rewrite (Hitem Hser1 fuel ([44] ++ _)) by (lia || apply endsNumber_comma).
    cbn [app skipWhiteSpace]. change (isJsonWhiteSpace 44) with false.
    change (44 =? 44) with true. cbn iota.
    specialize (IH Hser2 ltac:(discriminate) (acc ++ [item]) fuel rest).
    cbn [map join app] in IH. rewrite IH by (cbn [map list_sum fold_right] in *; lia).
    rewrite <- app_assoc. reflexivity.
Qed.

Lemma setMember_fresh (k : jsstring) (v : json Z) (members : list (jsstring * json Z)) :
  k ∉ map fst members -> setMember k v members = members ++ [(k, v)].
Proof.
  induction members as [| [k' v'] rest IH]; intros Hfresh; [reflexivity|].
  cbn [map fst] in Hfresh. apply not_elem_of_cons in Hfresh as [Hne Hfresh].
  cbn [setMember app]. unfold eqb. rewrite bool_decide_eq_false_2 by congruence.
  rewrite (IH Hfresh). reflexivity.
Qed.

Definition memberText (kv : jsstring * json Z) : jsstring :=
  quote (fst kv) ++ js ":" ++ JSON_stringify (snd kv).

Lemma parseMembers_members (members : list (jsstring * json Z)) :
  Forall (fun kv => readsBack (snd kv)) members ->
  forallb (fun kv => serializable (snd kv)) members = true ->
  members <> [] ->
  forall acc fuel rest,
    NoDup (map fst (acc ++ members)) ->
    (list_sum (map (fun kv => S (size (snd kv))) members) <= fuel)%nat ->
    parseMembers fuel (join [44] (map memberText members) ++ [125] ++ rest) acc
    = Some (JObj (acc ++ members), rest).
Proof.
  induction 1 as [| [k v] more Hmember Hmore IH];
    intros Hser Hne acc fuel rest Hnodup Hfuel; [contradiction|].
  cbn [forallb snd] in Hser. apply andb_true_iff in Hser as [Hser1 Hser2].
  cbn [map list_sum fold_right snd] in Hfuel. cbn [snd] in Hmember.
  destruct fuel as [| fuel]; [lia|].
  assert (Hfresh : k ∉ map fst acc).
  { rewrite map_app in Hnodup. apply NoDup_app in Hnodup as (_ & Hdisjoint & _).
    intros Hin. apply (Hdisjoint k Hin). cbn. left. }
  assert (Hkey : forall tail,
             parseMembers (S fuel) (memberText (k, v) ++ tail) acc
             = match parseValue fuel (JSON_stringify v ++ tail) with
               | None => None
               | Some (v', after) =>
                   match skipWhiteSpace after with
                   | c2 :: r2 =>
                       if c2 =? 44 then parseMembers fuel r2 (setMember k v' acc)
                       else if c2 =? rbrace then Some (JObj (setMember k v' acc), r2)
                       else None
                   | [] => None
                   end
               end).
  { intros tail. unfold memberText, quote, dq. cbn [fst snd].
    change (js ":") with [58]. rewrite <- !app_assoc.
    cbn [app parseMembers skipWhiteSpace].
    change (isJsonWhiteSpace dquote) with false. change (dquote =? dquote) with true.
    cbn iota. rewrite parse_quoted.
    cbn [skipWhiteSpace]. change (isJsonWhiteSpace 58) with false.
    change (58 =? 58) with true. cbn iota. reflexivity. }
  destruct more as [| member2 more].
  - cbn [map join]. rewrite Hkey.
    rewrite (Hmember Hser1 fuel ([125] ++ rest)) by (lia || apply endsNumber_rbrace).
    cbn [app skipWhiteSpace]. change (isJsonWhiteSpace 125) with false.
    change (125 =? 44) with false. change (125 =? rbrace) with true. cbn iota.
    rewrite (setMember_fresh _ _ _ Hfresh). reflexivity.
  - cbn [map join]. rewrite <- !app_assoc. rewrite Hkey.
    rewrite (Hmember Hser1 fuel ([44] ++ _)) by (lia || apply endsNumber_comma).
    cbn [app skipWhiteSpace]. change (isJsonWhiteSpace 44) with false.
    change (44 =? 44) with true. cbn iota.
    rewrite (setMember_fresh _ _ _ Hfresh).
    specialize (IH Hser2 ltac:(discriminate) (acc ++ [(k, v)]) fuel rest).
    cbn [map join app] in IH. rewrite IH.
    + rewrite <- app_assoc. reflexivity.
    + rewrite <- app_assoc. exact Hnodup.
    + cbn [map list_sum fold_right] in *. lia.
Qed.

Lemma readsBack_all (v : json Z) : readsBack v.
Proof.
  induction v as [| b | n | s | items IH | members IH] using json_nested_ind;
    intros Hser fuel rest Hfuel Hrest;
    (destruct fuel as [| fuel]; [cbn in Hfuel; lia|]).
  - reflexivity.
  - destruct b; reflexivity.
  - cbn [JSON_stringify].
    destruct (String_Z_head n) as (d & more & Hhead & Hd).
    pose proof (parseNumber_String_Z n rest Hrest) as Hparse.
    rewrite Hhead in *. cbn [app] in *.
    rewrite (parseValue_number fuel d _ Hd), Hparse. reflexivity.
  - cbn [JSON_stringify]. unfold quote, dq. rewrite <- !app_assoc.
    cbn [app parseValue skipWhiteSpace].
    change (isJsonWhiteSpace dquote) with false.
    change (dquote =? 110) with false. change (dquote =? 116) with false.
    change (dquote =? 102) with false. change (dquote =? dquote) with true.
    cbn iota. rewrite parse_quoted. reflexivity.
  - cbn [JSON_stringify]. change (js "[") with [91]. change (js "]") with [93].
    change (js ",") with [44].
    rewrite <- !app_assoc. cbn [app parseValue skipWhiteSpace].
    change (isJsonWhiteSpace 91) with false.
    change (91 =? 110) with false. change (91 =? 116) with false.
    change (91 =? 102) with false. change (91 =? dquote) with false.
    change (91 =? lbracket) with true. cbn iota.
    destruct items as [| item more].
    + reflexivity.
    + destruct (JSON_stringify_head item) as (c & text & Hhead & Hstart).
      destruct (startsValue_facts c Hstart) as (Hws & _ & Hnb & _).
      pose proof (parseElements_items (item :: more) IH Hser ltac:(discriminate)
                    [] fuel rest) as Hitems.
      cbn [size] in Hfuel. specialize (Hitems ltac:(lia)).
      change ([93] ++ rest) with (93 :: rest) in Hitems.
      assert (Hfirst : exists tail,
                 join [44] (map JSON_stringify (item :: more)) ++ 93 :: rest
                 = c :: tail).
      { cbn [map join]. rewrite Hhead. destruct (map JSON_stringify more);
          cbn; eauto. }
      destruct Hfirst as (tail & Hfirst). rewrite Hfirst in *.
      cbn [skipWhiteSpace]. rewrite Hws.
      apply N.eqb_neq in Hnb. rewrite Hnb. exact Hitems.
  - cbn [JSON_stringify serializable] in *.
    apply andb_true_iff in Hser as [Hnodup Hser]. apply bool_decide_eq_true in Hnodup.
    change (js "{") with [123]. change (js "}") with [125]. change (js ",") with [44].
    rewrite <- !app_assoc. cbn [app parseValue skipWhiteSpace].
    change (isJsonWhiteSpace 123) with false.
    change (123 =? 110) with false. change (123 =? 116) with false.
    change (123 =? 102) with false. change (123 =? dquote) with false.
    change (123 =? lbracket) with false. change (123 =? lbrace) with true. cbn iota.
    destruct members as [| member more].
    + reflexivity.
    + pose proof (parseMembers_members (member :: more) IH Hser ltac:(discriminate)
                    [] fuel rest Hnodup) as Hmembers.
      cbn [size] in Hfuel. specialize (Hmembers ltac:(lia)).
      change ([125] ++ rest) with (125 :: rest) in Hmembers.
      change (fun kv : jsstring * json Z =>
                quote (fst kv) ++ js ":" ++ JSON_stringify (snd kv)) with memberText.
      assert (Hfirst : exists tail,
                 join [44] (map memberText (member :: more)) ++ 125 :: rest
                 = dquote :: tail).
      { cbn [map join].
        destruct (map memberText more); unfold memberText, quote, dq;
          rewrite <- ?app_assoc; cbn [app]; eauto. }
      destruct Hfirst as (tail & Hfirst). rewrite Hfirst in *.
      cbn [skipWhiteSpace]. change (isJsonWhiteSpace dquote) with false.
      change (dquote =? rbrace) with false. cbn iota. exact Hmembers.
Qed.

End JsonRoundTrip.

Section FencedRoundTrip.

Import Json.

Lemma list_sum_le {A} (f g : A -> nat) (l : list A) :
  Forall (fun a => (f a <= g a)%nat) l ->
  (list_sum (map f l) <= list_sum (map g l))%nat.
Proof.
  induction 1 as [| a l Ha _ IH]; cbn [map list_sum fold_right]; [lia|].
  change (fold_right Init.Nat.add 0%nat (map f l)) with (list_sum (map f l)).
  change (fold_right Init.Nat.add 0%nat (map g l)) with (list_sum (map g l)).
  lia.
Qed.

Lemma join_cons (sep a b : jsstring) (l : list jsstring) :
  join sep (a :: b :: l) = a ++ sep ++ join sep (b :: l).
Proof. reflexivity. Qed.

Lemma join_length (parts : list jsstring) :
  (list_sum (map (fun part => S (length part)) parts)
   <= S (length (join [44%N] parts)))%nat.
Proof.
  induction parts as [| part rest IH]; [cbn; lia|].
  destruct rest as [| part2 rest].
  - cbn. lia.
  - rewrite join_cons, !length_app.
    change (list_sum (map (fun part => S (length part)) (part :: part2 :: rest)))
      with (S (length part)
            + list_sum (map (fun part => S (length part)) (part2 :: rest)))%nat.
    cbn [length]. lia.
Qed.

(** The fuel [JSON.parse] starts with covers a serialized value. *)
Lemma size_le_length (v : json Z) : (size v <= length (JSON_stringify v))%nat.
Proof.
  induction v as [| b | n | s | items IH | members IH] using json_nested_ind.
  - vm_compute. lia.
  - destruct b; vm_compute; lia.
  - cbn [size JSON_stringify]. destruct (String_Z_head n) as (d & more & -> & _).
    cbn [length]. lia.
  - cbn [size JSON_stringify]. unfold quote, dq. rewrite !length_app.
    cbn [length]. lia.
  - cbn [size JSON_stringify]. change (js "[") with [91]. change (js "]") with [93].
    change (js ",") with [44]. rewrite !length_app. cbn [length].
    pose proof (join_length (map JSON_stringify items)) as Hjoin.
    rewrite map_map in Hjoin.
    pose proof (list_sum_le (fun item => S (size item))
                  (fun item => S (length (JSON_stringify item))) items) as Hle.
    assert (Hall : Forall (fun a => (S (size a) <= S (length (JSON_stringify a)))%nat) items).
    { eapply Forall_impl; [exact IH|]. cbn. intros a Ha. lia. }
    specialize (Hle Hall). lia.
  - cbn [size JSON_stringify]. change (js "{") with [123]. change (js "}") with [125].
    change (js ",") with [44]. rewrite !length_app. cbn [length].
    change (fun kv : jsstring * json Z =>
              quote (fst kv) ++ js ":" ++ JSON_stringify (snd kv)) with memberText.
    pose proof (join_length (map memberText members)) as Hjoin.
    rewrite map_map in Hjoin.
    pose proof (list_sum_le (fun kv => S (size (snd kv)))
                  (fun kv => S (length (memberText kv))) members) as Hle.
    assert (Hall : Forall (fun kv => (S (size (snd kv)) <= S (length (memberText kv)))%nat)
                          members).
    { eapply Forall_impl; [exact IH|]. cbn. intros [k a] Ha. unfold memberText.
      rewrite !length_app. cbn [snd] in *. lia. }
    specialize (Hle Hall). lia.
Qed.

(** [JSON.parse(JSON.stringify(v))] is [v]. *)
Lemma JSON_parse_stringify (v : json Z) :
  serializable v = true -> JSON_parse (JSON_stringify v) = Ok v.
Proof.
  intros Hser. unfold JSON_parse.
  pose proof (readsBack_all v Hser (S (length (JSON_stringify v))) []) as Hread.
  rewrite app_nil_r in Hread. rewrite Hread.
  - reflexivity.
  - pose proof (size_le_length v). lia.
  - exact I.
Qed.

Lemma isDigit_not_space (c : N) : isDigit c = true -> isWhiteSpace c = false.
Proof.
  unfold isDigit. intros H. apply andb_true_iff in H as [H1 H2].
  apply N.leb_le in H1, H2. unfold isWhiteSpace.
  repeat (apply orb_false_iff; split); try (apply N.eqb_neq; lia).
  apply andb_false_iff; left; apply N.leb_gt; lia.
Qed.

Lemma JSON_stringify_last (v : json Z) :
  exists front c, JSON_stringify v = front ++ [c] /\ isWhiteSpace c = false.
Proof.
  destruct v as [| [|] | n | s | items | members]; cbn [JSON_stringify].
  - exists (js "nul"), 108. split; reflexivity.
  - exists (js "tru"), 101. split; reflexivity.
  - exists (js "fals"), 101. split; reflexivity.
  - destruct (String_Z_last n) as (front & d & -> & Hd). exists front, d.
    split; [reflexivity | by apply isDigit_not_space].
  - exists (dq ++ quoteUnits false s), dquote. split; [| reflexivity].
    unfold quote, dq. rewrite <- app_assoc. reflexivity.
  - eexists (js "[" ++ _), rbracket. split; [| reflexivity].
    rewrite <- app_assoc. reflexivity.
  - eexists (js "{" ++ _), rbrace. split; [| reflexivity].
    rewrite <- app_assoc. reflexivity.
Qed.

Lemma JSON_stringify_trimmed (v : json Z) :
  JSON_stringify v <> [] /\ headOk (JSON_stringify v) /\ headOk (rev (JSON_stringify v)).
Proof.
  destruct (JSON_stringify_head v) as (c & more & Hhead & Hstart).
  destruct (startsValue_facts c Hstart) as (_ & Hws & _).
  destruct (JSON_stringify_last v) as (front & d & Hlast & Hd).
  split; [rewrite Hhead; discriminate|]. split.
  - rewrite Hhead. exact Hws.
  - rewrite Hlast, rev_app_distr. exact Hd.
Qed.

(** C9, amended: a value whose serialized text holds no three backticks
    in a row goes through the fenced block unharmed: the extractor
    returns the serialized text itself, which parses back to the value.
    (Values are those of the JSON module: integers a JavaScript number
    holds exactly, objects with distinct keys.) *)
Theorem fenced_round_trip (v : json Z) (tagged : bool) :
  serializable v = true ->
  includes fence (JSON_stringify v) = false ->
  extractJsonBlock (wrapFenced tagged (JSON_stringify v)) = Some (JSON_stringify v)
  /\ JSON_parse (JSON_stringify v) = Ok v.
Proof.
  intros Hser Hclean.
  destruct (JSON_stringify_trimmed v) as (Hne & Hhead & Hlast).
  split; [by apply extractJsonBlock_fenced | by apply JSON_parse_stringify].
Qed.

End FencedRoundTrip.

(** C9 as stated fails: the string of three backticks serializes to a
    text that holds the closing fence, the lazy group of the pattern
    stops there, and what the extractor returns is not JSON. *)
Lemma fenced_round_trip_fails :
  ~ (forall v : json Z,
       serializable v = true ->
       exists text,
         extractJsonBlock (wrapFenced true (Json.JSON_stringify v)) = Some text
         /\ Json.JSON_parse text = Ok v).
Proof.
  intros Hclaim.
  destruct (Hclaim (JStr fence) eq_refl) as (text & Hextract & Hparse).
  vm_compute in Hextract. injection Hextract as <-.
  vm_compute in Hparse. discriminate.
Qed.

Definition sampleValue : json Z :=
  JObj [ (js "a", JNum 1%Z);
         (js "b", JArr [JStr (js "x``y"); JNull; JBool false; JNum (-20)%Z]) ].

Lemma fenced_round_trip_witness :
  extractJsonBlock (wrapFenced true (Json.JSON_stringify sampleValue))
  = Some (Json.JSON_stringify sampleValue)
  /\ Json.JSON_parse (Json.JSON_stringify sampleValue) = Ok sampleValue.
Proof.
  apply (fenced_round_trip sampleValue true); vm_compute; reflexivity.
Defined.

(** ** The retry budget of the client *)

Section RetryBudget.

Variable self : LlmClient.
Variable payload : ChatCompletionRequest.

(** The tick a call leaves behind: one when it returns, none when it
    throws. *)
Definition ticksAfter {A} (before : nat) (result : Completion A) : nat :=
  match result with
  | Returned _ => (before + 1)%nat
  | _ => before
  end.

Lemma retryLoop_budget fuel attempt backoff w :
  (attempt <= maxRetries self < attempt + fuel)%nat ->
  exists n delays,
    (1 <= n <= S (maxRetries self) - attempt)%nat
    /\ posted (snd (retryLoop self payload fuel attempt backoff w))
       = posted w ++ replicate n payload
    /\ slept (snd (retryLoop self payload fuel attempt backoff w)) = slept w ++ delays
    /\ length delays = (n - 1)%nat
    /\ (forall k d, delays !! k = Some d -> (backoff * 2 ^ Z.of_nat k <= d)%Z)
    /\ ticks (snd (retryLoop self payload fuel attempt backoff w))
       = ticksAfter (ticks w) (fst (retryLoop self payload fuel attempt backoff w))
    /\ logged (snd (retryLoop self payload fuel attempt backoff w)) = logged w
    /\ logsDir (snd (retryLoop self payload fuel attempt backoff w)) = logsDir w.
Proof.
  revert attempt backoff w.
  induction fuel as [| fuel IH]; intros attempt backoff w Hfuel; [lia|].
  cbn [retryLoop]. unfold post.
  destruct (backend w (length (posted w)) payload) as [response | error].
  - exists 1%nat, []. cbn. rewrite app_nil_r.
    repeat split; try lia; try reflexivity. intros k d Hk. discriminate.
  - destruct (negb (shouldRetry error) || (maxRetries self <=? attempt)%nat) eqn:Hstop.
    + exists 1%nat, []. cbn. rewrite app_nil_r.
      repeat split; try lia; try reflexivity. intros k d Hk. discriminate.
    + apply orb_false_iff in Hstop as [_ Hle]. apply Nat.leb_gt in Hle.
      unfold bind at 1 2 3 4 5 6, sleep.
      match goal with |- context [retryLoop self payload fuel ?a ?b ?w1] =>
        destruct (IH a b w1) as (n & delays & Hn & Hposted & Hslept & Hlen & Hdelays
                                 & Hticks & Hlogged & Hdir); [lia|]
      end.
      exists (S n), (Z.max backoff (retryAfterMs error) :: delays).
      rewrite Hposted, Hslept, Hticks, Hlogged, Hdir.
      cbn [posted slept ticks logged logsDir setPosted setSlept replicate length].
      rewrite <- !app_assoc. cbn [app].
      repeat split; try lia; try reflexivity.
      intros [| k] d Hk.
      * cbn in Hk. injection Hk as <-. cbn. lia.
      * cbn in Hk. apply Hdelays in Hk.
        rewrite Nat2Z.inj_succ, Z.pow_succ_r by lia.
        replace (backoff * (2 * 2 ^ Z.of_nat k))%Z
          with (backoff * 2 * 2 ^ Z.of_nat k)%Z by ring.
        exact Hk.
Qed.

Lemma createChatCompletion_effects w :
  exists n delays,
    (1 <= n <= S (maxRetries self))%nat
    /\ posted (snd (createChatCompletion self payload w)) = posted w ++ replicate n payload
    /\ slept (snd (createChatCompletion self payload w)) = slept w ++ delays
    /\ length delays = (n - 1)%nat
    /\ (forall k d, delays !! k = Some d ->
          (initialBackoffMs self * 2 ^ Z.of_nat k <= d)%Z)
    /\ ticks (snd (createChatCompletion self payload w))
       = ticksAfter (ticks w) (fst (createChatCompletion self payload w))
    /\ logged (snd (createChatCompletion self payload w)) = logged w
    /\ logsDir (snd (createChatCompletion self payload w)) = logsDir w.
Proof.
  unfold createChatCompletion.
  destruct (retryLoop_budget (S (maxRetries self)) 0 (initialBackoffMs self) w)
    as (n & delays & Hn & H); [lia|].
  exists n, delays. split; [lia | exact H].
Qed.

(** X1: whatever the backend does, one call of the client posts its payload
    at least once and at most once more than the retry budget, and
    nothing else; it sleeps once between two requests, the k-th time for
    at least the initial backoff doubled k times; it reports one
    progress tick when it returns and none when it throws; and it neither
    logs nor touches the logs directory. *)
Theorem createChatCompletion_budget w :
  exists n delays,
    (1 <= n <= S (maxRetries self))%nat
    /\ posted (snd (createChatCompletion self payload w)) = posted w ++ replicate n payload
    /\ slept (snd (createChatCompletion self payload w)) = slept w ++ delays
    /\ length delays = (n - 1)%nat
    /\ (forall k d, delays !! k = Some d ->
          (initialBackoffMs self * 2 ^ Z.of_nat k <= d)%Z)
    /\ ticks (snd (createChatCompletion self payload w))
       = ticksAfter (ticks w) (fst (createChatCompletion self payload w))
    /\ logged (snd (createChatCompletion self payload w)) = logged w
    /\ logsDir (snd (createChatCompletion self payload w)) = logsDir w.
Proof. apply createChatCompletion_effects. Qed.

(** A failure the client retries. *)
Definition transient (outcome : BackendOutcome) : Prop :=
  exists error, outcome = Rejects error /\ shouldRetry error = true.

(** The delay slept after the k-th rejection, counting from 0. *)
Definition delayAfter (backoff : Z) (w : World) (from k : nat) : Z :=
  match backend w (from + k)%nat payload with
  | Rejects error => Z.max (backoff * 2 ^ Z.of_nat k) (retryAfterMs error)
  | Responds _ => 0%Z
  end.

Lemma retryLoop_exhausted fuel attempt backoff w :
  (attempt + fuel = maxRetries self)%nat ->
  (forall k, (k <= fuel)%nat -> transient (backend w (length (posted w) + k)%nat payload)) ->
  exists error,
    backend w (length (posted w) + fuel)%nat payload = Rejects error
    /\ fst (retryLoop self payload (S fuel) attempt backoff w) = Thrown (failureMessage error)
    /\ posted (snd (retryLoop self payload (S fuel) attempt backoff w))
       = posted w ++ replicate (S fuel) payload
    /\ slept (snd (retryLoop self payload (S fuel) attempt backoff w))
       = slept w ++ map (delayAfter backoff w (length (posted w))) (seq 0 fuel)
    /\ ticks (snd (retryLoop self payload (S fuel) attempt backoff w)) = ticks w.
Proof.
  revert attempt backoff w.
  induction fuel as [| fuel IH]; intros attempt backoff w Hfuel Hall.
  - cbn [retryLoop]. unfold post.
    destruct (Hall 0%nat) as (error & Hback & Hretry); [lia|].
    rewrite Nat.add_0_r in Hback. rewrite Hback, Hretry. cbn [negb orb].
    destruct (Nat.leb_spec (maxRetries self) attempt) as [Hlast | Hmore]; [| lia].
    exists error. unfold throw.
    cbn [fst snd posted slept ticks setPosted replicate seq map].
    rewrite Nat.add_0_r, app_nil_r. repeat split; auto.
  - remember (S fuel) as fuel1 eqn:Hfuel1.
    cbn [retryLoop]. unfold post.
    destruct (Hall 0%nat) as (error & Hback & Hretry); [lia|].
    rewrite Nat.add_0_r in Hback. rewrite Hback, Hretry. cbn [negb orb].
    destruct (Nat.leb_spec (maxRetries self) attempt) as [Hlast | Hmore]; [lia|].
    unfold bind at 1 2 3 4, sleep.
    set (w1 := setSlept _ _).
    assert (Hlen : length (posted w1) = S (length (posted w))).
    { subst w1. cbn [posted setSlept setPosted]. rewrite length_app. cbn [length]. lia. }
    subst fuel1.
    destruct (IH (attempt + 1)%nat (backoff * 2)%Z w1) as (last & Hlast & Hthrow & Hposted
                                                           & Hslept & Hticks).
    { lia. }
    { intros k Hk. rewrite Hlen. replace (S (length (posted w)) + k)%nat
        with (length (posted w) + S k)%nat by lia. apply (Hall (S k)). lia. }
    exists last. rewrite Hthrow, Hposted, Hslept, Hticks.
    split.
    { rewrite <- Hlast, Hlen. cbn [backend w1 setSlept setPosted]. f_equal. lia. }
    split; [reflexivity|]. split.
    { subst w1. cbn [posted setSlept setPosted replicate]. rewrite <- app_assoc. reflexivity. }
    split; [| reflexivity].
    subst w1. cbn [slept setSlept setPosted]. rewrite <- app_assoc. f_equal.
    cbn [seq map app]. f_equal.
    + unfold delayAfter. rewrite Nat.add_0_r, Hback.
      change (2 ^ Z.of_nat 0)%Z with 1%Z. rewrite Z.mul_1_r. reflexivity.
    + rewrite <- seq_shift, map_map. apply map_ext. intros k.
      unfold delayAfter. cbn [posted backend setPosted setSlept].
      rewrite length_app. cbn [length].
      replace (length (posted w) + 1 + k)%nat with (length (posted w) + S k)%nat by lia.
      destruct (backend w (length (posted w) + S k)%nat payload); [reflexivity|].
      f_equal. rewrite Nat2Z.inj_succ, Z.pow_succ_r by lia. ring.
Qed.

(** X2: a backend that keeps rejecting with failures the client retries
    uses up the budget: the client posts its payload once and then once
    for each retry allowed, sleeps between two requests the larger of the
    doubled backoff and the delay the server asked for, and then throws
    with the message of the last failure, without a progress tick. *)
Theorem createChatCompletion_exhausts_retries w :
  (forall k, (k <= maxRetries self)%nat ->
     transient (backend w (length (posted w) + k)%nat payload)) ->
  exists error,
    backend w (length (posted w) + maxRetries self)%nat payload = Rejects error
    /\ fst (createChatCompletion self payload w) = Thrown (failureMessage error)
    /\ posted (snd (createChatCompletion self payload w))
       = posted w ++ replicate (S (maxRetries self)) payload
    /\ slept (snd (createChatCompletion self payload w))
       = slept w ++ map (delayAfter (initialBackoffMs self) w (length (posted w)))
                        (seq 0 (maxRetries self))
    /\ ticks (snd (createChatCompletion self payload w)) = ticks w.
Proof.
  intros Hall. unfold createChatCompletion.
  destruct (retryLoop_exhausted (maxRetries self) 0 (initialBackoffMs self) w)
    as (error & H); [lia | intros k Hk; apply Hall; lia |].
  exists error. exact H.
Qed.

End RetryBudget.

(** ** What the text helpers hand on *)

Section MessageText.

(** A string that [trim] leaves as it is. *)
Definition trimmed (s : jsstring) : Prop := trim s = s.

Lemma trim_trimmed s : trimmed (trim s).
Proof. apply trim_idempotent. Qed.

Lemma nil_trimmed : trimmed [].
Proof. reflexivity. Qed.

(** A trimmed string that is not empty has a visible first and last
    code unit. *)
Lemma trimmed_ends s :
  trimmed s -> s <> [] ->
  exists first last, head s = Some first /\ isWhiteSpace first = false
                     /\ List.last s first = last /\ isWhiteSpace last = false.
Proof.
  intros Htrim Hne.
  pose proof (trim_headOk s) as Hhead. pose proof (trim_lastOk s) as Hlast.
  rewrite Htrim in Hhead, Hlast.
  destruct s as [| c r]; [contradiction|].
  exists c, (List.last (c :: r) c). cbn [head headOk] in *.
  split; [reflexivity|]. split; [exact Hhead|]. split; [reflexivity|].
  destruct (rev (c :: r)) as [| l r'] eqn:Hrev.
  { apply (f_equal (@length N)) in Hrev. rewrite length_rev in Hrev. discriminate. }
  apply (f_equal (@rev N)) in Hrev. rewrite rev_involutive in Hrev. rewrite Hrev.
  cbn [rev]. rewrite last_last. exact Hlast.
Qed.

(** X3: the text of a message is the trimmed content unless that is missing
    or blank, and then the trimmed reasoning, if there is one; so the
    text is always trimmed, and a text that is not empty starts and ends
    with a visible code unit. *)
Theorem extractMessageText_trimmed (message : option ResponseMessage) :
  trimmed (extractMessageText message)
  /\ (forall m, message = Some m ->
        extractMessageText message
        = if truthy (trim (default [] (responseContent m)))
          then trim (default [] (responseContent m))
          else trim (default [] (reasoning m)))
  /\ (message = None -> extractMessageText message = [])
  /\ (extractMessageText message <> [] ->
      exists first last,
        head (extractMessageText message) = Some first
        /\ isWhiteSpace first = false
        /\ List.last (extractMessageText message) first = last
        /\ isWhiteSpace last = false).
Proof.
  assert (Htrimmed : trimmed (extractMessageText message)).
  { destruct message as [[text thought] |]; [| reflexivity].
    unfold extractMessageText. cbn [responseContent reasoning].
    destruct text as [c |]; cbn [option_map].
    + destruct (trim c) as [| c0 rest] eqn:Hc.
      * destruct thought as [r |]; [apply trim_trimmed | reflexivity].
      * rewrite <- Hc. apply trim_trimmed.
    + destruct thought as [r |]; [apply trim_trimmed | reflexivity]. }
  split; [exact Htrimmed|].
  split; [| split; [| apply trimmed_ends, Htrimmed]].
  - intros [text thought] ->.
    unfold extractMessageText. cbn [responseContent reasoning].
    destruct text as [c |]; cbn [option_map default from_option Datatypes.id].
    + destruct (trim c) as [| c0 rest] eqn:Hc; cbn [truthy].
      * destruct thought; reflexivity.
      * reflexivity.
    + change (trim []) with (@nil N). cbn [truthy]. destruct thought; reflexivity.
  - intros ->. reflexivity.
Qed.

End MessageText.


(** ** What the extractor returns *)

Section ExtractedBlock.

(** [r] is a contiguous piece of [s]. *)
Definition piece (r s : jsstring) : Prop := exists pre post, s = pre ++ r ++ post.

Lemma piece_refl s : piece s s.
Proof. exists [], []. rewrite app_nil_r. reflexivity. Qed.

Lemma piece_trans r s t : piece r s -> piece s t -> piece r t.
Proof.
  intros (p1 & q1 & ->) (p2 & q2 & ->). exists (p2 ++ p1), (q1 ++ q2).
  rewrite <- !app_assoc. reflexivity.
Qed.

Lemma piece_after k r s : piece r s -> piece r (k ++ s).
Proof. intros (p & q & ->). exists (k ++ p), q. rewrite <- app_assoc. reflexivity. Qed.

Lemma piece_before k r s : piece r s -> piece r (s ++ k).
Proof. intros (p & q & ->). exists p, (q ++ k). rewrite <- !app_assoc. reflexivity. Qed.

Lemma piece_trim s : piece (trim s) s.
Proof.
  unfold trim. destruct (trimStart_suffix s) as (ws1 & H1 & _).
  destruct (trimEnd_prefix (trimStart s)) as (ws2 & H2 & _).
  exists ws1, ws2. rewrite <- H2. exact H1.
Qed.

Lemma piece_drop n s : piece (drop n s) s.
Proof. exists (take n s), []. rewrite app_nil_r, take_drop. reflexivity. Qed.

Lemma piece_length r s : piece r s -> (length r <= length s)%nat.
Proof. intros (p & q & ->). rewrite !length_app. lia. Qed.

(** A string whose first code unit is visible keeps it when trimmed. *)
Lemma trim_nonempty s : s <> [] -> headOk s -> trim s <> [].
Proof.
  intros Hne Hhead. unfold trim. rewrite (trimStart_fixed _ Hhead).
  destruct (trimEnd_prefix s) as (ws & Heq & Hws).
  intros Hnil. rewrite Hnil in Heq. cbn [app] in Heq. subst ws.
  destruct s as [| c r]; [contradiction|].
  cbn [headOk forallb] in *. rewrite Hhead in Hws. discriminate.
Qed.

(** *** The fenced path *)

Lemma firstSome_Some {A B} (f : A -> option B) l b :
  firstSome f l = Some b -> exists a, In a l /\ f a = Some b.
Proof.
  induction l as [| a l IH]; cbn [firstSome]; [discriminate|].
  destruct (f a) as [b' |] eqn:Hfa.
  - intros H. injection H as <-. exists a. split; [left; reflexivity | exact Hfa].
  - intros H. destruct (IH H) as (a' & Hin & Hf). exists a'. split; [right; exact Hin | exact Hf].
Qed.

Lemma firstSome_app {A B} (f : A -> option B) l1 l2 :
  firstSome f (l1 ++ l2)
  = match firstSome f l1 with Some b => Some b | None => firstSome f l2 end.
Proof.
  induction l1 as [| a l1 IH]; cbn [firstSome app]; [reflexivity|].
  destruct (f a); [reflexivity | exact IH].
Qed.

Lemma lazyUntilFence_prefix s g :
  lazyUntilFence s = Some g -> exists rest, s = g ++ fence ++ rest.
Proof.
  revert g. induction s as [| c r IH]; intros g.
  - cbn. discriminate.
  - cbn [lazyUntilFence]. destruct (startsWith fence (c :: r)) eqn:Hstart.
    + intros H. injection H as <-. cbn [app].
      unfold fence in *. cbn [startsWith] in Hstart.
      destruct r as [| c1 [| c2 r]];
        repeat (apply andb_prop in Hstart as [?%N.eqb_eq Hstart]); try discriminate.
      subst. exists r. reflexivity.
    + destruct (lazyUntilFence r) as [g' |]; [| discriminate].
      intros H. injection H as <-. destruct (IH g' eq_refl) as (rest & ->).
      exists rest. reflexivity.
Qed.

Lemma lazyUntilFence_whiteSpace c r :
  isWhiteSpace c = true ->
  lazyUntilFence (c :: r)
  = match lazyUntilFence r with Some g => Some (c :: g) | None => None end.
Proof.
  intros Hc. cbn [lazyUntilFence].
  replace (startsWith fence (c :: r)) with false; [reflexivity|].
  unfold fence, backtick. cbn [startsWith].
  destruct (N.eqb_spec 96 c) as [<- |]; [discriminate Hc | reflexivity].
Qed.

Lemma lazyUntilFence_trimStart s :
  lazyUntilFence (trimStart s) = None -> lazyUntilFence s = None.
Proof.
  induction s as [| c r IH]; [auto|]. cbn [trimStart].
  destruct (isWhiteSpace c) eqn:Hc; [| auto].
  intros H. rewrite (lazyUntilFence_whiteSpace _ _ Hc), (IH H). reflexivity.
Qed.

(** After the greedy white space the group starts at the first visible
    code unit: the shorter runs of white space are never needed. *)
Lemma wsStar_lazyUntilFence s :
  firstSome lazyUntilFence (wsStarAlternatives s) = lazyUntilFence (trimStart s).
Proof.
  induction s as [| c r IH]; [reflexivity|].
  cbn [wsStarAlternatives trimStart]. destruct (isWhiteSpace c) eqn:Hc.
  - rewrite firstSome_app, IH. cbn [firstSome].
    destruct (lazyUntilFence (trimStart r)) as [g |] eqn:Hg; [reflexivity|].
    rewrite (lazyUntilFence_whiteSpace _ _ Hc), (lazyUntilFence_trimStart _ Hg).
    reflexivity.
  - cbn [firstSome]. destruct (lazyUntilFence (c :: r)); reflexivity.
Qed.

Lemma lazyUntilFence_headOk s g :
  lazyUntilFence s = Some g -> headOk s -> headOk g.
Proof.
  intros H Hhead. destruct (lazyUntilFence_prefix _ _ H) as (rest & ->).
  destruct g; [exact I | exact Hhead].
Qed.

Lemma jsonTagAlternatives_drop s afterTag :
  In afterTag (jsonTagAlternatives s) -> exists n, afterTag = drop n s.
Proof.
  unfold jsonTagAlternatives. destruct (startsWith _ _).
  - intros [<- | [<- | []]]; [exists 4%nat | exists 0%nat]; reflexivity.
  - intros [<- | []]. exists 0%nat. reflexivity.
Qed.

Lemma matchAfterOpener_group s g :
  matchAfterOpener s = Some g -> piece g s /\ headOk g.
Proof.
  unfold matchAfterOpener. intros H.
  apply firstSome_Some in H as (afterTag & Hin & H).
  rewrite wsStar_lazyUntilFence in H.
  apply jsonTagAlternatives_drop in Hin as (n & ->).
  split.
  - destruct (lazyUntilFence_prefix _ _ H) as (rest & Heq).
    apply (piece_trans _ (trimStart (drop n s))).
    + exists [], (fence ++ rest). exact Heq.
    + apply (piece_trans _ (drop n s)); [| apply piece_drop].
      destruct (trimStart_suffix (drop n s)) as (ws & Hws & _).
      exists ws, []. rewrite app_nil_r. exact Hws.
  - apply (lazyUntilFence_headOk _ _ H), trimStart_headOk.
Qed.

Lemma fencedMatch_group s g :
  fencedMatch s = Some g -> piece g s /\ headOk g.
Proof.
  induction s as [| c r IH].
  - cbn [fencedMatch]. destruct (startsWith fence []) eqn:Hs; [| discriminate].
    destruct (matchAfterOpener (drop 3 [])) as [g' |] eqn:Hm; [| discriminate].
    intros H. injection H as <-. apply matchAfterOpener_group in Hm as [Hp Hh].
    split; [| exact Hh]. apply (piece_trans _ _ _ Hp), piece_drop.
  - cbn [fencedMatch].
    destruct (if startsWith fence (c :: r) then matchAfterOpener (drop 3 (c :: r)) else None)
      as [g' |] eqn:Hhere.
    + intros H. injection H as <-.
      destruct (startsWith fence (c :: r)); [| discriminate].
      apply matchAfterOpener_group in Hhere as [Hp Hh].
      split; [| exact Hh]. apply (piece_trans _ _ _ Hp), piece_drop.
    + intros H. destruct (IH H) as [Hp Hh]. split; [| exact Hh].
      apply (piece_after [c]), Hp.
Qed.

(** *** The bracket path *)

Lemma findJsonStart_from_spec open rest index start :
  findJsonStart_from open rest index = Some start ->
  exists pre post, rest = pre ++ open :: post /\ start = (index + length pre)%nat.
Proof.
  revert index. induction rest as [| c r IH]; intros index; cbn [findJsonStart_from].
  - discriminate.
  - destruct ((c =? open) && startCondition open (nextNonWhiteSpace r)) eqn:Hhere.
    + intros H. injection H as <-. apply andb_prop in Hhere as [->%N.eqb_eq _].
      exists [], r. cbn. split; [reflexivity | lia].
    + intros H. destruct (IH _ H) as (pre & post & -> & ->).
      exists (c :: pre), post. cbn [app length]. split; [reflexivity | lia].
Qed.

Lemma scanStep_stops open close st char :
  scanStep open close st char = None -> char = close.
Proof.
  unfold scanStep.
  repeat match goal with
         | |- context [if ?b then _ else _] => destruct b eqn:?
         end; try discriminate.
  intros _. apply N.eqb_eq. assumption.
Qed.

Lemma scanFrom_spec open close rest i st stop :
  scanFrom open close rest i st = Some stop ->
  exists pre post, rest = pre ++ close :: post /\ stop = (i + length pre)%nat.
Proof.
  revert i st. induction rest as [| c r IH]; intros i st; cbn [scanFrom].
  - discriminate.
  - destruct (scanStep open close st c) as [st' |] eqn:Hstep.
    + intros H. destruct (IH _ _ H) as (pre & post & -> & ->).
      exists (c :: pre), post. cbn [app length]. split; [reflexivity | lia].
    + intros H. injection H as <-. apply scanStep_stops in Hstep as ->.
      exists [], r. cbn. split; [reflexivity | lia].
Qed.

(** The bracket path returns a piece of the content that starts with
    the opening and ends with the closing bracket. *)
Lemma extractBracketed_spec content open close r :
  open <> close -> isWhiteSpace open = false -> isWhiteSpace close = false ->
  extractBracketed content open close = Some r ->
  exists inner, r = open :: inner ++ [close] /\ piece r content /\ trimmed r.
Proof.
  intros Hdiff Hopen Hclose. unfold extractBracketed, findJsonStart, findMatchingBracket.
  destruct (findJsonStart_from open content 0) as [start |] eqn:Hstart; [| discriminate].
  destruct (scanFrom open close (drop start content) start scanStart) as [stop |] eqn:Hstop;
    [| discriminate].
  intros H. injection H as <-.
  apply findJsonStart_from_spec in Hstart as (pre & post & Hcontent & Hs).
  cbn [Nat.add] in Hs.
  assert (Hdrop : drop start content = open :: post).
  { rewrite Hcontent, Hs, drop_app_length. reflexivity. }
  rewrite Hdrop in Hstop.
  apply scanFrom_spec in Hstop as (body & rest & Hbody & ->).
  destruct body as [| c inner].
  { cbn [app] in Hbody. injection Hbody as Heq _. contradiction. }
  cbn [app] in Hbody. injection Hbody as <- Hpost.
  assert (Hslice : slice start (start + length (open :: inner) + 1) content
                   = open :: inner ++ [close]).
  { unfold slice. rewrite Hdrop, Hpost.
    replace (start + length (open :: inner) + 1 - start)%nat
      with (length (open :: inner ++ [close])).
    - change (open :: inner ++ close :: rest) with ((open :: inner) ++ close :: rest).
      replace ((open :: inner) ++ close :: rest)
        with ((open :: inner ++ [close]) ++ rest).
      + apply take_app_length.
      + cbn [app]. rewrite <- app_assoc. reflexivity.
    - cbn [length]. rewrite length_app. cbn [length]. lia. }
  rewrite Hslice.
  assert (Hfixed : trim (open :: inner ++ [close]) = open :: inner ++ [close]).
  { apply trim_fixed; [exact Hopen|].
    change (open :: inner ++ [close]) with ((open :: inner) ++ [close]).
    rewrite rev_app_distr. exact Hclose. }
  rewrite Hfixed. exists inner. split; [reflexivity|]. split.
  - exists pre, rest. rewrite Hcontent, Hpost. cbn [app]. rewrite <- app_assoc. reflexivity.
  - exact Hfixed.
Qed.

Lemma bracketPath_spec content r :
  match extractBracketed content lbracket rbracket with
  | Some r => Some r
  | None => extractBracketed content lbrace rbrace
  end = Some r ->
  piece r content /\ trimmed r
  /\ ((exists inner, r = lbracket :: inner ++ [rbracket])
      \/ exists inner, r = lbrace :: inner ++ [rbrace]).
Proof.
  destruct (extractBracketed content lbracket rbracket) as [r' |] eqn:Harray.
  - intros H. injection H as <-.
    apply extractBracketed_spec in Harray as (inner & Hr & Hp & Ht);
      [| discriminate | reflexivity | reflexivity].
    split; [exact Hp|]. split; [exact Ht|]. left. exists inner. exact Hr.
  - intros Hobject.
    apply extractBracketed_spec in Hobject as (inner & Hr & Hp & Ht);
      [| discriminate | reflexivity | reflexivity].
    split; [exact Hp|]. split; [exact Ht|]. right. exists inner. exact Hr.
Qed.

Lemma extractJsonBlock_shape (content r : jsstring) :
  extractJsonBlock content = Some r ->
  r <> [] /\ trimmed r /\ piece r content
  /\ ((exists g, fencedMatch content = Some g /\ g <> [] /\ r = trim g)
      \/ (exists inner, r = lbracket :: inner ++ [rbracket])
      \/ (exists inner, r = lbrace :: inner ++ [rbrace])).
Proof.
  unfold extractJsonBlock.
  assert (Hbracket : forall r,
            match extractBracketed content lbracket rbracket with
            | Some r => Some r
            | None => extractBracketed content lbrace rbrace
            end = Some r ->
            r <> [] /\ trimmed r /\ piece r content
            /\ ((exists g, fencedMatch content = Some g /\ g <> [] /\ r = trim g)
                \/ (exists inner, r = lbracket :: inner ++ [rbracket])
                \/ (exists inner, r = lbrace :: inner ++ [rbrace]))).
  { intros r0 H. apply bracketPath_spec in H as (Hp & Ht & Hshape).
    split; [destruct Hshape as [(inner & ->) | (inner & ->)]; discriminate|].
    split; [exact Ht|]. split; [exact Hp|]. right. exact Hshape. }
  destruct (fencedMatch content) as [g |] eqn:Hfenced; [| apply Hbracket].
  destruct g as [| c g]; cbn [truthy]; [apply Hbracket|].
  intros H. injection H as <-.
  apply fencedMatch_group in Hfenced as [Hp Hh].
  split; [apply trim_nonempty; [discriminate | exact Hh]|].
  split; [apply trim_trimmed|].
  split; [apply (piece_trans _ _ _ (piece_trim _) Hp)|].
  left. exists (c :: g). split; [reflexivity|]. split; [discriminate | reflexivity].
Qed.

Lemma extractJsonBlock_nonempty (content r : jsstring) :
  extractJsonBlock content = Some r -> r <> [] /\ trimmed r.
Proof. intros H. destruct (extractJsonBlock_shape _ _ H) as (Hne & Ht & _). auto. Qed.

(** X4: whatever the extractor returns is a contiguous piece of the content,
    trimmed and never empty, so that the guard of [parseJsonFromText]
    only ever fires on [null].  It is the text of the first fenced block
    when that has any; otherwise it starts with the opening bracket of
    an array or of an object and ends with the matching closing
    bracket. *)
Theorem extractJsonBlock_piece (content r : jsstring) :
  extractJsonBlock content = Some r ->
  r <> [] /\ trimmed r /\ piece r content
  /\ ((exists g, fencedMatch content = Some g /\ g <> [] /\ r = trim g)
      \/ (exists inner, r = lbracket :: inner ++ [rbracket])
      \/ (exists inner, r = lbrace :: inner ++ [rbrace])).
Proof. apply extractJsonBlock_shape. Qed.

End ExtractedBlock.

Section NoBlock.

Import Analyze.
Context {rt : JsRuntime}.

Lemma fencedMatch_no_backtick s :
  ~ In backtick s -> fencedMatch s = None.
Proof.
  induction s as [| c r IH]; intros Hno.
  - reflexivity.
  - cbn [fencedMatch]. unfold fence at 1. cbn [startsWith].
    destruct (N.eqb_spec backtick c) as [<- | _]; [exfalso; apply Hno; left; reflexivity|].
    cbn [andb]. apply IH. intros Hin. apply Hno. right. exact Hin.
Qed.

Lemma findJsonStart_from_absent open rest index :
  ~ In open rest -> findJsonStart_from open rest index = None.
Proof.
  revert index. induction rest as [| c r IH]; intros index Hno; [reflexivity|].
  cbn [findJsonStart_from].
  destruct (N.eqb_spec c open) as [-> | _]; [exfalso; apply Hno; left; reflexivity|].
  cbn [andb]. apply IH. intros Hin. apply Hno. right. exact Hin.
Qed.

Lemma extractJsonBlock_no_markers content :
  ~ In backtick content -> ~ In lbracket content -> ~ In lbrace content ->
  extractJsonBlock content = None.
Proof.
  intros Htick Harray Hobject. unfold extractJsonBlock, extractBracketed, findJsonStart.
  rewrite (fencedMatch_no_backtick _ Htick).
  rewrite (findJsonStart_from_absent _ _ _ Harray), (findJsonStart_from_absent _ _ _ Hobject).
  reflexivity.
Qed.

(** X5: the three ways [parseJsonFromText] ends.  Content that parses as it
    is gives its value, and the extractor is not asked.  Otherwise the
    block the extractor finds is parsed in its place, whatever it is
    (the extractor never gives an empty block); and content without a
    backtick, an opening square bracket or an opening brace has no block,
    and the error says so. *)
Theorem parseJsonFromText_outcomes (content : jsstring) :
  (forall value, JSON_parse content = Ok value -> parseJsonFromText content = Ok value)
  /\ (forall message block,
        JSON_parse content = Err message -> extractJsonBlock content = Some block ->
        parseJsonFromText content = JSON_parse block)
  /\ (forall message,
        JSON_parse content = Err message ->
        ~ In backtick content -> ~ In lbracket content -> ~ In lbrace content ->
        parseJsonFromText content = Err (js "No JSON block found in LLM response.")).
Proof.
  unfold parseJsonFromText. split; [| split].
  - intros value ->. reflexivity.
  - intros message block -> Hblock. rewrite Hblock.
    destruct (extractJsonBlock_nonempty _ _ Hblock). destruct block; [contradiction | reflexivity].
  - intros message -> Htick Harray Hobject.
    rewrite (extractJsonBlock_no_markers _ Htick Harray Hobject). reflexivity.
Qed.

End NoBlock.

(** ** More on the fallback model list *)

Section FallbackModelsAgain.

Import FallbackModels.
Context {rt : JsRuntime}.

Lemma normalizeLoop_keeps (primaryModel : option jsstring) (l : list jsstring)
    (seen : gset jsstring) (normalized : list jsstring) :
  Forall (fun entry => entry <> [] /\ trim entry <> [] /\ trim entry = entry
                       /\ Some entry <> primaryModel) l ->
  NoDup (map toLowerCase l) ->
  (forall entry, entry ∈ l -> toLowerCase entry ∉ seen) ->
  normalizeLoop primaryModel l seen normalized = normalized ++ l.
Proof.
  revert seen normalized.
  induction l as [| entry rest IH]; intros seen normalized Hall Hnd Hseen.
  - cbn. rewrite app_nil_r. reflexivity.
  - apply Forall_cons in Hall as [(Hne & _ & Htrim & Hprimary) Hall].
    cbn [map] in Hnd. apply NoDup_cons in Hnd as [Hfresh Hnd].
    cbn [normalizeLoop]. rewrite Htrim.
    destruct entry as [| c entry]; [contradiction|]. cbn [truthy negb orb].
    rewrite (bool_decide_eq_false_2 _ Hprimary).
    rewrite bool_decide_eq_false_2 by (apply Hseen; left).
    rewrite IH; [rewrite <- app_assoc; reflexivity | exact Hall | exact Hnd |].
    intros other Hother. rewrite elem_of_union, elem_of_singleton.
    intros [Heq | Hin].
    + apply Hfresh. rewrite <- Heq. apply list_elem_of_fmap_2. exact Hother.
    + apply (Hseen other); [right; exact Hother | exact Hin].
Qed.

(** X6: normalizing a normalized list changes nothing: the result of
    [normalizeModels] can be stored and given back as the input of a
    later run. *)
Theorem normalizeModels_idempotent (models : list jsstring) (primaryModel : option jsstring) :
  normalizeModels (normalizeModels models primaryModel) primaryModel
  = normalizeModels models primaryModel.
Proof.
  unfold normalizeModels at 1.
  rewrite normalizeLoop_keeps; [reflexivity | apply normalizeModels_entries | |].
  - apply (normalizeModels_spec models primaryModel).
  - intros entry _. apply not_elem_of_empty.
Qed.

Lemma normalizeLoop_skips (primaryModel : option jsstring) (l : list jsstring)
    (seen : gset jsstring) (normalized : list jsstring) :
  Forall (fun model => trim model = [] \/ Some (trim model) = primaryModel) l ->
  normalizeLoop primaryModel l seen normalized = normalized.
Proof.
  induction 1 as [| model rest Hskip _ IH]; [reflexivity|].
  cbn [normalizeLoop]. destruct Hskip as [-> | Hprimary].
  - cbn [truthy negb orb]. exact IH.
  - rewrite (bool_decide_eq_true_2 _ Hprimary), orb_true_r. exact IH.
Qed.

(** X7: a file that fits one of the two schemas is always the source of the
    list, whatever is left of it: when each of its entries is blank or
    names the primary model, the list is empty, and the built-in models
    are not used in its place. *)
Theorem loadFallbackModels_valid_file (file : option jsstring)
    (primaryModel : option jsstring) (entries : list jsstring) :
  modelsOfFile file = Some entries ->
  loadFallbackModels file primaryModel
  = {| models := normalizeModels entries primaryModel; source := fromFile |}
  /\ (Forall (fun model => trim model = [] \/ Some (trim model) = primaryModel) entries ->
      loadFallbackModels file primaryModel = {| models := []; source := fromFile |}).
Proof.
  intros Hfile.
  assert (Hload : loadFallbackModels file primaryModel
                  = {| models := normalizeModels entries primaryModel;
                       source := fromFile |}).
  { unfold loadFallbackModels, modelsOfFile in *.
    destruct file as [raw |]; [| discriminate].
    destruct (JSON_parse raw) as [parsed | message]; [| discriminate].
    destruct (ModelsArraySchema parsed) as [data |].
    - injection Hfile as ->. reflexivity.
    - rewrite Hfile. reflexivity. }
  split; [exact Hload|].
  intros Hskip. rewrite Hload. unfold normalizeModels.
  rewrite (normalizeLoop_skips _ _ _ _ Hskip). reflexivity.
Qed.

End FallbackModelsAgain.

Lemma loadFallbackModels_valid_file_witness :
  FallbackModels.loadFallbackModels (rt := asciiRuntime)
    (Some (js "[" ++ dq ++ js " m/One " ++ dq ++ js "," ++ dq ++ js "  " ++ dq ++ js "]"))
    (Some (js "m/One"))
  = {| FallbackModels.models := []; FallbackModels.source := FallbackModels.fromFile |}.
Proof.
  apply (proj2 (loadFallbackModels_valid_file (rt := asciiRuntime)
                  (Some (js "[" ++ dq ++ js " m/One " ++ dq ++ js "," ++ dq ++ js "  "
                         ++ dq ++ js "]"))
                  (Some (js "m/One")) [js " m/One "; js "  "] eq_refl)).
  constructor; [right; vm_compute; reflexivity|].
  constructor; [left; vm_compute; reflexivity | constructor].
Defined.

(** ** What a computation leaves alone *)

Section Frames.

Context {X : Type} (f : World -> X).

Lemma bind_keeps {A B} (m : M A) (k : A -> M B) w :
  f (snd (m w)) = f w ->
  (forall a w1, f (snd (k a w1)) = f w1) ->
  f (snd (bind m k w)) = f w.
Proof.
  unfold bind. intros Hm Hk. destruct (m w) as [[a | e |] w1]; cbn [snd] in *.
  - rewrite Hk. exact Hm.
  - exact Hm.
  - exact Hm.
Qed.

Lemma tryCatch_keeps {A} (m : M A) (handler : jsstring -> M A) w :
  f (snd (m w)) = f w ->
  (forall e w1, f (snd (handler e w1)) = f w1) ->
  f (snd (tryCatch m handler w)) = f w.
Proof.
  unfold tryCatch. intros Hm Hh. destruct (m w) as [[a | e |] w1]; cbn [snd] in *.
  - exact Hm.
  - rewrite Hh. exact Hm.
  - exact Hm.
Qed.

End Frames.

(** A part of the world that requests, sleeps, ticks, log lines and
    the clock do not touch: the files, the environment, the backend. *)
Definition untouched {X} (f : World -> X) : Prop :=
  (forall w v, f (setPosted w v) = f w)
  /\ (forall w v, f (setSlept w v) = f w)
  /\ (forall w v, f (setTicks w v) = f w)
  /\ (forall w v, f (setLogged w v) = f w)
  /\ (forall w v, f (setClockReads w v) = f w).

Lemma untouched_logsDir : untouched logsDir.
Proof. repeat split. Qed.

Lemma untouched_personasFile : untouched personasFile.
Proof. repeat split. Qed.

Lemma untouched_apiKey : untouched apiKey.
Proof. repeat split. Qed.


Section Untouched.

Context {X : Type} (f : World -> X) (Hf : untouched f).

Lemma log_keeps level message w : f (snd (log level message w)) = f w.
Proof. apply Hf. Qed.

Lemma sleep_keeps ms w : f (snd (sleep ms w)) = f w.
Proof. apply Hf. Qed.

Lemma now_keeps w : f (snd (now w)) = f w.
Proof. apply Hf. Qed.

Lemma retryLoop_keeps client payload fuel attempt backoff w :
  f (snd (retryLoop client payload fuel attempt backoff w)) = f w.
Proof.
  destruct Hf as (Hposted & Hslept & Hticks & _).
  revert attempt backoff w. induction fuel as [| fuel IH]; intros attempt backoff w;
    cbn [retryLoop]; [reflexivity|].
  unfold post. destruct (backend w (length (posted w)) payload) as [response | error].
  - unfold bind, reportProgress, ret. cbn [snd]. rewrite Hticks. apply Hposted.
  - destruct (negb (shouldRetry error) || (maxRetries client <=? attempt)%nat).
    + unfold throw. cbn [snd]. apply Hposted.
    + unfold bind at 1, sleep at 1. rewrite IH, Hslept. apply Hposted.
Qed.

Lemma createChatCompletion_keeps client payload w :
  f (snd (createChatCompletion client payload w)) = f w.
Proof. apply retryLoop_keeps. Qed.

End Untouched.

(** ** The texts of a session *)

Section SessionTexts.

Import Simulate.

Variable self : InterviewSession.

Section Kept.

Context {X : Type} (f : World -> X) (Hf : untouched f).

Lemma requestContentLoop_keeps params maxAttempts fuel attempt w :
  f (snd (requestContentLoop self params maxAttempts fuel attempt w)) = f w.
Proof.
  revert attempt w. induction fuel as [| fuel IH]; intros attempt w;
    cbn [requestContentLoop]; destruct (attempt <? maxAttempts)%nat; try reflexivity.
  apply bind_keeps; [apply (createChatCompletion_keeps f Hf)|]. intros response w1.
  destruct (truthy _); [reflexivity|].
  apply bind_keeps; [apply (log_keeps f Hf)|]. intros _ w2.
  apply bind_keeps; [destruct (_ <? _)%nat; [apply (sleep_keeps f Hf) | reflexivity]|].
  intros _ w3. apply IH.
Qed.

Lemma interviewerTurn_keeps sys messages step w :
  f (snd (interviewerTurn self sys messages step w)) = f w.
Proof.
  unfold interviewerTurn. destruct (interviewerMode self); [reflexivity|].
  apply tryCatch_keeps; [apply requestContentLoop_keeps|].
  intros e w1. apply bind_keeps; [apply (log_keeps f Hf) | reflexivity].
Qed.

Lemma runSteps_keeps rsys isys steps index messages w :
  f (snd (runSteps self rsys isys steps index messages w)) = f w.
Proof.
  revert index messages w. induction steps as [| step rest IH]; intros index messages w;
    cbn [runSteps]; [reflexivity|].
  apply bind_keeps; [apply (log_keeps f Hf)|]. intros _ w1.
  apply bind_keeps; [apply interviewerTurn_keeps|]. intros q w2.
  apply bind_keeps; [apply requestContentLoop_keeps|]. intros a w3.
  apply IH.
Qed.

Lemma run_keeps w : f (snd (run self w)) = f w.
Proof.
  unfold run.
  apply bind_keeps; [apply (now_keeps f Hf)|]. intros t0 w1.
  apply bind_keeps; [apply runSteps_keeps|]. intros messages w2.
  apply bind_keeps; [apply (now_keeps f Hf)|]. intros t1 w3.
  apply bind_keeps; [apply (log_keeps f Hf)|]. intros _ w4. reflexivity.
Qed.

End Kept.

(** A text a request for content returns is what is left of the reply
    after the artifacts are removed and the rest is trimmed, and it is
    not empty. *)
Lemma requestContentLoop_clean params maxAttempts fuel attempt w text w' :
  requestContentLoop self params maxAttempts fuel attempt w = (Returned text, w') ->
  text <> [] /\ trimmed text.
Proof.
  revert attempt w. induction fuel as [| fuel IH]; intros attempt w;
    cbn [requestContentLoop]; destruct (attempt <? maxAttempts)%nat; try discriminate.
  intros H. apply bind_Returned_inv in H as (response & w1 & _ & H).
  destruct (truthy (extractMessageText (firstMessage response))) eqn:Hcontent.
  - destruct (truthy (sanitizeContent _)) eqn:Hclean.
    + unfold ret in H. injection H as <- _. split.
      * intros Hnil. rewrite Hnil in Hclean. discriminate.
      * apply trim_trimmed.
    + apply bind_Returned_inv in H as (_ & w2 & _ & H).
      apply bind_Returned_inv in H as (_ & w3 & _ & H). exact (IH _ _ H).
  - cbn [truthy] in H.
    apply bind_Returned_inv in H as (_ & w2 & _ & H).
    apply bind_Returned_inv in H as (_ & w3 & _ & H). exact (IH _ _ H).
Qed.

(** What the two turns of a step may hold. *)
Definition turnOf (step : jsstring) (turn : jsstring * jsstring) : Prop :=
  (fst turn = step
   \/ (interviewerMode self = llmMode /\ fst turn <> [] /\ trimmed (fst turn)))
  /\ snd turn <> [] /\ trimmed (snd turn).

Lemma interviewerTurn_line sys messages step w q w' :
  interviewerTurn self sys messages step w = (Returned q, w') ->
  q = step \/ (interviewerMode self = llmMode /\ q <> [] /\ trimmed q).
Proof.
  unfold interviewerTurn. destruct (interviewerMode self) eqn:Hmode.
  - unfold ret. intros H. injection H as <- _. left. reflexivity.
  - unfold tryCatch.
    destruct (requestContent self _ w) as [[text | e |] w1] eqn:Hrequest.
    + intros H. injection H as <- _. right. split; [reflexivity|].
      apply (requestContentLoop_clean _ _ _ _ _ _ _ Hrequest).
    + unfold bind, log, ret. intros H. injection H as <- _. left. reflexivity.
    + discriminate.
Qed.

Lemma runSteps_texts rsys isys steps index messages w result w' :
  runSteps self rsys isys steps index messages w = (Returned result, w') ->
  exists turns, result = messages ++ transcript turns /\ Forall2 turnOf steps turns.
Proof.
  revert index messages w.
  induction steps as [| step rest IH]; intros index messages w Hrun.
  - cbn in Hrun. unfold ret in Hrun. injection Hrun as <- _.
    exists []. cbn. rewrite app_nil_r. split; [reflexivity | constructor].
  - cbn [runSteps] in Hrun.
    apply bind_Returned_inv in Hrun as (_ & w1 & _ & Hrun).
    apply bind_Returned_inv in Hrun as (q & w2 & Hq & Hrun).
    apply bind_Returned_inv in Hrun as (a & w3 & Ha & Hrun).
    apply IH in Hrun as (turns & -> & Hturns).
    exists ((q, a) :: turns). split.
    + cbn. rewrite <- !app_assoc. reflexivity.
    + constructor; [| exact Hturns]. split.
      * apply (interviewerTurn_line _ _ _ _ _ _ Hq).
      * apply (requestContentLoop_clean _ _ _ _ _ _ _ Ha).
Qed.

(** X8: in a session the runner returns, every answer of the respondent is
    a text that is trimmed and not empty, and the line of the
    interviewer before it is the script line of its step or, in
    model-driven mode, such a text as well; the session names the persona
    and its segment, has no project name yet, and its id is the
    persona's id, a hyphen and the start time, with every colon and full
    stop replaced by a hyphen. *)
Theorem run_session_texts w session w' :
  run self w = (Returned session, w') ->
  (exists turns,
     sessionMessages session = transcript turns
     /\ Forall2 turnOf (interviewScript self) turns)
  /\ personaId session = id (persona self)
  /\ segmentId session = personaSegmentId (persona self)
  /\ projectName session = []
  /\ sessionId session = dashed (id (persona self) ++ js "-" ++ startedAt session)
  /\ ~ In 58 (sessionId session) /\ ~ In 46 (sessionId session).
Proof.
  intros Hrun. unfold run in Hrun.
  apply bind_Returned_inv in Hrun as (t0 & w1 & _ & Hrun).
  apply bind_Returned_inv in Hrun as (messages & w2 & Hsteps & Hrun).
  apply bind_Returned_inv in Hrun as (t1 & w3 & _ & Hrun).
  apply bind_Returned_inv in Hrun as (_ & w4 & _ & Hrun).
  unfold ret in Hrun. injection Hrun as <- _.
  cbn [sessionMessages personaId segmentId projectName sessionId startedAt].
  apply runSteps_texts in Hsteps as (turns & -> & Hturns).
  split; [exists turns; split; [reflexivity | exact Hturns]|].
  repeat (split; [reflexivity|]).
  assert (Hdashed : forall c s, In c (dashed s) -> c <> 58 /\ c <> 46).
  { intros c s. unfold dashed. rewrite in_map_iff. intros (c0 & <- & _).
    destruct (N.eqb_spec c0 58) as [-> | H58]; cbn [orb]; [split; discriminate|].
    destruct (N.eqb_spec c0 46) as [-> | H46]; [split; discriminate | split; assumption]. }
  split; intros Hin; apply Hdashed in Hin as [? ?]; congruence.
Qed.

End SessionTexts.

(** ** Resuming a batch *)

Section Resuming.

Import Simulate.

Lemma startsWith_app (p s : jsstring) : startsWith p (p ++ s) = true.
Proof.
  induction p as [| c p IH]; [reflexivity|]. cbn [startsWith app].
  rewrite N.eqb_refl. exact IH.
Qed.

Lemma endsWith_app (p s : jsstring) : endsWith p (s ++ p) = true.
Proof. unfold endsWith. rewrite rev_app_distr. apply startsWith_app. Qed.

Lemma writeSession_logsDir session w :
  exists others,
    logsDir (snd (writeSession session w))
    = Some (others ++ [{| fileName := sessionId session ++ js ".json";
                          fileSession := Some session |}])
    /\ (readable (default [] (logsDir w)) -> readable others).
Proof.
  unfold writeSession. cbn [snd logsDir setLogsDir]. eexists. split; [reflexivity|].
  unfold readable. intros Hreadable. rewrite Forall_forall in *.
  intros file Hin. apply list_elem_of_filter in Hin as [_ Hin].
  apply Hreadable, Hin.
Qed.

(** X9: a task that returns leaves the session in the file named after the
    session id, and the persona is completed from then on: with a logs
    directory whose [.json] files all read and parse, and a persona id
    that is not empty and is a plain file name (the model keeps the
    directory flat), a later reading of the directory has the persona in
    the completed set, and the persona is pending in no list. *)
Theorem task_marks_completed config options client persona w session w' :
  readable (default [] (logsDir w)) ->
  id persona <> [] ->
  ~ In 47 (id persona) ->
  task config options client persona w = (Returned session, w') ->
  (exists others,
     logsDir w' = Some (others ++ [{| fileName := sessionId session ++ js ".json";
                                      fileSession := Some session |}])
     /\ readable others)
  /\ projectName session = metaProjectName config
  /\ id persona ∈ completedOf (logsDir w')
  /\ forall personas, persona ∉ pendingPersonas personas (completedOf (logsDir w')).
Proof.
  intros Hreadable Hid _ Htask.
  pose proof (task_personaId _ _ _ _ _ _ _ Htask) as Hpersona.
  unfold task in Htask.
  apply bind_Returned_inv in Htask as (s & w1 & Hrun & Htask).
  apply bind_Returned_inv in Htask as (u & w2 & Hwrite & Htask).
  unfold ret in Htask. injection Htask as <- <-.
  match type of Hrun with run ?runner _ = _ =>
    pose proof (run_keeps runner logsDir untouched_logsDir w) as Hdir
  end.
  rewrite Hrun in Hdir. cbn [snd] in Hdir.
  match type of Hwrite with writeSession ?x _ = _ =>
    destruct (writeSession_logsDir x w1) as (others & Hfiles & Hothers)
  end.
  rewrite Hwrite in Hfiles. cbn [snd] in Hfiles.
  rewrite Hdir in Hothers. specialize (Hothers Hreadable).
  cbn [sessionId] in Hfiles.
  assert (Hcompleted : id persona ∈ completedOf (logsDir w2)).
  { rewrite Hfiles. apply completedOf_readable.
    - unfold readable. apply Forall_app. split; [exact Hothers|].
      constructor; [| constructor]. intros _. discriminate.
    - split; [exact Hid|]. eexists _, _. split; [| split; [| split]].
      + apply elem_of_app. right. apply list_elem_of_singleton. reflexivity.
      + apply endsWith_app.
      + reflexivity.
      + exact Hpersona. }
  split; [exists others; split; [exact Hfiles | exact Hothers]|].
  split; [reflexivity|]. split; [exact Hcompleted|].
  intros personas Hpending. apply pendingPersonas_spec in Hpending as [_ Hnot].
  contradiction.
Qed.

Lemma collectCompleted_unreadable files file acc :
  file ∈ files -> endsWith (js ".json") (fileName file) = true ->
  fileSession file = None ->
  collectCompleted files acc = None.
Proof.
  intros Hin Hjson Hnone. revert acc.
  induction files as [| f rest IH]; intros acc; [inversion Hin|].
  cbn [collectCompleted].
  apply elem_of_cons in Hin as [<- | Hin].
  - rewrite Hjson, Hnone. reflexivity.
  - destruct (negb (endsWith (js ".json") (fileName f))); [apply IH, Hin|].
    destruct (fileSession f) as [session |]; [| reflexivity].
    destruct (truthy (personaId session)); apply IH, Hin.
Qed.

End Resuming.

Section Batches.

Import Simulate.

(** A part of the world that writing a session does not touch either. *)
Definition settled {X} (f : World -> X) : Prop :=
  untouched f /\ forall w v, f (setLogsDir w v) = f w.

Lemma settled_personasFile : settled personasFile.
Proof. split; [apply untouched_personasFile | reflexivity]. Qed.

Lemma settled_apiKey : settled apiKey.
Proof. split; [apply untouched_apiKey | reflexivity]. Qed.

Lemma settled_respondentPromptFile : settled respondentPromptFile.
Proof. split; [repeat split | reflexivity]. Qed.

Lemma settled_interviewerPromptFile : settled interviewerPromptFile.
Proof. split; [repeat split | reflexivity]. Qed.

Lemma settled_posted_free {X} (f : World -> X) : settled f -> untouched f.
Proof. intros [H _]. exact H. Qed.

Lemma task_keeps {X} (f : World -> X) config options client persona w :
  settled f -> f (snd (task config options client persona w)) = f w.
Proof.
  intros [Hf Hdir]. unfold task.
  apply bind_keeps; [apply (run_keeps _ f Hf)|]. intros s w1.
  apply bind_keeps; [apply Hdir | reflexivity].
Qed.

Lemma alongside_keeps {X A} (f : World -> X) (first : M A) (others : M (list A)) w :
  (forall w0, f (snd (first w0)) = f w0) ->
  (forall w0, f (snd (others w0)) = f w0) ->
  f (snd (alongside first others w)) = f w.
Proof.
  intros Hfirst Hothers. unfold alongside.
  pose proof (Hfirst w) as H1. destruct (first w) as [[a | thrown |] w1]; cbn [snd] in H1.
  - pose proof (Hothers w1) as H2.
    destruct (others w1) as [[rest | thrown |] w2]; cbn [snd] in *; congruence.
  - pose proof (Hothers w1) as H2.
    destruct (others w1) as [[rest | thrown2 |] w2]; cbn [snd] in *; congruence.
  - exact H1.
Qed.

Lemma runTasks_keeps {X} (f : World -> X) config options client pending w :
  settled f -> f (snd (runTasks config options client pending w)) = f w.
Proof.
  intros Hf. revert w. induction pending as [| persona rest IH]; intros w;
    cbn [runTasks]; [reflexivity|].
  apply alongside_keeps; [| exact IH].
  intros w0. apply (task_keeps f _ _ _ _ _ Hf).
Qed.

(** The requests and sleeps of a computation that only logs. *)
Lemma pendingPersonas_none (personas : list IPersona) :
  pendingPersonas personas ∅ = personas.
Proof.
  unfold pendingPersonas. induction personas as [| p rest IH]; [reflexivity|].
  cbn [List.filter]. rewrite bool_decide_eq_false_2 by apply not_elem_of_empty.
  cbn [negb]. rewrite IH. reflexivity.
Qed.

Lemma pendingPersonas_all_completed (personas : list IPersona) (completed : gset jsstring) :
  Forall (fun p => id p ∈ completed) personas ->
  pendingPersonas personas completed = [].
Proof.
  unfold pendingPersonas. induction 1 as [| p rest Hp _ IH]; [reflexivity|].
  cbn [List.filter]. rewrite (bool_decide_eq_true_2 _ Hp). exact IH.
Qed.

(** What the tasks of a batch close over, in a given world. *)
Definition setupOf (config : IProjectConfig) (options : SimulateOptions)
    (respondentPrompt interviewerPrompt : jsstring) : TaskSetup :=
  {| setupRespondentPrompt := respondentPrompt;
     setupInterviewerPrompt := interviewerPrompt;
     setupInterviewerMode :=
       default (default scriptMode (flowInterviewerMode config))
               (optInterviewerMode options) |}.

(** The two lines the scheduler logs around its tasks. *)
Definition startLine (pending : list IPersona) (completed : gset jsstring)
  : LogLevel * jsstring :=
  (info, js "Simulating " ++ String_N (N.of_nat (length pending))
         ++ js " interviews (skipping " ++ String_N (N.of_nat (base.size completed))
         ++ js ").").

Definition finishLine (sessions : list IInterviewSession) : LogLevel * jsstring :=
  (info, js "Simulation finished: " ++ String_N (N.of_nat (length sessions))
         ++ js " interviews saved.").

(** The steps of [simulateInterviews] before the tasks. *)
Lemma simulateInterviews_inv config options w sessions w' :
  simulateInterviews config options w = (Returned sessions, w') ->
  truthy (default [] (apiKey w)) = true
  /\ (1 <= settingsConcurrency config)%Z
  /\ exists respondentPrompt interviewerPrompt personas w1,
       respondentPromptFile w = Some respondentPrompt
       /\ interviewerPromptFile w = Some interviewerPrompt
       /\ personasFile w = Some personas
       /\ runTasks config (setupOf config options respondentPrompt interviewerPrompt)
            (newLlmClient defaultOptions)
            (pendingPersonas personas (completedOf (logsDir w)))
            (setLogged w (logged w
                          ++ [startLine (pendingPersonas personas (completedOf (logsDir w)))
                                (completedOf (logsDir w))]))
          = (Returned sessions, w1)
       /\ w' = setLogged w1 (logged w1 ++ [finishLine sessions]).
Proof.
  unfold simulateInterviews. intros Hrun.
  apply bind_Returned_inv in Hrun as (respondentPrompt & wa & Hrespondent & Hrun).
  apply bind_Returned_inv in Hrun as (interviewerPrompt & wb & Hinterviewer & Hrun).
  apply bind_Returned_inv in Hrun as (client & w1 & Hclient & Hrun).
  apply bind_Returned_inv in Hrun as (u & w2 & Hlimit & Hrun).
  apply bind_Returned_inv in Hrun as (personas & w3 & Hpersonas & Hrun).
  apply bind_Returned_inv in Hrun as (completed & w4 & Hcompleted & Hrun).
  apply bind_Returned_inv in Hrun as (u5 & w5 & Hlog & Hrun).
  apply bind_Returned_inv in Hrun as (results & w6 & Htasks & Hrun).
  apply bind_Returned_inv in Hrun as (u7 & w7 & Hlog7 & Hrun).
  unfold ret in Hrun. injection Hrun as <- <-.
  unfold readPromptTemplate in Hrespondent.
  destruct (respondentPromptFile w) as [rp |] eqn:Hrp; [| discriminate].
  injection Hrespondent as <- <-.
  unfold readPromptTemplate in Hinterviewer.
  destruct (interviewerPromptFile w) as [ip |] eqn:Hip; [| discriminate].
  injection Hinterviewer as <- <-.
  unfold constructLlmClient in Hclient.
  destruct (truthy (default [] (apiKey w))) eqn:Hkey; [| discriminate].
  injection Hclient as <- <-.
  unfold pLimit in Hlimit.
  destruct (Z.ltb_spec (settingsConcurrency config) 1) as [| Hconc];
    [discriminate|]. unfold ret in Hlimit. injection Hlimit as _ <-.
  unfold loadPersonas in Hpersonas.
  destruct (personasFile w) as [ps |] eqn:Hfile; [| discriminate].
  injection Hpersonas as <- <-.
  unfold loadCompletedPersonaIds in Hcompleted. injection Hcompleted as <- <-.
  unfold log in Hlog. injection Hlog as _ <-.
  unfold log in Hlog7. injection Hlog7 as _ <-.
  split; [reflexivity|]. split; [lia|].
  exists rp, ip, ps, w6. split; [reflexivity|]. split; [reflexivity|].
  split; [reflexivity|]. split; [exact Htasks | reflexivity].
Qed.

(** The logs directory that cannot be read as a whole: it is missing,
    or one of its [.json] files does not read or parse. *)
Definition unreadable (dir : option (list LogFile)) : Prop :=
  match dir with
  | None => True
  | Some files =>
      exists file, file ∈ files /\ endsWith (js ".json") (fileName file) = true
                   /\ fileSession file = None
  end.

Lemma completedOf_unreadable dir : unreadable dir -> completedOf dir = ∅.
Proof.
  destruct dir as [files |]; [| reflexivity].
  intros (file & Hin & Hjson & Hnone). unfold completedOf.
  rewrite (collectCompleted_unreadable _ _ _ Hin Hjson Hnone). reflexivity.
Qed.

(** X10: one [.json] file of the logs directory that does not read or parse
    makes the scheduler forget all progress, as a missing directory
    does: the completed set is empty, every persona is pending, and a
    batch that returns has run a session for every persona of the
    persona file, in its order, also for those with a readable
    session. *)
Theorem unreadable_log_restarts_batch config options w :
  unreadable (logsDir w) ->
  completedOf (logsDir w) = ∅
  /\ (forall personas, pendingPersonas personas (completedOf (logsDir w)) = personas)
  /\ (forall sessions w',
        simulateInterviews config options w = (Returned sessions, w') ->
        exists personas,
          personasFile w = Some personas /\ map personaId sessions = map id personas).
Proof.
  intros Hdir. pose proof (completedOf_unreadable _ Hdir) as Hempty.
  split; [exact Hempty|]. split.
  - intros personas. rewrite Hempty. apply pendingPersonas_none.
  - intros sessions w' Hrun.
    apply simulateInterviews_inv in Hrun
      as (_ & _ & rp & ip & personas & w1 & _ & _ & Hfile & Htasks & _).
    exists personas. split; [exact Hfile|].
    apply runTasks_personaIds in Htasks. rewrite Htasks, Hempty, pendingPersonas_none.
    reflexivity.
Qed.

(** X11: the scheduler gives up before it reads the logs directory, posts a
    request or writes a line when the respondent prompt cannot be read,
    when the interviewer prompt cannot be read, when the API key is
    missing or empty, when the concurrency is below one, or when the
    persona file cannot be read, in this order; the world is as it
    was. *)
Theorem simulateInterviews_refuses config options w :
  (respondentPromptFile w = None ->
   simulateInterviews config options w = (Thrown (ioError w), w))
  /\ (is_Some (respondentPromptFile w) ->
      interviewerPromptFile w = None ->
      simulateInterviews config options w = (Thrown (ioError w), w))
  /\ (is_Some (respondentPromptFile w) ->
      is_Some (interviewerPromptFile w) ->
      (truthy (default [] (apiKey w)) = false ->
       simulateInterviews config options w
       = (Thrown (js "OPENROUTER_API_KEY is required in environment variables."), w))
      /\ (truthy (default [] (apiKey w)) = true ->
          (settingsConcurrency config < 1)%Z ->
          simulateInterviews config options w
          = (Thrown (js "Expected `concurrency` to be a number from 1 and up"), w))
      /\ (truthy (default [] (apiKey w)) = true ->
          (1 <= settingsConcurrency config)%Z ->
          personasFile w = None ->
          simulateInterviews config options w = (Thrown (ioError w), w))).
Proof.
  unfold simulateInterviews, bind, readPromptTemplate, constructLlmClient, pLimit,
    loadPersonas.
  split; [| split].
  - intros ->. reflexivity.
  - intros [rp ->] ->. reflexivity.
  - intros [rp ->] [ip ->]. split; [| split].
    + intros ->. reflexivity.
    + intros -> Hconc. apply Z.ltb_lt in Hconc. rewrite Hconc. reflexivity.
    + intros -> Hconc Hfile. apply Z.ltb_ge in Hconc. rewrite Hconc.
      unfold ret. rewrite Hfile. reflexivity.
Qed.

(** *** A batch that returned leaves nothing to do *)

Definition dirOf (w : World) : list LogFile := default [] (logsDir w).

Definition fileOf (session : IInterviewSession) : LogFile :=
  {| fileName := sessionId session ++ js ".json"; fileSession := Some session |}.

Lemma filter_length_le {A} (P : A -> Prop) `{forall x, Decision (P x)} (l : list A) :
  (length (filter P l) <= length l)%nat.
Proof.
  induction l as [| a l IH]; [reflexivity|]. rewrite filter_cons.
  destruct (decide (P a)); cbn [length]; lia.
Qed.

Lemma filter_length_eq {A} (P : A -> Prop) `{forall x, Decision (P x)} (l : list A) :
  length (filter P l) = length l -> filter P l = l.
Proof.
  induction l as [| a l IH]; [reflexivity|]. rewrite filter_cons.
  destruct (decide (P a)); cbn [length]; intros Hlen.
  - f_equal. apply IH. lia.
  - pose proof (filter_length_le P l). lia.
Qed.

Lemma task_directory config options client persona w session w' :
  task config options client persona w = (Returned session, w') ->
  (length (dirOf w') <= length (dirOf w) + 1)%nat
  /\ (length (dirOf w') = (length (dirOf w) + 1)%nat ->
      dirOf w' = dirOf w ++ [fileOf session])
  /\ logsDir w' <> None.
Proof.
  intros Htask. unfold task in Htask.
  apply bind_Returned_inv in Htask as (s & w1 & Hrun & Htask).
  apply bind_Returned_inv in Htask as (u & w2 & Hwrite & Htask).
  unfold ret in Htask. injection Htask as <- <-.
  match type of Hrun with run ?runner _ = _ =>
    pose proof (run_keeps runner logsDir untouched_logsDir w) as Hdir
  end.
  rewrite Hrun in Hdir. cbn [snd] in Hdir.
  unfold writeSession in Hwrite. injection Hwrite as _ <-.
  unfold dirOf. cbn [logsDir setLogsDir default from_option Datatypes.id].
  rewrite Hdir, length_app. cbn [length].
  match goal with |- context [filter ?P ?l] =>
    pose proof (filter_length_le P l) as Hle;
    pose proof (filter_length_eq P l) as Heq
  end.
  split; [lia|]. split; [| discriminate].
  intros Hlen. rewrite Heq by lia. reflexivity.
Qed.

Lemma runTasks_directory config options client pending w sessions w' :
  runTasks config options client pending w = (Returned sessions, w') ->
  (length (dirOf w') <= length (dirOf w) + length sessions)%nat
  /\ (length (dirOf w') = (length (dirOf w) + length sessions)%nat ->
      dirOf w' = dirOf w ++ map fileOf sessions).
Proof.
  revert w sessions w'. induction pending as [| persona rest IH]; intros w sessions w' Hrun.
  - cbn in Hrun. unfold ret in Hrun. injection Hrun as <- <-. cbn [length map].
    rewrite app_nil_r. split; [lia | reflexivity].
  - apply runTasks_cons_inv in Hrun as (s & w1 & ss & Htask & Hrest & ->).
    apply task_directory in Htask as (Hle1 & Heq1 & _).
    apply IH in Hrest as (Hle2 & Heq2).
    cbn [length map]. split; [lia|].
    intros Hlen. rewrite Heq2 by lia. rewrite Heq1 by lia.
    rewrite <- app_assoc. reflexivity.
Qed.

Lemma completedOf_dirOf w : completedOf (logsDir w) = completedOf (Some (dirOf w)).
Proof. unfold dirOf. destruct (logsDir w); reflexivity. Qed.

(** X12: run again after a batch that returned, the scheduler finds every
    persona completed: it returns at once, with no session, no request
    and no sleep, and leaves the logs directory as it is.  This holds
    when the [.json] files that were there all read and parse, every
    persona id is a plain file name that is not empty, and the batch
    wrote a new file for each of its sessions (none replaced a file of
    the same name). *)
Theorem simulateInterviews_rerun config options w sessions w' :
  simulateInterviews config options w = (Returned sessions, w') ->
  readable (dirOf w) ->
  (forall personas, personasFile w = Some personas ->
     Forall (fun p => id p <> [] /\ ~ In 47 (id p)) personas) ->
  length (dirOf w') = (length (dirOf w) + length sessions)%nat ->
  exists w'',
    simulateInterviews config options w' = (Returned [], w'')
    /\ posted w'' = posted w' /\ slept w'' = slept w' /\ logsDir w'' = logsDir w'.
Proof.
  intros Hrun Hreadable Hids Hlen.
  apply simulateInterviews_inv in Hrun
    as (Hkey & Hconc & rp & ip & personas & w1 & Hrp & Hip & Hfile & Htasks & ->).
  specialize (Hids personas Hfile).
  set (w0 := setLogged w _) in Htasks.
  match type of Htasks with runTasks ?c ?o ?cl ?p _ = _ =>
    pose proof (runTasks_keeps apiKey c o cl p w0 settled_apiKey) as Hkey1;
    pose proof (runTasks_keeps personasFile c o cl p w0 settled_personasFile) as Hfile1;
    pose proof (runTasks_keeps respondentPromptFile c o cl p w0
                  settled_respondentPromptFile) as Hrp1;
    pose proof (runTasks_keeps interviewerPromptFile c o cl p w0
                  settled_interviewerPromptFile) as Hip1
  end.
  rewrite Htasks in Hkey1, Hfile1, Hrp1, Hip1. cbn [snd] in Hkey1, Hfile1, Hrp1, Hip1.
  pose proof (runTasks_personaIds _ _ _ _ _ _ _ Htasks) as Hsessions.
  apply runTasks_directory in Htasks as (_ & Hdir).
  change (dirOf (setLogged w1 _)) with (dirOf w1) in Hlen.
  change (dirOf w0) with (dirOf w) in Hdir. specialize (Hdir Hlen).
  set (w2 := setLogged w1 _).
  assert (Hall : Forall (fun p => id p ∈ completedOf (logsDir w2)) personas).
  { apply Forall_forall. intros p Hp.
    change (logsDir w2) with (logsDir w1). rewrite completedOf_dirOf, Hdir.
    assert (Hreadable' : readable (dirOf w ++ map fileOf sessions)).
    { unfold readable. apply Forall_app. split; [exact Hreadable|].
      apply Forall_forall. intros file Hin _.
      apply list_elem_of_fmap in Hin as (s & -> & _). discriminate. }
    apply (completedOf_readable _ _ Hreadable').
    rewrite Forall_forall in Hids. destruct (Hids p Hp) as [Hne _].
    split; [exact Hne|].
    destruct (decide (id p ∈ completedOf (logsDir w))) as [Hdone | Hpending].
    - rewrite completedOf_dirOf in Hdone.
      apply (completedOf_readable _ _ Hreadable) in Hdone
        as (_ & file & session & Hin & Hjson & Hsession & Hid).
      exists file, session. split; [apply elem_of_app; left; exact Hin | auto].
    - assert (Hin : id p ∈ map personaId sessions).
      { rewrite Hsessions. apply list_elem_of_fmap_2.
        apply pendingPersonas_spec. split; [exact Hp | exact Hpending]. }
      apply list_elem_of_fmap in Hin as (session & Hid & Hin).
      exists (fileOf session), session. split; [| split; [| split]].
      + apply elem_of_app. right. apply list_elem_of_fmap_2. exact Hin.
      + apply endsWith_app.
      + reflexivity.
      + symmetry. exact Hid. }
  unfold simulateInterviews, bind at 1, readPromptTemplate at 1.
  change (respondentPromptFile w2) with (respondentPromptFile w1). rewrite Hrp1.
  change (respondentPromptFile w0) with (respondentPromptFile w). rewrite Hrp.
  unfold bind at 1, readPromptTemplate at 1.
  change (interviewerPromptFile w2) with (interviewerPromptFile w1). rewrite Hip1.
  change (interviewerPromptFile w0) with (interviewerPromptFile w). rewrite Hip.
  unfold bind at 1, constructLlmClient.
  change (apiKey w2) with (apiKey w1). rewrite Hkey1. change (apiKey w0) with (apiKey w).
  rewrite Hkey. unfold bind at 1, pLimit.
  destruct (Z.ltb_spec (settingsConcurrency config) 1) as [| _]; [lia|].
  unfold ret at 1. unfold bind at 1, loadPersonas.
  change (personasFile w2) with (personasFile w1). rewrite Hfile1.
  change (personasFile w0) with (personasFile w). rewrite Hfile.
  unfold bind at 1, loadCompletedPersonaIds.
  rewrite (pendingPersonas_all_completed _ _ Hall).
  eexists. split; [reflexivity|]. repeat split.
Qed.

(** *** The files of a batch *)





End Batches.

(** ** The cascade against a backend without text *)

Section TextlessAnalysis.

Import FallbackModels Analyze.
Context {rt : JsRuntime}.

Variable config : IProjectConfig.
Variable client : LlmClient.

(** A backend that answers every request, never with any text. *)
Definition textless (answers : nat -> ChatCompletionRequest -> BackendOutcome) : Prop :=
  forall n request, exists response,
    answers n request = Responds response
    /\ extractMessageText (firstMessage response) = [].

Lemma requestAnalysisLoop_textless prompt model language maxAttempts attempts w :
  textless (backend w) ->
  exists w',
    requestAnalysisLoop client prompt model language maxAttempts attempts w
    = (Returned [], w')
    /\ posted w' = posted w
                   ++ replicate (length attempts) (analysisRequest prompt model language)
    /\ slept w' = slept w
    /\ backend w' = backend w.
Proof.
  intros Htextless. revert w Htextless.
  induction attempts as [| attempt rest IH]; intros w Htextless.
  - exists w. cbn. rewrite app_nil_r. auto.
  - cbn [requestAnalysisLoop].
    destruct (Htextless (length (posted w)) (analysisRequest prompt model language))
      as (response & Hresponds & Htext).
    rewrite (bind_Returned_step _ _ _ _ _
               (createChatCompletion_responds client _ w response Hresponds)).
    rewrite Htext. cbn [truthy].
    unfold bind at 1, log at 1.
    match goal with |- context [requestAnalysisLoop _ _ _ _ _ rest ?w1] =>
      destruct (IH w1 Htextless) as (w' & Hrun & Hposted & Hslept & Hbackend)
    end.
    exists w'. split; [exact Hrun|]. rewrite Hposted, Hslept, Hbackend.
    cbn [posted slept backend setLogged setTicks setPosted length replicate].
    rewrite <- app_assoc. auto.
Qed.

Lemma tryModel_textless prompt model w :
  textless (backend w) ->
  exists w',
    tryModel config client prompt model w = (Returned None, w')
    /\ posted w' = posted w
                   ++ replicate 3 (analysisRequest prompt model (settingsLang config))
    /\ slept w' = slept w
    /\ backend w' = backend w.
Proof.
  intros Htextless. unfold tryModel, requestAnalysisContent.
  destruct (requestAnalysisLoop_textless prompt model (settingsLang config) 3
              [1; 2; 3]%nat w Htextless) as (w1 & Hrun & Hposted & Hslept & Hbackend).
  rewrite (bind_Returned_step _ _ _ _ _ Hrun). cbn [truthy negb].
  unfold bind, log, ret. eexists. split; [reflexivity|].
  cbn [posted slept backend setLogged]. auto.
Qed.

(** The requests of a cascade that gets no text: three for each model,
    in the order of the models. *)
Definition textlessRequests (prompt : jsstring) (modelsToTry : list jsstring)
  : list ChatCompletionRequest :=
  flat_map (fun model => replicate 3 (analysisRequest prompt model (settingsLang config)))
           modelsToTry.

Lemma resolve_textless prompt modelsToTry w :
  textless (backend w) ->
  exists w',
    resolve config client prompt modelsToTry w = (Returned None, w')
    /\ posted w' = posted w ++ textlessRequests prompt modelsToTry
    /\ slept w' = slept w
    /\ backend w' = backend w.
Proof.
  intros Htextless. revert w Htextless.
  induction modelsToTry as [| model rest IH]; intros w Htextless.
  - exists w. cbn. rewrite app_nil_r. auto.
  - cbn [resolve].
    destruct (tryModel_textless prompt model w Htextless)
      as (w1 & Hrun & Hposted & Hslept & Hbackend).
    rewrite (bind_Returned_step _ _ _ _ _ Hrun).
    destruct (IH w1) as (w' & Hrest & Hposted' & Hslept' & Hbackend');
      [rewrite Hbackend; exact Htextless|].
    exists w'. split; [exact Hrest|]. rewrite Hposted', Hslept', Hbackend', Hposted.
    unfold textlessRequests. cbn [flat_map]. rewrite <- app_assoc. auto.
Qed.

(** X13: when no model sends any text, the analysis of a session asks the
    analyzer model and then each fallback model, in their order, three
    times each with the same request, never sends the reminder and
    never sleeps.  It then returns the record whose configured fields
    (all configured keys but [__proto__]) are empty, unless a
    configured key names a method of [Object.prototype]: the empty row
    then holds that method, and the analysis throws a TypeError after
    the same requests. *)
Theorem analyzeSession_textless fallback prompt session w :
  textless (backend w) ->
  exists w',
    analyzeSession config client fallback prompt session w
    = orThrow (enrichRow (buildEmptyRow config) session) w'
    /\ posted w' = posted w
                   ++ textlessRequests prompt (modelsAnalyzer config :: models fallback)
    /\ length (posted w')
       = (length (posted w) + 3 * S (length (models fallback)))%nat
    /\ slept w' = slept w
    /\ ((forall k, ~ methodKey config k) ->
        exists record,
          analyzeSession config client fallback prompt session w = (Returned record, w')
          /\ dom record = fieldSet config ∪ {[personaIdKey; segmentIdKey]}
          /\ forall k, k ∈ keysOf config -> k <> protoKey -> record !! k = Some [])
    /\ (forall k, methodKey config k ->
        analyzeSession config client fallback prompt session w
        = (Thrown replaceOfMethod, w')).
Proof.
  intros Htextless.
  destruct (resolve_textless prompt (modelsAnalyzer config :: models fallback) w Htextless)
    as (w1 & Hrun & Hposted & Hslept & _).
  assert (Hsession :
            analyzeSession config client fallback prompt session w
            = orThrow (enrichRow (buildEmptyRow config) session)
                (setLogged w1
                   (logged w1
                    ++ [(warn, js "Analyzer response missing after all fallbacks, writing empty row.")]))).
  { unfold analyzeSession. rewrite (bind_Returned_step _ _ _ _ _ Hrun).
    unfold bind, log. reflexivity. }
  eexists. split; [exact Hsession|].
  cbn [posted slept setLogged]. split; [exact Hposted|]. split.
  { rewrite Hposted, length_app. f_equal.
    assert (Hlen : forall l, length (textlessRequests prompt l) = (3 * length l)%nat).
    { unfold textlessRequests. induction l as [| m l IH]; [reflexivity|].
      cbn [flat_map length]. rewrite length_app, IH. cbn [replicate length]. lia. }
    rewrite Hlen. reflexivity. }
  split; [exact Hslept|]. split.
  - intros Hnone. apply buildEmptyRow_textual in Hnone.
    pose proof (enrichRow_textual _ session Hnone) as Henrich.
    eexists. split; [rewrite Hsession, Henrich; reflexivity|].
    split.
    + rewrite (enrichRow_dom _ _ _ Henrich). unfold buildEmptyRow.
      rewrite normalizeRow_dom. reflexivity.
    + intros k Hk Hne. by apply (emptyRecord_fields config session).
  - intros k (Hk & Hinherited & Hne).
    rewrite Hsession, (enrichRow_throws _ session k k); [reflexivity|].
    rewrite buildEmptyRow_lookup, decide_True by (by split). rewrite Hinherited.
    reflexivity.
Qed.

(** *** A failure of the client ends the analysis *)

Lemma requestAnalysisContent_failure prompt model language w error :
  backend w (length (posted w)) (analysisRequest prompt model language) = Rejects error ->
  shouldRetry error = false ->
  requestAnalysisContent client prompt model language w
  = (Thrown (failureMessage error),
     setPosted w (posted w ++ [analysisRequest prompt model language])).
Proof.
  intros Hrejects Hterminal. unfold requestAnalysisContent. cbn [requestAnalysisLoop].
  apply bind_Thrown_step. unfold createChatCompletion. cbn [retryLoop]. unfold post.
  rewrite Hrejects, Hterminal. reflexivity.
Qed.

Lemma analyzeSession_failure fallback prompt session w error :
  backend w (length (posted w))
    (analysisRequest prompt (modelsAnalyzer config) (settingsLang config))
  = Rejects error ->
  shouldRetry error = false ->
  analyzeSession config client fallback prompt session w
  = (Thrown (failureMessage error),
     setPosted w (posted w ++ [analysisRequest prompt (modelsAnalyzer config)
                                 (settingsLang config)])).
Proof.
  intros Hrejects Hterminal. unfold analyzeSession. cbn [resolve]. unfold tryModel.
  apply bind_Thrown_step, bind_Thrown_step, bind_Thrown_step.
  apply (requestAnalysisContent_failure _ _ _ _ _ Hrejects Hterminal).
Qed.

End TextlessAnalysis.

Section AnalysisAborts.

Import FallbackModels Analyze.
Context {rt : JsRuntime}.

Variable config : IProjectConfig.
Variable buildAnalyticsPrompt : IProjectConfig -> IInterviewSession -> jsstring.

(** The sessions the analysis loads: those of the [.json] files. *)
Definition sessionsOf (files : list LogFile) : option (list IInterviewSession) :=
  mapM fileSession (List.filter (fun f => endsWith (js ".json") (fileName f)) files).

(** X14: the fallback models are for answers without text and answers that
    do not parse, not for requests that fail: when the client throws on
    the first request for the first session, the analysis throws with
    it, after that one request, and no other model is asked.  The
    analysis also gives up, before any request, when the API key is
    missing or empty, when the logs directory is missing, and when one
    of its [.json] files does not read or parse. *)
Theorem analyzeInterviews_aborts w :
  (truthy (default [] (apiKey w)) = false ->
   analyzeInterviews buildAnalyticsPrompt config w
   = (Thrown (js "OPENROUTER_API_KEY is required in environment variables."), w))
  /\ (truthy (default [] (apiKey w)) = true ->
      logsDir w = None \/ (exists files, logsDir w = Some files /\ sessionsOf files = None) ->
      analyzeInterviews buildAnalyticsPrompt config w = (Thrown (ioError w), w))
  /\ (forall files session rest error,
        truthy (default [] (apiKey w)) = true ->
        logsDir w = Some files ->
        sessionsOf files = Some (session :: rest) ->
        backend w (length (posted w))
          (analysisRequest (buildAnalyticsPrompt config session) (modelsAnalyzer config)
             (settingsLang config))
        = Rejects error ->
        shouldRetry error = false ->
        exists w',
          analyzeInterviews buildAnalyticsPrompt config w
          = (Thrown (failureMessage error), w')
          /\ posted w' = posted w
                         ++ [analysisRequest (buildAnalyticsPrompt config session)
                               (modelsAnalyzer config) (settingsLang config)]
          /\ slept w' = slept w).
Proof.
  split; [| split].
  - intros Hkey. unfold analyzeInterviews, bind, constructLlmClient. rewrite Hkey.
    reflexivity.
  - intros Hkey Hdir. unfold analyzeInterviews, bind at 1, constructLlmClient.
    rewrite Hkey. unfold bind at 1, loadSessions.
    destruct Hdir as [-> | (files & -> & Hnone)]; [reflexivity|].
    unfold sessionsOf in Hnone. rewrite Hnone. reflexivity.
  - intros files session rest error Hkey Hdir Hsessions Hrejects Hterminal.
    unfold analyzeInterviews, bind at 1, constructLlmClient. rewrite Hkey.
    unfold bind at 1, loadSessions. rewrite Hdir.
    unfold sessionsOf in Hsessions. rewrite Hsessions.
    unfold bind at 1, log at 1. unfold bind at 1, readFallbackModels at 1.
    set (w1 := setLogged w _).
    set (fallback := loadFallbackModels _ _).
    assert (Hstep : forall w2,
              posted w2 = posted w -> backend w2 = backend w -> slept w2 = slept w ->
              exists w',
                analyzeSessions config (newLlmClient defaultOptions) fallback
                  buildAnalyticsPrompt (session :: rest) w2
                = (Thrown (failureMessage error), w')
                /\ posted w' = posted w
                               ++ [analysisRequest (buildAnalyticsPrompt config session)
                                     (modelsAnalyzer config) (settingsLang config)]
                /\ slept w' = slept w).
    { intros w2 Hposted Hbackend Hslept. cbn [analyzeSessions].
      eexists. split.
      - apply bind_Thrown_step. apply analyzeSession_failure; [| exact Hterminal].
        rewrite Hposted, Hbackend. exact Hrejects.
      - cbn [posted slept setPosted]. rewrite Hposted, Hslept. auto. }
    destruct (models fallback) as [| m ms].
    + unfold bind at 1, ret at 1. apply Hstep; reflexivity.
    + unfold bind at 1, log at 1. apply Hstep; reflexivity.
Qed.

End AnalysisAborts.

(** ** The values of an analysis record *)

Section SanitizedValues.

Import FallbackModels Analyze.
Context {rt : JsRuntime}.

(** No white space but the plain space: no tab, no line break. *)
Definition plainSpaces (s : jsstring) : Prop :=
  forall c, In c s -> isWhiteSpace c = true -> c = 32.

Lemma collapseWhiteSpace_plain inRun s : plainSpaces (collapseWhiteSpace inRun s).
Proof.
  revert inRun. induction s as [| c r IH]; intros inRun x; cbn [collapseWhiteSpace].
  - intros [].
  - destruct (isWhiteSpace c) eqn:Hc.
    + destruct inRun; [apply IH|]. intros [<- | Hin]; [reflexivity | apply (IH _ _ Hin)].
    + intros [<- | Hin]; [congruence | apply (IH _ _ Hin)].
Qed.

Lemma collapseWhiteSpace_length inRun s :
  (length (collapseWhiteSpace inRun s) <= length s)%nat.
Proof.
  revert inRun. induction s as [| c r IH]; intros inRun; cbn [collapseWhiteSpace length].
  - lia.
  - destruct (isWhiteSpace c); [destruct inRun|]; cbn [length];
      match goal with |- context [collapseWhiteSpace ?b r] => specialize (IH b) end; lia.
Qed.

Lemma piece_In r s c : piece r s -> In c r -> In c s.
Proof. intros (p & q & ->) Hin. apply in_or_app. right. apply in_or_app. left. exact Hin. Qed.

Lemma piece_nil s : piece [] s.
Proof. exists [], s. reflexivity. Qed.

Lemma trimmed_iff s : trimmed s <-> headOk s /\ headOk (rev s).
Proof.
  split.
  - intros H. unfold trimmed in H. rewrite <- H. split; [apply trim_headOk | apply trim_lastOk].
  - intros [Hhead Hlast]. apply trim_fixed; assumption.
Qed.

(** What is left of a trimmed string after a prefix and the white space
    that follows are taken away is trimmed. *)
Lemma trimmed_rest s pre rest :
  trimmed s -> s = pre ++ rest -> trimmed (trimStart rest).
Proof.
  intros Hs Heq. apply trimmed_iff in Hs as [_ Hlast]. apply trimmed_iff.
  split; [apply trimStart_headOk|].
  destruct (trimStart_suffix rest) as (ws & Hrest & _).
  destruct (trimStart rest) as [| c t] eqn:Ht; [exact I|].
  rewrite Heq, Hrest in Hlast. rewrite !rev_app_distr in Hlast.
  destruct (rev (c :: t)) as [| l t'] eqn:Hrev.
  { apply (f_equal (@length N)) in Hrev. rewrite length_rev in Hrev. discriminate. }
  exact Hlast.
Qed.

Lemma dropUntilColon_suffix s rest :
  dropUntilColon s = Some rest -> exists pre, s = pre ++ rest.
Proof.
  revert rest. induction s as [| c r IH]; intros rest; cbn [dropUntilColon]; [discriminate|].
  destruct (c =? 58).
  - intros H. injection H as <-. exists [c]. reflexivity.
  - intros H. destruct (IH _ H) as (pre & ->). exists (c :: pre). reflexivity.
Qed.

(** A string in hand while a value is sanitized: a trimmed piece of the
    value with its white space collapsed. *)
Definition cleanedFrom (base s : jsstring) : Prop := piece s base /\ trimmed s.

Lemma cleanedFrom_trim base part s :
  piece part s -> cleanedFrom base s -> cleanedFrom base (trim part).
Proof.
  intros Hpart [Hs _]. split; [| apply trim_trimmed].
  apply (piece_trans _ _ _ (piece_trim part)), (piece_trans _ _ _ Hpart), Hs.
Qed.

Lemma stripPrefix_cleaned base cleaned word :
  cleanedFrom base cleaned -> cleanedFrom base (stripPrefix cleaned word).
Proof.
  intros [Hpiece Htrimmed]. unfold stripPrefix.
  destruct (startsWithFolded word cleaned); [| split; assumption].
  destruct (dropUntilColon (drop (length word) cleaned)) as [rest |] eqn:Hdrop;
    [| split; assumption].
  apply dropUntilColon_suffix in Hdrop as (pre & Hdrop).
  assert (Hcleaned : cleaned = (take (length word) cleaned ++ pre) ++ rest).
  { rewrite <- app_assoc, <- Hdrop, take_drop. reflexivity. }
  split; [| apply (trimmed_rest _ _ _ Htrimmed Hcleaned)].
  apply (piece_trans _ cleaned); [| exact Hpiece].
  destruct (trimStart_suffix rest) as (ws & Hrest & _).
  exists ((take (length word) cleaned ++ pre) ++ ws), [].
  rewrite app_nil_r, <- app_assoc, <- Hrest. exact Hcleaned.
Qed.

Lemma stripPrefixes_cleaned base words cleaned :
  cleanedFrom base cleaned -> cleanedFrom base (foldl stripPrefix cleaned words).
Proof.
  revert cleaned. induction words as [| word rest IH]; intros cleaned H; [exact H|].
  cbn [foldl]. apply IH, stripPrefix_cleaned, H.
Qed.

Lemma splitFrom_piece sep skip current s part :
  In part (splitFrom sep skip current s) ->
  skip = 0%nat \/ current = [] ->
  piece part (current ++ s).
Proof.
  revert skip current. induction s as [| c r IH]; intros skip current; cbn [splitFrom].
  - intros [<- | []] _. rewrite app_nil_r. apply piece_refl.
  - destruct skip as [| k].
    + destruct (startsWith sep (c :: r)).
      * intros [<- | Hin] _.
        -- exists [], (c :: r). reflexivity.
        -- apply piece_after, (piece_after [c]).
           apply (IH _ [] Hin). right. reflexivity.
      * intros Hin _. replace (current ++ c :: r) with ((current ++ [c]) ++ r)
          by (rewrite <- app_assoc; reflexivity).
        apply (IH _ _ Hin). left. reflexivity.
    + intros Hin [Hskip | ->]; [discriminate|]. cbn [app].
      apply (piece_after [c]). apply (IH _ [] Hin). right. reflexivity.
Qed.

Lemma split_piece sep s part : In part (split sep s) -> piece part s.
Proof. intros Hin. apply (splitFrom_piece sep 0 [] s part Hin). left. reflexivity. Qed.

Lemma last_In {A} (l : list A) x : last l = Some x -> In x l.
Proof.
  induction l as [| a l IH]; [discriminate|]. destruct l as [| b l].
  - intros H. injection H as <-. left. reflexivity.
  - intros H. right. apply IH. exact H.
Qed.

Lemma head_In {A} (l : list A) x : head l = Some x -> In x l.
Proof. destruct l; [discriminate|]. intros H. injection H as <-. left. reflexivity. Qed.

Lemma takeUntil_prefix close s : exists post, s = takeUntil close s ++ post.
Proof.
  induction s as [| c r (post & IH)]; cbn [takeUntil]; [exists []; reflexivity|].
  destruct (c =? close).
  - exists (c :: r). reflexivity.
  - exists post. cbn [app]. rewrite <- IH. reflexivity.
Qed.

Lemma quotedMatch_piece open close s g :
  quotedMatch open close s = Some g -> piece g s.
Proof.
  induction s as [| c r IH]; cbn [quotedMatch]; [discriminate|].
  destruct (_ && _).
  - intros H. injection H as <-. destruct (takeUntil_prefix close r) as (post & Hpost).
    exists [c], post. cbn [app]. rewrite <- Hpost. reflexivity.
  - intros H. apply (piece_after [c]), IH, H.
Qed.

Lemma sanitizeValue_cleaned value :
  cleanedFrom (collapseWhiteSpace false value) (sanitizeValue value).
Proof.
  unfold sanitizeValue.
  set (base := collapseWhiteSpace false value).
  assert (H0 : cleanedFrom base (trim base)).
  { split; [apply piece_trim | apply trim_trimmed]. }
  pose proof (stripPrefixes_cleaned base prefixWords _ H0) as H1.
  set (c1 := foldl stripPrefix (trim base) prefixWords) in *.
  set (c2 := if includes (js "->") c1 then _ else c1).
  assert (H2 : cleanedFrom base c2).
  { subst c2. destruct (includes (js "->") c1); [| exact H1].
    destruct (last (split (js "->") c1)) as [part |] eqn:Hlast; [| exact H1].
    apply (cleanedFrom_trim _ part c1); [| exact H1].
    apply (split_piece (js "->")), last_In, Hlast. }
  clearbody c2.
  set (c3 := if includes (js ":") c2 then _ else c2).
  assert (H3 : cleanedFrom base c3).
  { subst c3. destruct (includes (js ":") c2); [| exact H2].
    destruct (_ && _); [| exact H2].
    destruct (last (split (js ":") c2)) as [part |] eqn:Hlast;
      cbn [default from_option Datatypes.id].
    - apply (cleanedFrom_trim _ part c2); [| exact H2].
      apply (split_piece (js ":")), last_In, Hlast.
    - split; [apply piece_nil | reflexivity]. }
  clearbody c3.
  set (c4 := if includes (js ".") c3 then _ else c3).
  assert (H4 : cleanedFrom base c4).
  { subst c4. destruct (includes (js ".") c3); [| exact H3].
    destruct (_ && _); [| exact H3].
    destruct (head (split (js ".") c3)) as [part |] eqn:Hhead;
      cbn [default from_option Datatypes.id].
    - apply (cleanedFrom_trim _ part c3); [| exact H3].
      apply (split_piece (js ".")), head_In, Hhead.
    - split; [apply piece_nil | reflexivity]. }
  clearbody c4.
  destruct (quotedMatch dquote dquote c4) as [g |] eqn:Hquote.
  - destruct g as [| c g]; [exact H4|].
    apply (cleanedFrom_trim _ _ c4); [| exact H4]. apply (quotedMatch_piece _ _ _ _ Hquote).
  - destruct (quotedMatch 171 187 c4) as [g |] eqn:Hguillemet; [| exact H4].
    destruct g as [| c g]; [exact H4|].
    apply (cleanedFrom_trim _ _ c4); [| exact H4].
    apply (quotedMatch_piece _ _ _ _ Hguillemet).
Qed.

Lemma sanitizeValue_shape value :
  trimmed (sanitizeValue value)
  /\ plainSpaces (sanitizeValue value)
  /\ (length (sanitizeValue value) <= length value)%nat.
Proof.
  destruct (sanitizeValue_cleaned value) as [Hpiece Htrimmed].
  split; [exact Htrimmed|]. split.
  - intros c Hin. apply (collapseWhiteSpace_plain false value), (piece_In _ _ _ Hpiece Hin).
  - pose proof (piece_length _ _ Hpiece). pose proof (collapseWhiteSpace_length false value).
    lia.
Qed.

(** X15: every value of a record is sanitized before it is written: it is
    trimmed, its only white space is the plain space (no tab and no
    line break, so a record is one line of the CSV file), and it is no
    longer than the value it was made from.  This holds for the value
    of each configured field of each record the analysis of a session
    returns, whatever the model sent; a configured key [__proto__] is
    no field of a record. *)
Theorem analysis_values_sanitized :
  (forall value,
     trimmed (sanitizeValue value)
     /\ plainSpaces (sanitizeValue value)
     /\ (length (sanitizeValue value) <= length value)%nat)
  /\ (forall config client fallback prompt session w row w' k,
        analyzeSession config client fallback prompt session w = (Returned row, w') ->
        k ∈ keysOf config -> k <> protoKey ->
        exists text,
          row !! k = Some (sanitizeValue text)
          /\ trimmed (sanitizeValue text) /\ plainSpaces (sanitizeValue text))
  /\ (forall config client fallback prompt session w row w',
        analyzeSession config client fallback prompt session w = (Returned row, w') ->
        row !! protoKey = None).
Proof.
  split; [apply sanitizeValue_shape|]. split.
  - intros config client fallback prompt session w row w' k Hrun Hk Hne.
    apply analyzeSession_shape in Hrun as (resolved & w1 & inner & _ & Henrich & Hdom & _).
    assert (Hin : k ∈ dom inner) by (rewrite Hdom; by apply elem_of_fieldSet).
    apply elem_of_dom in Hin as (v0 & Hv0).
    destruct (enrichRow_Ok_inv _ _ _ Henrich) as [Htextual _].
    destruct (Htextual k v0 Hv0) as (text & Htext).
    destruct v0 as [text0 | name]; [| discriminate]. injection Htext as ->.
    exists text. split; [by apply (enrichRow_lookup_field inner session)|].
    destruct (sanitizeValue_shape text) as (Ht & Hp & _). auto.
  - intros config client fallback prompt session w row w' Hrun.
    apply analyzeSession_keys in Hrun. apply not_elem_of_dom. rewrite Hrun.
    unfold recordKeys. intros Hin.
    apply elem_of_union in Hin as [Hin | Hin].
    + apply elem_of_fieldSet in Hin as [_ Hin]. by apply Hin.
    + apply elem_of_union in Hin as [Hin | Hin]; apply elem_of_singleton in Hin;
        vm_compute in Hin; discriminate.
Qed.

End SanitizedValues.

(** ** The requests of a turn *)

Section TurnRequests.

Import Simulate.

Variable self : InterviewSession.
Variable params : RequestParams.

(** The request of an attempt: the first one carries the messages as
    they are, a later one has the retry prompt appended as a user
    message, when there is one. *)
Definition attemptRequest (later : bool) : ChatCompletionRequest :=
  {| model := requestModel params;
     messages :=
       if negb later || negb (truthy (default [] (retryPrompt params)))
       then requestMessages params
       else requestMessages params
            ++ [{| role := user; content := default [] (retryPrompt params) |}];
     temperature := None;
     max_tokens := maxTokens params |}.

Lemma requestContentLoop_later maxAttempts fuel attempt w :
  (1 <= attempt)%nat ->
  exists later,
    posted (snd (requestContentLoop self params maxAttempts fuel attempt w))
    = posted w ++ replicate later (attemptRequest true)
    /\ (later <= (maxAttempts - attempt) * S (maxRetries (client self)))%nat.
Proof.
  revert attempt w. induction fuel as [| fuel IH]; intros attempt w Hattempt;
    cbn [requestContentLoop]; destruct (Nat.ltb_spec attempt maxAttempts) as [Hlt | Hge];
    try (exists 0%nat; try unfold throw; cbn [snd replicate]; rewrite app_nil_r;
         split; [reflexivity | apply Nat.le_0_l]).
  replace (attempt =? 0)%nat with false by (symmetry; apply Nat.eqb_neq; lia).
  cbn [orb]. cbv zeta.
  match goal with |- context [createChatCompletion ?c ?p] =>
    change p with (attemptRequest true);
    destruct (createChatCompletion_effects c (attemptRequest true) w)
      as (n & delays & Hn & Hposted & _)
  end.
  unfold bind at 1.
  destruct (createChatCompletion (client self) (attemptRequest true) w)
    as [[response | e |] w1]; cbn [snd] in Hposted.
  - destruct (truthy (if truthy _ then _ else _)).
    + exists n. cbn [snd ret]. split; [exact Hposted|]. nia.
    + unfold bind at 1, log at 1. unfold bind at 1.
      set (pause := if (attempt + 1 <? maxAttempts)%nat then _ else _).
      assert (Hpause : exists w2, pause (setLogged w1
                 (logged w1 ++ [(warn, label params ++ js " response missing content (attempt "
                        ++ String_N (N.of_nat (attempt + 1)) ++ js "/"
                        ++ String_N (N.of_nat maxAttempts) ++ js ").")]))
               = (Returned tt, w2) /\ posted w2 = posted w1).
      { subst pause. destruct (_ <? _)%nat; eexists; split; reflexivity. }
      destruct Hpause as (w2 & -> & Hposted2).
      destruct (IH (attempt + 1)%nat w2) as (later & Hrest & Hlater); [lia|].
      exists (n + later)%nat. rewrite Hrest, Hposted2, Hposted.
      rewrite replicate_add, <- app_assoc. split; [reflexivity|]. nia.
  - exists n. cbn [snd]. split; [exact Hposted|]. nia.
  - exists n. cbn [snd]. split; [exact Hposted|]. nia.
Qed.

(** X16: the requests of one turn: the first attempt, once and then once for
    each retry of the client, and after it the later attempts with the
    retry prompt appended, each of them under the model and the token
    limit of the turn.  No more than the attempts allowed times the
    requests the client may post for one call. *)
Theorem requestContent_requests w :
  exists first later,
    posted (snd (requestContent self params w))
    = posted w ++ replicate first (attemptRequest false)
               ++ replicate later (attemptRequest true)
    /\ (first <= S (maxRetries (client self)))%nat
    /\ (later <= (default 3%nat (maxAttempts params) - 1)
                 * S (maxRetries (client self)))%nat
    /\ (first + later
        <= default 3%nat (maxAttempts params) * S (maxRetries (client self)))%nat
    /\ (default 3%nat (maxAttempts params) = 0%nat \/ 1 <= first)%nat.
Proof.
  unfold requestContent. generalize (default 3%nat (maxAttempts params)).
  intros [| limit].
  { exists 0%nat, 0%nat. cbn [requestContentLoop Nat.ltb Nat.leb]. unfold throw.
    cbn [snd replicate app]. rewrite app_nil_r. repeat split; lia. }
  cbn [requestContentLoop]. change (0 <? S limit)%nat with true. cbn [Nat.eqb orb].
  cbv zeta.
  match goal with |- context [createChatCompletion ?c ?p] =>
    change p with (attemptRequest false);
    destruct (createChatCompletion_effects c (attemptRequest false) w)
      as (n & delays & Hn & Hposted & _)
  end.
  unfold bind at 1.
  destruct (createChatCompletion (client self) (attemptRequest false) w)
    as [[response | e |] w1]; cbn [snd] in Hposted.
  - destruct (truthy (if truthy _ then _ else _)).
    + exists n, 0%nat. cbn [snd ret replicate]. rewrite app_nil_r.
      split; [exact Hposted|]. repeat split; lia.
    + unfold bind at 1, log at 1. unfold bind at 1.
      set (pause := if (0 + 1 <? S limit)%nat then _ else _).
      assert (Hpause : exists w2, pause (setLogged w1
                 (logged w1 ++ [(warn, label params ++ js " response missing content (attempt "
                        ++ String_N (N.of_nat (0 + 1)) ++ js "/"
                        ++ String_N (N.of_nat (S limit)) ++ js ").")]))
               = (Returned tt, w2) /\ posted w2 = posted w1).
      { subst pause. destruct (_ <? _)%nat; eexists; split; reflexivity. }
      destruct Hpause as (w2 & -> & Hposted2).
      destruct (requestContentLoop_later (S limit) limit (0 + 1)%nat w2)
        as (later & Hrest & Hlater); [lia|].
      exists n, later. rewrite Hrest, Hposted2, Hposted, <- app_assoc.
      split; [reflexivity|]. repeat split; nia.
  - exists n, 0%nat. cbn [snd replicate]. rewrite app_nil_r.
    split; [exact Hposted|]. repeat split; lia.
  - exists n, 0%nat. cbn [snd replicate]. rewrite app_nil_r.
    split; [exact Hposted|]. repeat split; lia.
Qed.

End TurnRequests.

(** ** A session against a backend that always answers *)

Section TalkativeBackend.

Import Simulate.

Variable self : InterviewSession.

(** A backend that answers every request with usable text. *)
Definition talkative (answers : nat -> ChatCompletionRequest -> BackendOutcome) : Prop :=
  forall n request, exists response,
    answers n request = Responds response /\ usableText response <> [].

(** The requests of one step: one for the respondent, and one more for
    the interviewer when a model asks the questions. *)
Definition requestsPerStep (mode : InterviewerMode) : nat :=
  match mode with
  | llmMode => 2
  | scriptMode => 1
  end.

Lemma requestContent_talkative params w :
  talkative (backend w) ->
  default 3%nat (maxAttempts params) <> 0%nat ->
  exists text w',
    requestContent self params w = (Returned text, w')
    /\ length (posted w') = S (length (posted w))
    /\ slept w' = slept w
    /\ ticks w' = S (ticks w)
    /\ backend w' = backend w.
Proof.
  intros Htalk Hlimit. unfold requestContent.
  destruct (default 3%nat (maxAttempts params)) as [| limit]; [contradiction|].
  cbn [requestContentLoop]. change (0 <? S limit)%nat with true. cbv zeta.
  match goal with |- context [createChatCompletion ?c ?p] =>
    destruct (Htalk (length (posted w)) p) as (response & Hresponds & Husable);
    rewrite (bind_Returned_step _ _ _ _ _
               (createChatCompletion_responds c p w response Hresponds))
  end.
  unfold usableText in Husable. cbv zeta in Husable.
  destruct (if truthy (extractMessageText (firstMessage response))
            then sanitizeContent (extractMessageText (firstMessage response))
            else []) as [| c text] eqn:Htext; [contradiction|].
  cbn [truthy]. unfold ret. eexists _, _. split; [reflexivity|].
  cbn [posted slept ticks backend setTicks setPosted]. rewrite length_app. cbn [length].
  repeat split; lia.
Qed.

Lemma interviewerTurn_talkative sys messages step w :
  talkative (backend w) ->
  exists q w',
    interviewerTurn self sys messages step w = (Returned q, w')
    /\ length (posted w')
       = (length (posted w) + (requestsPerStep (interviewerMode self) - 1))%nat
    /\ slept w' = slept w
    /\ ticks w' = (ticks w + (requestsPerStep (interviewerMode self) - 1))%nat
    /\ backend w' = backend w.
Proof.
  intros Htalk. unfold interviewerTurn. destruct (interviewerMode self).
  - exists step, w. cbn [requestsPerStep Nat.sub]. rewrite !Nat.add_0_r. auto.
  - destruct (requestContent_talkative (interviewerParams self sys messages step) w Htalk)
      as (text & w' & Hrun & Hposted & Hslept & Hticks & Hbackend); [discriminate|].
    unfold tryCatch. rewrite Hrun. exists text, w'.
    cbn [requestsPerStep Nat.sub]. repeat split; try assumption; lia.
Qed.

Lemma runSteps_talkative rsys isys steps index messages w :
  talkative (backend w) ->
  exists result w',
    runSteps self rsys isys steps index messages w = (Returned result, w')
    /\ length (posted w')
       = (length (posted w) + requestsPerStep (interviewerMode self) * length steps)%nat
    /\ slept w' = slept w
    /\ ticks w'
       = (ticks w + requestsPerStep (interviewerMode self) * length steps)%nat.
Proof.
  revert index messages w. induction steps as [| step rest IH]; intros index messages w Htalk.
  - exists messages, w. cbn [runSteps length]. rewrite Nat.mul_0_r, !Nat.add_0_r. auto.
  - cbn [runSteps]. unfold bind at 1, log at 1.
    set (w1 := setLogged w _).
    destruct (interviewerTurn_talkative isys messages step w1 Htalk)
      as (q & w2 & Hq & Hposted2 & Hslept2 & Hticks2 & Hbackend2).
    rewrite (bind_Returned_step _ _ _ _ _ Hq).
    assert (Htalk2 : talkative (backend w2)) by (rewrite Hbackend2; exact Htalk).
    match goal with |- context [requestContent self ?p] =>
      destruct (requestContent_talkative p w2 Htalk2)
        as (a & w3 & Ha & Hposted3 & Hslept3 & Hticks3 & Hbackend3); [discriminate|]
    end.
    rewrite (bind_Returned_step _ _ _ _ _ Ha).
    assert (Htalk3 : talkative (backend w3)) by (rewrite Hbackend3; exact Htalk2).
    match goal with |- context [runSteps self rsys isys rest ?i ?m] =>
      destruct (IH i m w3 Htalk3) as (result & w' & Hrest & Hposted & Hslept & Hticks)
    end.
    exists result, w'. split; [exact Hrest|].
    rewrite Hposted, Hslept, Hticks, Hposted3, Hslept3, Hticks3, Hposted2, Hslept2, Hticks2.
    subst w1. cbn [posted slept ticks setLogged length].
    assert (1 <= requestsPerStep (interviewerMode self))%nat
      by (destruct (interviewerMode self); cbn; lia).
    repeat split; nia.
Qed.

(** X17: against a backend that answers every request with usable text, a
    session returns after exactly one request for each turn a model
    takes (one for each step in script mode, two in model-driven mode),
    with one progress tick for each request, no retry and no sleep. *)
Theorem run_talkative w :
  talkative (backend w) ->
  exists session w',
    run self w = (Returned session, w')
    /\ length (posted w')
       = (length (posted w)
          + requestsPerStep (interviewerMode self) * length (interviewScript self))%nat
    /\ slept w' = slept w
    /\ ticks w'
       = (ticks w
          + requestsPerStep (interviewerMode self) * length (interviewScript self))%nat.
Proof.
  intros Htalk. unfold run. unfold bind at 1, now at 1. cbv zeta.
  set (w1 := setClockReads w _).
  destruct (runSteps_talkative (buildRespondentSystem self) (buildInterviewerSystem self)
              (interviewScript self) 0 [] w1 Htalk)
    as (messages & w2 & Hsteps & Hposted & Hslept & Hticks).
  rewrite (bind_Returned_step _ _ _ _ _ Hsteps).
  unfold bind, now, log, ret. eexists _, _. split; [reflexivity|].
  cbn [posted slept ticks setLogged setClockReads].
  rewrite Hposted, Hslept, Hticks. auto.
Qed.

End TalkativeBackend.

(** ** A batch against a backend that always answers *)

Section TalkativeBatch.

Import Simulate.






End TalkativeBatch.

(** ** The summary of an analysis *)

Section SummaryCounts.

Import FallbackModels Analyze Summary.
Context {rt : JsRuntime}.

(** The four answers of [classifyYesNoMaybe]. *)
Definition answers : list jsstring := [js "yes"; js "no"; js "maybe"; js "unknown"].

Lemma classifyYesNoMaybe_answer value : In (classifyYesNoMaybe value) answers.
Proof.
  unfold classifyYesNoMaybe, answers. cbv zeta.
  destruct (negb _); [right; right; right; left; reflexivity|].
  destruct (includes (js "нет") _); [right; left; reflexivity|].
  destruct (includes (js "да") _); [left; reflexivity|].
  destruct (_ || _); [right; right; left; reflexivity|].
  right; right; right; left; reflexivity.
Qed.

(** The rows an answer was tallied for, over the four answers. *)
Definition tallied (counts : gmap jsstring nat) : nat :=
  (default 0 (counts !! js "yes") + default 0 (counts !! js "no")
   + default 0 (counts !! js "maybe") + default 0 (counts !! js "unknown"))%nat.

Lemma tally_tallied answer counts :
  In answer answers -> tallied (tally answer counts) = S (tallied counts).
Proof.
  unfold answers, tallied, tally.
  intros [<- | [<- | [<- | [<- | []]]]];
    repeat first
      [ rewrite lookup_insert_eq
      | rewrite lookup_insert_ne by (vm_compute; discriminate) ];
    cbn [default from_option Datatypes.id]; lia.
Qed.

Lemma tally_dom answer counts :
  In answer answers ->
  (forall k, is_Some (counts !! k) -> In k answers) ->
  forall k, is_Some (tally answer counts !! k) -> In k answers.
Proof.
  intros Hanswer Hdom k. unfold tally.
  destruct (decide (k = answer)) as [-> | Hne]; [intros _; exact Hanswer|].
  rewrite lookup_insert_ne by congruence. apply Hdom.
Qed.

(** The rows of a segment, in their order. *)
Definition rowsOf (segment : jsstring) (rows : list (gmap jsstring jsstring))
  : list (gmap jsstring jsstring) :=
  List.filter (fun row => eqb (segmentKey row) segment) rows.

(** A row the summary can count: it has the two fields, and its segment
    is not called as something an object inherits. *)
Definition summarizable (row : gmap jsstring jsstring) : Prop :=
  is_Some (row !! js "would_use") /\ is_Some (row !! js "recommendation")
  /\ segmentKey row ∉ inheritedNames.

(** What the first loop keeps for a segment once it has seen [seen]. *)
Definition bucketOf (seen : list (gmap jsstring jsstring)) (segment : jsstring)
    (bucket : option Bucket) : Prop :=
  match bucket with
  | Some b =>
      rowsOf segment seen <> []
      /\ personas b = rowsOf segment seen
      /\ count b = length (rowsOf segment seen)
      /\ tallied (would_use b) = count b
      /\ tallied (recommendation b) = count b
      /\ (forall k, is_Some (would_use b !! k) -> In k answers)
      /\ (forall k, is_Some (recommendation b !! k) -> In k answers)
  | None => rowsOf segment seen = []
  end.

Lemma rowsOf_app segment seen rows :
  rowsOf segment (seen ++ rows) = rowsOf segment seen ++ rowsOf segment rows.
Proof. apply List.filter_app. Qed.

Lemma collectBuckets_spec rows seen perSegment collected :
  (forall segment, bucketOf seen segment (perSegment !! segment)) ->
  collectBuckets rows perSegment = Ok collected ->
  forall segment, bucketOf (seen ++ rows) segment (collected !! segment).
Proof.
  revert seen perSegment.
  induction rows as [| row rest IH]; intros seen perSegment Hseen Hcollect.
  - cbn in Hcollect. injection Hcollect as <-. rewrite app_nil_r. exact Hseen.
  - cbn [collectBuckets] in Hcollect. unfold classifyField in Hcollect.
    destruct (row !! js "would_use") as [wouldUse |]; [| discriminate].
    destruct (inherited (segmentKey row)); [discriminate|].
    destruct (row !! js "recommendation") as [recommended |]; [| discriminate].
    replace (seen ++ row :: rest) with ((seen ++ [row]) ++ rest)
      by (rewrite <- app_assoc; reflexivity).
    refine (IH _ _ _ Hcollect). clear IH Hcollect.
    intros segment.
    destruct (decide (segment = segmentKey row)) as [-> | Hne].
    + rewrite lookup_insert_eq. specialize (Hseen (segmentKey row)).
      unfold bucketOf in *. rewrite rowsOf_app.
      assert (Hrow : rowsOf (segmentKey row) [row] = [row]).
      { unfold rowsOf, eqb. cbn [List.filter].
        rewrite bool_decide_eq_true_2 by reflexivity. reflexivity. }
      rewrite Hrow. cbn [count personas would_use recommendation].
      pose proof (classifyYesNoMaybe_answer wouldUse) as Hw.
      pose proof (classifyYesNoMaybe_answer recommended) as Hr.
      destruct (perSegment !! segmentKey row) as [b |];
        cbn [default from_option Datatypes.id].
      * destruct Hseen as (_ & Hp & Hc & Hwu & Hre & Hdw & Hdr).
        split; [intros H; apply app_eq_nil in H as [_ H]; discriminate|].
        split; [rewrite Hp; reflexivity|].
        rewrite length_app. cbn [length].
        rewrite !tally_tallied by assumption.
        split; [lia|]. split; [lia|]. split; [lia|].
        split; apply tally_dom; assumption.
      * rewrite Hseen. cbn [app length newBucket count personas would_use recommendation].
        split; [discriminate|]. split; [reflexivity|].
        rewrite !tally_tallied by assumption.
        split; [reflexivity|]. split; [reflexivity|]. split; [reflexivity|].
        split; apply tally_dom; try assumption; intros k [v Hk]; rewrite lookup_empty in Hk;
          discriminate.
    + rewrite lookup_insert_ne by congruence. specialize (Hseen segment).
      assert (Hrow : rowsOf segment [row] = []).
      { unfold rowsOf, eqb. cbn [List.filter].
        rewrite bool_decide_eq_false_2 by congruence. reflexivity. }
      unfold bucketOf in *. rewrite rowsOf_app, Hrow, app_nil_r. exact Hseen.
Qed.

Lemma collectBuckets_returns rows perSegment :
  (exists collected, collectBuckets rows perSegment = Ok collected)
  <-> Forall summarizable rows.
Proof.
  revert perSegment. induction rows as [| row rest IH]; intros perSegment.
  - split; [constructor | intros _; exists perSegment; reflexivity].
  - cbn [collectBuckets]. unfold classifyField, inherited, summarizable.
    rewrite Forall_cons.
    destruct (row !! js "would_use") as [wouldUse |].
    2: { split; [intros [collected H]; discriminate H | intros [[[v Hv] _] _]; discriminate Hv]. }
    destruct (decide (segmentKey row ∈ inheritedNames)) as [Hin | Hnotin].
    { rewrite bool_decide_eq_true_2 by exact Hin.
      split; [intros [collected H]; discriminate H | intros [(_ & _ & Hnot) _]; contradiction]. }
    rewrite bool_decide_eq_false_2 by exact Hnotin.
    destruct (row !! js "recommendation") as [recommended |].
    2: { split; [intros [collected H]; discriminate H
                | intros [(_ & [v Hv] & _) _]; discriminate Hv]. }
    rewrite IH. split; [intros Hrest; split; [| exact Hrest] | intros [_ Hrest]; exact Hrest].
    split; [eexists; reflexivity | split; [eexists; reflexivity | exact Hnotin]].
Qed.

Lemma segments_fold_lookup (f : jsstring -> nat) (segments : list ISegment)
    (acc : gmap jsstring nat) (k : jsstring) :
  k <> js "__proto__" ->
  foldl (fun acc segment => assignProperty (segId segment) (f (segId segment)) acc) acc segments !! k
  = if decide (k ∈ map segId segments) then Some (f k) else acc !! k.
Proof.
  intros Hk. revert acc.
  induction segments as [| segment rest IH]; intros acc; [reflexivity|].
  cbn [foldl map]. rewrite IH. unfold assignProperty, eqb.
  destruct (decide (k ∈ map segId rest)) as [Hin | Hnotin].
  - rewrite decide_True by (by right). reflexivity.
  - destruct (decide (k = segId segment)) as [-> | Hne].
    + rewrite decide_True by (by left).
      rewrite bool_decide_eq_false_2 by exact Hk. apply lookup_insert_eq.
    + rewrite decide_False by (by intros [? | ?]%elem_of_cons).
      destruct (bool_decide _); [reflexivity | by apply lookup_insert_ne].
Qed.

Lemma segments_fold_proto (f : jsstring -> nat) (segments : list ISegment)
    (acc : gmap jsstring nat) :
  foldl (fun acc segment => assignProperty (segId segment) (f (segId segment)) acc) acc segments
  !! js "__proto__"
  = acc !! js "__proto__".
Proof.
  revert acc. induction segments as [| segment rest IH]; intros acc; [reflexivity|].
  cbn [foldl]. rewrite IH. unfold assignProperty, eqb.
  destruct (decide (segId segment = js "__proto__")) as [Heq | Hne].
  - rewrite bool_decide_eq_true_2 by exact Heq. reflexivity.
  - rewrite bool_decide_eq_false_2 by exact Hne. apply lookup_insert_ne. exact Hne.
Qed.

Lemma topItems_length rows field limit : (length (topItems rows field limit) <= limit)%nat.
Proof. unfold topItems. cbv zeta. rewrite length_map, length_take. lia. Qed.

(** X18: the counts of a summary add up.  The summary counts every row once:
    the bucket of a segment holds the rows of that segment in their
    order, its count is their number, and each of its two tallies of
    yes, no, maybe and unknown adds up to that number; a segment without
    a row has no bucket; every configured segment is listed with the
    number of its rows, zero included, but for a segment called
    [__proto__], which is not listed; and each of the three lists of top
    items has at most three entries. *)
Theorem buildSummary_adds_up rows config summary :
  buildSummary rows config = Ok summary ->
  project summary = metaProjectName config
  /\ total_sessions summary = length rows
  /\ (forall segment,
        match per_segment summary !! segment with
        | Some b =>
            rowsOf segment rows <> []
            /\ personas b = rowsOf segment rows
            /\ count b = length (rowsOf segment rows)
            /\ tallied (would_use b) = count b
            /\ tallied (recommendation b) = count b
            /\ (length (top_needed_features b) <= 3)%nat
            /\ (length (top_trust_risks b) <= 3)%nat
            /\ (length (top_value_metrics b) <= 3)%nat
        | None => rowsOf segment rows = []
        end)
  /\ (forall k,
        summarySegments summary !! k
        = if decide (k ∈ map segId (segments config) /\ k <> js "__proto__")
          then Some (length (rowsOf k rows))
          else None).
Proof.
  unfold buildSummary.
  destruct (collectBuckets rows ∅) as [collected | thrown] eqn:Hcollect; [| discriminate].
  intros H. injection H as <-.
  cbn [project total_sessions per_segment summarySegments].
  assert (Hbuckets : forall segment, bucketOf rows segment (collected !! segment)).
  { apply (collectBuckets_spec rows [] ∅ collected); [| exact Hcollect].
    intros segment. rewrite lookup_empty. reflexivity. }
  split; [reflexivity|]. split; [reflexivity|]. split.
  - intros segment. rewrite lookup_fmap. specialize (Hbuckets segment).
    destruct (collected !! segment) as [b |]; cbn [fmap option_fmap option_map]; [| exact Hbuckets].
    destruct Hbuckets as (Hne & Hp & Hc & Hw & Hr & _).
    cbn [rankItems personas count would_use recommendation top_needed_features
         top_trust_risks top_value_metrics].
    repeat (split; [assumption|]).
    split; [apply topItems_length|]. split; apply topItems_length.
  - intros k. destruct (decide (k = js "__proto__")) as [-> | Hk].
    { rewrite (segments_fold_proto
                 (fun k => default 0%nat (count <$> ((rankItems <$> collected) !! k)))).
      rewrite lookup_empty. rewrite decide_False by (intros [_ Hne]; congruence).
      reflexivity. }
    rewrite (segments_fold_lookup
               (fun k => default 0%nat (count <$> ((rankItems <$> collected) !! k))))
      by exact Hk.
    rewrite lookup_empty. destruct (decide (k ∈ map segId (segments config))) as [Hin | Hnotin].
    2: { rewrite decide_False by (intros [Hin _]; contradiction). reflexivity. }
    rewrite decide_True by (split; assumption).
    f_equal. rewrite lookup_fmap. specialize (Hbuckets k).
    destruct (collected !! k) as [b |];
      cbn [fmap option_fmap option_map default from_option Datatypes.id].
    + destruct Hbuckets as (_ & _ & Hc & _). exact Hc.
    + rewrite Hbuckets. reflexivity.
Qed.

(** X19: the summary is built exactly when every row has the fields
    [would_use] and [recommendation] and a segment that is not called as
    something an object inherits; any other row makes [buildSummary]
    throw a TypeError.  The rows of an analysis have the configured
    fields, so that the summary of an analysis that has a session, with
    segments that are not called so, is built exactly for a schema that
    has both keys. *)
Theorem buildSummary_needs_fields rows config :
  ((exists summary, buildSummary rows config = Ok summary) <-> Forall summarizable rows)
  /\ (rows <> [] ->
      Forall (fun row : gmap jsstring jsstring =>
                dom row = keySet config ∪ {[personaIdKey; segmentIdKey]}
                /\ segmentKey row ∉ inheritedNames) rows ->
      (In (js "would_use") (keysOf config) /\ In (js "recommendation") (keysOf config)
       <-> exists summary, buildSummary rows config = Ok summary)).
Proof.
  assert (Hbuilt : (exists summary, buildSummary rows config = Ok summary)
                   <-> Forall summarizable rows).
  { rewrite <- (collectBuckets_returns rows ∅). unfold buildSummary.
    destruct (collectBuckets rows ∅) as [collected | thrown].
    - split; intros _; eexists; reflexivity.
    - split; intros [x H]; discriminate H. }
  split; [exact Hbuilt|].
  intros Hne Hdom. rewrite Hbuilt.
  assert (Hfield : forall (row : gmap jsstring jsstring) k,
            dom row = keySet config ∪ {[personaIdKey; segmentIdKey]} ->
            k <> personaIdKey -> k <> segmentIdKey ->
            (is_Some (row !! k) <-> In k (keysOf config))).
  { intros row k Hrow Hp Hs. rewrite <- elem_of_dom, Hrow. unfold keySet.
    rewrite elem_of_union, elem_of_list_to_set, <- list_elem_of_In. set_solver. }
  split.
  - intros [Hw Hr]. eapply Forall_impl; [exact Hdom|].
    intros row [Hrow Hsegment]. split; [| split; [| exact Hsegment]];
      apply (Hfield row _ Hrow); try assumption; vm_compute; discriminate.
  - intros Hrows. destruct rows as [| row rest]; [contradiction|].
    apply Forall_cons in Hdom as [[Hrow _] _].
    apply Forall_cons in Hrows as [(Hw & Hr & _) _].
    split; apply (Hfield row _ Hrow); try assumption; vm_compute; discriminate.
Qed.

End SummaryCounts.

(** ** One record for each session *)

Section RecordsOfSessions.

Import FallbackModels Analyze.
Context {rt : JsRuntime}.

Variable config : IProjectConfig.

(** The record of a session: the configured keys but [__proto__], each
    with a string, and the two ids, which are those of the session
    unless a configured key takes their name. *)
Definition recordOf (session : IInterviewSession) (row : gmap jsstring jsstring) : Prop :=
  dom row = fieldSet config ∪ {[personaIdKey; segmentIdKey]}
  /\ (personaIdKey ∉ keysOf config -> row !! personaIdKey = Some (personaId session))
  /\ (segmentIdKey ∉ keysOf config -> row !! segmentIdKey = Some (segmentId session)).

Lemma analyzeSession_recordOf client fallback prompt session w row w' :
  analyzeSession config client fallback prompt session w = (Returned row, w') ->
  recordOf session row.
Proof.
  intros H. split; [by eapply analyzeSession_keys|].
  apply analyzeSession_shape in H as (resolved & w1 & inner & _ & Henrich & Hdom & _).
  assert (Hnone : forall k, k ∉ keysOf config -> inner !! k = None).
  { intros k Hk. apply not_elem_of_dom. rewrite Hdom, elem_of_fieldSet.
    by intros [? _]. }
  destruct (enrichRow_lookup_ids _ _ _ Henrich) as [Hpersona Hsegment].
  split; intros Hk; [apply Hpersona | apply Hsegment]; by apply Hnone.
Qed.

Lemma analyzeSessions_recordOf client fallback buildPrompt sessions w rows w' :
  analyzeSessions config client fallback buildPrompt sessions w = (Returned rows, w') ->
  Forall2 recordOf sessions rows.
Proof.
  revert w rows w'. induction sessions as [| session rest IH]; intros w rows w' H.
  - cbn in H. unfold ret in H. injection H as <- _. constructor.
  - cbn [analyzeSessions] in H.
    apply bind_Returned_inv in H as (row & w1 & Hrow & H).
    apply bind_Returned_inv in H as (others & w2 & Hrest & H).
    unfold ret in H. injection H as <- _.
    constructor; [apply (analyzeSession_recordOf _ _ _ _ _ _ _ Hrow) | apply (IH _ _ _ Hrest)].
Qed.

(** X20: an analysis that returns has one record for each [.json] file of
    the logs directory, in the order of the directory: the record of
    the session in that file, also when two files hold sessions of one
    persona.  The record has the configured keys other than [__proto__]
    and the two ids. *)
Theorem analyzeInterviews_one_record_per_file buildPrompt w rows w' :
  analyzeInterviews buildPrompt config w = (Returned rows, w') ->
  exists files sessions,
    logsDir w = Some files
    /\ sessionsOf files = Some sessions
    /\ Forall2 recordOf sessions rows
    /\ length rows
       = length (List.filter (fun f => endsWith (js ".json") (fileName f)) files).
Proof.
  unfold analyzeInterviews. intros H.
  apply bind_Returned_inv in H as (client & w1 & Hclient & H).
  apply bind_Returned_inv in H as (sessions & w2 & Hsessions & H).
  apply bind_Returned_inv in H as (u3 & w3 & _ & H).
  apply bind_Returned_inv in H as (fallback & w4 & _ & H).
  apply bind_Returned_inv in H as (u5 & w5 & _ & H).
  unfold constructLlmClient in Hclient.
  destruct (truthy (default [] (apiKey w))); [| discriminate].
  injection Hclient as _ <-.
  unfold loadSessions in Hsessions.
  destruct (logsDir w) as [files |]; [| discriminate].
  destruct (mapM fileSession _) as [loaded |] eqn:Hloaded; [| discriminate].
  injection Hsessions as <- _.
  exists files, loaded. split; [reflexivity|]. split; [exact Hloaded|].
  apply analyzeSessions_recordOf in H. split; [exact H|].
  rewrite <- (Forall2_length _ _ _ H). symmetry.
  apply length_mapM in Hloaded. exact Hloaded.
Qed.

End RecordsOfSessions.

(** ** Serialized values in prose: the bracket path *)

Section BracketRoundTrip.

Import Json.

(** The scan of [findMatchingBracket] over a text that does not end it. *)
Fixpoint passes (open close : N) (st : ScanState) (text : jsstring) : option ScanState :=
  match text with
  | [] => Some st
  | char :: rest =>
      match scanStep open close st char with
      | Some st' => passes open close st' rest
      | None => None
      end
  end.

Definition outside (d : Z) : ScanState :=
  {| depth := d; inString := false; escape := false |}.

Definition inside (d : Z) : ScanState :=
  {| depth := d; inString := true; escape := false |}.

Lemma passes_app open close st a b :
  passes open close st (a ++ b)
  = match passes open close st a with
    | Some st' => passes open close st' b
    | None => None
    end.
Proof.
  revert st. induction a as [| c a IH]; intros st; cbn [passes app]; [reflexivity|].
  destruct (scanStep open close st c); [apply IH | reflexivity].
Qed.

Lemma scanFrom_passes open close text rest i st st' :
  passes open close st text = Some st' ->
  scanFrom open close (text ++ rest) i st
  = scanFrom open close rest (i + length text) st'.
Proof.
  revert i st. induction text as [| c text IH]; intros i st; cbn [passes app length].
  - intros H. injection H as <-. rewrite Nat.add_0_r. reflexivity.
  - cbn [scanFrom]. destruct (scanStep open close st c) as [st1 |]; [| discriminate].
    intros H. rewrite (IH _ _ H). f_equal. lia.
Qed.

(** The two pairs of brackets the extractor matches. *)
Definition bracketPair (open close : N) : Prop :=
  (open = lbracket /\ close = rbracket) \/ (open = lbrace /\ close = rbrace).

(** A code unit the scan passes over outside a string. *)
Definition plain (open close c : N) : Prop := c <> dquote /\ c <> open /\ c <> close.

Lemma scanStep_plain open close d c :
  plain open close c -> scanStep open close (outside d) c = Some (outside d).
Proof.
  intros (Hq & Ho & Hc). unfold scanStep, outside. cbn [inString].
  apply N.eqb_neq in Hq, Ho, Hc. rewrite Hq, Ho, Hc. reflexivity.
Qed.

Lemma scanStep_quote_opens open close d :
  scanStep open close (outside d) dquote = Some (inside d).
Proof. reflexivity. Qed.

Lemma scanStep_quote_closes open close d :
  scanStep open close (inside d) dquote = Some (outside d).
Proof. reflexivity. Qed.

Lemma scanStep_opens open close d :
  open <> dquote -> scanStep open close (outside d) open = Some (outside (d + 1)).
Proof.
  intros Hq. unfold scanStep, outside. cbn [inString escape depth].
  apply N.eqb_neq in Hq. rewrite Hq, N.eqb_refl. reflexivity.
Qed.

Lemma scanStep_closes open close d :
  close <> dquote -> open <> close ->
  scanStep open close (outside d) close
  = if (d - 1 =? 0)%Z then None else Some (outside (d - 1)).
Proof.
  intros Hq Hne. unfold scanStep, outside. cbn [inString escape depth].
  apply N.eqb_neq in Hq. rewrite Hq.
  replace (close =? open) with false by (symmetry; apply N.eqb_neq; congruence).
  rewrite N.eqb_refl. reflexivity.
Qed.

Lemma passes_plain open close d text :
  Forall (plain open close) text -> passes open close (outside d) text = Some (outside d).
Proof.
  induction 1 as [| c text Hc _ IH]; cbn [passes]; [reflexivity|].
  rewrite (scanStep_plain _ _ _ _ Hc). exact IH.
Qed.

Lemma digit_plain open close c :
  bracketPair open close -> c = 45 \/ isDigit c = true -> plain open close c.
Proof.
  unfold plain, isDigit, dquote.
  intros [[-> ->] | [-> ->]] [-> | Hd];
    try (repeat split; discriminate);
    apply andb_true_iff in Hd as [H1 H2]; apply N.leb_le in H1, H2;
    unfold lbracket, rbracket, lbrace, rbrace; repeat split; lia.
Qed.

Lemma String_Z_plain open close n :
  bracketPair open close -> Forall (plain open close) (String_Z n).
Proof.
  intros Hpair.
  assert (Hdigits : forall m, Forall (plain open close) (String_N m)).
  { intros m. destruct (String_N_spec m) as (Hall & _).
    apply Forall_forall. intros c Hin. apply (digit_plain _ _ _ Hpair). right.
    rewrite forallb_forall in Hall. apply Hall, list_elem_of_In, Hin. }
  unfold String_Z. destruct n as [| p | p]; [apply Hdigits | apply Hdigits|].
  constructor; [apply (digit_plain _ _ _ Hpair); left; reflexivity | apply Hdigits].
Qed.

(** *** Strings *)

(** Inside a string the scan stays inside over a code unit that is not
    a quote or a backslash, and over a backslash with the unit after. *)
Lemma scanStep_raw open close d c :
  c <> dquote -> c <> backslash -> scanStep open close (inside d) c = Some (inside d).
Proof.
  intros Hq Hb. unfold scanStep, inside. cbn [inString escape].
  apply N.eqb_neq in Hq, Hb. rewrite Hq, Hb. reflexivity.
Qed.

Lemma passes_escape open close d c text :
  passes open close (inside d) (backslash :: c :: text)
  = passes open close (inside d) text.
Proof.
  cbn [passes]. unfold scanStep at 1, inside at 1. cbn [inString escape].
  rewrite N.eqb_refl. unfold scanStep at 1. cbn [inString escape depth]. reflexivity.
Qed.

Lemma hexDigit_raw x : hexDigit x <> dquote /\ hexDigit x <> backslash.
Proof.
  unfold hexDigit, dquote, backslash. destruct (N.ltb_spec x 10); split; lia.
Qed.

Lemma passes_unicodeEscape open close d c :
  passes open close (inside d) (unicodeEscape c) = Some (inside d).
Proof.
  unfold unicodeEscape, hex4. cbn [app]. rewrite passes_escape. cbn [passes].
  repeat (rewrite scanStep_raw by apply hexDigit_raw). reflexivity.
Qed.

Lemma passes_quoteUnit open close d prevHigh c next :
  passes open close (inside d) (quoteUnit prevHigh c next) = Some (inside d).
Proof.
  unfold quoteUnit.
  repeat match goal with
         | |- context [if ?c =? ?k then _ else _] =>
             destruct (N.eqb_spec c k);
             [rewrite passes_escape; reflexivity|]
         end.
  assert (Hraw : passes open close (inside d) [c] = Some (inside d)).
  { cbn [passes]. rewrite scanStep_raw by assumption. reflexivity. }
  destruct (c <? 32); [apply passes_unicodeEscape|].
  destruct (isHighSurrogate c).
  - destruct next as [following |]; [| apply passes_unicodeEscape].
    destruct (isLowSurrogate following); [exact Hraw | apply passes_unicodeEscape].
  - destruct (isLowSurrogate c); [| exact Hraw].
    destruct prevHigh; [exact Hraw | apply passes_unicodeEscape].
Qed.

Lemma passes_quoteUnits open close d prevHigh s :
  passes open close (inside d) (quoteUnits prevHigh s) = Some (inside d).
Proof.
  revert prevHigh. induction s as [| c r IH]; intros prevHigh; [reflexivity|].
  cbn [quoteUnits]. rewrite passes_app, passes_quoteUnit. apply IH.
Qed.

(** A serialized string leaves the scan as it found it, whatever the
    string holds. *)
Lemma passes_quote open close d s :
  open <> dquote -> close <> dquote ->
  passes open close (outside d) (quote s) = Some (outside d).
Proof.
  intros Ho Hc. unfold quote, dq. cbn [app passes].
  rewrite scanStep_quote_opens, passes_app, passes_quoteUnits. cbn [passes].
  rewrite scanStep_quote_closes. reflexivity.
Qed.

(** *** Values *)

Lemma passes_join open close d (parts : list jsstring) :
  plain open close 44 ->
  Forall (fun part => passes open close (outside d) part = Some (outside d)) parts ->
  passes open close (outside d) (join [44] parts) = Some (outside d).
Proof.
  intros Hcomma Hparts. induction Hparts as [| part rest Hpart Hrest IH]; [reflexivity|].
  destruct rest as [| part2 rest]; [exact Hpart|].
  change (join [44] (part :: part2 :: rest))
    with (part ++ [44] ++ join [44] (part2 :: rest)).
  rewrite passes_app, Hpart. cbn [app passes].
  rewrite (scanStep_plain _ _ _ _ Hcomma). exact IH.
Qed.

Lemma bracketPair_facts open close :
  bracketPair open close ->
  open <> dquote /\ close <> dquote /\ open <> close
  /\ plain open close 44 /\ plain open close 58
  /\ isWhiteSpace open = false /\ isWhiteSpace close = false.
Proof.
  intros [[-> ->] | [-> ->]]; unfold plain; repeat split; (reflexivity || discriminate).
Qed.

(** Between the brackets of a pair the depth is at least one, and a
    serialized value leaves it as it was: its own brackets are balanced,
    and those inside its strings do not count. *)
Lemma passes_bracketed open close d (inner : jsstring) (o c : N) :
  bracketPair open close -> (1 <= d)%Z ->
  (o = lbracket /\ c = rbracket) \/ (o = lbrace /\ c = rbrace) ->
  (forall d', (1 <= d')%Z -> passes open close (outside d') inner = Some (outside d')) ->
  passes open close (outside d) ([o] ++ inner ++ [c]) = Some (outside d).
Proof.
  intros Hpair Hd Hoc Hinner.
  destruct (decide (o = open)) as [Ho | Ho].
  - assert (Hc : c = close).
    { destruct Hpair as [[-> ->] | [-> ->]], Hoc as [[-> ->] | [-> ->]];
        first [reflexivity | discriminate Ho]. }
    subst o c. destruct (bracketPair_facts _ _ Hpair) as (Hoq & Hcq & Hne & _).
    cbn [app passes]. rewrite (scanStep_opens _ _ _ Hoq).
    rewrite passes_app, Hinner by lia. cbn [passes].
    rewrite (scanStep_closes _ _ _ Hcq Hne).
    replace (d + 1 - 1 =? 0)%Z with false by (symmetry; apply Z.eqb_neq; lia).
    replace (d + 1 - 1)%Z with d by lia. reflexivity.
  - assert (Hplain : plain open close o /\ plain open close c).
    { unfold plain.
      destruct Hpair as [[-> ->] | [-> ->]], Hoc as [[-> ->] | [-> ->]];
        try contradiction; repeat split; discriminate. }
    destruct Hplain as [Hpo Hpc].
    cbn [app passes]. rewrite (scanStep_plain _ _ _ _ Hpo).
    rewrite passes_app, Hinner by exact Hd. cbn [passes].
    rewrite (scanStep_plain _ _ _ _ Hpc). reflexivity.
Qed.

Lemma passes_literal open close d text :
  bracketPair open close ->
  In text [js "null"; js "true"; js "false"] ->
  passes open close (outside d) text = Some (outside d).
Proof.
  intros Hpair Hin. apply passes_plain.
  destruct Hpair as [[-> ->] | [-> ->]];
    destruct Hin as [<- | [<- | [<- | []]]];
    repeat constructor; discriminate.
Qed.

Lemma passes_items open close items :
  bracketPair open close ->
  Forall (fun v => forall d, (1 <= d)%Z ->
                   passes open close (outside d) (JSON_stringify v) = Some (outside d))
         items ->
  forall d, (1 <= d)%Z ->
  passes open close (outside d) (join [44] (map JSON_stringify items)) = Some (outside d).
Proof.
  intros Hpair Hitems d Hd.
  apply passes_join; [apply (bracketPair_facts _ _ Hpair)|].
  apply Forall_map. eapply Forall_impl; [exact Hitems|].
  intros v Hv. apply Hv, Hd.
Qed.

Lemma passes_members open close (members : list (jsstring * json Z)) :
  bracketPair open close ->
  Forall (fun kv => forall d, (1 <= d)%Z ->
                    passes open close (outside d) (JSON_stringify (snd kv))
                    = Some (outside d))
         members ->
  forall d, (1 <= d)%Z ->
  passes open close (outside d)
    (join [44] (map (fun kv => quote (fst kv) ++ [58] ++ JSON_stringify (snd kv)) members))
  = Some (outside d).
Proof.
  intros Hpair Hmembers d Hd.
  destruct (bracketPair_facts _ _ Hpair) as (Hoq & Hcq & _ & Hcomma & Hcolon & _).
  apply passes_join; [exact Hcomma|].
  apply Forall_map. eapply Forall_impl; [exact Hmembers|].
  intros [k v] Hv. cbn [fst snd] in *.
  rewrite passes_app, (passes_quote _ _ _ _ Hoq Hcq). cbn [app passes].
  rewrite (scanStep_plain _ _ _ _ Hcolon). apply Hv, Hd.
Qed.

Lemma passes_value open close (v : json Z) :
  bracketPair open close ->
  forall d, (1 <= d)%Z ->
  passes open close (outside d) (JSON_stringify v) = Some (outside d).
Proof.
  intros Hpair.
  induction v as [| b | n | s | items IH | members IH] using json_nested_ind;
    intros d Hd; cbn [JSON_stringify].
  - apply (passes_literal _ _ _ _ Hpair). left. reflexivity.
  - destruct b; apply (passes_literal _ _ _ _ Hpair); [right; left | right; right; left];
      reflexivity.
  - apply passes_plain, String_Z_plain, Hpair.
  - destruct (bracketPair_facts _ _ Hpair) as (Hoq & Hcq & _). by apply passes_quote.
  - change (js "[") with [lbracket]. change (js "]") with [rbracket].
    change (js ",") with [44].
    apply (passes_bracketed _ _ _ _ _ _ Hpair Hd); [left; split; reflexivity|].
    apply (passes_items _ _ _ Hpair IH).
  - change (js "{") with [lbrace]. change (js "}") with [rbrace].
    change (js ",") with [44]. change (js ":") with [58].
    apply (passes_bracketed _ _ _ _ _ _ Hpair Hd); [right; split; reflexivity|].
    apply (passes_members _ _ _ Hpair IH).
Qed.

(** *** The candidate *)

Lemma findJsonStart_from_here open pre rest index :
  ~ In open pre ->
  startCondition open (nextNonWhiteSpace rest) = true ->
  findJsonStart_from open (pre ++ open :: rest) index = Some (index + length pre)%nat.
Proof.
  revert index. induction pre as [| c pre IH]; intros index Hno Hcond.
  - cbn [app findJsonStart_from length]. rewrite N.eqb_refl, Hcond, Nat.add_0_r. reflexivity.
  - cbn [app findJsonStart_from length].
    destruct (N.eqb_spec c open) as [-> | _]; [exfalso; apply Hno; left; reflexivity|].
    cbn [andb]. rewrite IH; [f_equal; lia | | exact Hcond].
    intros Hin. apply Hno. right. exact Hin.
Qed.

(** The bracket path on a bracketed text [open inner close] that comes
    after [pre] and before [post]. *)
Lemma extractBracketed_here open close pre inner post :
  bracketPair open close ->
  ~ In open pre ->
  startCondition open (nextNonWhiteSpace (inner ++ close :: post)) = true ->
  passes open close (outside 1) inner = Some (outside 1) ->
  extractBracketed (pre ++ (open :: inner ++ [close]) ++ post) open close
  = Some (open :: inner ++ [close]).
Proof.
  intros Hpair Hno Hcond Hinner.
  destruct (bracketPair_facts _ _ Hpair) as (Hoq & Hcq & Hne & _ & _ & Hwo & Hwc).
  assert (Hcontent : pre ++ (open :: inner ++ [close]) ++ post
                     = pre ++ open :: (inner ++ close :: post)).
  { cbn [app]. rewrite <- app_assoc. reflexivity. }
  unfold extractBracketed, findJsonStart, findMatchingBracket.
  rewrite Hcontent, (findJsonStart_from_here _ _ _ _ Hno Hcond). cbn [Nat.add].
  rewrite drop_app_length. cbn [scanFrom].
  change scanStart with (outside 0). rewrite (scanStep_opens _ _ _ Hoq).
  change (outside (0 + 1)) with (outside 1).
  rewrite (scanFrom_passes _ _ _ _ _ _ _ Hinner). cbn [scanFrom].
  rewrite (scanStep_closes _ _ _ Hcq Hne). change (1 - 1 =? 0)%Z with true. cbn iota.
  f_equal. unfold slice.
  replace (S (length pre) + length inner + 1 - length pre)%nat
    with (length (open :: inner ++ [close]))
    by (cbn [length]; rewrite length_app; cbn [length]; lia).
  rewrite drop_app_length.
  replace (open :: inner ++ close :: post) with ((open :: inner ++ [close]) ++ post)
    by (cbn [app]; rewrite <- app_assoc; reflexivity).
  rewrite take_app_length.
  apply trim_fixed; [exact Hwo|].
  change (open :: inner ++ [close]) with ((open :: inner) ++ [close]).
  rewrite rev_app_distr. exact Hwc.
Qed.

(** A value the bracket path can find: an object with a member, or an
    array whose first item is an object or an array. *)
Definition bracketed (v : json Z) : Prop :=
  match v with
  | JObj (_ :: _) => True
  | JArr (JObj _ :: _) => True
  | JArr (JArr _ :: _) => True
  | _ => False
  end.

(** What the text around the value must leave alone: before an array no
    opening square bracket; before an object no opening brace, and
    nowhere a square bracket that the array path would start from. *)
Definition leavesAlone (v : json Z) (pre post : jsstring) : Prop :=
  match v with
  | JArr _ => ~ In lbracket pre
  | _ => ~ In lbrace pre
         /\ findJsonStart (pre ++ JSON_stringify v ++ post) lbracket = None
  end.

Lemma extractJsonBlock_bracketed (v : json Z) (pre post : jsstring) :
  bracketed v ->
  ~ In backtick (pre ++ JSON_stringify v ++ post) ->
  leavesAlone v pre post ->
  extractJsonBlock (pre ++ JSON_stringify v ++ post) = Some (JSON_stringify v).
Proof.
  intros Hv Htick Halone. unfold extractJsonBlock.
  rewrite (fencedMatch_no_backtick _ Htick).
  destruct v as [| b | n | s | items | members]; try contradiction.
  - (* an array *)
    pose proof (Halone : ~ In lbracket pre) as Harray.
    assert (Hshape : exists first rest, items = first :: rest
                       /\ exists more, JSON_stringify first = lbrace :: more
                                       \/ JSON_stringify first = lbracket :: more).
    { destruct items as [| first rest]; [contradiction|]. exists first, rest.
      split; [reflexivity|].
      destruct first as [| | | | inner | inner]; try contradiction.
      - eexists. right. reflexivity.
      - eexists. left. reflexivity. }
    destruct Hshape as (first & rest & Hitems & more & Hfirst).
    cbn [JSON_stringify]. change (js "[") with [lbracket]. change (js "]") with [rbracket].
    change (js ",") with [44].
    set (inner := join [44] (map JSON_stringify items)).
    change ([lbracket] ++ inner ++ [rbracket]) with (lbracket :: inner ++ [rbracket]).
    rewrite extractBracketed_here; [reflexivity | left; split; reflexivity | exact Harray | |].
    + assert (Hhead : exists tail c, inner = c :: tail /\ (c = lbrace \/ c = lbracket)).
      { subst inner items. cbn [map].
        destruct (map JSON_stringify rest) as [| part parts];
          [cbn [join] | change (join [44] (JSON_stringify first :: part :: parts))
                          with (JSON_stringify first ++ [44] ++ join [44] (part :: parts))];
          destruct Hfirst as [-> | ->]; cbn [app]; eauto. }
      destruct Hhead as (tail & c & -> & Hc). cbn [app nextNonWhiteSpace].
      destruct Hc as [-> | ->]; reflexivity.
    + subst inner. apply passes_items; [left; split; reflexivity | | lia].
      apply Forall_forall. intros item _ d Hd.
      apply passes_value; [left; split; reflexivity | exact Hd].
  - (* an object *)
    destruct Halone as [Hbrace Hnone].
    unfold extractBracketed at 1. rewrite Hnone.
    destruct members as [| [k x] rest]; [contradiction|].
    cbn [JSON_stringify]. change (js "{") with [lbrace]. change (js "}") with [rbrace].
    change (js ",") with [44]. change (js ":") with [58].
    set (inner := join [44] (map (fun kv => quote (fst kv) ++ [58] ++ JSON_stringify (snd kv))
                                 ((k, x) :: rest))).
    change ([lbrace] ++ inner ++ [rbrace]) with (lbrace :: inner ++ [rbrace]).
    rewrite extractBracketed_here; [reflexivity | right; split; reflexivity | exact Hbrace | |].
    + assert (Hhead : exists tail, inner = dquote :: tail).
      { subst inner. cbn [map fst snd].
        destruct (map _ rest) as [| part parts];
          [cbn [join] | match goal with |- context [join [44] (?a :: part :: parts)] =>
                          change (join [44] (a :: part :: parts))
                            with (a ++ [44] ++ join [44] (part :: parts)) end];
          unfold quote, dq; cbn [app]; eauto. }
      destruct Hhead as (tail & ->). reflexivity.
    + subst inner. apply passes_members; [right; split; reflexivity | | lia].
      apply Forall_forall. intros member _ d Hd.
      apply passes_value; [right; split; reflexivity | exact Hd].
Qed.

End BracketRoundTrip.

(** X21: a serialized object or array survives prose around it: when the
    text has no backtick, holds the serialized value of an object with a
    member, or of an array that starts with an object or an array, and
    the text before it has no bracket the search would stop at, the
    extractor returns the serialized value itself, whatever its strings
    hold (brackets, escaped quotes, backslashes); and when [JSON.parse]
    throws on the text as a whole, [parseJsonFromText] gives what
    [JSON.parse] makes of the serialized value.  (The serialized values
    are those of the JSON module; the parser is the one of the
    runtime, whichever it is.) *)
Theorem bracketed_round_trip (v : json Z) (pre post : jsstring) :
  bracketed v ->
  ~ In backtick (pre ++ Json.JSON_stringify v ++ post) ->
  leavesAlone v pre post ->
  extractJsonBlock (pre ++ Json.JSON_stringify v ++ post) = Some (Json.JSON_stringify v)
  /\ forall (rt : JsRuntime) (message : jsstring),
       JSON_parse (pre ++ Json.JSON_stringify v ++ post) = Err message ->
       Analyze.parseJsonFromText (pre ++ Json.JSON_stringify v ++ post)
       = JSON_parse (Json.JSON_stringify v).
Proof.
  intros Hv Htick Halone.
  pose proof (extractJsonBlock_bracketed v pre post Hv Htick Halone) as Hblock.
  split; [exact Hblock|].
  intros rt message Hfails. unfold Analyze.parseJsonFromText. rewrite Hfails, Hblock.
  destruct (JSON_stringify_trimmed v) as (Hne & _).
  destruct (Json.JSON_stringify v) as [| c text]; [contradiction | reflexivity].
Qed.

(** ** Items of a list value *)

Section ListValues.

Import FallbackModels Analyze Summary.
Context {rt : JsRuntime}.

Definition separatorFree (s : jsstring) : Prop := ~ In 44 s /\ ~ In 59 s.

Lemma splitOnSeparators_parts afterSeparator current s part :
  In part (splitOnSeparators afterSeparator current s) ->
  separatorFree current ->
  afterSeparator = false \/ current = [] ->
  piece part (current ++ s) /\ separatorFree part.
Proof.
  revert afterSeparator current.
  induction s as [| c r IH]; intros afterSeparator current; cbn [splitOnSeparators].
  - intros [<- | []] Hfree _. rewrite app_nil_r. split; [apply piece_refl | exact Hfree].
  - destruct (afterSeparator && isWhiteSpace c) eqn:Hskip.
    + intros Hin Hfree [-> | ->]; [discriminate|].
      destruct (IH _ _ Hin Hfree) as [Hpiece Hpart]; [right; reflexivity|].
      split; [apply (piece_after [c]), Hpiece | exact Hpart].
    + destruct ((c =? 44) || (c =? 59)) eqn:Hsep.
      * intros [<- | Hin] Hfree _.
        -- split; [exists [], (c :: r); reflexivity | exact Hfree].
        -- destruct (IH _ _ Hin) as [Hpiece Hpart];
             [split; intros [] | right; reflexivity |].
           split; [apply piece_after, (piece_after [c]), Hpiece | exact Hpart].
      * intros Hin [H44 H59] _.
        apply orb_false_iff in Hsep as [Hc44 Hc59].
        apply N.eqb_neq in Hc44, Hc59.
        destruct (IH _ _ Hin) as [Hpiece Hpart].
        -- split; intros Hc; apply in_app_or in Hc as [Hc | [Hc | []]]; congruence || auto.
        -- left. reflexivity.
        -- split; [| exact Hpart]. rewrite <- app_assoc in Hpiece. exact Hpiece.
Qed.

(** X22: the items of a list value are what stands between its commas and
    semicolons, trimmed, the empty ones left out: each item is a piece
    of the value that is not empty, is trimmed, and holds neither a
    comma nor a semicolon. *)
Theorem splitItems_items (value item : jsstring) :
  In item (splitItems value) ->
  item <> [] /\ trimmed item /\ separatorFree item /\ piece item value.
Proof.
  unfold splitItems. rewrite filter_In, in_map_iff.
  intros [(part & <- & Hin) Hlength].
  apply splitOnSeparators_parts in Hin as [Hpiece [H44 H59]];
    [| split; intros [] | left; reflexivity].
  cbn [app] in Hpiece.
  split; [intros Hnil; rewrite Hnil in Hlength; discriminate|].
  split; [apply trim_trimmed|].
  split.
  - split; intros Hin; [apply H44 | apply H59]; apply (piece_In _ _ _ (piece_trim part) Hin).
  - apply (piece_trans _ _ _ (piece_trim part) Hpiece).
Qed.

End ListValues.

(** ** The most frequent items *)

Section TopItems.

Import FallbackModels Analyze Summary.
Context {rt : JsRuntime}.

(** All items of a field, row after row. *)
Definition allItems (rows : list (gmap jsstring jsstring)) (field : jsstring)
  : list jsstring :=
  flat_map (fun row => splitItems (default [] (row !! field))) rows.

(** How often an item occurs, up to case. *)
Definition occurrences (items : list jsstring) (normalized : jsstring) : nat :=
  length (List.filter (fun item => eqb (toLowerCase item) normalized) items).

Definition countTable (items : list jsstring) : list ItemCount :=
  foldl (fun counts item => countItem item counts) [] items.

Lemma topItems_table rows field limit :
  topItems rows field limit
  = map itemLabel (take limit (sortByCount (countTable (allItems rows field)))).
Proof.
  unfold topItems, countTable, allItems. cbv zeta. do 3 f_equal.
  generalize (@nil ItemCount). induction rows as [| row rest IH]; intros counts.
  - reflexivity.
  - cbn [foldl flat_map]. rewrite foldl_app. apply IH.
Qed.

(** The count a table holds for a normalized item. *)
Definition countOf (counts : list ItemCount) (normalized : jsstring) : nat :=
  match find (fun entry => eqb (normalizedItem entry) normalized) counts with
  | Some entry => itemCount entry
  | None => 0
  end.

Lemma countOf_countItem item counts normalized :
  countOf (countItem item counts) normalized
  = (countOf counts normalized + if eqb (toLowerCase item) normalized then 1 else 0)%nat.
Proof.
  unfold countOf. induction counts as [| entry rest IH]; cbn [countItem find].
  - cbn [normalizedItem itemCount]. destruct (eqb (toLowerCase item) normalized); reflexivity.
  - destruct (eqb (normalizedItem entry) (toLowerCase item)) eqn:Hsame.
    + apply bool_decide_eq_true in Hsame. cbn [find normalizedItem itemCount].
      rewrite <- Hsame.
      destruct (eqb (normalizedItem entry) normalized); [reflexivity | lia].
    + cbn [find]. destruct (eqb (normalizedItem entry) normalized) eqn:Hentry; [| exact IH].
      apply bool_decide_eq_true in Hentry. apply bool_decide_eq_false in Hsame.
      unfold eqb. rewrite bool_decide_eq_false_2 by congruence. lia.
Qed.

(** What holds of every entry of a table made from [items]. *)
Definition entryOf (items : list jsstring) (entry : ItemCount) : Prop :=
  In (itemLabel entry) items /\ toLowerCase (itemLabel entry) = normalizedItem entry.

Lemma countItem_keys item counts :
  map normalizedItem (countItem item counts)
  = map normalizedItem counts
    ++ (if bool_decide (toLowerCase item ∈ map normalizedItem counts)
        then [] else [toLowerCase item]).
Proof.
  induction counts as [| entry rest IH]; cbn [countItem map].
  - rewrite bool_decide_eq_false_2 by (intros H; inversion H). reflexivity.
  - destruct (eqb (normalizedItem entry) (toLowerCase item)) eqn:Hsame.
    + apply bool_decide_eq_true in Hsame. cbn [map normalizedItem].
      rewrite bool_decide_eq_true_2 by (rewrite <- Hsame; left).
      rewrite app_nil_r. reflexivity.
    + apply bool_decide_eq_false in Hsame. cbn [map app]. rewrite IH. f_equal.
      destruct (decide (toLowerCase item ∈ map normalizedItem rest)) as [Hin | Hnot].
      * rewrite !bool_decide_eq_true_2; [reflexivity | right; exact Hin | exact Hin].
      * rewrite !bool_decide_eq_false_2; [reflexivity | | exact Hnot].
        intros [Heq | Hin]%elem_of_cons; [congruence | contradiction].
Qed.

Lemma countItem_entries items item counts :
  Forall (entryOf items) counts ->
  Forall (entryOf (items ++ [item])) (countItem item counts).
Proof.
  assert (Hweaken : forall entry, entryOf items entry -> entryOf (items ++ [item]) entry).
  { intros entry [Hin Hkey]. split; [apply in_or_app; left; exact Hin | exact Hkey]. }
  induction 1 as [| entry rest Hentry Hrest IH]; cbn [countItem].
  - constructor; [| constructor]. split; [apply in_or_app; right; left; reflexivity|].
    reflexivity.
  - destruct (eqb (normalizedItem entry) (toLowerCase item)).
    + constructor; [exact (Hweaken _ Hentry)|].
      eapply Forall_impl; [exact Hrest | exact Hweaken].
    + constructor; [apply Hweaken, Hentry | exact IH].
Qed.

Lemma countTable_spec items :
  NoDup (map normalizedItem (countTable items))
  /\ Forall (entryOf items) (countTable items)
  /\ (forall normalized, countOf (countTable items) normalized = occurrences items normalized)
  /\ (forall item, In item items ->
        toLowerCase item ∈ map normalizedItem (countTable items)).
Proof.
  unfold countTable. rewrite <- (rev_involutive items).
  induction (rev items) as [| item before IH]; clear items.
  - cbn. split; [constructor|]. split; [constructor|]. split; [reflexivity | intros ? []].
  - cbn [rev]. rewrite foldl_app. cbn [foldl].
    destruct IH as (Hnodup & Hentries & Hcount & Hkeys).
    set (table := foldl _ [] (rev before)) in *.
    split; [| split; [| split]].
    + rewrite countItem_keys.
      destruct (decide (toLowerCase item ∈ map normalizedItem table)) as [Hin | Hnot].
      * rewrite bool_decide_eq_true_2 by exact Hin. rewrite app_nil_r. exact Hnodup.
      * rewrite bool_decide_eq_false_2 by exact Hnot.
        apply NoDup_app. split; [exact Hnodup|]. split; [| apply NoDup_singleton].
        intros k Hk Hk'. apply list_elem_of_singleton in Hk'. subst k. contradiction.
    + apply countItem_entries, Hentries.
    + intros normalized. rewrite countOf_countItem, Hcount.
      unfold occurrences. rewrite List.filter_app, length_app. cbn [List.filter].
      destruct (eqb (toLowerCase item) normalized); reflexivity.
    + intros other Hother. rewrite countItem_keys. apply elem_of_app.
      apply in_app_or in Hother as [Hother | [<- | []]]; [left; apply Hkeys, Hother|].
      destruct (decide (toLowerCase item ∈ map normalizedItem table)) as [Hin | Hnot].
      * left. exact Hin.
      * right. rewrite bool_decide_eq_false_2 by exact Hnot. left.
Qed.

(** With distinct keys an entry holds the count of its own key. *)
Lemma countOf_entry counts entry :
  NoDup (map normalizedItem counts) -> In entry counts ->
  countOf counts (normalizedItem entry) = itemCount entry.
Proof.
  unfold countOf. induction counts as [| first rest IH]; intros Hnodup Hin; [destruct Hin|].
  cbn [map] in Hnodup. apply NoDup_cons in Hnodup as [Hfresh Hnodup].
  cbn [find]. destruct Hin as [-> | Hin].
  - unfold eqb. rewrite bool_decide_eq_true_2 by reflexivity. reflexivity.
  - unfold eqb. rewrite bool_decide_eq_false_2; [apply IH; assumption|].
    intros Heq. apply Hfresh. rewrite Heq. apply list_elem_of_fmap_2, list_elem_of_In, Hin.
Qed.

(** *** The sort *)

(** Counts that do not increase along the list. *)
Fixpoint descending (entries : list ItemCount) : Prop :=
  match entries with
  | [] => True
  | entry :: rest =>
      Forall (fun other => (itemCount other <= itemCount entry)%nat) rest
      /\ descending rest
  end.

Lemma insertByCount_Permutation entry sorted :
  Permutation (insertByCount entry sorted) (entry :: sorted).
Proof.
  induction sorted as [| other rest IH]; cbn [insertByCount]; [reflexivity|].
  destruct (itemCount other <? itemCount entry)%nat; [reflexivity|].
  rewrite IH. apply perm_swap.
Qed.

Lemma insertByCount_descending entry sorted :
  descending sorted -> descending (insertByCount entry sorted).
Proof.
  induction sorted as [| other rest IH]; cbn [insertByCount descending].
  - intros _. split; [constructor | exact I].
  - intros [Hrest Hsorted].
    destruct (Nat.ltb_spec (itemCount other) (itemCount entry)) as [Hlt | Hge].
    + cbn [descending]. split; [| split; assumption].
      constructor; [lia|]. eapply Forall_impl; [exact Hrest|]. cbn. intros x Hx. lia.
    + cbn [descending]. split; [| apply IH, Hsorted].
      rewrite (insertByCount_Permutation entry rest). constructor; assumption.
Qed.

Lemma sortByCount_spec entries :
  Permutation (sortByCount entries) entries /\ descending (sortByCount entries).
Proof.
  unfold sortByCount. rewrite <- (rev_involutive entries).
  induction (rev entries) as [| entry before [Hperm Hsorted]]; clear entries.
  - cbn. split; [reflexivity | exact I].
  - cbn [rev]. rewrite foldl_app. cbn [foldl]. split.
    + rewrite insertByCount_Permutation, Hperm.
      rewrite Permutation_app_comm. reflexivity.
    + apply insertByCount_descending, Hsorted.
Qed.

Lemma descending_app front back :
  descending (front ++ back) ->
  forall a b, In a front -> In b back -> (itemCount b <= itemCount a)%nat.
Proof.
  induction front as [| entry front IH]; intros Hsorted a b Ha Hb; [destruct Ha|].
  cbn [app descending] in Hsorted. destruct Hsorted as [Hrest Hsorted].
  destruct Ha as [<- | Ha]; [| apply (IH Hsorted a b Ha Hb)].
  rewrite Forall_forall in Hrest. apply Hrest, list_elem_of_In, in_or_app. right. exact Hb.
Qed.

(** X23: the top items of a field are its most frequent ones: at most
    [limit] labels, no two of them equal up to case, each of them an item
    of some row; and an item that is left out, in every spelling, occurs
    no more often than any item that is in. *)
Theorem topItems_most_frequent rows field limit :
  (length (topItems rows field limit) <= limit)%nat
  /\ NoDup (map toLowerCase (topItems rows field limit))
  /\ (forall label, In label (topItems rows field limit) -> In label (allItems rows field))
  /\ (forall label other,
        In label (topItems rows field limit) ->
        In other (allItems rows field) ->
        ~ In (toLowerCase other) (map toLowerCase (topItems rows field limit)) ->
        (occurrences (allItems rows field) (toLowerCase other)
         <= occurrences (allItems rows field) (toLowerCase label))%nat).
Proof.
  rewrite topItems_table.
  set (items := allItems rows field).
  destruct (countTable_spec items) as (Hnodup & Hentries & Hcount & Hkeys).
  destruct (sortByCount_spec (countTable items)) as [Hperm Hsorted].
  set (sorted := sortByCount (countTable items)) in *.
  assert (Hentry : forall entry, In entry sorted ->
            In entry (countTable items) /\ entryOf items entry).
  { intros entry Hin.
    assert (Hin' : In entry (countTable items)).
    { apply list_elem_of_In. rewrite <- Hperm. apply list_elem_of_In, Hin. }
    split; [exact Hin'|]. rewrite Forall_forall in Hentries.
    apply Hentries, list_elem_of_In, Hin'. }
  assert (Hlabels : map toLowerCase (map itemLabel (take limit sorted))
                    = map normalizedItem (take limit sorted)).
  { rewrite map_map. apply map_ext_in. intros entry Hin.
    apply (Hentry entry). rewrite <- (take_drop limit sorted).
    apply in_or_app. left. exact Hin. }
  assert (Hsplit : sorted = take limit sorted ++ drop limit sorted)
    by (symmetry; apply take_drop).
  split; [rewrite length_map, length_take; lia|].
  split.
  { rewrite Hlabels.
    assert (Hall : NoDup (map normalizedItem sorted)).
    { assert (Hmap : map normalizedItem sorted ≡ₚ map normalizedItem (countTable items))
        by (apply Permutation_map, Hperm).
      rewrite Hmap. exact Hnodup. }
    rewrite Hsplit, map_app in Hall. apply NoDup_app in Hall as [Hfront _]. exact Hfront. }
  split.
  { intros label Hin. apply in_map_iff in Hin as (entry & <- & Hin).
    apply (Hentry entry). rewrite Hsplit. apply in_or_app. left. exact Hin. }
  intros label other Hlabel Hother Hout.
  apply in_map_iff in Hlabel as (entry & <- & Hin).
  rewrite Hlabels in Hout.
  assert (Hin' : In entry sorted) by (rewrite Hsplit; apply in_or_app; left; exact Hin).
  destruct (Hentry entry Hin') as [Htable [_ Hkey]].
  pose proof (Hkeys other Hother) as Hhas.
  apply list_elem_of_In, in_map_iff in Hhas as (otherEntry & HotherKey & HotherIn).
  assert (HotherSorted : In otherEntry sorted).
  { apply list_elem_of_In. rewrite Hperm. apply list_elem_of_In, HotherIn. }
  assert (Hback : In otherEntry (drop limit sorted)).
  { rewrite Hsplit in HotherSorted. apply in_app_or in HotherSorted as [Hfront | Hback];
      [| exact Hback].
    exfalso. apply Hout. rewrite <- HotherKey. apply in_map, Hfront. }
  rewrite <- !Hcount, Hkey, <- HotherKey.
  rewrite !countOf_entry by assumption.
  rewrite Hsplit in Hsorted. apply (descending_app _ _ Hsorted _ _ Hin Hback).
Qed.

End TopItems.

(** ** The progress tracker *)

Section ProgressInvariant.

Definition sumSteps (steps : list Z) : Z := foldr Z.add 0%Z steps.

Lemma sumSteps_nonneg (steps : list Z) :
  Forall (fun step => (0 <= step)%Z) steps -> (0 <= sumSteps steps)%Z.
Proof.
  induction 1 as [| step rest Hstep _ IH]; cbn [sumSteps foldr]; [lia|].
  change (foldr Z.add 0%Z rest) with (sumSteps rest). lia.
Qed.

Lemma tick_total (tracker : Progress.ProgressTracker) (step : Z) :
  Progress.total (Progress.tick tracker step) = Progress.total tracker.
Proof. unfold Progress.tick. destruct (_ <=? _)%Z; reflexivity. Qed.

Lemma ticks_bounded (tracker : Progress.ProgressTracker) (steps : list Z) :
  (Progress.current tracker <= Progress.total tracker)%Z ->
  Progress.total (foldl Progress.tick tracker steps) = Progress.total tracker
  /\ (Progress.current (foldl Progress.tick tracker steps) <= Progress.total tracker)%Z.
Proof.
  revert tracker. induction steps as [| step rest IH]; intros tracker Hle; cbn [foldl].
  - split; [reflexivity | exact Hle].
  - destruct (IH (Progress.tick tracker step)) as [Htotal Hcurrent].
    + unfold Progress.tick. destruct (_ <=? _)%Z; cbn [Progress.current Progress.total]; lia.
    + rewrite tick_total in Htotal, Hcurrent. split; assumption.
Qed.

Lemma ticks_current (tracker : Progress.ProgressTracker) (steps : list Z) :
  Forall (fun step => (0 <= step)%Z) steps ->
  (0 <= Progress.current tracker <= Progress.total tracker)%Z ->
  Progress.current (foldl Progress.tick tracker steps)
  = Z.min (Progress.total tracker) (Progress.current tracker + sumSteps steps).
Proof.
  intros Hsteps. revert tracker.
  induction Hsteps as [| step rest Hstep Hrest IH]; intros tracker Hrange.
  - cbn. lia.
  - cbn [foldl sumSteps foldr]. change (foldr Z.add 0%Z rest) with (sumSteps rest).
    pose proof (sumSteps_nonneg rest Hrest) as Hsum.
    rewrite IH.
    + rewrite tick_total. unfold Progress.tick.
      destruct (Z.leb_spec (Progress.total tracker) 0);
        cbn [Progress.current Progress.total]; lia.
    + rewrite tick_total. unfold Progress.tick.
      destruct (Z.leb_spec (Progress.total tracker) 0);
        cbn [Progress.current Progress.total]; lia.
Qed.

(** X24: what a tracker shows.  Its position never passes its total, which
    is the total it was made with or zero for a negative one; after
    ticks with steps that are not negative the position is the sum of
    the steps, capped at the total (so a tracker with nothing to count
    stays at zero); and completing it puts the position at the total. *)
Theorem ProgressTracker_position (total : Z) (steps : list Z) :
  Progress.total (foldl Progress.tick (Progress.newProgressTracker total) steps)
  = Z.max 0 total
  /\ (Progress.current (foldl Progress.tick (Progress.newProgressTracker total) steps)
      <= Z.max 0 total)%Z
  /\ Progress.current
       (Progress.complete
          (foldl Progress.tick (Progress.newProgressTracker total) steps))
     = Z.max 0 total
  /\ (Forall (fun step => (0 <= step)%Z) steps ->
      Progress.current (foldl Progress.tick (Progress.newProgressTracker total) steps)
      = Z.min (Z.max 0 total) (sumSteps steps)).
Proof.
  destruct (ticks_bounded (Progress.newProgressTracker total) steps) as [Htotal Hcurrent].
  { cbn. lia. }
  cbn [Progress.newProgressTracker Progress.total] in Htotal, Hcurrent.
  split; [exact Htotal|]. split; [exact Hcurrent|]. split.
  - unfold Progress.complete. rewrite Htotal.
    destruct (Z.leb_spec (Z.max 0 total) 0); cbn [Progress.current]; [| reflexivity].
    assert (Hzero : Z.max 0 total = 0%Z) by lia.
    assert (Hlow : (0 <= Progress.current
                           (foldl Progress.tick (Progress.newProgressTracker total) steps))%Z).
    { clear Hcurrent Htotal.
      assert (Hgen : forall tracker,
                Progress.total tracker = 0%Z -> Progress.current tracker = 0%Z ->
                Progress.current (foldl Progress.tick tracker steps) = 0%Z).
      { induction steps as [| step rest IH]; intros tracker Ht Hc; cbn [foldl]; [exact Hc|].
        apply IH; unfold Progress.tick; rewrite Ht; cbn; assumption. }
      rewrite Hgen; [lia | cbn; lia | reflexivity]. }
    lia.
  - intros Hsteps. rewrite ticks_current; [| exact Hsteps | cbn; lia].
    cbn [Progress.newProgressTracker Progress.total Progress.current]. lia.
Qed.

End ProgressInvariant.

(** ** The language of a configuration *)

Section ConfigLanguage.

Import ConfigLoader.
Context {number : Type}.

Implicit Types members settings : list (jsstring * json number).

Lemma find_app_first {A} (f : A -> bool) (front back : list A) :
  find f (front ++ back)
  = match find f front with
    | Some found => Some found
    | None => find f back
    end.
Proof.
  induction front as [| a front IH]; cbn [app find]; [reflexivity|].
  destruct (f a); [reflexivity | exact IH].
Qed.

Lemma member_cons key k (v : json number) members :
  member key ((k, v) :: members)
  = match member key members with
    | Some found => Some found
    | None => if eqb k key then Some v else None
    end.
Proof.
  unfold member. cbn [rev]. rewrite find_app_first.
  destruct (find _ (rev members)) as [[k' v'] |]; [reflexivity|].
  cbn [find fst]. destruct (eqb k key); reflexivity.
Qed.

Lemma member_absent key members :
  ~ In key (map fst members) -> member key members = None.
Proof.
  induction members as [| [k v] rest IH]; intros Hnot; [reflexivity|].
  rewrite member_cons, IH by (intros Hin; apply Hnot; right; exact Hin).
  unfold eqb. rewrite bool_decide_eq_false_2; [reflexivity|].
  intros ->. apply Hnot. left. reflexivity.
Qed.

Lemma setProperty_keys key (v : json number) members :
  map fst (setProperty key v members)
  = map fst members ++ (if bool_decide (key ∈ map fst members) then [] else [key]).
Proof.
  induction members as [| [k x] rest IH]; cbn [setProperty map fst].
  - rewrite bool_decide_eq_false_2 by (intros H; inversion H). reflexivity.
  - unfold eqb. destruct (decide (k = key)) as [-> | Hne].
    + rewrite bool_decide_eq_true_2 by reflexivity. cbn [map fst].
      rewrite bool_decide_eq_true_2 by left. rewrite app_nil_r. reflexivity.
    + rewrite bool_decide_eq_false_2 by exact Hne. cbn [map fst app]. rewrite IH. f_equal.
      f_equal. rewrite (bool_decide_ext (key ∈ k :: map fst rest) (key ∈ map fst rest));
        [reflexivity|].
      rewrite elem_of_cons. split; [| intros H; right; exact H].
      intros [H | H]; [congruence | exact H].
Qed.

Lemma setProperty_NoDup key (v : json number) members :
  NoDup (map fst members) -> NoDup (map fst (setProperty key v members)).
Proof.
  intros Hnodup. rewrite setProperty_keys.
  destruct (decide (key ∈ map fst members)) as [Hin | Hnot].
  - rewrite bool_decide_eq_true_2 by exact Hin. rewrite app_nil_r. exact Hnodup.
  - rewrite bool_decide_eq_false_2 by exact Hnot.
    apply NoDup_app. split; [exact Hnodup|]. split; [| apply NoDup_singleton].
    intros k Hk Hk'. apply list_elem_of_singleton in Hk'. subst k. contradiction.
Qed.

Lemma member_setProperty_other key (v : json number) members other :
  other <> key -> member other (setProperty key v members) = member other members.
Proof.
  intros Hne. induction members as [| [k x] rest IH]; cbn [setProperty].
  - rewrite member_cons. cbn. unfold eqb.
    rewrite bool_decide_eq_false_2 by congruence. reflexivity.
  - unfold eqb at 1. destruct (decide (k = key)) as [-> | Hk].
    + rewrite bool_decide_eq_true_2 by reflexivity. rewrite !member_cons.
      unfold eqb. rewrite bool_decide_eq_false_2 by congruence. reflexivity.
    + rewrite bool_decide_eq_false_2 by exact Hk. rewrite !member_cons, IH. reflexivity.
Qed.

Lemma member_setProperty key (v : json number) members :
  NoDup (map fst members) -> member key (setProperty key v members) = Some v.
Proof.
  induction members as [| [k x] rest IH]; cbn [setProperty map fst]; intros Hnodup.
  - rewrite member_cons. cbn. unfold eqb. rewrite bool_decide_eq_true_2 by reflexivity.
    reflexivity.
  - apply NoDup_cons in Hnodup as [Hfresh Hnodup].
    unfold eqb at 1. destruct (decide (k = key)) as [-> | Hk].
    + rewrite bool_decide_eq_true_2 by reflexivity. rewrite member_cons.
      rewrite member_absent by (intros Hin; apply Hfresh, list_elem_of_In, Hin).
      unfold eqb. rewrite bool_decide_eq_true_2 by reflexivity. reflexivity.
    + rewrite bool_decide_eq_false_2 by exact Hk. rewrite member_cons, IH by exact Hnodup.
      reflexivity.
Qed.

Lemma setProperty_same key (v : json number) members :
  NoDup (map fst members) -> member key members = Some v ->
  setProperty key v members = members.
Proof.
  induction members as [| [k x] rest IH]; cbn [setProperty map fst]; intros Hnodup Hfound.
  - discriminate.
  - apply NoDup_cons in Hnodup as [Hfresh Hnodup]. rewrite member_cons in Hfound.
    unfold eqb in *. destruct (decide (k = key)) as [-> | Hk].
    + rewrite bool_decide_eq_true_2 by reflexivity.
      rewrite member_absent in Hfound by (intros Hin; apply Hfresh, list_elem_of_In, Hin).
      rewrite bool_decide_eq_true_2 in Hfound by reflexivity. congruence.
    + rewrite bool_decide_eq_false_2 by exact Hk.
      rewrite bool_decide_eq_false_2 in Hfound by exact Hk.
      destruct (member key rest) as [found |] eqn:Hrest; [| discriminate].
      injection Hfound as ->. rewrite IH by (exact Hnodup || reflexivity). reflexivity.
Qed.

Lemma member_deleteProperty key members other :
  member other (deleteProperty key members)
  = if eqb other key then None else member other members.
Proof.
  unfold deleteProperty. induction members as [| [k x] rest IH]; cbn [List.filter fst].
  - destruct (eqb other key); reflexivity.
  - unfold eqb at 1. destruct (decide (k = key)) as [-> | Hk].
    + rewrite bool_decide_eq_true_2 by reflexivity. cbn [negb]. rewrite IH, member_cons.
      unfold eqb. destruct (decide (other = key)) as [-> | Hne].
      * rewrite bool_decide_eq_true_2 by reflexivity. reflexivity.
      * rewrite !bool_decide_eq_false_2 by congruence.
        destruct (member other rest); reflexivity.
    + rewrite bool_decide_eq_false_2 by exact Hk. cbn [negb]. rewrite !member_cons, IH.
      unfold eqb. destruct (decide (other = key)) as [-> | Hne].
      * rewrite bool_decide_eq_true_2 by reflexivity.
        rewrite bool_decide_eq_false_2 by exact Hk. reflexivity.
      * rewrite bool_decide_eq_false_2 by exact Hne. reflexivity.
Qed.

Lemma deleteProperty_NoDup key members :
  NoDup (map fst members) -> NoDup (map fst (deleteProperty key members)).
Proof.
  unfold deleteProperty. induction members as [| [k x] rest IH]; cbn [List.filter map fst].
  - intros _. constructor.
  - intros [Hfresh Hnodup]%NoDup_cons. destruct (negb (eqb k key)); [| apply IH, Hnodup].
    cbn [map fst]. apply NoDup_cons. split; [| apply IH, Hnodup].
    intros Hin. apply Hfresh. apply list_elem_of_In in Hin. apply list_elem_of_In.
    apply in_map_iff in Hin as ([k' x'] & Hk & Hin). apply filter_In in Hin as [Hin _].
    apply in_map_iff. exists (k', x'). split; assumption.
Qed.

Lemma deleteProperty_absent key members :
  member key members = None -> deleteProperty key members = members.
Proof.
  unfold deleteProperty. induction members as [| [k x] rest IH]; [reflexivity|].
  rewrite member_cons. destruct (member key rest) as [found |]; [discriminate|].
  cbn [List.filter fst]. destruct (eqb k key); [discriminate|].
  intros _. cbn [negb]. rewrite IH by reflexivity. reflexivity.
Qed.

(** The language a configuration ends up with. *)
Definition langOf settings : jsstring :=
  if (0 <? length (trim (rawLang settings)))%nat then trim (rawLang settings) else js "ru".

Lemma langOf_shape settings : langOf settings <> [] /\ trimmed (langOf settings).
Proof.
  unfold langOf. destruct (trim (rawLang settings)) as [| c rest] eqn:Htrim;
    cbn [length Nat.ltb Nat.leb].
  - split; [discriminate | reflexivity].
  - split; [discriminate|]. rewrite <- Htrim. apply trim_trimmed.
Qed.

Lemma normalizeSettings_spec settings :
  NoDup (map fst settings) ->
  NoDup (map fst (normalizeSettings settings))
  /\ member (js "lang") (normalizeSettings settings) = Some (JStr (langOf settings))
  /\ member (js "language") (normalizeSettings settings) = None
  /\ (forall k, k <> js "lang" -> k <> js "language" ->
        member k (normalizeSettings settings) = member k settings).
Proof.
  intros Hnodup. unfold normalizeSettings. cbv zeta. fold (langOf settings).
  split; [apply deleteProperty_NoDup, setProperty_NoDup, Hnodup|].
  split.
  { rewrite member_deleteProperty. unfold eqb.
    rewrite bool_decide_eq_false_2 by (vm_compute; discriminate).
    apply member_setProperty, Hnodup. }
  split.
  { rewrite member_deleteProperty. unfold eqb.
    rewrite bool_decide_eq_true_2 by reflexivity. reflexivity. }
  intros k Hlang Hlanguage. rewrite member_deleteProperty. unfold eqb.
  rewrite bool_decide_eq_false_2 by exact Hlanguage.
  apply member_setProperty_other, Hlang.
Qed.

Lemma normalizeSettings_idempotent settings :
  NoDup (map fst settings) ->
  normalizeSettings (normalizeSettings settings) = normalizeSettings settings.
Proof.
  intros Hnodup.
  destruct (normalizeSettings_spec settings Hnodup) as (Hnodup' & Hlang & Hlanguage & _).
  destruct (langOf_shape settings) as [Hne Htrimmed].
  set (once := normalizeSettings settings) in *.
  unfold normalizeSettings at 1. cbv zeta.
  assert (Hraw : rawLang once = langOf settings).
  { unfold rawLang. rewrite Hlang. reflexivity. }
  rewrite Hraw, Htrimmed.
  destruct (langOf settings) as [| c rest] eqn:Hl; [contradiction|].
  cbn [length Nat.ltb Nat.leb]. rewrite <- Hl in *.
  rewrite (setProperty_same _ _ _ Hnodup' Hlang).
  apply deleteProperty_absent, Hlanguage.
Qed.

Lemma normalizeConfig_object members settings :
  member (js "settings") members = Some (JObj settings) ->
  normalizeConfig (JObj members)
  = JObj (setProperty (js "settings") (JObj (normalizeSettings settings)) members).
Proof. intros H. unfold normalizeConfig. rewrite H. reflexivity. Qed.

Lemma normalizeConfig_unchanged (parsed : json number) :
  (forall settings, property (js "settings") parsed <> Some (JObj settings)) ->
  normalizeConfig parsed = parsed.
Proof.
  intros Hnone. unfold normalizeConfig. destruct parsed; try reflexivity.
  cbn [property] in Hnone. destruct (member (js "settings") members) as [value |];
    [| reflexivity].
  destruct value; try reflexivity. exfalso. apply (Hnone members0). reflexivity.
Qed.

(** A parsed configuration as [JSON.parse] gives it: the keys of the
    object and of its settings are distinct. *)
Definition distinctKeys (parsed : json number) : Prop :=
  match parsed with
  | JObj members =>
      NoDup (map fst members)
      /\ match member (js "settings") members with
         | Some (JObj settings) => NoDup (map fst settings)
         | _ => True
         end
  | _ => True
  end.

(** X25: after [normalizeConfig] the settings of a configuration have a
    language under [lang] that is trimmed and not empty, and no
    [language]: the language is the trimmed [lang] when that is a
    string, else the trimmed [language] when that is a string, and [ru]
    when the string is blank or there is none (a blank [lang] is not
    replaced by [language]).  Every other setting and every other part
    of the configuration is as it was, and normalizing twice is
    normalizing once. *)
Theorem normalizeConfig_language (parsed : json number) :
  distinctKeys parsed ->
  normalizeConfig (normalizeConfig parsed) = normalizeConfig parsed
  /\ (forall k, k <> js "settings" ->
        property k (normalizeConfig parsed) = property k parsed)
  /\ (forall settings,
        property (js "settings") parsed = Some (JObj settings) ->
        exists normalized,
          property (js "settings") (normalizeConfig parsed) = Some (JObj normalized)
          /\ member (js "lang") normalized = Some (JStr (langOf settings))
          /\ langOf settings <> [] /\ trimmed (langOf settings)
          /\ member (js "language") normalized = None
          /\ (forall k, k <> js "lang" -> k <> js "language" ->
                member k normalized = member k settings)).
Proof.
  intros Hkeys.
  destruct (property (js "settings") parsed) as [[| b | n | s | items | settings] |]
    eqn:Hfound;
    try (assert (Hsame : normalizeConfig parsed = parsed)
           by (apply normalizeConfig_unchanged; intros settings';
               rewrite Hfound; discriminate);
         rewrite !Hsame;
         split; [reflexivity | split; [reflexivity | intros settings' H; discriminate H]]).
  destruct parsed as [| b | n | s | items | members]; try discriminate.
  cbn [property] in Hfound. destruct Hkeys as [Hmembers Hsettings].
  rewrite Hfound in Hsettings.
  destruct (normalizeSettings_spec settings Hsettings)
    as (Hnodup & Hlang & Hlanguage & Hothers).
  rewrite (normalizeConfig_object _ _ Hfound).
  split; [| split].
  - rewrite (normalizeConfig_object _ (normalizeSettings settings))
      by (apply member_setProperty, Hmembers).
    rewrite (normalizeSettings_idempotent _ Hsettings).
    rewrite setProperty_same; [reflexivity | apply setProperty_NoDup, Hmembers|].
    apply member_setProperty, Hmembers.
  - intros k Hk. cbn [property]. apply member_setProperty_other, Hk.
  - intros settings' H. injection H as <-.
    exists (normalizeSettings settings). cbn [property].
    rewrite (member_setProperty _ _ _ Hmembers).
    destruct (langOf_shape settings) as [Hne Htrimmed]. auto 10.
Qed.

End ConfigLanguage.

(** ** The theorems above at concrete inputs *)

(** A service that is never available. *)
Definition alwaysUnavailable : nat -> ChatCompletionRequest -> BackendOutcome :=
  fun _ _ => Rejects (statusError 503 None).

Lemma createChatCompletion_exhausts_retries_witness :
  exists error,
    backend (freshWorld alwaysUnavailable)
      (length (posted (freshWorld alwaysUnavailable))
       + maxRetries (newLlmClient defaultOptions))%nat someRequest
    = Rejects error
    /\ fst (createChatCompletion (newLlmClient defaultOptions) someRequest
              (freshWorld alwaysUnavailable))
       = Thrown (failureMessage error)
    /\ posted (snd (createChatCompletion (newLlmClient defaultOptions) someRequest
                      (freshWorld alwaysUnavailable)))
       = posted (freshWorld alwaysUnavailable)
         ++ replicate (S (maxRetries (newLlmClient defaultOptions))) someRequest
    /\ slept (snd (createChatCompletion (newLlmClient defaultOptions) someRequest
                     (freshWorld alwaysUnavailable)))
       = slept (freshWorld alwaysUnavailable)
         ++ map (delayAfter someRequest
                   (initialBackoffMs (newLlmClient defaultOptions))
                   (freshWorld alwaysUnavailable)
                   (length (posted (freshWorld alwaysUnavailable))))
                (seq 0 (maxRetries (newLlmClient defaultOptions)))
    /\ ticks (snd (createChatCompletion (newLlmClient defaultOptions) someRequest
                     (freshWorld alwaysUnavailable)))
       = ticks (freshWorld alwaysUnavailable).
Proof.
  apply (createChatCompletion_exhausts_retries (newLlmClient defaultOptions) someRequest
           (freshWorld alwaysUnavailable)).
  intros k _. exists (statusError 503 None). split; [reflexivity | vm_compute; reflexivity].
Defined.

Example alwaysUnavailable_delays :
  slept (snd (createChatCompletion (newLlmClient defaultOptions) someRequest
                (freshWorld alwaysUnavailable)))
  = [2000; 4000; 8000; 16000; 32000; 64000]%Z.
Proof. vm_compute. reflexivity. Qed.

Lemma extractJsonBlock_piece_witness :
  js "[[1, 2]]" <> [] /\ trimmed (js "[[1, 2]]")
  /\ piece (js "[[1, 2]]") (js "Sure: [[1, 2]] ok")
  /\ ((exists g, fencedMatch (js "Sure: [[1, 2]] ok") = Some g /\ g <> []
                 /\ js "[[1, 2]]" = trim g)
      \/ (exists inner, js "[[1, 2]]" = lbracket :: inner ++ [rbracket])
      \/ (exists inner, js "[[1, 2]]" = lbrace :: inner ++ [rbrace])).
Proof.
  apply (extractJsonBlock_piece (js "Sure: [[1, 2]] ok") (js "[[1, 2]]")).
  vm_compute. reflexivity.
Defined.

Lemma run_session_texts_witness :
  (exists turns,
     sessionMessages (finishedSession llmMode) = transcript turns
     /\ Forall2 (turnOf (runnerFor llmMode anna))
          (Simulate.interviewScript (runnerFor llmMode anna)) turns)
  /\ personaId (finishedSession llmMode) = id (Simulate.persona (runnerFor llmMode anna))
  /\ segmentId (finishedSession llmMode)
     = personaSegmentId (Simulate.persona (runnerFor llmMode anna))
  /\ projectName (finishedSession llmMode) = []
  /\ sessionId (finishedSession llmMode)
     = Simulate.dashed (id (Simulate.persona (runnerFor llmMode anna)) ++ js "-"
               ++ startedAt (finishedSession llmMode))
  /\ ~ In 58 (sessionId (finishedSession llmMode))
  /\ ~ In 46 (sessionId (finishedSession llmMode)).
Proof.
  apply (run_session_texts (runnerFor llmMode anna) (freshWorld onlyRespondentAnswers)
           (finishedSession llmMode) (snd (finished llmMode))).
  vm_compute. reflexivity.
Defined.

(** One task on an empty logs directory. *)
Definition annaTask : Completion IInterviewSession * World :=
  Simulate.task demoConfig demoSetup (newLlmClient defaultOptions) anna
    (batchWorld [anna] []).

Definition annaSession : IInterviewSession :=
  match fst annaTask with
  | Returned session => session
  | _ => {| sessionId := []; projectName := []; personaId := []; segmentId := [];
            startedAt := []; endedAt := []; sessionMessages := [] |}
  end.

Lemma task_marks_completed_witness :
  (exists others,
     logsDir (snd annaTask)
     = Some (others ++ [{| fileName := sessionId annaSession ++ js ".json";
                           fileSession := Some annaSession |}])
     /\ readable others)
  /\ projectName annaSession = metaProjectName demoConfig
  /\ id anna ∈ Simulate.completedOf (logsDir (snd annaTask))
  /\ forall personas,
       anna ∉ Simulate.pendingPersonas personas
                (Simulate.completedOf (logsDir (snd annaTask))).
Proof.
  apply (task_marks_completed demoConfig demoSetup (newLlmClient defaultOptions) anna
           (batchWorld [anna] []) annaSession (snd annaTask)).
  - constructor.
  - discriminate.
  - vm_compute. intuition discriminate.
  - vm_compute. reflexivity.
Defined.

(** A logs directory with a file that does not parse. *)
Definition brokenFile : LogFile :=
  {| fileName := js "p-001-2023.json"; fileSession := None |}.

Lemma unreadable_log_restarts_batch_witness :
  Simulate.completedOf
    (logsDir (batchWorld fivePersonas (twoPersisted ++ [brokenFile]))) = ∅
  /\ (forall personas,
        Simulate.pendingPersonas personas
          (Simulate.completedOf
             (logsDir (batchWorld fivePersonas (twoPersisted ++ [brokenFile]))))
        = personas)
  /\ (forall sessions w',
        Simulate.simulateInterviews demoConfig demoOptions
          (batchWorld fivePersonas (twoPersisted ++ [brokenFile]))
        = (Returned sessions, w') ->
        exists personas,
          personasFile (batchWorld fivePersonas (twoPersisted ++ [brokenFile]))
          = Some personas
          /\ map personaId sessions = map id personas).
Proof.
  apply (unreadable_log_restarts_batch demoConfig demoOptions
           (batchWorld fivePersonas (twoPersisted ++ [brokenFile]))).
  exists brokenFile. split; [| split; [vm_compute; reflexivity | reflexivity]].
  apply list_elem_of_In. right. right. left. reflexivity.
Defined.


(** The batch of five personas with two persisted sessions: three
    sessions, two requests for each (the script has two questions), and
    three files after the two that were there. *)
Example resumed_effects :
  length resumedSessions = 3%nat
  /\ length (posted (snd resumed)) = 6%nat
  /\ map fileName (dirOf (snd resumed))
     = map fileName twoPersisted
       ++ map (fun session => sessionId session ++ js ".json") resumedSessions
  /\ (personaId <$> omap fileSession (dirOf (snd resumed)))
     = [js "p-002"; js "p-004"; js "p-001"; js "p-003"; js "p-005"].
Proof. vm_compute. repeat split; reflexivity. Qed.

(** The first request of the batch is refused, every later one answered:
    the task of the first pending persona throws and the batch throws
    with it, but the tasks behind it in the queue still run and write
    their sessions. *)
Definition firstRefused : nat -> ChatCompletionRequest -> BackendOutcome :=
  fun n request =>
    match n with
    | 0%nat => Rejects (statusError 400 None)
    | _ => onlyRespondentAnswers n request
    end.

Definition interrupted : Completion (list IInterviewSession) * World :=
  Simulate.simulateInterviews demoConfig demoOptions
    {| backend := firstRefused; posted := []; slept := []; ticks := 0;
       logged := []; logsDir := Some twoPersisted; personasFile := Some fivePersonas;
       fallbackModelsFile := None;
       respondentPromptFile := Some (js "Answer honestly.");
       interviewerPromptFile := Some (js "Interview politely.");
       ioError := js "ENOENT: no such file or directory";
       apiKey := Some (js "sk-test");
       clock := fun n => js "2024-01-01T00:00:0" ++ String_N (N.of_nat n) ++ js ".000Z";
       clockReads := 0 |}.

Example interrupted_batch_goes_on :
  fst interrupted = Thrown (failureMessage (statusError 400 None))
  /\ length (posted (snd interrupted)) = 5%nat
  /\ (personaId <$> omap fileSession (dirOf (snd interrupted)))
     = [js "p-002"; js "p-004"; js "p-003"; js "p-005"].
Proof. vm_compute. repeat split; reflexivity. Qed.

Lemma simulateInterviews_rerun_witness :
  exists w'',
    Simulate.simulateInterviews demoConfig demoOptions (snd resumed) = (Returned [], w'')
    /\ posted w'' = posted (snd resumed)
    /\ slept w'' = slept (snd resumed)
    /\ logsDir w'' = logsDir (snd resumed).
Proof.
  apply (simulateInterviews_rerun demoConfig demoOptions
           (batchWorld fivePersonas twoPersisted) resumedSessions (snd resumed)).
  - vm_compute. reflexivity.
  - repeat constructor; discriminate.
  - intros personas [= <-].
    repeat constructor; try discriminate; vm_compute; intuition discriminate.
  - vm_compute. reflexivity.
Defined.

(** Every model answers with white space. *)
Definition wordless : nat -> ChatCompletionRequest -> BackendOutcome :=
  fun _ _ => Responds (textResponse (js "   ")).

Definition oneFallback : FallbackModels.FallbackModels :=
  {| FallbackModels.models := [js "backup-model"];
     FallbackModels.source := FallbackModels.fromDefault |}.

Lemma analyzeSession_textless_witness :
  exists w',
    Analyze.analyzeSession (rt := asciiRuntime) demoConfig demoClient oneFallback
      (js "Extract the fields.") (persistedSession (js "p-002")) (analysisWorld wordless)
    = orThrow (Analyze.enrichRow (rt := asciiRuntime) (Analyze.buildEmptyRow demoConfig)
                 (persistedSession (js "p-002"))) w'
    /\ posted w'
       = posted (analysisWorld wordless)
         ++ textlessRequests (rt := asciiRuntime) demoConfig (js "Extract the fields.")
              (modelsAnalyzer demoConfig :: FallbackModels.models oneFallback)
    /\ length (posted w')
       = (length (posted (analysisWorld wordless))
          + 3 * S (length (FallbackModels.models oneFallback)))%nat
    /\ slept w' = slept (analysisWorld wordless)
    /\ ((forall k, ~ methodKey demoConfig k) ->
        exists record,
          Analyze.analyzeSession (rt := asciiRuntime) demoConfig demoClient oneFallback
            (js "Extract the fields.") (persistedSession (js "p-002"))
            (analysisWorld wordless)
          = (Returned record, w')
          /\ dom record = fieldSet demoConfig ∪ {[personaIdKey; segmentIdKey]}
          /\ forall k, k ∈ Analyze.keysOf demoConfig -> k <> protoKey ->
                       record !! k = Some [])
    /\ (forall k, methodKey demoConfig k ->
        Analyze.analyzeSession (rt := asciiRuntime) demoConfig demoClient oneFallback
          (js "Extract the fields.") (persistedSession (js "p-002"))
          (analysisWorld wordless)
        = (Thrown Analyze.replaceOfMethod, w')).
Proof.
  apply (analyzeSession_textless (rt := asciiRuntime) demoConfig demoClient oneFallback
           (js "Extract the fields.") (persistedSession (js "p-002"))
           (analysisWorld wordless)).
  intros n request. eexists. split; [reflexivity | vm_compute; reflexivity].
Defined.

Definition wordlessSession (config : IProjectConfig)
  : Completion (gmap jsstring jsstring) * World :=
  Analyze.analyzeSession (rt := asciiRuntime) config demoClient oneFallback
    (js "Extract the fields.") (persistedSession (js "p-002")) (analysisWorld wordless).

(** Without text from any model: the empty record after six requests;
    with a configured key [constructor], a TypeError after the same six;
    with a configured key [__proto__], the empty record without that
    key. *)
Example wordless_records :
  match fst (wordlessSession demoConfig) with
  | Returned record => recordFields record
  | _ => []
  end = [Some (js "p-002"); Some (js "s1"); Some []; Some []; None]
  /\ length (posted (snd (wordlessSession demoConfig))) = 6%nat
  /\ fst (wordlessSession (withKey (js "constructor"))) = Thrown Analyze.replaceOfMethod
  /\ length (posted (snd (wordlessSession (withKey (js "constructor"))))) = 6%nat
  /\ match fst (wordlessSession (withKey (js "__proto__"))) with
     | Returned record => recordFields record ++ [record !! js "__proto__"]
     | _ => []
     end = [Some (js "p-002"); Some (js "s1"); Some []; Some []; None; None].
Proof. vm_compute. repeat split; reflexivity. Qed.

(** Every model answers with a sentence. *)
Definition chatty : nat -> ChatCompletionRequest -> BackendOutcome :=
  fun _ _ => Responds (textResponse (js "Yes, every week.")).

Lemma run_talkative_witness :
  exists session w',
    Simulate.run (runnerFor llmMode anna) (freshWorld chatty) = (Returned session, w')
    /\ length (posted w')
       = (length (posted (freshWorld chatty))
          + requestsPerStep (Simulate.interviewerMode (runnerFor llmMode anna))
            * length (Simulate.interviewScript (runnerFor llmMode anna)))%nat
    /\ slept w' = slept (freshWorld chatty)
    /\ ticks w'
       = (ticks (freshWorld chatty)
          + requestsPerStep (Simulate.interviewerMode (runnerFor llmMode anna))
            * length (Simulate.interviewScript (runnerFor llmMode anna)))%nat.
Proof.
  apply (run_talkative (runnerFor llmMode anna) (freshWorld chatty)).
  intros n request. eexists. split; [reflexivity | vm_compute; discriminate].
Defined.

(** Three analysed sessions of two segments. *)
Definition surveyConfig : IProjectConfig :=
  {| metaProjectName := js "demo"; settingsConcurrency := 2; settingsLang := js "ru";
     modelsInterviewer := js "interviewer-model";
     modelsRespondent := js "respondent-model";
     modelsAnalyzer := js "analyzer-model";
     segments :=
       [ {| segId := js "s1"; segName := js "Cooks"; traits := []; tooling := None;
            painPoints := None; cadence := None |};
         {| segId := js "s2"; segName := js "Students"; traits := []; tooling := None;
            painPoints := None; cadence := None |} ];
     flowContext := js "You are a user.";
     flowScript := [js "How do you plan meals?"];
     flowInterviewerMode := None;
     analyticsSchema :=
       [ {| key := js "would_use"; description := js "Would they use it?" |};
         {| key := js "recommendation"; description := js "Would they recommend it?" |};
         {| key := js "needed_features"; description := js "What is missing?" |} ] |}.

Definition surveyRow (segment wouldUse recommend features : jsstring)
  : gmap jsstring jsstring :=
  <[js "segmentId" := segment]>
    (<[js "would_use" := wouldUse]>
       (<[js "recommendation" := recommend]>
          (<[js "needed_features" := features]> ∅))).

Definition surveyRows : list (gmap jsstring jsstring) :=
  [ surveyRow (js "s1") (js "да") (js "возможно") (js "offline mode, sync");
    surveyRow (js "s2") (js "нет") (js "нет") (js "Sync; export");
    surveyRow (js "s1") (js "скорее да") (js "да") (js "sync") ].

Lemma buildSummary_adds_up_witness :
  exists summary,
    Summary.buildSummary (rt := asciiRuntime) surveyRows surveyConfig = Ok summary
    /\ Summary.project summary = metaProjectName surveyConfig
    /\ Summary.total_sessions summary = length surveyRows
    /\ (forall segment,
          match Summary.per_segment summary !! segment with
          | Some b =>
              rowsOf segment surveyRows <> []
              /\ Summary.personas b = rowsOf segment surveyRows
              /\ Summary.count b = length (rowsOf segment surveyRows)
              /\ tallied (Summary.would_use b) = Summary.count b
              /\ tallied (Summary.recommendation b) = Summary.count b
              /\ (length (Summary.top_needed_features b) <= 3)%nat
              /\ (length (Summary.top_trust_risks b) <= 3)%nat
              /\ (length (Summary.top_value_metrics b) <= 3)%nat
          | None => rowsOf segment surveyRows = []
          end)
    /\ (forall k,
          Summary.summarySegments summary !! k
          = if decide (k ∈ map segId (segments surveyConfig) /\ k <> js "__proto__")
            then Some (length (rowsOf k surveyRows))
            else None).
Proof.
  destruct (Summary.buildSummary (rt := asciiRuntime) surveyRows surveyConfig)
    as [summary | thrown] eqn:Hbuilt; [| vm_compute in Hbuilt; discriminate Hbuilt].
  exists summary. split; [reflexivity|].
  apply (buildSummary_adds_up (rt := asciiRuntime) surveyRows surveyConfig summary Hbuilt).
Defined.

Lemma analyzeInterviews_one_record_per_file_witness :
  exists files sessions,
    logsDir (analysisWorld plainLine) = Some files
    /\ sessionsOf files = Some sessions
    /\ Forall2 (recordOf demoConfig) sessions (analyzedRows plainLine)
    /\ length (analyzedRows plainLine)
       = length (List.filter (fun f => endsWith (js ".json") (fileName f)) files).
Proof.
  apply (analyzeInterviews_one_record_per_file (rt := asciiRuntime) demoConfig fixedPrompt
           (analysisWorld plainLine) (analyzedRows plainLine) (snd (analyzed plainLine))).
  vm_compute. reflexivity.
Defined.

Lemma bracketed_round_trip_witness :
  extractJsonBlock (js "Here is the result: "
                    ++ Json.JSON_stringify (JObj [(js "a", JNum 1%Z)]) ++ js " thanks")
  = Some (Json.JSON_stringify (JObj [(js "a", JNum 1%Z)]))
  /\ Analyze.parseJsonFromText (rt := asciiRuntime)
       (js "Here is the result: "
        ++ Json.JSON_stringify (JObj [(js "a", JNum 1%Z)]) ++ js " thanks")
     = Json.JSON_parse (Json.JSON_stringify (JObj [(js "a", JNum 1%Z)])).
Proof.
  destruct (bracketed_round_trip (JObj [(js "a", JNum 1%Z)])
              (js "Here is the result: ") (js " thanks")) as [Hblock Hparse].
  - exact I.
  - vm_compute. intuition discriminate.
  - split; [vm_compute; intuition discriminate | vm_compute; reflexivity].
  - split; [exact Hblock|].
    eapply (Hparse asciiRuntime). vm_compute. reflexivity.
Defined.

Example prose_around_object_parsed :
  Analyze.parseJsonFromText (rt := asciiRuntime)
    (js "Here is the result: "
     ++ Json.JSON_stringify (JObj [(js "a", JNum 1%Z)]) ++ js " thanks")
  = Ok (JObj [(js "a", JNum 1%Z)]).
Proof. vm_compute. reflexivity. Qed.

Lemma splitItems_items_witness :
  js "offline mode" <> [] /\ trimmed (js "offline mode")
  /\ separatorFree (js "offline mode")
  /\ piece (js "offline mode") (js "fast search;  offline mode, sync").
Proof.
  apply (splitItems_items (js "fast search;  offline mode, sync")
           (js "offline mode")).
  vm_compute. right. left. reflexivity.
Defined.

(** A configuration file that names its language the old way. *)
Definition legacyConfig : json Z :=
  JObj [ (js "meta", JObj [(js "projectName", JStr (js "demo"))]);
         (js "settings", JObj [ (js "language", JStr (js " en "));
                                (js "concurrency", JNum 2%Z) ]) ].

Lemma normalizeConfig_language_witness :
  ConfigLoader.normalizeConfig (ConfigLoader.normalizeConfig legacyConfig)
  = ConfigLoader.normalizeConfig legacyConfig
  /\ (forall k, k <> js "settings" ->
        ConfigLoader.property k (ConfigLoader.normalizeConfig legacyConfig)
        = ConfigLoader.property k legacyConfig)
  /\ (forall settings,
        ConfigLoader.property (js "settings") legacyConfig = Some (JObj settings) ->
        exists normalized,
          ConfigLoader.property (js "settings") (ConfigLoader.normalizeConfig legacyConfig)
          = Some (JObj normalized)
          /\ member (js "lang") normalized = Some (JStr (langOf settings))
          /\ langOf settings <> [] /\ trimmed (langOf settings)
          /\ member (js "language") normalized = None
          /\ (forall k, k <> js "lang" -> k <> js "language" ->
                member k normalized = member k settings)).
Proof.
  apply (normalizeConfig_language legacyConfig).
  split.
  - apply (bool_decide_unpack (NoDup _)). vm_compute. exact I.
  - change (NoDup (map fst [ (js "language", JStr (js " en ") : json Z);
                             (js "concurrency", JNum 2%Z) ])).
    apply (bool_decide_unpack (NoDup _)). vm_compute. exact I.
Defined.

Example legacyConfig_normalized :
  ConfigLoader.normalizeConfig legacyConfig
  = JObj [ (js "meta", JObj [(js "projectName", JStr (js "demo"))]);
           (js "settings", JObj [ (js "concurrency", JNum 2%Z);
                                  (js "lang", JStr (js "en")) ]) ].
Proof. vm_compute. reflexivity. Qed.

Lemma extractMessageText_trimmed_witness :
  extractMessageText (Some {| responseContent := Some (js "  ");
                              reasoning := Some (js " because ") |})
  = if truthy (trim (default [] (Some (js "  "))))
    then trim (default [] (Some (js "  ")))
    else trim (default [] (Some (js " because "))).
Proof.
  apply (proj1 (proj2 (extractMessageText_trimmed
                         (Some {| responseContent := Some (js "  ");
                                  reasoning := Some (js " because ") |})))
           {| responseContent := Some (js "  "); reasoning := Some (js " because ") |}).
  reflexivity.
Defined.

Lemma parseJsonFromText_outcomes_witness :
  Analyze.parseJsonFromText (rt := asciiRuntime) (js "I cannot answer that.")
  = Err (js "No JSON block found in LLM response.").
Proof.
  eapply (proj2 (proj2 (parseJsonFromText_outcomes (rt := asciiRuntime)
                          (js "I cannot answer that.")))).
  - vm_compute. reflexivity.
  - vm_compute. intuition discriminate.
  - vm_compute. intuition discriminate.
  - vm_compute. intuition discriminate.
Defined.

Lemma simulateInterviews_refuses_witness :
  Simulate.simulateInterviews demoConfig demoOptions (analysisWorld silent)
  = (Thrown (ioError (analysisWorld silent)), analysisWorld silent)
  /\ Simulate.simulateInterviews demoConfig demoOptions (freshWorld silent)
     = (Thrown (ioError (freshWorld silent)), freshWorld silent).
Proof.
  split.
  - apply (proj1 (simulateInterviews_refuses demoConfig demoOptions
                    (analysisWorld silent))).
    reflexivity.
  - apply (proj2 (proj2 (proj2 (proj2 (simulateInterviews_refuses demoConfig demoOptions
                                         (freshWorld silent)))
                                 ltac:(eexists; reflexivity)
                                 ltac:(eexists; reflexivity)))).
    + reflexivity.
    + vm_compute. discriminate.
    + reflexivity.
Defined.

(** A backend that refuses every request. *)
Definition alwaysRefuses : nat -> ChatCompletionRequest -> BackendOutcome :=
  fun _ _ => Rejects (statusError 400 None).

Lemma analyzeInterviews_aborts_witness :
  exists w',
    Analyze.analyzeInterviews (rt := asciiRuntime) fixedPrompt demoConfig
      (analysisWorld alwaysRefuses)
    = (Thrown (failureMessage (statusError 400 None)), w')
    /\ posted w'
       = posted (analysisWorld alwaysRefuses)
         ++ [Analyze.analysisRequest (rt := asciiRuntime)
               (fixedPrompt demoConfig (persistedSession (js "p-002")))
               (modelsAnalyzer demoConfig) (settingsLang demoConfig)]
    /\ slept w' = slept (analysisWorld alwaysRefuses).
Proof.
  apply (proj2 (proj2 (analyzeInterviews_aborts (rt := asciiRuntime) demoConfig fixedPrompt
                         (analysisWorld alwaysRefuses)))
           [persistedFile (js "p-002")] (persistedSession (js "p-002")) []
           (statusError 400 None)).
  - reflexivity.
  - reflexivity.
  - vm_compute. reflexivity.
  - reflexivity.
  - vm_compute. reflexivity.
Defined.

(** The analysis of one session whose model answers with one line. *)
Definition plainAnalysis : Completion (gmap jsstring jsstring) * World :=
  Analyze.analyzeSession (rt := asciiRuntime) demoConfig demoClient oneFallback
    (js "Extract the fields.") (persistedSession (js "p-002")) (analysisWorld plainLine).

Definition plainRow : gmap jsstring jsstring :=
  match fst plainAnalysis with Returned row => row | _ => ∅ end.

Lemma analysis_values_sanitized_witness :
  exists text,
    plainRow !! js "would_use" = Some (Analyze.sanitizeValue (rt := asciiRuntime) text)
    /\ trimmed (Analyze.sanitizeValue (rt := asciiRuntime) text)
    /\ plainSpaces (Analyze.sanitizeValue (rt := asciiRuntime) text).
Proof.
  apply (proj1 (proj2 (analysis_values_sanitized (rt := asciiRuntime)))
           demoConfig demoClient oneFallback (js "Extract the fields.")
           (persistedSession (js "p-002")) (analysisWorld plainLine)
           plainRow (snd plainAnalysis) (js "would_use")).
  - vm_compute. reflexivity.
  - apply list_elem_of_In. left. reflexivity.
  - vm_compute. discriminate.
Defined.

Lemma buildSummary_needs_fields_witness :
  In (js "would_use") (Analyze.keysOf demoConfig)
  /\ In (js "recommendation") (Analyze.keysOf demoConfig)
  <-> exists summary,
        Summary.buildSummary (rt := asciiRuntime) (analyzedRows plainLine) demoConfig
        = Ok summary.
Proof.
  apply (proj2 (buildSummary_needs_fields (rt := asciiRuntime)
                  (analyzedRows plainLine) demoConfig)).
  - vm_compute. discriminate.
  - replace (analyzedRows plainLine) with [hd ∅ (analyzedRows plainLine)]
      by (vm_compute; reflexivity).
    constructor; [| constructor]. split.
    + vm_compute. reflexivity.
    + apply (bool_decide_unpack (_ ∉ _)). vm_compute. exact I.
Defined.

Lemma topItems_most_frequent_witness :
  (occurrences (rt := asciiRuntime) (allItems surveyRows (js "needed_features"))
     (toLowerCase (JsRuntime := asciiRuntime) (js "export"))
   <= occurrences (rt := asciiRuntime) (allItems surveyRows (js "needed_features"))
        (toLowerCase (JsRuntime := asciiRuntime) (js "sync")))%nat.
Proof.
  apply (proj2 (proj2 (proj2 (topItems_most_frequent (rt := asciiRuntime) surveyRows
                                (js "needed_features") 1)))).
  - vm_compute. left. reflexivity.
  - vm_compute. tauto.
  - vm_compute. intuition discriminate.
Defined.

Lemma ProgressTracker_position_witness :
  Progress.current
    (foldl Progress.tick (Progress.newProgressTracker 3) [1; 1; 5]%Z)
  = Z.min (Z.max 0 3) (sumSteps [1; 1; 5]%Z).
Proof.
  apply (proj2 (proj2 (proj2 (ProgressTracker_position 3 [1; 1; 5]%Z)))).
  repeat constructor; lia.
Defined.

(** ** The analysis stage with its summary *)

Section StageWithSummary.

Import FallbackModels Analyze Summary.
Context {rt : JsRuntime}.

Variable config : IProjectConfig.
Variable buildAnalyticsPrompt : IProjectConfig -> IInterviewSession -> jsstring.
Variable csvPath summaryPath : jsstring.

Lemma summaryFields_apart :
  js "would_use" <> protoKey /\ js "recommendation" <> protoKey.
Proof. split; vm_compute; discriminate. Qed.

Lemma field_of_record (row : gmap jsstring jsstring) (k : jsstring) :
  dom row = fieldSet config ∪ {[personaIdKey; segmentIdKey]} ->
  k <> personaIdKey -> k <> segmentIdKey ->
  is_Some (row !! k) -> In k (keysOf config).
Proof.
  intros Hrow Hp Hs Hk. rewrite <- elem_of_dom, Hrow in Hk.
  apply elem_of_union in Hk as [Hk | Hk].
  - apply elem_of_fieldSet in Hk as [Hk _]. by apply list_elem_of_In.
  - apply elem_of_union in Hk as [Hk | Hk]; apply elem_of_singleton in Hk; contradiction.
Qed.

Lemma firstRow_summarizable (rows : list (gmap jsstring jsstring)) :
  rows <> [] ->
  Forall (fun row => dom row = fieldSet config ∪ {[personaIdKey; segmentIdKey]}) rows ->
  Forall summarizable rows ->
  In (js "would_use") (keysOf config) /\ In (js "recommendation") (keysOf config).
Proof.
  intros Hne Hdom Hrows. destruct rows as [| row rest]; [contradiction|].
  apply Forall_cons in Hdom as [Hrow _].
  apply Forall_cons in Hrows as [(Hw & Hr & _) _].
  split; (eapply field_of_record; [exact Hrow | | | eassumption]);
    vm_compute; discriminate.
Qed.

Lemma analyzeInterviews_rows_dom w rows w' :
  analyzeInterviews buildAnalyticsPrompt config w = (Returned rows, w') ->
  Forall (fun row : gmap jsstring jsstring =>
            dom row = fieldSet config ∪ {[personaIdKey; segmentIdKey]}) rows.
Proof.
  unfold analyzeInterviews. intros H.
  apply bind_Returned_inv in H as (client & w1 & _ & H).
  apply bind_Returned_inv in H as (sessions & w2 & _ & H).
  apply bind_Returned_inv in H as (u3 & w3 & _ & H).
  apply bind_Returned_inv in H as (fallback & w4 & _ & H).
  apply bind_Returned_inv in H as (u5 & w5 & _ & H).
  apply analyzeSessions_recordOf in H.
  induction H as [| session row sessions rows [Hdom _] _ IH]; constructor; assumption.
Qed.

(** The first row decides when a field is missing from the schema. *)
Lemma collectBuckets_missing_field (rows : list (gmap jsstring jsstring)) perSegment :
  rows <> [] ->
  Forall (fun row => dom row = fieldSet config ∪ {[personaIdKey; segmentIdKey]}) rows ->
  Forall (fun row => segmentKey row ∉ inheritedNames) rows ->
  ~ (In (js "would_use") (keysOf config) /\ In (js "recommendation") (keysOf config)) ->
  collectBuckets rows perSegment = Err trimOfUndefined.
Proof.
  intros Hne Hdom Hsegments Hschema. destruct rows as [| row rest]; [contradiction|].
  apply Forall_cons in Hdom as [Hrow _]. apply Forall_cons in Hsegments as [Hsegment _].
  cbn [collectBuckets]. unfold classifyField, inherited.
  destruct (row !! js "would_use") as [wouldUse |] eqn:Hw; [| reflexivity].
  rewrite bool_decide_eq_false_2 by exact Hsegment.
  destruct (row !! js "recommendation") as [recommended |] eqn:Hr; [| reflexivity].
  exfalso. apply Hschema.
  apply (firstRow_summarizable [row]); [discriminate | |].
  - constructor; [exact Hrow | constructor].
  - constructor; [| constructor]. split; [eexists; exact Hw|].
    split; [eexists; exact Hr | exact Hsegment].
Qed.

(** X26: the analysis stage writes its summary only for a schema that has
    the fields [would_use] and [recommendation].  When the analysis of
    at least one session has returned its records (for segments that
    are not called as something an object inherits), the stage returns
    them, with two more log lines and no further request, if the schema
    has both keys; if it lacks one, the stage throws the TypeError of a
    [trim] of [undefined] in their place, after every request of the
    analysis has been made. *)
Theorem analysis_stage_needs_summary_fields w rows w1 :
  analyzeInterviews buildAnalyticsPrompt config w = (Returned rows, w1) ->
  rows <> [] ->
  Forall (fun row => segmentKey row ∉ inheritedNames) rows ->
  (In (js "would_use") (keysOf config) /\ In (js "recommendation") (keysOf config) ->
   exists w',
     analyzeInterviewsWithSummary buildAnalyticsPrompt config csvPath summaryPath w
     = (Returned rows, w')
     /\ posted w' = posted w1 /\ slept w' = slept w1
     /\ logged w'
        = logged w1 ++ [ (info, js "Analysis complete. CSV saved to " ++ csvPath);
                         (info, js "Summary saved to " ++ summaryPath) ])
  /\ (~ (In (js "would_use") (keysOf config)
         /\ In (js "recommendation") (keysOf config)) ->
      analyzeInterviewsWithSummary buildAnalyticsPrompt config csvPath summaryPath w
      = (Thrown trimOfUndefined, w1)).
Proof.
  intros Hrows Hne Hsegments.
  pose proof (analyzeInterviews_rows_dom _ _ _ Hrows) as Hdom.
  unfold analyzeInterviewsWithSummary. rewrite (bind_Returned_step _ _ _ _ _ Hrows).
  unfold writeSummary, buildSummary. split.
  - intros [Hw Hr].
    assert (Hall : Forall summarizable rows).
    { clear Hrows Hne. induction rows as [| row rest IH]; constructor.
      - apply Forall_cons in Hdom as [Hrow _]. apply Forall_cons in Hsegments as [Hs _].
        destruct summaryFields_apart as [Hwp Hrp].
        split; [| split; [| exact Hs]]; apply elem_of_dom; rewrite Hrow;
          apply elem_of_union_l, elem_of_fieldSet; (split; [| assumption]);
          apply list_elem_of_In; assumption.
      - apply Forall_cons in Hdom as [_ Hdom]. apply Forall_cons in Hsegments as [_ Hs].
        exact (IH Hs Hdom). }
    apply (collectBuckets_returns rows ∅) in Hall as [collected ->].
    eexists. split; [reflexivity|]. unfold log. cbn [snd posted slept logged setLogged].
    split; [reflexivity|]. split; [reflexivity|].
    rewrite <- app_assoc. reflexivity.
  - intros Hschema.
    rewrite (collectBuckets_missing_field rows ∅ Hne Hdom Hsegments Hschema). reflexivity.
Qed.

(** X27: the stage with its summary returns nothing but the records of
    the analysis: when it returns, the analysis has returned the same
    records, each of them with the fields [would_use] and
    [recommendation] (so the schema has both keys when there is a
    record), and the summary took no request and no sleep; and when the
    analysis throws, the stage throws with it, in the same world. *)
Theorem analyzeInterviewsWithSummary_returns w :
  (forall rows w',
     analyzeInterviewsWithSummary buildAnalyticsPrompt config csvPath summaryPath w
     = (Returned rows, w') ->
     exists w1,
       analyzeInterviews buildAnalyticsPrompt config w = (Returned rows, w1)
       /\ Forall summarizable rows
       /\ (rows <> [] ->
           In (js "would_use") (keysOf config)
           /\ In (js "recommendation") (keysOf config))
       /\ posted w' = posted w1 /\ slept w' = slept w1)
  /\ (forall thrown w1,
        analyzeInterviews buildAnalyticsPrompt config w = (Thrown thrown, w1) ->
        analyzeInterviewsWithSummary buildAnalyticsPrompt config csvPath summaryPath w
        = (Thrown thrown, w1)).
Proof.
  split.
  - intros rows w' H. unfold analyzeInterviewsWithSummary in H.
    apply bind_Returned_inv in H as (found & w1 & Hrows & H).
    apply bind_Returned_inv in H as (summary & w2 & Hsummary & H).
    apply bind_Returned_inv in H as (u3 & w3 & Hfirst & H).
    apply bind_Returned_inv in H as (u4 & w4 & Hsecond & H).
    unfold ret in H. injection H as -> ->.
    unfold log in Hfirst, Hsecond. injection Hfirst as _ <-. injection Hsecond as _ <-.
    unfold writeSummary in Hsummary.
    destruct (buildSummary rows config) as [built | thrown] eqn:Hbuilt; [| discriminate].
    unfold ret in Hsummary. injection Hsummary as _ <-.
    assert (Hall : Forall summarizable rows).
    { apply (collectBuckets_returns rows ∅). unfold buildSummary in Hbuilt.
      destruct (collectBuckets rows ∅) as [collected |]; [| discriminate].
      eexists. reflexivity. }
    exists w1. split; [exact Hrows|]. split; [exact Hall|].
    split; [| split; reflexivity].
    intros Hne. apply (firstRow_summarizable rows Hne); [| exact Hall].
    apply (analyzeInterviews_rows_dom _ _ _ Hrows).
  - intros thrown w1 H. unfold analyzeInterviewsWithSummary.
    apply bind_Thrown_step. exact H.
Qed.

End StageWithSummary.

Lemma analysis_stage_needs_summary_fields_witness :
  Summary.analyzeInterviewsWithSummary (rt := asciiRuntime) fixedPrompt demoConfig
    (js "output/demo/analysis.csv") (js "output/demo/summary.json")
    (analysisWorld plainLine)
  = (Thrown Summary.trimOfUndefined, snd (analyzed plainLine)).
Proof.
  apply (proj2 (analysis_stage_needs_summary_fields (rt := asciiRuntime) demoConfig
                  fixedPrompt (js "output/demo/analysis.csv")
                  (js "output/demo/summary.json")
                  (analysisWorld plainLine) (analyzedRows plainLine)
                  (snd (analyzed plainLine))
                  ltac:(vm_compute; reflexivity)
                  ltac:(vm_compute; discriminate)
                  ltac:(replace (analyzedRows plainLine)
                          with [hd ∅ (analyzedRows plainLine)]
                          by (vm_compute; reflexivity);
                        constructor; [| constructor];
                        apply (bool_decide_unpack (_ ∉ _)); vm_compute; exact I))).
  vm_compute. intuition discriminate.
Defined.

(** The stage for a schema that has the two fields of the summary. *)
Definition surveyed : Completion (list (gmap jsstring jsstring)) * World :=
  Summary.analyzeInterviewsWithSummary (rt := asciiRuntime) fixedPrompt surveyConfig
    (js "output/demo/analysis.csv") (js "output/demo/summary.json")
    (analysisWorld plainLine).

Definition surveyedRows : list (gmap jsstring jsstring) :=
  match fst surveyed with Returned rows => rows | _ => [] end.

Lemma analyzeInterviewsWithSummary_returns_witness :
  exists w1,
    Analyze.analyzeInterviews (rt := asciiRuntime) fixedPrompt surveyConfig
      (analysisWorld plainLine)
    = (Returned surveyedRows, w1)
    /\ Forall summarizable surveyedRows
    /\ (surveyedRows <> [] ->
        In (js "would_use") (Analyze.keysOf surveyConfig)
        /\ In (js "recommendation") (Analyze.keysOf surveyConfig))
    /\ posted (snd surveyed) = posted w1 /\ slept (snd surveyed) = slept w1.
Proof.
  apply (proj1 (analyzeInterviewsWithSummary_returns (rt := asciiRuntime) surveyConfig
                  fixedPrompt (js "output/demo/analysis.csv")
                  (js "output/demo/summary.json") (analysisWorld plainLine))
           surveyedRows (snd surveyed)).
  vm_compute. reflexivity.
Defined.

Example surveyed_one_record :
  length surveyedRows = 1%nat
  /\ map (fun row : gmap jsstring jsstring => row !! js "would_use") surveyedRows
     = [Some (js "yes")].
Proof. vm_compute. split; reflexivity. Qed.
